(* ===== verification/_CoqProject ===== *)
-Q . S2P
Prelude.v
Dbuf.v
Messages.v
Codec.v
CodecSpec.v
CodecSafety.v
CodecIter.v
Time.v
Errors.v
Effects.v
Fragment.v
Reliable.v
ReliableSpec.v
ReliableLocal.v
Stats.v
Compress.v
Database.v
Padding.v
Transport.v
Udp.v
UdpSend.v
UdpTimer.v
UdpHandshake.v
UdpRecv.v
UdpSafety.v
UdpCalls.v
Stream.v
StreamSpec.v
StreamSafe.v
StreamOrder.v
Ws.v
StreamCalls.v
Url.v
Address.v
Socket.v
SocketSpec.v
SocketSafe.v
Sorting.v
Cache.v
Resolver.v
ResolverSpec.v
ResolverEx.v
Pinger.v
PingerSpec.v
PingerEx.v
ConnError.v
Connection.v
ConnectionInv.v
ConnectionLive.v
ConnectionSafe.v
ConnectionOrder.v
ConnectionFifo.v
ConnectionEx.v
Buffers.v
QuicStream.v
QuicStreamSpec.v
QuicConn.v
QuicConnSpec.v
QuicConnSend.v
QuicConnOpen.v
QuicConnEx.v
QuicSetup.v
QuicTransport.v
QuicTransportSpec.v
QuicOrder.v
QuicSocket.v
Client.v
ClientSafe.v
ClientEx.v
