(* ===== verification/Prelude.v ===== *)
(** * qunet-cpp: a verification development

    qunet is the client side of a game network protocol.  An application makes a
    [Connection] to a server; the connection resolves the host, pings it, tries
    addresses and transports until a [Socket] is connected, sends and receives
    messages, and reconnects when the socket is lost.  A message travels over
    UDP (acknowledged, ordered, cut in fragments and put together by qunet), over
    TCP or QUIC (after its length), or over a WebSocket.

    ** The parts, and the files that model them

    Paths are below [src/] of the repository.

    - Shared: [Prelude] (results and faults, integers of a width, bytes),
      [Effects] (methods as functions of a state to a result and a state, triples,
      what a method keeps), [Errors], and the interfaces of packages that the
      build fetches: [Dbuf] (byte readers and writers, the circular buffer),
      [Time] (instants and durations), [Address] (IP and socket addresses),
      [Cache] (maps whose entries expire); [Sorting].
    - The wire format: [Messages] ([include/qunet/protocol],
      [socket/message/messages.hpp]: constants, headers, one record per message)
      and [Codec] ([src/socket/message/QunetMessage.cpp]: headers, the length
      table, the decoders, the iterator over a datagram).
    - The stores of UDP: [Fragment] ([udp/FragmentStore]) and [Reliable]
      ([udp/ReliableStore]); [Padding] ([udp/Padding.hpp]).
    - What transports share: [Stats] ([util/StatTracker]), [Compress]
      ([src/compression], and the compression of [Socket.cpp]), [Database]
      ([database/QunetDatabase], [util/hash.cpp]), [Transport]
      ([transport/BaseTransport]).
    - The transports: [Udp]; [Stream] ([transport/Common.hpp] over any type of
      stream, and [TcpTransport]); [Ws]; [QuicStream], [QuicConn], [QuicSetup] (the
      creation of a connection, and its TLS session) and [QuicTransport]
      ([src/socket/transport/quic] and [QuicTransport]), with [Buffers]
      ([util/SlidingBuffer.hpp], [util/TwoSpanSource.hpp]).
    - Above them: [Url] ([UrlParser.hpp]), [Socket] ([socket/Socket]; the virtual
      methods of a transport are a class whose instances are the four
      transports, QUIC in [QuicSocket]), [Resolver] ([dns]), [Pinger]
      ([Pinger.hpp], [Pinger.cpp]), [ConnError] and [Connection]
      ([Connection.hpp], [Connection.cpp]).
    - All of it: [Client], a connection over the sockets, the resolver and the
      pinger of the other files, as one program (in a build without QUIC).

    A record stands for a class, with its members in order; a definition for a
    method, named after it ([BaseTransport::sendMessage] is
    [BaseTransport_sendMessage]), in the order of its statements and with its
    early returns.  A method that cannot change its object is a function; one
    that can is of type [ST S A], and its state after an error is what the code
    leaves ([ARC_CO_UNWRAP] keeps what was changed before).  Integers are [Z] with
    their wrap-around written out ([u16], [u32], [u64]); floats are the IEEE
    floats of the Standard Library.  A failed assertion, an unwrapped error, an
    index or a slice out of range, the use of a null pointer are [Fault]s, so that a
    theorem that a call returns [Ok] or [Err] says that it does not throw.

    ** Libraries, the network and time

    Code that is not in the repository is a class of operations, with a second
    class of the laws that the source relies on, and an instance of both that
    the examples and witnesses run: [Dbuf], [Time], [Address], zstd and lz4
    ([Compress]), the sockets (scripts of what they will do: [Effects.Net],
    [Stream.ByteStream], [Ws.WsClient]), ngtcp2 ([QuicConn.Ngtcp2] with
    [QuicConnSpec.NgLaws]: it takes the bytes of a stream once and in order, and
    reports acknowledgements of what it took, in order), c-ares
    ([Resolver.DnsLib]), blake3 and the file system ([Database]), and the TLS
    library.  What a connection uses, of the libraries and of the socket, the
    resolver and the pinger, is an interface too ([Connection.ConnectionEnv], with
    the laws [ConnectionInv.ConnectionLaws]), so that its theorems do not depend on
    the other components; [Client.client_env] is its instance with these, and
    [ClientSafe.client_laws] proves the laws of it.  A reading of the clock is an
    argument.

    Coroutines are run to their next wait.  What other tasks do at a wait is a
    script or an argument: the worker of a [Connection] lets the application do
    anything to the shared object at each wait ([ConnectionInv] has what it may
    do), a call on a QUIC connection that waits lets the worker take its turns.
    Of arc, the runtime of the coroutines, the model has what the code relies on:
    a channel of a given capacity keeps what is sent in its order and refuses more
    ([Connection.trySend]), a [select] drops the call that did not end first, a
    notification wakes those who wait for it.

    ** The theorems

    - Codec: what is encoded is decoded ([CodecSpec]); any input is decoded or
      refused without a throw, within its bounds, and the length table agrees
      with the decoders ([CodecSafety]); the iterator yields each message of a
      datagram and stops ([CodecIter]).
    - UDP: fragments in any order make the message ([Fragment], [UdpSend]);
      reliable messages come in order and once ([ReliableSpec] for the store,
      [UdpRecv] for the transport); acknowledgements and retransmissions
      ([ReliableLocal], [UdpTimer]); the handshake ([UdpHandshake]); whatever
      arrives, nothing throws ([UdpSafety]).
    - Streams: messages are received as they were sent ([StreamSpec], [Ws]);
      receiving over any stream that keeps the promise [StreamSafe.StreamingLaws],
      and sending over one that keeps [StreamCalls.StreamingSends], never throws
      nor loops, and TCP and QUIC keep them ([QuicTransportSpec], [QuicSocket]).
    - QUIC: a stream delivers its bytes ([QuicStreamSpec]); the streams stay in
      step with the library and take what is sent in order, whatever the worker
      does ([QuicConnSpec], [QuicConnSend]); connecting ends, whatever the system
      and the TLS library answer, and what was made for TLS is freed before
      ngtcp2's connection; but when ngtcp2 makes none, the worker gives it null
      ([QuicConnOpen], [QuicSetup]).
      From one end to the other, messages come in the order they were sent:
      [StreamOrder] for any stream that gives its bytes in order, [QuicOrder] for
      a QUIC connection whose library does ([QuicOrder.NgDelivers]).
    - Compression: what is compressed is decompressed ([Transport]).
    - Sockets: the two ends of a connected socket agree, and agree again after a
      reconnection; an attempt that ends with an error leaves nothing open
      ([SocketSpec]).  Connecting throws only in the decoder of a database, or when
      its time is over between the two checks of [createSocket], and no later call
      of a socket throws on what it may be given, over any of the four transports:
      [UdpCalls] and [StreamCalls] for the transports, [SocketSafe] for the socket
      over anything that keeps the promise [SocketSafe.TransportSafe], [QuicSocket]
      for the four together.  URLs ([Url]), database files ([Database]).
    - The resolver: its records are not empty and sorted, a callback is called
      once, an answer is kept for five minutes whatever is asked meanwhile, while the
      cache has room ([ResolverSpec]).  The pinger:
      answers, timeouts, and, with the resolver, that nothing is thrown and each
      callback is accounted for ([PingerSpec]).  [ResolverEx] and [PingerEx] have
      runs.
    - Connections: the worker never throws nor uses what is not there, the
      states follow their graph ([ConnectionInv], [ConnectionSafe]); reconnecting
      ends ([ConnectionLive]); candidates are tried in their order, and the
      results of pings are compared by a strict weak order ([ConnectionOrder]); the messages that the application sends go to the
      socket in the order in which they were accepted, each once, and are dropped
      only with the connection ([ConnectionFifo]).  [ConnectionEx] has runs that
      show what goes wrong.
    - The program as a whole does not throw, in whatever order the application, the
      network and the servers do what they may: [ConnectionInv.user_ok] and
      [ClientSafe.surroundings_ok] leave out what makes the code throw, of which the
      examples have runs ([ClientSafe]); [ClientEx] runs it from the name of a
      server over the resolver, the pinger, a refused and an accepted attempt, a
      loss and a reconnection to the close.

    ** Fuel

    A loop that is not structural takes fuel, and runs out of it with the fault
    [OutOfFuel], which the theorems exclude.  The fuel is what bounds the loop:
    the bytes of a datagram for its iterator and for its fragments, the messages
    that are stored out of order for their restoration, those that were not
    acknowledged for a turn of the timer, twice the bytes of a stream and those of
    the buffer for the loop that receives, the length of the data for [sendAll],
    the turns of the script for a wait, 31 for the doubling of a buffer below
    2 GiB.

    ** Not modelled

    The initialisation of c-ares and its workaround for Wine; logging, platform
    detection, the assertion macros and [shutdown], which only call libraries; the
    tests, the tester and the build.  [Client] is the program of a build without
    QUIC: that a QUIC connection does not throw is shown for as long as a stream
    has room below 2^62 bytes ([QuicSocket]), which a connection of any length does
    not promise.  Data races between tasks of different
    threads are outside of the model: a task runs alone between two waits. *)
From stdpp Require Export base tactics list numbers option fin_maps gmap strings.
From Stdlib Require Export ZArith Lia.

Set Default Proof Using "Type".
#[export] Set Default Goal Selector "!".
Open Scope Z_scope.

(** ** Results

    The source returns [geode::Result<T, E>] and leaves a function early on an
    error ([GEODE_UNWRAP], [ARC_UNWRAP]).  A failed [QN_ASSERT] throws
    ([util/assert.cpp]), an [unwrap()] of an error throws, and an index out of
    range and the use of a null pointer or an empty optional are undefined
    behaviour: these are the [Fault]s below, so that a theorem that says a function
    returns [Ok] or [Err] also says that it neither throws nor leaves the bounds of
    an array nor uses what is not there.  A model that follows a
    call through a script of inputs ends in [WouldBlock] when the call waits for
    an input that the script does not have. *)
Inductive fault :=
  | AssertionFailed
  | UnwrapFailed
  | OutOfBounds
  | NullDereference
  | AllocationFailed
  | OutOfFuel
  | WouldBlock.

Inductive result (E A : Type) :=
  | Ok (a : A)
  | Err (e : E)
  | Fault (f : fault).
Arguments Ok {_ _} _.
Arguments Err {_ _} _.
Arguments Fault {_ _} _.

#[export] Instance fault_eq_dec : EqDecision fault.
Proof. solve_decision. Defined.
#[export] Instance result_eq_dec {E A} `{EqDecision E, EqDecision A} : EqDecision (result E A).
Proof. intros m n. unfold Decision. decide equality; apply (decide (_ = _)). Defined.

#[export] Instance result_ret {E} : MRet (result E) := fun A a => Ok a.
#[export] Instance result_bind {E} : MBind (result E) := fun A B k m =>
  match m with Ok a => k a | Err e => Err e | Fault f => Fault f end.
#[export] Instance result_fmap {E} : FMap (result E) := fun A B g m =>
  match m with Ok a => Ok (g a) | Err e => Err e | Fault f => Fault f end.

(** [mapErr] of the source. *)
Definition map_err {E F A} (g : E -> F) (m : result E A) : result F A :=
  match m with Ok a => Ok a | Err e => Err (g e) | Fault f => Fault f end.

(** [unwrap()]: throws on an error. *)
Definition unwrap {E F A} (m : result E A) : result F A :=
  match m with Ok a => Ok a | Err _ => Fault UnwrapFailed | Fault f => Fault f end.

(** [QN_ASSERT]. *)
Definition qn_assert {E} (b : bool) : result E unit :=
  if b then Ok tt else Fault AssertionFailed.

Definition is_ok {E A} (m : result E A) : bool :=
  match m with Ok _ => true | _ => false end.
Definition is_fault {E A} (m : result E A) : bool :=
  match m with Fault _ => true | _ => false end.

Definition error_of {E A} (m : result E A) : option E :=
  match m with Err e => Some e | _ => None end.

Lemma error_of_some {E A} (m : result E A) e : error_of m = Some e -> m = Err e.
Proof. by destruct m as [|?|]; intros [= ->]. Qed.

Lemma bind_ok {E A B} (m : result E A) (k : A -> result E B) b :
  m ≫= k = Ok b <-> exists a, m = Ok a /\ k a = Ok b.
Proof.
  destruct m; cbn; split; try done; [by eauto|by intros (? & [= ->] & ?)|by intros (? & ? & ?)..].
Qed.

Lemma bind_not_fault {E A B} (m : result E A) (k : A -> result E B) :
  is_fault m = false -> (forall a, m = Ok a -> is_fault (k a) = false) ->
  is_fault (m ≫= k) = false.
Proof. destruct m; cbn; auto. Qed.

Lemma map_err_ok {E F A} (g : E -> F) (m : result E A) a :
  map_err g m = Ok a <-> m = Ok a.
Proof. destruct m; cbn; split; congruence. Qed.

Lemma map_err_fault {E F A} (g : E -> F) (m : result E A) :
  is_fault (map_err g m) = is_fault m.
Proof. by destruct m. Qed.

(** ** Machine integers

    A w-bit unsigned integer is a [Z] between 0 and [2^w - 1]; a conversion to
    the type is [u w].  [size_t] and [uint64_t] are 64 bits wide. *)
Definition u (w z : Z) : Z := z mod 2 ^ w.
Abbreviation u8 := (u 8).
Abbreviation u16 := (u 16).
Abbreviation u32 := (u 32).
Abbreviation u64 := (u 64).

(** [lia] with division and modulo by constants. *)
Ltac dlia := Z.to_euclidean_division_equations; lia.

Definition u16_ok (z : Z) : Prop := 0 <= z < 2 ^ 16.
Definition u32_ok (z : Z) : Prop := 0 <= z < 2 ^ 32.

(** Conversion to [int64_t]. *)
Definition i64 (z : Z) : Z := (z + 2 ^ 63) mod 2 ^ 64 - 2 ^ 63.

Definition SIZE_MAX : Z := 2 ^ 64 - 1.

Lemma u_range w z : 0 <= w -> 0 <= u w z < 2 ^ w.
Proof. intros. apply Z.mod_pos_bound. lia. Qed.

Lemma u_small w z : 0 <= z < 2 ^ w -> u w z = z.
Proof. apply Z.mod_small. Qed.

Lemma u_idemp w z : u w (u w z) = u w z.
Proof. apply Zmod_mod. Qed.

(** ** Bytes, and little-endian integers *)
Definition byte_ok (b : Z) : Prop := 0 <= b < 256.
Abbreviation bytes_ok := (Forall byte_ok).

Abbreviation len l := (Z.of_nat (length l)).

(** The [n] low bytes of [v], least significant first. *)
Fixpoint le_split (n : nat) (v : Z) : list Z :=
  match n with
  | O => []
  | S n => v mod 256 :: le_split n (v / 256)
  end.

Fixpoint le_combine (bs : list Z) : Z :=
  match bs with
  | [] => 0
  | b :: bs => b + 256 * le_combine bs
  end.

Lemma length_le_split n v : length (le_split n v) = n.
Proof. revert v. induction n; intros; cbn; auto. Qed.

Lemma le_split_bytes n v : bytes_ok (le_split n v).
Proof.
  revert v. induction n; intros; cbn; constructor; auto.
  unfold byte_ok. apply Z.mod_pos_bound. lia.
Qed.

Lemma le_combine_split n v : le_combine (le_split n v) = v mod 2 ^ (8 * Z.of_nat n).
Proof.
  revert v. induction n as [|n IH]; intros v; cbn [le_split le_combine].
  { by rewrite Z.mod_1_r. }
  rewrite IH. replace (8 * Z.of_nat (S n)) with (8 + 8 * Z.of_nat n) by lia.
  rewrite Z.pow_add_r by lia. change (2 ^ 8) with 256.
  rewrite Z.rem_mul_r by lia. lia.
Qed.

Lemma le_combine_range bs : bytes_ok bs -> 0 <= le_combine bs < 2 ^ (8 * len bs).
Proof.
  induction 1 as [|b bs Hb Hbs IH]; cbn [le_combine length]; [lia|].
  replace (8 * Z.of_nat (S (length bs))) with (8 + 8 * len bs) by lia.
  rewrite Z.pow_add_r by lia. unfold byte_ok in Hb. lia.
Qed.

Lemma le_split_combine bs : bytes_ok bs -> le_split (length bs) (le_combine bs) = bs.
Proof.
  induction 1 as [|b bs Hb Hbs IH]; [done|]. unfold byte_ok in Hb.
  cbn [length le_split le_combine]. f_equal.
  - dlia.
  - by replace ((b + 256 * le_combine bs) / 256) with (le_combine bs) by dlia.
Qed.

(** A one-byte constant of the source is written as one byte. *)
Lemma le_split_1 v : 0 <= v < 256 -> le_split 1 v = [v].
Proof. intros. cbn. by rewrite Z.mod_small. Qed.

#[global] Arguments le_split : simpl never.
#[global] Arguments le_combine : simpl never.

(** ** Single bits *)
Lemma land_pow2 z k : 0 <= k -> (Z.land z (2 ^ k) =? 0) = negb (Z.testbit z k).
Proof.
  intros Hk. destruct (Z.testbit z k) eqn:E; cbn.
  - apply Z.eqb_neq. intros H0. apply (f_equal (fun x => Z.testbit x k)) in H0.
    rewrite Z.land_spec, E, Z.pow2_bits_true, Z.bits_0 in H0 by done. done.
  - apply Z.eqb_eq, Z.bits_inj'. intros i Hi. rewrite Z.land_spec, Z.bits_0, Z.pow2_bits_eqb by lia.
    destruct (Z.eqb_spec k i) as [<-|]; [by rewrite E|apply andb_false_r].
Qed.

Lemma lor_pow2 n k : 0 <= n < 2 ^ k -> Z.lor n (2 ^ k) = n + 2 ^ k.
Proof.
  intros Hn. assert (0 <= k) by (destruct (Z.neg_nonneg_cases k); [rewrite Z.pow_neg_r in Hn; lia|lia]).
  assert (Z.land n (2 ^ k) = 0) as H0.
  { apply Z.eqb_eq. rewrite land_pow2 by done.
    rewrite <- (Z.mod_small n (2 ^ k)), Z.mod_pow2_bits_high by lia. done. }
  rewrite Z.add_nocarry_lxor by done. symmetry. by apply Z.lxor_lor.
Qed.

(** A flag stored above [k] low bits. *)
Lemma flag_split n k (b : bool) :
  0 <= n < 2 ^ k ->
  let z := Z.lor n (if b then 2 ^ k else 0) in
  0 <= z < 2 ^ (k + 1) /\ Z.land z (Z.ones k) = n /\ negb (Z.land z (2 ^ k) =? 0) = b.
Proof.
  intros Hn z. assert (0 <= k) by (destruct (Z.neg_nonneg_cases k); [rewrite Z.pow_neg_r in Hn; lia|lia]).
  assert (Hz : z = n + Z.b2z b * 2 ^ k).
  { unfold z. destruct b; cbn; [rewrite lor_pow2 by done; lia|by rewrite Z.lor_0_r, Z.add_0_r]. }
  rewrite Z.pow_add_r, Z.land_ones, land_pow2, negb_involutive by lia.
  assert (Hb : 0 <= Z.b2z b <= 1) by (destruct b; cbn; lia).
  split; [nia|]. rewrite Hz. split.
  - rewrite Z.mod_add by lia. by apply Z.mod_small.
  - rewrite Z.testbit_eqb by done. rewrite Z.div_add, Z.div_small, Z.add_0_l by lia. by destruct b.
Qed.

(** ** Lists indexed by machine integers *)
Definition ztake {A} (n : Z) (l : list A) : list A := take (Z.to_nat n) l.
Definition zdrop {A} (n : Z) (l : list A) : list A := drop (Z.to_nat n) l.

Lemma len_ztake {A} n (l : list A) : 0 <= n <= len l -> len (ztake n l) = n.
Proof. intros. unfold ztake. rewrite length_take. lia. Qed.

Lemma len_zdrop {A} n (l : list A) : 0 <= n <= len l -> len (zdrop n l) = len l - n.
Proof. intros. unfold zdrop. rewrite length_drop. lia. Qed.

(** The same lengths without side conditions. *)
Lemma len_ztake_max {A} n (l : list A) : len (ztake n l) = Z.min (Z.max 0 n) (len l).
Proof. unfold ztake. rewrite length_take. lia. Qed.

Lemma len_zdrop_max {A} n (l : list A) : len (zdrop n l) = Z.max 0 (len l - Z.max 0 n).
Proof. unfold zdrop. rewrite length_drop. lia. Qed.

Lemma ztake_app {A} (l k : list A) : ztake (len l) (l ++ k) = l.
Proof. unfold ztake. rewrite Nat2Z.id. apply take_app_length. Qed.

Lemma ztake_ge {A} n (l : list A) : len l <= n -> ztake n l = l.
Proof. intros. apply take_ge. lia. Qed.

Lemma zdrop_ge {A} n (l : list A) : len l <= n -> zdrop n l = [].
Proof. intros. apply drop_ge. lia. Qed.

Lemma ztake_0 {A} n (l : list A) : n <= 0 -> ztake n l = [].
Proof. intros. unfold ztake. by replace (Z.to_nat n) with 0%nat by lia. Qed.

Lemma zdrop_0 {A} n (l : list A) : n <= 0 -> zdrop n l = l.
Proof. intros. unfold zdrop. by replace (Z.to_nat n) with 0%nat by lia. Qed.

Lemma zdrop_app {A} (l k : list A) : zdrop (len l) (l ++ k) = k.
Proof. unfold zdrop. rewrite Nat2Z.id. apply drop_app_length. Qed.

Lemma zdrop_zdrop {A} a b (l : list A) :
  0 <= a -> 0 <= b -> zdrop a (zdrop b l) = zdrop (b + a) l.
Proof. intros. unfold zdrop. rewrite drop_drop. f_equal. lia. Qed.

Lemma ztake_zdrop {A} n (l : list A) : ztake n l ++ zdrop n l = l.
Proof. apply take_drop. Qed.

(** Reading [w] items at [k] inside the first [n] items. *)
Lemma ztake_zdrop_ztake {A} w k n (l : list A) :
  0 <= w -> 0 <= k -> k + w <= n -> ztake w (zdrop k (ztake n l)) = ztake w (zdrop k l).
Proof.
  intros. unfold ztake, zdrop. rewrite skipn_firstn_comm, take_take. f_equal. lia.
Qed.

Lemma Forall_ztake {A} (P : A -> Prop) n l : Forall P l -> Forall P (ztake n l).
Proof. apply Forall_take. Qed.
Lemma Forall_zdrop {A} (P : A -> Prop) n l : Forall P l -> Forall P (zdrop n l).
Proof. apply Forall_drop. Qed.

(** ** Automation

    [qn] holds the side conditions that the components share; [step_res] opens the innermost bind or [match] of a
    hypothesis about a monadic run. *)
Create HintDb qn.
#[export] Hint Resolve le_split_bytes Forall_ztake Forall_zdrop : qn.
Create Rewrite HintDb qn_len.
#[export] Hint Rewrite @length_le_split @length_app @length_cons @len_ztake_max @len_zdrop_max : qn_len.

(** Arithmetic goals about the lengths of slices. *)
Ltac len_lia := unfold id in *; autorewrite with qn_len in *; lia.

Ltac step_res :=
  match goal with
  | H : mbind _ _ = Ok _ |- _ => apply bind_ok in H as (? & ? & H)
  | H : context [match ?x with _ => _ end] |- _ =>
      lazymatch x with context [match _ with _ => _ end] => fail | _ => destruct x eqn:? end
  end; simplify_eq/=.

(** ** Lists *)
Lemma filter_all {A} (P : A -> Prop) `{forall x, Decision (P x)} (l : list A) :
  (forall x, x ∈ l -> P x) -> filter P l = l.
Proof.
  induction l as [|x l IH]; intros Hl; [done|].
  rewrite filter_cons_True by (apply Hl; by left). rewrite IH; [done|]. intros y Hy. apply Hl. by right.
Qed.
