(* ===== verification/Dbuf.v ===== *)
(** * The dbuf buffers, as interfaces

    [dbuf::ByteReader], [dbuf::ByteWriter] and [dbuf::CircularByteBuffer] are
    classes of a package that the build fetches; the source only calls them.
    Each is a class of operations, and a second class of the laws the source
    relies on, stated through a view of the object: the bytes a reader has not
    consumed, the bytes a writer holds, the bytes a circular buffer stores.
    The tests of the repository fix the byte order (little-endian).  The last
    section gives list implementations, used to run the model on inputs. *)
From S2P Require Import Prelude.

(** The error of a failed read is a string the source never inspects. *)
Inductive read_error := ReadError.

(** Reading [w] bytes of an input seen through [unread]: fails when fewer
    remain, otherwise moves forward. *)
Definition reads {R A} (unread : R -> list Z) (advance : Z -> R -> R) (w : Z)
    (f : list Z -> A) (r : R) : result read_error (A * R) :=
  if w <=? len (unread r) then Ok (f (ztake w (unread r)), advance w r) else Err ReadError.

(** The two's complement value of four little-endian bytes. *)
Definition i32_of (bs : list Z) : Z := (le_combine bs + 2 ^ 31) mod 2 ^ 32 - 2 ^ 31.

Class ByteReader := {
  reader : Type;
  reader_of : list Z -> reader;
  readU8 : reader -> result read_error (Z * reader);
  readU16 : reader -> result read_error (Z * reader);
  readU32 : reader -> result read_error (Z * reader);
  readU64 : reader -> result read_error (Z * reader);
  readI32 : reader -> result read_error (Z * reader);
  readBool : reader -> result read_error (bool * reader);
  readBytes : Z -> reader -> result read_error (list Z * reader);
  readString : reader -> result read_error (list Z * reader);
  readToEnd : reader -> list Z;
  skip : Z -> reader -> result read_error (unit * reader);
  remainingSize : reader -> Z;
}.

Class ByteReaderLaws (R : ByteReader) := {
  unread : reader -> list Z;
  advance : Z -> reader -> reader;
  unread_of l : unread (reader_of l) = l;
  unread_advance n r : unread (advance n r) = zdrop n (unread r);
  readU8_law r : readU8 r = reads unread advance 1 le_combine r;
  readU16_law r : readU16 r = reads unread advance 2 le_combine r;
  readU32_law r : readU32 r = reads unread advance 4 le_combine r;
  readU64_law r : readU64 r = reads unread advance 8 le_combine r;
  readI32_law r : readI32 r = reads unread advance 4 i32_of r;
  readBytes_law n r : readBytes n r = reads unread advance n id r;
  skip_law n r : skip n r = reads unread advance n (fun _ => tt) r;
  readToEnd_law r : readToEnd r = unread r;
  remainingSize_law r : remainingSize r = len (unread r);
  (** A boolean is one byte; nothing is said of a byte that is not 0 or 1,
      except that a success has consumed it and that there is no throw. *)
  readBool_0 r tl : unread r = 0 :: tl -> readBool r = Ok (false, advance 1 r);
  readBool_1 r tl : unread r = 1 :: tl -> readBool r = Ok (true, advance 1 r);
  readBool_inv r b r' : readBool r = Ok (b, r') -> r' = advance 1 r /\ 1 <= len (unread r);
  readBool_local r r' b tl tl' : unread r = b :: tl -> unread r' = b :: tl' ->
    (fst <$> readBool r) = (fst <$> readBool r');
  readBool_total r : is_fault (readBool r) = false;
  (** A string is its 16-bit length and its bytes. *)
  readString_law r : readString r =
    (readU16 r ≫= fun '(n, r) => readBytes n r);
}.

Class ByteWriter := {
  writer : Type;
  new_writer : writer;
  written : writer -> list Z;
  position : writer -> Z;
  writeU8 : Z -> writer -> writer;
  writeU16 : Z -> writer -> writer;
  writeU32 : Z -> writer -> writer;
  writeU64 : Z -> writer -> writer;
  writeBytes : list Z -> writer -> writer;
  (** [setPosition(p)] *)
  setPosition : Z -> writer -> writer;
  (** [performAt(p, writeU8 v)] and [performAt(p, writeU32 v)] *)
  performAtU8 : Z -> Z -> writer -> result read_error writer;
  performAtU32 : Z -> Z -> writer -> result read_error writer;
}.

(** Overwriting the bytes at [p]. *)
Definition patch (p : Z) (bs l : list Z) : list Z :=
  ztake p l ++ bs ++ zdrop (p + len bs) l.

(** Every writer of the source has its cursor at its end (it starts empty,
    [performAt] restores the cursor, and the only [setPosition] moves to the
    end), so the laws are those of such writers. *)
Class ByteWriterLaws (W : ByteWriter) := {
  written_new : written new_writer = [];
  position_law w : position w = len (written w);
  writeU8_law v w : written (writeU8 v w) = written w ++ le_split 1 v;
  writeU16_law v w : written (writeU16 v w) = written w ++ le_split 2 v;
  writeU32_law v w : written (writeU32 v w) = written w ++ le_split 4 v;
  writeU64_law v w : written (writeU64 v w) = written w ++ le_split 8 v;
  writeBytes_law bs w : written (writeBytes bs w) = written w ++ bs;
  setPosition_end w : written (setPosition (len (written w)) w) = written w;
  performAtU8_law p v w : 0 <= p -> p + 1 <= len (written w) ->
    exists w', performAtU8 p v w = Ok w' /\ written w' = patch p (le_split 1 v) (written w);
  performAtU32_law p v w : 0 <= p -> p + 4 <= len (written w) ->
    exists w', performAtU32 p v w = Ok w' /\ written w' = patch p (le_split 4 v) (written w);
}.

(** [dbuf::CircularByteBuffer]: a queue of bytes over a ring; [peek] returns
    the two contiguous parts of the first [n] bytes. *)
Class CircularBuffer := {
  cbuf : Type;
  new_cbuf : Z -> cbuf;
  cb_size : cbuf -> Z;
  cb_capacity : cbuf -> Z;
  cb_writeWindow : cbuf -> Z;
  cb_reserve : Z -> cbuf -> cbuf;
  cb_peek : Z -> cbuf -> list Z * list Z;
  cb_skip : Z -> cbuf -> cbuf;
  cb_write : list Z -> cbuf -> cbuf;
  (** [WrappedRead::skip], on what [peek] found *)
  cb_wskip : Z -> list Z * list Z -> list Z * list Z;
}.

Class CircularBufferLaws (C : CircularBuffer) := {
  contents : cbuf -> list Z;
  contents_new n : contents (new_cbuf n) = [];
  cb_size_law b : cb_size b = len (contents b);
  cb_reserve_law n b : contents (cb_reserve n b) = contents b;
  cb_peek_law n b : 0 <= n <= len (contents b) ->
    (cb_peek n b).1 ++ (cb_peek n b).2 = ztake n (contents b);
  cb_peek_first n b : 0 < n <= len (contents b) -> (cb_peek n b).1 <> [];
  cb_skip_law n b : 0 <= n <= len (contents b) -> contents (cb_skip n b) = zdrop n (contents b);
  cb_write_law bs b : contents (cb_write bs b) = contents b ++ bs;
  cb_window_law n b : n <= cb_writeWindow (cb_reserve n b);
  cb_wskip_law n w : 0 <= n -> (cb_wskip n w).1 ++ (cb_wskip n w).2 = zdrop n (w.1 ++ w.2);
  (** the buffer grows only when what is written does not fit *)
  cb_capacity_new n : 0 <= n -> n <= cb_capacity (new_cbuf n);
  cb_capacity_skip n b : cb_capacity (cb_skip n b) = cb_capacity b;
  cb_capacity_write bs b : len (contents b) + len bs <= cb_capacity (cb_write bs b);
  cb_capacity_keep bs b : len (contents b) + len bs <= cb_capacity b -> cb_capacity (cb_write bs b) = cb_capacity b;
}.

(** ** Consequences of the reader laws *)
Section Reader.
Context `{RL : ByteReaderLaws}.

(** [parses d bs a]: on any reader whose next bytes are [bs], [d] returns
    [a] and has consumed exactly [bs].  Encoders and decoders are related
    by it, one field at a time. *)
Definition parses {E A} (d : reader -> result E (A * reader)) (bs : list Z) (a : A) : Prop :=
  forall r tl, unread r = bs ++ tl -> exists r', d r = Ok (a, r') /\ unread r' = tl.

Lemma parses_ret {E A} (a : A) : parses (fun r => @Ok E _ (a, r)) [] a.
Proof. intros r tl Hr. eauto. Qed.

Lemma parses_ext {E A} (d d' : reader -> result E (A * reader)) bs a :
  (forall r, d r = d' r) -> parses d' bs a -> parses d bs a.
Proof. intros H Hd r tl Hr. rewrite H. by apply Hd. Qed.

Lemma parses_bind {E A B} (d : reader -> result E (A * reader)) (k : A -> reader -> result E (B * reader))
    bs bs' a b :
  parses d bs a -> parses (k a) bs' b ->
  parses (fun r => d r ≫= fun '(x, r) => k x r) (bs ++ bs') b.
Proof.
  intros Hd Hk r tl Hr. rewrite <- app_assoc in Hr.
  destruct (Hd _ _ Hr) as (r1 & Hd1 & Hr1). cbv beta. rewrite Hd1. cbn. eauto.
Qed.

Lemma parses_map_err {E F A} (g : E -> F) (d : reader -> result E (A * reader)) bs a :
  parses d bs a -> parses (fun r => map_err g (d r)) bs a.
Proof.
  intros Hd r tl Hr. destruct (Hd _ _ Hr) as (r' & Hd' & ?). exists r'. by rewrite Hd'.
Qed.

Lemma parses_reads {A} w (f : list Z -> A) bs a d :
  (forall r, d r = reads unread advance w f r) -> len bs = w -> f bs = a -> parses d bs a.
Proof.
  intros Hd <- <- r tl Hr. exists (advance (len bs) r).
  rewrite Hd, unread_advance, Hr, zdrop_app. split; [|done].
  unfold reads. rewrite Hr, ztake_app, length_app, Nat2Z.inj_add.
  destruct (Z.leb_spec (len bs) (len bs + len tl)); [done|lia].
Qed.

Lemma parses_uint n v d :
  (forall r, d r = reads unread advance (Z.of_nat n) le_combine r) ->
  0 <= v < 2 ^ (8 * Z.of_nat n) -> parses d (le_split n v) v.
Proof.
  intros Hd Hv. eapply parses_reads; [exact Hd|by rewrite length_le_split|].
  by rewrite le_combine_split, Z.mod_small.
Qed.

Lemma parses_u8 v : 0 <= v < 2 ^ 8 -> parses readU8 (le_split 1 v) v.
Proof. apply (parses_uint 1), readU8_law. Qed.
Lemma parses_u16 v : 0 <= v < 2 ^ 16 -> parses readU16 (le_split 2 v) v.
Proof. apply (parses_uint 2), readU16_law. Qed.
Lemma parses_u32 v : 0 <= v < 2 ^ 32 -> parses readU32 (le_split 4 v) v.
Proof. apply (parses_uint 4), readU32_law. Qed.
Lemma parses_u64 v : 0 <= v < 2 ^ 64 -> parses readU64 (le_split 8 v) v.
Proof. apply (parses_uint 8), readU64_law. Qed.
Lemma parses_bytes n bs : len bs = n -> parses (readBytes n) bs bs.
Proof. intros. eapply parses_reads; [apply readBytes_law|done|done]. Qed.
Lemma parses_skip n bs : len bs = n -> parses (skip n) bs tt.
Proof. intros. eapply parses_reads; [apply skip_law|done|done]. Qed.

Lemma parses_string bs : len bs < 2 ^ 16 -> parses readString (le_split 2 (len bs) ++ bs) bs.
Proof.
  intros Hlen r tl Hr. rewrite readString_law.
  eapply (parses_bind readU16 (fun n => readBytes n)); [| |exact Hr].
  - apply parses_u16. lia.
  - by apply parses_bytes.
Qed.

(** [cut_short d bs]: on a reader with the beginning of [bs] only, [d] fails. *)
Definition cut_short {E A} (d : reader -> result E (A * reader)) (bs : list Z) : Prop :=
  forall r tl, unread r ++ tl = bs -> tl <> [] -> exists e, d r = Err e.

Lemma cut_ret {E A} (d : reader -> result E (A * reader)) : cut_short d [].
Proof. intros r tl [_ ->]%app_eq_nil Htl. done. Qed.

Lemma cut_reads {A} w (f : list Z -> A) bs d :
  (forall r, d r = reads unread advance w f r) -> len bs = w -> cut_short d bs.
Proof.
  intros Hd <- r tl <- Htl. exists ReadError. rewrite Hd. unfold reads.
  rewrite (proj2 (Z.leb_gt _ _)); [done|]. rewrite length_app. destruct tl; [done|]. cbn [length]. lia.
Qed.

Lemma cut_bind {E A B} (d : reader -> result E (A * reader)) (k : A -> reader -> result E (B * reader)) bs bs' a :
  parses d bs a -> cut_short d bs -> cut_short (k a) bs' ->
  cut_short (fun r => d r ≫= fun '(x, r) => k x r) (bs ++ bs').
Proof.
  intros Hd Hcut Hk r tl Hr Htl. apply app_eq_app in Hr as (l & [[Hu Hr]|[Hu Hr]]).
  - destruct (Hd r l Hu) as (r1 & Hd1 & Hr1). rewrite Hd1. cbn. apply (Hk r1 tl); [by rewrite Hr1|done].
  - destruct l as [|x l].
    + rewrite app_nil_r in Hu. destruct (Hd r [] ltac:(by rewrite app_nil_r)) as (r1 & Hd1 & Hr1). rewrite Hd1. cbn.
      apply (Hk r1 tl); [by rewrite Hr1|done].
    + destruct (Hcut r (x :: l) (eq_sym Hu) ltac:(done)) as [e He]. rewrite He. by exists e.
Qed.

Lemma reads_ok {A} w (f : list Z -> A) r a r' :
  reads unread advance w f r = Ok (a, r') <->
  w <= len (unread r) /\ a = f (ztake w (unread r)) /\ r' = advance w r.
Proof.
  unfold reads. destruct (Z.leb_spec w (len (unread r))); split; try naive_solver lia.
Qed.

Lemma reads_total {A} w (f : list Z -> A) r : is_fault (reads unread advance w f r) = false.
Proof. unfold reads. by case_match. Qed.

(** [moved n r r']: [r'] is [r] after [n] bytes. *)
Definition moved (n : Z) (r r' : reader) : Prop :=
  0 <= n <= len (unread r) /\ unread r' = zdrop n (unread r).

Lemma moved_0 r : moved 0 r r.
Proof. split; [lia|done]. Qed.

Lemma moved_advance n r : 0 <= n <= len (unread r) -> moved n r (advance n r).
Proof. split; [done|apply unread_advance]. Qed.

Lemma moved_trans a b r1 r2 r3 : moved a r1 r2 -> moved b r2 r3 -> moved (a + b) r1 r3.
Proof.
  intros [Ha E2] [Hb E3]. rewrite E2, len_zdrop in Hb by lia.
  split; [lia|]. rewrite E3, E2, zdrop_zdrop by lia. done.
Qed.

Lemma moved_eq a b r r' : moved a r r' -> a = b -> moved b r r'.
Proof. by intros ? <-. Qed.

Lemma moved_len n r r' : moved n r r' -> len (unread r') = len (unread r) - n.
Proof. intros [? ->]. rewrite len_zdrop; lia. Qed.

(** Reading inside the first [n] bytes of [d], at [k]. *)
Lemma reads_at {A} w (f : list Z -> A) r k n d :
  unread r = zdrop k (ztake n d) -> 0 <= k -> 0 <= w -> k + w <= n <= len d ->
  reads unread advance w f r = Ok (f (ztake w (zdrop k d)), advance w r) /\
  unread (advance w r) = zdrop (k + w) (ztake n d).
Proof.
  intros Hr Hk Hw Hn. split.
  - unfold reads. rewrite Hr, len_zdrop, len_ztake, ztake_zdrop_ztake by (rewrite ?len_ztake; lia).
    destruct (Z.leb_spec w (n - k)); [done|lia].
  - rewrite unread_advance, Hr. by apply zdrop_zdrop.
Qed.
End Reader.

#[export] Hint Rewrite @unread_advance @unread_of : qn_len.

(** What a chain of writes has written. *)
Ltac wrote :=
  repeat (rewrite writeU8_law || rewrite writeU16_law || rewrite writeU32_law
          || rewrite writeU64_law || rewrite writeBytes_law || rewrite written_new).

(** Turns hypotheses about the reads of a run that succeeds into facts on
    lengths, values and the readers that follow. *)
Ltac read_law H :=
  first [rewrite readU8_law in H | rewrite readU16_law in H | rewrite readU32_law in H
        | rewrite readU64_law in H | rewrite readI32_law in H | rewrite readBytes_law in H
        | rewrite skip_law in H].
Ltac run_reader :=
  repeat (match goal with
  | p : _ * reader |- _ => destruct p
  | H : mbind _ _ = Ok _ |- _ => apply bind_ok in H as ([? ?] & ? & H); cbn beta iota in H
  | H : map_err _ _ = Ok _ |- _ => apply map_err_ok in H
  | H : Ok _ = Ok _ |- _ => injection H as ?; subst
  | H : reads _ _ _ _ _ = Ok _ |- _ => apply reads_ok in H as (? & ? & ?); subst
  | H : _ = Ok (_, _) |- _ => read_law H
  end).

Create HintDb parses.
#[export] Hint Resolve moved_0 moved_advance moved_trans : qn.
#[export] Hint Resolve parses_ret parses_map_err parses_u8 parses_u16 parses_u32 parses_u64
  parses_bytes parses_skip parses_string : parses.

(** ** List implementations *)
Definition list_readU (w : Z) : list Z -> result read_error (Z * list Z) :=
  reads id zdrop w le_combine.

#[export] Instance list_reader : ByteReader := {|
  reader := list Z;
  reader_of l := l;
  readU8 := list_readU 1;
  readU16 := list_readU 2;
  readU32 := list_readU 4;
  readU64 := list_readU 8;
  readI32 := reads id zdrop 4 i32_of;
  readBool l := match l with
                | 0 :: l => Ok (false, l)
                | 1 :: l => Ok (true, l)
                | _ => Err ReadError
                end;
  readBytes n := reads id zdrop n id;
  readString l := list_readU 2 l ≫= fun '(n, l) => reads id zdrop n id l;
  readToEnd l := l;
  skip n := reads id zdrop n (fun _ => tt);
  remainingSize l := len l;
|}.

#[export] Instance list_reader_laws : ByteReaderLaws list_reader.
Proof.
  refine {| unread := fun l : @reader list_reader => (l : list Z); advance := zdrop |}; try done.
  - cbn. by intros r tl ->.
  - cbn. by intros r tl ->.
  - cbn. intros [|[|[]|] r] b r' [=]; subst; cbn [length]; split; (done || lia).
  - cbn. by intros r r' [|[]|] tl tl' -> ->.
  - intros [|[|[]|] r]; done.
Qed.

#[export] Instance list_writer : ByteWriter := {|
  writer := list Z;
  new_writer := [];
  written w := w;
  position w := len w;
  writeU8 v w := w ++ le_split 1 v;
  writeU16 v w := w ++ le_split 2 v;
  writeU32 v w := w ++ le_split 4 v;
  writeU64 v w := w ++ le_split 8 v;
  writeBytes bs w := w ++ bs;
  setPosition _ w := w;
  performAtU8 p v w := Ok (patch p (le_split 1 v) w);
  performAtU32 p v w := Ok (patch p (le_split 4 v) w);
|}.

#[export] Instance list_writer_laws : ByteWriterLaws list_writer.
Proof. constructor; cbn; eauto. Qed.

(** A circular buffer as its capacity, the position of its first byte in the
    ring, and its contents; [peek] splits where the ring wraps. *)
Record list_ring := { ring_cap : Z; ring_pos : Z; ring_data : list Z }.

#[export] Instance list_cbuf : CircularBuffer := {|
  cbuf := list_ring;
  new_cbuf n := {| ring_cap := n; ring_pos := 0; ring_data := [] |};
  cb_size b := len (ring_data b);
  cb_capacity := ring_cap;
  cb_writeWindow b := ring_cap b - len (ring_data b);
  cb_reserve n b := {| ring_cap := Z.max (ring_cap b) (len (ring_data b) + n);
                       ring_pos := 0; ring_data := ring_data b |};
  cb_peek n b :=
    let k := Z.max 1 (Z.min n (ring_cap b - ring_pos b)) in
    (ztake k (ztake n (ring_data b)), zdrop k (ztake n (ring_data b)));
  cb_skip n b := {| ring_cap := ring_cap b;
                    ring_pos := (ring_pos b + n) mod Z.max 1 (ring_cap b);
                    ring_data := zdrop n (ring_data b) |};
  cb_write bs b := {| ring_cap := Z.max (ring_cap b) (len (ring_data b) + len bs);
                      ring_pos := ring_pos b; ring_data := ring_data b ++ bs |};
  cb_wskip n w := (zdrop n w.1, zdrop (n - len w.1) w.2);
|}.

#[export] Instance list_cbuf_laws : CircularBufferLaws list_cbuf.
Proof.
  refine {| contents := ring_data : @cbuf list_cbuf -> list Z |}; try done.
  - intros n b _. cbn. apply ztake_zdrop.
  - intros n b Hn. cbn. intros Hnil.
    apply (f_equal (fun l => len l)) in Hnil. revert Hnil.
    rewrite len_ztake; cbn [length]; [lia|]. rewrite len_ztake; lia.
  - intros n b. cbn. lia.
  - intros n [a b] Hn. cbn. unfold zdrop. rewrite drop_app. do 2 f_equal. lia.
  - intros bs b. cbn. lia.
  - intros bs b. cbn. lia.
Qed.
