(* ===== verification/Messages.v ===== *)
(** * Protocol constants, headers and message types

    [include/qunet/protocol/constants.hpp], [src/protocol/errors.cpp],
    [include/qunet/socket/message/meta.hpp] and [messages.hpp]: the constants
    of the wire format, the header structures, one record per message with its
    [encode] and [decode], and the error tables. *)
From S2P Require Import Prelude Dbuf.

(** ** Constants *)
Record ProtocolVersion := { major : Z; minor : Z }.
Definition PROTOCOL_VERSION : ProtocolVersion := {| major := 1; minor := 2 |}.
Definition isCompatibleWith (v other : ProtocolVersion) : bool := major v =? major other.

Definition MSG_PING := 1.
Definition MSG_PONG := 2.
Definition MSG_KEEPALIVE := 3.
Definition MSG_KEEPALIVE_RESPONSE := 4.
Definition MSG_HANDSHAKE_START := 5.
Definition MSG_HANDSHAKE_FINISH := 6.
Definition MSG_HANDSHAKE_FAILURE := 7.
Definition MSG_CLIENT_CLOSE := 8.
Definition MSG_SERVER_CLOSE := 9.
Definition MSG_CLIENT_RECONNECT := 10.
Definition MSG_CONNECTION_ERROR := 11.
Definition MSG_QDB_CHUNK_REQUEST := 12.
Definition MSG_QDB_CHUNK_RESPONSE := 13.
Definition MSG_RECONNECT_SUCCESS := 14.
Definition MSG_RECONNECT_FAILURE := 15.
Definition MSG_CONNECTION_CONTROL := 16.
Definition MSG_PADDING := 127.
Definition MSG_DATA := 128.
Definition MSG_DATA_MASK := MSG_DATA.
Definition MSG_DATA_BIT_COMPRESSION_1 := 0.
Definition MSG_DATA_BOUNDARY_MASK := Z.shiftl 1 3.
Definition MSG_DATA_RELIABILITY_MASK := Z.shiftl 1 4.
Definition MSG_DATA_FRAGMENTATION_MASK := Z.shiftl 1 5.
Definition MSG_DATA_LAST_FRAGMENT_MASK := 32768.
Definition MSG_ZSTD_COMPRESSION_LEVEL := 2.
Definition PROTO_TCP := 1.
Definition PROTO_UDP := 2.
Definition PROTO_QUIC := 3.
Definition PROTO_WEBSOCKET := 4.
Definition QUNET_CONNCTL_SET_MTU := 1.
Definition QUNET_CONNCTL_PMTUD_PROBE := 64.
Definition DEFAULT_PORT := 4340.
Definition UDP_MAX_ALLOWED_MTU := 1400.
Definition UDP_SAFE_MTU := 1200.
Definition HANDSHAKE_START_SIZE := 1 + 2 + 2 + 16.

(** ** Strings: [std::string] is a list of bytes *)
Definition str (s : string) : list Z :=
  map (fun a => Z.of_N (Ascii.N_of_ascii a)) (String.list_ascii_of_string s).

Definition messageForConnectionError (code : Z) : list Z :=
  match code with
  | 1 => str "Fragmentation not allowed"
  | 2 => str "Requested QDB chunk is too long"
  | 3 => str "Requested QDB chunk is invalid (offset/length are out of bounds)"
  | 4 => str "Client requested a QDB chunk but a QDB isn't available"
  | 5 => str "Protocol violation: client send a malformed zero-length message"
  | 6 => str "Protocol violation: client sent a stream message that exceeds the maximum allowed length"
  | 7 => str "Internal server error"
  | 8 => str "Server is shutting down"
  | 9 => str "Rate limit exceeded, client sent too many messages in a short period"
  | _ => []
  end.

Definition messageForServerCloseError (code : Z) : list Z := messageForConnectionError code.

Definition messageForHandshakeError (code : Z) : list Z :=
  match code with
  | 1 => str "Client qunet version is too old"
  | 2 => str "Client qunet version is too new"
  | 3 => str "Reconnect failed, unknown connection ID"
  | 4 => str "Duplicate connection detected from the same address"
  | _ => []
  end.

(** ** Headers *)
Inductive CompressionType := CompNone | Zstd | ZstdNoDict | Lz4.
#[export] Instance CompressionType_eq_dec : EqDecision CompressionType.
Proof. solve_decision. Defined.

Definition CompressionType_to_Z (t : CompressionType) : Z :=
  match t with CompNone => 0 | Zstd => 1 | ZstdNoDict => 2 | Lz4 => 3 end.

(** The cast of a two-bit value. *)
Definition CompressionType_of_Z (z : Z) : CompressionType :=
  match z with 1 => Zstd | 2 => ZstdNoDict | 3 => Lz4 | _ => CompNone end.

Record CompressionHeader := { ch_type : CompressionType; ch_uncompressedSize : Z }.

(** [acks] is the array of eight slots. *)
Record ReliabilityHeader := { rh_messageId : Z; rh_ackCount : Z; rh_acks : list Z }.
Definition ReliabilityHeader_zero : ReliabilityHeader :=
  {| rh_messageId := 0; rh_ackCount := 0; rh_acks := replicate 8 0 |}.

Record FragmentationHeader := { fh_messageId : Z; fh_fragmentIndex : Z; fh_lastFragment : bool }.

Record QunetMessageMeta := {
  mm_type : Z;
  mm_compressionHeader : option CompressionHeader;
  mm_reliabilityHeader : option ReliabilityHeader;
  mm_fragmentationHeader : option FragmentationHeader;
  mm_data : list Z;
  mm_dataOffset : Z;
}.

#[export] Instance CompressionHeader_eq_dec : EqDecision CompressionHeader.
Proof. solve_decision. Defined.
#[export] Instance ReliabilityHeader_eq_dec : EqDecision ReliabilityHeader.
Proof. solve_decision. Defined.
#[export] Instance FragmentationHeader_eq_dec : EqDecision FragmentationHeader.
Proof. solve_decision. Defined.
#[export] Instance QunetMessageMeta_eq_dec : EqDecision QunetMessageMeta.
Proof. solve_decision. Defined.

(** ** Messages *)
Record KeepaliveMessage := { ka_timestamp : Z }.
Record KeepaliveResponseMessage := { kr_timestamp : Z; kr_data : list Z }.
Record HandshakeStartMessage :=
  { hs_protocolVersion : ProtocolVersion; hs_fragLimit : Z; hs_qdbHash : list Z }.
Record QdbData := {
  qd_uncompressedSize : Z;
  qd_compressedSize : Z;
  qd_chunkOffset : Z;
  qd_chunkSize : Z;
  qd_chunkData : list Z;
}.
Record HandshakeFinishMessage := { hf_connectionId : Z; hf_qdbData : option QdbData }.
Record HandshakeFailureMessage := { hx_errorCode : Z; hx_errorMessage : list Z }.
Record ClientCloseMessage := MkClientClose {}.
Record ServerCloseMessage := { sc_errorCode : Z; sc_errorMessage : list Z }.
Record ClientReconnectMessage := { cr_connectionId : Z }.
Record ConnectionErrorMessage := { ce_errorCode : Z }.
Record ReconnectSuccessMessage := MkReconnectSuccess {}.
Record ReconnectFailureMessage := MkReconnectFailure {}.
Inductive ConnectionControlMessage :=
  | PMTUDProbe (data : list Z)
  | SetMTU (mtu : Z).
Record PaddingMessage := MkPadding {}.
Record DataMessage := {
  dm_data : list Z;
  dm_compHeader : option CompressionHeader;
  dm_relHeader : option ReliabilityHeader;
}.

(** The variant of [QunetMessage.hpp], in its order. *)
Inductive QunetMessage :=
  | MKeepalive (m : KeepaliveMessage)
  | MKeepaliveResponse (m : KeepaliveResponseMessage)
  | MHandshakeStart (m : HandshakeStartMessage)
  | MHandshakeFinish (m : HandshakeFinishMessage)
  | MHandshakeFailure (m : HandshakeFailureMessage)
  | MClientClose (m : ClientCloseMessage)
  | MServerClose (m : ServerCloseMessage)
  | MClientReconnect (m : ClientReconnectMessage)
  | MConnectionError (m : ConnectionErrorMessage)
  | MReconnectSuccess (m : ReconnectSuccessMessage)
  | MReconnectFailure (m : ReconnectFailureMessage)
  | MConnectionControl (m : ConnectionControlMessage)
  | MPadding (m : PaddingMessage)
  | MData (m : DataMessage).

Definition is_DataMessage (m : QunetMessage) : bool :=
  match m with MData _ => true | _ => false end.

(** ** The texts of the error messages

    [fmt::format] is a library function: the decimal rendering of the code is
    a parameter. *)
Section Texts.
Variable fmt_dec : Z -> list Z.

Definition HandshakeFailureMessage_message (m : HandshakeFailureMessage) : list Z :=
  if hx_errorCode m =? 0 then hx_errorMessage m
  else match messageForHandshakeError (hx_errorCode m) with
       | [] => str "Unknown handshake error code: " ++ fmt_dec (hx_errorCode m)
       | err => err
       end.

Definition ServerCloseMessage_message (m : ServerCloseMessage) : list Z :=
  if sc_errorCode m =? 0 then sc_errorMessage m
  else match messageForServerCloseError (sc_errorCode m) with
       | [] => str "Unknown server close error code: " ++ fmt_dec (sc_errorCode m)
       | err => err
       end.

(** The [static thread_local] of the source: the text is built on the first
    unknown code of the thread and kept. *)
Definition ConnectionErrorMessage_message (message : option (list Z)) (m : ConnectionErrorMessage)
    : list Z * option (list Z) :=
  match messageForConnectionError (ce_errorCode m) with
  | [] =>
      let message := default (str "Unknown server close error code: " ++ fmt_dec (ce_errorCode m)) message in
      (message, Some message)
  | err => (err, message)
  end.
End Texts.

(** ** Encoders

    [MessageEncodeResult] is [Result<void>]: the error is a string, and no
    encoder returns one; a message that cannot be encoded fails an assertion. *)
Section Encode.
Context `{W : ByteWriter}.
Abbreviation encoded := (result string writer).

Definition QN_NO_ENCODE (w : writer) : encoded := Fault AssertionFailed.

Definition KeepaliveMessage_encode (m : KeepaliveMessage) (w : writer) : encoded :=
  let w := writeU64 (ka_timestamp m) w in
  let w := writeU8 0 w in
  Ok w.

Definition HandshakeStartMessage_encode (m : HandshakeStartMessage) (w : writer) : encoded :=
  let w := writeU16 (major (hs_protocolVersion m)) w in
  let w := writeU16 (minor (hs_protocolVersion m)) w in
  let w := writeU16 (hs_fragLimit m) w in
  let w := writeBytes (hs_qdbHash m) w in
  Ok w.

Definition ClientCloseMessage_encode (w : writer) : encoded :=
  let flags := 0 in Ok (writeU8 flags w).

Definition ClientReconnectMessage_encode (m : ClientReconnectMessage) (w : writer) : encoded :=
  Ok (writeU64 (cr_connectionId m) w).

Definition ConnectionErrorMessage_encode (m : ConnectionErrorMessage) (w : writer) : encoded :=
  Ok (writeU32 (ce_errorCode m) w).

Definition ConnectionControlMessage_encode (m : ConnectionControlMessage) (w : writer) : encoded :=
  match m with
  | SetMTU mtu =>
      let w := writeU8 QUNET_CONNCTL_SET_MTU w in
      Ok (writeU16 mtu w)
  | PMTUDProbe data =>
      let w := writeU8 QUNET_CONNCTL_PMTUD_PROBE w in
      let w := writeU16 (len data) w in
      Ok (writeBytes data w)
  end.

Definition DataMessage_encode (m : DataMessage) (w : writer) : encoded :=
  Ok (writeBytes (dm_data m) w).

(** [QunetMessage::encode]: the visitor. *)
Definition encode (msg : QunetMessage) (w : writer) : encoded :=
  match msg with
  | MKeepalive m => KeepaliveMessage_encode m w
  | MHandshakeStart m => HandshakeStartMessage_encode m w
  | MClientClose _ => ClientCloseMessage_encode w
  | MClientReconnect m => ClientReconnectMessage_encode m w
  | MConnectionError m => ConnectionErrorMessage_encode m w
  | MConnectionControl m => ConnectionControlMessage_encode m w
  | MData m => DataMessage_encode m w
  | MKeepaliveResponse _ | MHandshakeFinish _ | MHandshakeFailure _ | MServerClose _
  | MReconnectSuccess _ | MReconnectFailure _ | MPadding _ => QN_NO_ENCODE w
  end.
End Encode.

(** ** Decoders *)
Section Decode.
Context `{R : ByteReader}.
Abbreviation decoded A := (result read_error (A * reader)).

Definition KeepaliveMessage_decode (r : reader) : decoded KeepaliveMessage :=
  '(timestamp, r) ← readU64 r;
  '(flags, r) ← readU8 r;
  Ok ({| ka_timestamp := timestamp |}, r).

(** [resize] and [readBytes], skipped for a size of 0. *)
Definition readBytes_if_any (n : Z) (r : reader) : decoded (list Z) :=
  if 0 <? n then readBytes n r else Ok ([], r).

Definition KeepaliveResponseMessage_decode (r : reader) : decoded KeepaliveResponseMessage :=
  '(timestamp, r) ← readU64 r;
  '(dataSize, r) ← readU16 r;
  '(data, r) ← readBytes_if_any dataSize r;
  Ok ({| kr_timestamp := timestamp; kr_data := data |}, r).

Definition QdbData_decode (r : reader) : decoded QdbData :=
  '(uncompressedSize, r) ← readU32 r;
  '(compressedSize, r) ← readU32 r;
  '(chunkOffset, r) ← readU32 r;
  '(chunkSize, r) ← readU32 r;
  '(chunkData, r) ← readBytes_if_any chunkSize r;
  Ok ({| qd_uncompressedSize := uncompressedSize; qd_compressedSize := compressedSize;
         qd_chunkOffset := chunkOffset; qd_chunkSize := chunkSize;
         qd_chunkData := chunkData |}, r).

Definition HandshakeFinishMessage_decode (r : reader) : decoded HandshakeFinishMessage :=
  '(connectionId, r) ← readU64 r;
  '(hasQdb, r) ← readBool r;
  if (hasQdb : bool) then
    '(qdb, r) ← QdbData_decode r;
    Ok ({| hf_connectionId := connectionId; hf_qdbData := Some qdb |}, r)
  else Ok ({| hf_connectionId := connectionId; hf_qdbData := None |}, r).

(** An error code, followed by a text when the code is 0. *)
Definition error_code_decode (r : reader) : decoded (Z * list Z) :=
  '(errorCode, r) ← readU32 r;
  if errorCode =? 0 then
    '(errorMessage, r) ← readString r;
    Ok ((errorCode, errorMessage), r)
  else Ok ((errorCode, []), r).

Definition HandshakeFailureMessage_decode (r : reader) : decoded HandshakeFailureMessage :=
  '((code, text), r) ← error_code_decode r;
  Ok ({| hx_errorCode := code; hx_errorMessage := text |}, r).

Definition ServerCloseMessage_decode (r : reader) : decoded ServerCloseMessage :=
  '((code, text), r) ← error_code_decode r;
  Ok ({| sc_errorCode := code; sc_errorMessage := text |}, r).

Definition ConnectionErrorMessage_decode (r : reader) : decoded ConnectionErrorMessage :=
  '(errorCode, r) ← readU32 r;
  Ok ({| ce_errorCode := errorCode |}, r).

Definition ReconnectSuccessMessage_decode (r : reader) : decoded ReconnectSuccessMessage :=
  Ok (MkReconnectSuccess, r).

Definition ReconnectFailureMessage_decode (r : reader) : decoded ReconnectFailureMessage :=
  Ok (MkReconnectFailure, r).

(** The 16-bit code is stored in a [uint8_t]. *)
Definition ConnectionControlMessage_decode (r : reader) : decoded ConnectionControlMessage :=
  '(code, r) ← readU16 r;
  let type := u8 code in
  if type =? QUNET_CONNCTL_SET_MTU then
    '(mtu, r) ← readU16 r;
    Ok (SetMTU mtu, r)
  else if type =? QUNET_CONNCTL_PMTUD_PROBE then
    '(size, r) ← readU16 r;
    '(data, r) ← readBytes size r;
    Ok (PMTUDProbe data, r)
  else Err ReadError.

Definition DataMessage_decode (r : reader) : DataMessage :=
  {| dm_data := readToEnd r; dm_compHeader := None; dm_relHeader := None |}.
End Decode.
