(* ===== verification/Codec.v ===== *)
(** * QunetMessage: headers on the wire

    [src/socket/message/QunetMessage.cpp]: the header byte, the encoders of
    control and data headers, the length table of control messages, the
    decoder of a message's headers ([decodeMeta]) and body ([decodeWithMeta]),
    and the iterator over the messages of a datagram. *)
From S2P Require Import Prelude Dbuf Messages.

Inductive MessageDecodeError :=
  | InvalidMessageType
  | InvalidData
  | InvalidConnCtlCode
  | NotEnoughData.
#[export] Instance MessageDecodeError_eq_dec : EqDecision MessageDecodeError.
Proof. solve_decision. Defined.

Definition MessageDecodeError_message (e : MessageDecodeError) : list Z :=
  match e with
  | InvalidMessageType => str "Invalid message type"
  | InvalidData => str "Invalid data in message"
  | InvalidConnCtlCode => str "Invalid connection control code"
  | NotEnoughData => str "Not enough data to decode message"
  end.

(** [MAP_UNWRAP]: any reading error becomes [InvalidData]. *)
Definition map_invalid {A} (m : result read_error A) : result MessageDecodeError A :=
  map_err (fun _ => InvalidData) m.

Lemma map_invalid_ok {A} (m : result read_error A) a : map_invalid m = Ok a <-> m = Ok a.
Proof. apply map_err_ok. Qed.

Definition typeStr (msg : QunetMessage) : list Z :=
  match msg with
  | MKeepalive _ => str "KeepaliveMessage"
  | MKeepaliveResponse _ => str "KeepaliveResponseMessage"
  | MHandshakeStart _ => str "HandshakeStartMessage"
  | MHandshakeFinish _ => str "HandshakeFinishMessage"
  | MHandshakeFailure _ => str "HandshakeFailureMessage"
  | MClientClose _ => str "ClientCloseMessage"
  | MServerClose _ => str "ServerCloseMessage"
  | MClientReconnect _ => str "ClientReconnectMessage"
  | MConnectionError _ => str "ConnectionErrorMessage"
  | MReconnectSuccess _ => str "ReconnectSuccessMessage"
  | MReconnectFailure _ => str "ReconnectFailureMessage"
  | MConnectionControl _ => str "ConnectionControlMessage"
  | MData _ => str "DataMessage"
  | MPadding _ => str "UnknownMessageType"
  end.

Definition headerByte {E} (msg : QunetMessage) : result E Z :=
  match msg with
  | MData _ => Ok MSG_DATA
  | MKeepalive _ => Ok MSG_KEEPALIVE
  | MKeepaliveResponse _ => Ok MSG_KEEPALIVE_RESPONSE
  | MHandshakeStart _ => Ok MSG_HANDSHAKE_START
  | MHandshakeFinish _ => Ok MSG_HANDSHAKE_FINISH
  | MHandshakeFailure _ => Ok MSG_HANDSHAKE_FAILURE
  | MClientClose _ => Ok MSG_CLIENT_CLOSE
  | MServerClose _ => Ok MSG_SERVER_CLOSE
  | MClientReconnect _ => Ok MSG_CLIENT_RECONNECT
  | MConnectionError _ => Ok MSG_CONNECTION_ERROR
  | MConnectionControl _ => Ok MSG_CONNECTION_CONTROL
  | MReconnectSuccess _ | MReconnectFailure _ | MPadding _ => Fault AssertionFailed
  end.

(** ** Encoding *)
Section Encode.
Context `{W : ByteWriter}.

Definition encodeControlHeader (msg : QunetMessage) (connectionId : Z) (w : writer)
    : result string writer :=
  hdr ← headerByte msg;
  let w := writeU8 hdr w in
  let w := if connectionId =? 0 then w else writeU64 connectionId w in
  Ok w.

Definition encodeControlMsg (msg : QunetMessage) (connectionId : Z) (w : writer)
    : result string writer :=
  w ← encodeControlHeader msg connectionId w;
  encode msg w.

(** The first byte of a data message. *)
Definition data_header_byte (msg : DataMessage) (omitHeaders : bool) : Z :=
  let hdr := MSG_DATA in
  if omitHeaders then hdr
  else
    let hdr := match dm_compHeader msg with
               | Some h => Z.lor hdr (Z.shiftl (CompressionType_to_Z (ch_type h)) MSG_DATA_BIT_COMPRESSION_1)
               | None => hdr
               end in
    match dm_relHeader msg with
    | Some _ => Z.lor hdr MSG_DATA_RELIABILITY_MASK
    | None => hdr
    end.

(** [writer.writeU16(acks[i])] for [i < ackCount && i < 8]. *)
Definition write_acks (h : ReliabilityHeader) (w : writer) : writer :=
  foldl (fun w a => writeU16 a w) w (ztake (Z.min (rh_ackCount h) 8) (rh_acks h)).

Definition encodeDataHeader (message : QunetMessage) (connectionId : Z) (omitHeaders : bool)
    (w : writer) : result string writer :=
  match message with
  | MData msg =>
      let w := writeU8 (data_header_byte msg omitHeaders) w in
      if omitHeaders then
        Ok (if connectionId =? 0 then w else writeU64 connectionId w)
      else
        let w := match dm_compHeader msg with
                 | Some h => writeU32 (ch_uncompressedSize h) w
                 | None => w
                 end in
        let w := if connectionId =? 0 then w else writeU64 connectionId w in
        Ok (match dm_relHeader msg with
            | Some h =>
                let w := writeU16 (rh_messageId h) w in
                let w := writeU16 (rh_ackCount h) w in
                write_acks h w
            | None => w
            end)
  | _ => Fault AssertionFailed
  end.
End Encode.

(** ** Decoding *)
Section Decode.
Context `{R : ByteReader}.
Abbreviation decoded A := (result MessageDecodeError A).

(** [Ok(MAP_UNWRAP(T::decode(reader)))] *)
Definition as_message {A} (k : A -> QunetMessage) (m : result read_error (A * reader))
    : decoded QunetMessage :=
  '(a, _) ← map_invalid m;
  Ok (k a).

(** The body of a control message. *)
Definition decodeWithMeta (meta : QunetMessageMeta) : decoded QunetMessage :=
  let msgType := mm_type meta in
  if negb (Z.land msgType MSG_DATA_MASK =? 0) then Err InvalidMessageType
  else
    let r := reader_of (mm_data meta) in
    match msgType with
    | 3 => as_message MKeepalive (KeepaliveMessage_decode r)
    | 4 => as_message MKeepaliveResponse (KeepaliveResponseMessage_decode r)
    | 6 => as_message MHandshakeFinish (HandshakeFinishMessage_decode r)
    | 7 => as_message MHandshakeFailure (HandshakeFailureMessage_decode r)
    | 9 => as_message MServerClose (ServerCloseMessage_decode r)
    | 11 => as_message MConnectionError (ConnectionErrorMessage_decode r)
    | 14 => as_message MReconnectSuccess (ReconnectSuccessMessage_decode r)
    | 15 => as_message MReconnectFailure (ReconnectFailureMessage_decode r)
    | 16 => as_message MConnectionControl (ConnectionControlMessage_decode r)
    | 127 => Ok (MPadding MkPadding)
    | _ => Err InvalidMessageType
    end.

(** The cases of [lengthForNonDataMessage] that read the message. *)
Definition length_pong (r : reader) : decoded Z :=
  '(_, r) ← map_invalid (skip 4 r);
  '(protocols, r) ← map_invalid (readU8 r);
  '(_, r) ← map_invalid (skip (3 * protocols) r);
  '(dataLen, r) ← map_invalid (readU16 r);
  '(_, r) ← map_invalid (skip dataLen r);
  Ok (4 + (1 + 3 * protocols) + (2 + dataLen)).

Definition length_keepalive_response (r : reader) : decoded Z :=
  '(_, r) ← map_invalid (skip 8 r);
  '(dataLen, r) ← map_invalid (readU16 r);
  '(_, r) ← map_invalid (skip dataLen r);
  Ok (8 + (2 + dataLen)).

(** [4 + len] is a sum of 32-bit integers. *)
Definition length_handshake_finish (r : reader) : decoded Z :=
  '(_, r) ← map_invalid (skip 8 r);
  '(hasQdb, r) ← map_invalid (readBool r);
  if (hasQdb : bool) then
    '(_, r) ← map_invalid (skip 12 r);
    '(n, r) ← map_invalid (readU32 r);
    '(_, r) ← map_invalid (skip n r);
    Ok (8 + 1 + 12 + u32 (4 + n))
  else Ok (8 + 1).

Definition length_error_code (r : reader) : decoded Z :=
  '(code, r) ← map_invalid (readU32 r);
  if code =? 0 then
    '(n, r) ← map_invalid (readU16 r);
    '(_, r) ← map_invalid (skip n r);
    Ok (4 + (2 + n))
  else Ok 4.

Definition length_qdb_chunk_response (r : reader) : decoded Z :=
  '(_, r) ← map_invalid (skip 4 r);
  '(n, r) ← map_invalid (readU32 r);
  '(_, r) ← map_invalid (skip n r);
  Ok (u32 (4 + 4 + n)).

Definition length_connection_control (r : reader) : decoded Z :=
  '(code, r) ← map_invalid (readU16 r);
  if code =? QUNET_CONNCTL_SET_MTU then
    '(_, r) ← map_invalid (skip 2 r);
    Ok (2 + 2)
  else if code =? QUNET_CONNCTL_PMTUD_PROBE then
    '(n, r) ← map_invalid (readU16 r);
    '(_, r) ← map_invalid (skip n r);
    Ok (2 + (2 + n))
  else Err InvalidConnCtlCode.

Definition lengthForNonDataMessage (r : reader) (headerByte : Z) : decoded Z :=
  _ ← qn_assert ((major PROTOCOL_VERSION =? 1) && (minor PROTOCOL_VERSION =? 2));
  match headerByte with
  | 1 => Ok 5
  | 2 => length_pong r
  | 3 => Ok 9
  | 4 => length_keepalive_response r
  | 5 => Ok (2 + 2 + 2 + 16)
  | 6 => length_handshake_finish r
  | 7 => length_error_code r
  | 8 => Ok 1
  | 9 => length_error_code r
  | 10 => Ok 8
  | 11 => Ok 4
  | 12 => Ok 8
  | 13 => length_qdb_chunk_response r
  | 14 => Ok 0
  | 15 => Ok 0
  | 16 => length_connection_control r
  | 127 => Ok (remainingSize r)
  | _ => Err InvalidMessageType
  end.

(** The headers of a data message, in the order [decodeMeta] reads them. *)
Definition decode_compression (msgType : Z) (r : reader) : decoded (option CompressionHeader * reader) :=
  let compressionType :=
    CompressionType_of_Z (Z.land (Z.shiftr msgType MSG_DATA_BIT_COMPRESSION_1) 3) in
  match compressionType with
  | CompNone => Ok (None, r)
  | Zstd | ZstdNoDict | Lz4 =>
      '(n, r) ← map_invalid (readU32 r);
      Ok (Some {| ch_type := compressionType; ch_uncompressedSize := n |}, r)
  end.

(** [relHdr.acks[i] = a], in an array. *)
Definition store_ack {E} (i : nat) (a : Z) (acks : list Z) : result E (list Z) :=
  if (i <? length acks)%nat then Ok (<[i := a]> acks) else Fault OutOfBounds.

(** The loop over the acknowledgements, from the [i]-th, with [n] left. *)
Fixpoint read_acks (n i : nat) (acks : list Z) (r : reader) : decoded (list Z * reader) :=
  match n with
  | O => Ok (acks, r)
  | S n =>
      '(a, r) ← map_invalid (readU16 r);
      acks ← store_ack i a acks;
      read_acks n (S i) acks r
  end.

(** The array has eight slots.  Those that are not read are not initialised by
    the source, which never looks at them; they are 0 here. *)
Definition decode_reliability (reliable : bool) (r : reader) : decoded (option ReliabilityHeader * reader) :=
  if reliable then
    '(messageId, r) ← map_invalid (readU16 r);
    '(ackCount, r) ← map_invalid (readU16 r);
    '(acks, r) ← read_acks (Z.to_nat (Z.min ackCount 8)) 0 (replicate 8 0) r;
    Ok (Some {| rh_messageId := messageId; rh_ackCount := ackCount; rh_acks := acks |}, r)
  else Ok (None, r).

Definition decode_fragmentation (fragmented : bool) (r : reader) : decoded (option FragmentationHeader * reader) :=
  if fragmented then
    '(messageId, r) ← map_invalid (readU16 r);
    '(index, r) ← map_invalid (readU16 r);
    Ok (Some {| fh_messageId := messageId;
                fh_fragmentIndex := Z.land index 32767;
                fh_lastFragment := negb (Z.land index 32768 =? 0) |}, r)
  else Ok (None, r).

Definition decode_boundary (hasBoundary : bool) (r : reader) : decoded (option Z * reader) :=
  if hasBoundary then
    '(b, r) ← map_invalid (readU16 r);
    Ok (Some b, r)
  else Ok (None, r).

(** [n] bytes for a header that is present. *)
Definition if_present {A} (o : option A) (n : Z) : Z := match o with Some _ => n | None => 0 end.
Definition rel_size (rel : option ReliabilityHeader) : Z :=
  match rel with Some h => 4 + rh_ackCount h * 2 | None => 0 end.

(** [data.subspan(offset)] and [data.subspan(offset, count)] of a
    [std::span], which must be inside; [data.resize(n)] of a [std::vector]. *)
Definition subspan {E} (offset : Z) (data : list Z) : result E (list Z) :=
  if offset <=? len data then Ok (zdrop offset data) else Fault OutOfBounds.
Definition subspan_count {E} (offset count : Z) (data : list Z) : result E (list Z) :=
  if (offset <=? len data) && (count <=? len data - offset) then Ok (ztake count (zdrop offset data))
  else Fault OutOfBounds.
Definition resize (n : Z) (data : list Z) : list Z := ztake n data ++ replicate (Z.to_nat (n - len data)) 0.

Definition decodeMeta (data : list Z) (udpHeaders udpConnId : bool) : decoded QunetMessageMeta :=
  match data with
  | [] => Fault AssertionFailed
  | msgType :: _ =>
      let dataStart := if udpConnId then 9 else 1 in
      if len data <? dataStart then Err NotEnoughData
      else
        data ← subspan dataStart data;
        let r := reader_of data in
        if Z.land msgType MSG_DATA_MASK =? 0 then
          dataSize ← lengthForNonDataMessage r msgType;
          if len data <? dataSize then Err NotEnoughData
          else
            data ← subspan_count 0 dataSize data;
            Ok {| mm_type := msgType; mm_compressionHeader := None;
                  mm_reliabilityHeader := None; mm_fragmentationHeader := None;
                  mm_data := data; mm_dataOffset := dataStart |}
        else
          let fragmented := negb (Z.land msgType MSG_DATA_FRAGMENTATION_MASK =? 0) in
          let reliable := negb (Z.land msgType MSG_DATA_RELIABILITY_MASK =? 0) in
          let hasBoundary := negb (Z.land msgType MSG_DATA_BOUNDARY_MASK =? 0) in
          '(comp, r) ← decode_compression msgType r;
          let dataOffset := dataStart + if_present comp 4 in
          '(rel, r) ← decode_reliability reliable r;
          let dataOffset := dataOffset + rel_size rel in
          '(frag, r) ← decode_fragmentation fragmented r;
          let dataOffset := dataOffset + if_present frag 4 in
          '(boundary, r) ← decode_boundary hasBoundary r;
          let dataOffset := dataOffset + if_present boundary 2 in
          let data := readToEnd r in
          let meta (data : list Z) := {| mm_type := MSG_DATA; mm_compressionHeader := comp;
                              mm_reliabilityHeader := rel; mm_fragmentationHeader := frag;
                              mm_data := data; mm_dataOffset := dataOffset |} in
          match boundary with
          | Some b => if len data <? b then Err InvalidData else Ok (meta (resize b data))
          | None => Ok (meta data)
          end
  end.

(** ** The messages of a datagram *)
Record QunetUdpMessageIter := {
  it_data : list Z;
  it_pos : Z;
  it_eof : bool;
  it_server : bool;
}.

Definition new_iter (data : list Z) (server : bool) : QunetUdpMessageIter :=
  {| it_data := data; it_pos := 0; it_eof := false; it_server := server |}.

(** An error leaves the position where it was. *)
Definition iter_next (it : QunetUdpMessageIter) : option (decoded QunetMessageMeta) * QunetUdpMessageIter :=
  if it_eof it || (len (it_data it) <=? it_pos it) then (None, it)
  else
    let expectConnId := (it_pos it =? 0) && it_server it in
    match data ← subspan (it_pos it) (it_data it); decodeMeta data true expectConnId with
    | Ok meta =>
        (Some (Ok meta),
         {| it_data := it_data it; it_pos := it_pos it + (mm_dataOffset meta + len (mm_data meta));
            it_eof := it_eof it; it_server := it_server it |})
    | res => (Some res, it)
    end.

(** [for (auto item : iter) { auto meta = UNWRAP(item); ... }]: the metas of
    a datagram, up to the first error.  [None] when the fuel runs out. *)
Fixpoint iter_collect (fuel : nat) (it : QunetUdpMessageIter) : option (decoded (list QunetMessageMeta)) :=
  match fuel with
  | O => None
  | S fuel =>
      match iter_next it with
      | (None, _) => Some (Ok [])
      | (Some (Ok meta), it) =>
          match iter_collect fuel it with
          | Some (Ok metas) => Some (Ok (meta :: metas))
          | res => res
          end
      | (Some (Err e), _) => Some (Err e)
      | (Some (Fault f), _) => Some (Fault f)
      end
  end.
End Decode.

(** ** The test inputs of the repository ([tests/QunetMessage.cpp]) *)
Example test_multi_message :
  iter_collect 30 (new_iter
    ([4; 99; 0; 0; 0; 0; 0; 0; 0; 0; 0] ++ [136; 6; 0; 1; 2; 3; 4; 5; 6] ++
     [16; 1; 0; 120; 5] ++ [128; 1; 2; 3; 4]) false)
  = Some (Ok [
      {| mm_type := 4; mm_compressionHeader := None; mm_reliabilityHeader := None;
         mm_fragmentationHeader := None; mm_data := [99; 0; 0; 0; 0; 0; 0; 0; 0; 0]; mm_dataOffset := 1 |};
      {| mm_type := 128; mm_compressionHeader := None; mm_reliabilityHeader := None;
         mm_fragmentationHeader := None; mm_data := [1; 2; 3; 4; 5; 6]; mm_dataOffset := 3 |};
      {| mm_type := 16; mm_compressionHeader := None; mm_reliabilityHeader := None;
         mm_fragmentationHeader := None; mm_data := [1; 0; 120; 5]; mm_dataOffset := 1 |};
      {| mm_type := 128; mm_compressionHeader := None; mm_reliabilityHeader := None;
         mm_fragmentationHeader := None; mm_data := [1; 2; 3; 4]; mm_dataOffset := 1 |}]).
Proof. vm_compute. reflexivity. Qed.
