(* ===== verification/CodecSpec.v ===== *)
(** * Correctness of the message codec

    Round trips of data headers, agreement of the length table with the
    decoders, totality, and the progress of the datagram iterator. *)
From S2P Require Import Prelude Dbuf Messages Codec.

#[local] Arguments decodeMeta : simpl never.
#[local] Arguments KeepaliveMessage_decode : simpl never.
#[local] Arguments ConnectionErrorMessage_decode : simpl never.

(** ** Encoded forms *)
Definition conn_bytes (connectionId : Z) : list Z :=
  if connectionId =? 0 then [] else le_split 8 connectionId.
Definition comp_bytes (c : option CompressionHeader) : list Z :=
  match c with Some h => le_split 4 (ch_uncompressedSize h) | None => [] end.
Definition acks_bytes (acks : list Z) : list Z := concat (le_split 2 <$> acks).
Definition rel_bytes (rel : option ReliabilityHeader) : list Z :=
  match rel with
  | Some h => le_split 2 (rh_messageId h) ++ le_split 2 (rh_ackCount h) ++
              acks_bytes (ztake (Z.min (rh_ackCount h) 8) (rh_acks h))
  | None => []
  end.
Definition frag_bytes (frag : option FragmentationHeader) : list Z :=
  match frag with
  | Some h => le_split 2 (fh_messageId h) ++
              le_split 2 (Z.lor (fh_fragmentIndex h) (if fh_lastFragment h then 32768 else 0))
  | None => []
  end.
Definition data_header_bytes (m : DataMessage) (connectionId : Z) (omit : bool) : list Z :=
  data_header_byte m omit ::
  (if omit then conn_bytes connectionId
   else comp_bytes (dm_compHeader m) ++ conn_bytes connectionId ++ rel_bytes (dm_relHeader m)).

(** Headers the source can build: a compression header has a type, and the
    unused slots of the array of acknowledgements are 0. *)
Definition wf_comp (c : option CompressionHeader) : Prop :=
  match c with
  | Some h => ch_type h <> CompNone /\ 0 <= ch_uncompressedSize h < 2 ^ 32
  | None => True
  end.
Definition wf_rel (rel : option ReliabilityHeader) : Prop :=
  match rel with
  | Some h => u16_ok (rh_messageId h) /\
      exists acks : list Z, (length acks <= 8)%nat /\ Forall u16_ok acks /\
        rh_ackCount h = len acks /\ rh_acks h = acks ++ replicate (8 - length acks) 0
  | None => True
  end.
Definition wf_frag (frag : option FragmentationHeader) : Prop :=
  match frag with
  | Some h => u16_ok (fh_messageId h) /\ 0 <= fh_fragmentIndex h < 2 ^ 15
  | None => True
  end.
Definition wf_data (m : DataMessage) : Prop := wf_comp (dm_compHeader m) /\ wf_rel (dm_relHeader m).

Section Encoders.
Context `{WL : ByteWriterLaws}.

Lemma write_acks_written h w :
  written (write_acks h w) = written w ++ acks_bytes (ztake (Z.min (rh_ackCount h) 8) (rh_acks h)).
Proof.
  unfold write_acks, acks_bytes. generalize (ztake (Z.min (rh_ackCount h) 8) (rh_acks h)) as l.
  intros l. revert w. induction l as [|a l IH]; intros w; cbn; [by rewrite app_nil_r|].
  rewrite IH, writeU16_law, <- app_assoc. done.
Qed.

Lemma encodeDataHeader_written m id omit w :
  exists w', encodeDataHeader (MData m) id omit w = Ok w' /\
             written w' = written w ++ data_header_bytes m id omit.
Proof.
  unfold data_header_bytes, conn_bytes, comp_bytes, rel_bytes.
  assert (Hb : le_split 1 (data_header_byte m omit) = [data_header_byte m omit]).
  { apply le_split_1. unfold data_header_byte. destruct omit; [done|].
    destruct (dm_compHeader m) as [[[] ?]|], (dm_relHeader m); done. }
  unfold encodeDataHeader. destruct omit; eexists; (split; [reflexivity|]).
  all: destruct (id =? 0), (dm_compHeader m), (dm_relHeader m);
    rewrite ?write_acks_written, ?writeU16_law, ?writeU64_law, ?writeU32_law, ?writeU8_law, ?Hb,
      <- ?app_assoc, ?app_nil_r; done.
Qed.
End Encoders.

(** ** The accesses to arrays are inside
    What [decodeMeta] does when none of them is checked; the equations below say
    that none fails. *)
Section Inside.
Context `{R : ByteReader}.

Fixpoint read_list (n : nat) (r : reader) : result MessageDecodeError (list Z * reader) :=
  match n with
  | O => Ok ([], r)
  | S n =>
      '(a, r) ← map_invalid (readU16 r);
      '(acks, r) ← read_list n r;
      Ok (a :: acks, r)
  end.

Lemma store_ack_ok {E} i a acks : (i < length acks)%nat -> store_ack (E := E) i a acks = Ok (<[i := a]> acks).
Proof. intros H. unfold store_ack. by rewrite (proj2 (Nat.ltb_lt _ _)). Qed.

Lemma read_acks_list n : forall i acks r, (i + n <= length acks)%nat ->
  read_acks n i acks r = ('(l, r) ← read_list n r; Ok (take i acks ++ l ++ drop (i + n) acks, r)).
Proof.
  induction n as [|n IH]; intros i acks r Hn; cbn.
  { by rewrite Nat.add_0_r, take_drop. }
  destruct (map_invalid (readU16 r)) as [[a r1]|e|f]; cbn; [|done..].
  rewrite store_ack_ok by lia. cbn. rewrite IH by (rewrite length_insert; lia).
  destruct (read_list n r1) as [[l r2]|e|f]; cbn; [|done..]. do 2 f_equal.
  rewrite (take_S_r _ i a) by (apply list_lookup_insert_eq; lia). rewrite take_insert_ge, drop_insert_lt by lia.
  rewrite <- app_assoc, Nat.add_succ_r. done.
Qed.

(** Eight slots are enough: no more than eight are read. *)
Lemma read_reliability reliable r :
  decode_reliability reliable r =
  if reliable then
    '(messageId, r) ← map_invalid (readU16 r);
    '(ackCount, r) ← map_invalid (readU16 r);
    let n := Z.to_nat (Z.min ackCount 8) in
    '(acks, r) ← read_list n r;
    Ok (Some {| rh_messageId := messageId; rh_ackCount := ackCount; rh_acks := acks ++ replicate (8 - n) 0 |}, r)
  else Ok (None, r).
Proof.
  unfold decode_reliability. destruct reliable; [|done].
  destruct (map_invalid (readU16 r)) as [[id r1]|e|f]; cbn [mbind result_bind]; [|done..].
  destruct (map_invalid (readU16 r1)) as [[n r2]|e|f]; cbn [mbind result_bind]; [|done..].
  rewrite read_acks_list by (rewrite length_replicate; lia). rewrite drop_replicate.
  by destruct (read_list _ r2) as [[l r3]|e|f].
Qed.

Lemma subspan_ok {E} offset (data : list Z) : offset <= len data -> subspan (E := E) offset data = Ok (zdrop offset data).
Proof. intros H. unfold subspan. by rewrite (proj2 (Z.leb_le _ _)). Qed.
Lemma subspan_count_ok {E} count (data : list Z) : count <= len data -> subspan_count (E := E) 0 count data = Ok (ztake count data).
Proof.
  intros H. unfold subspan_count. rewrite (proj2 (Z.leb_le 0 _)), Z.sub_0_r, (proj2 (Z.leb_le _ _)) by lia.
  cbn [andb]. by rewrite zdrop_0.
Qed.
Lemma resize_take n (data : list Z) : n <= len data -> resize n data = ztake n data.
Proof. intros H. unfold resize. replace (Z.to_nat (n - len data)) with 0%nat by lia. apply app_nil_r. Qed.

Definition decodeMeta_slices (data : list Z) (udpConnId : bool) : result MessageDecodeError QunetMessageMeta :=
  match data with
  | [] => Fault AssertionFailed
  | msgType :: _ =>
      let dataStart := if udpConnId then 9 else 1 in
      if len data <? dataStart then Err NotEnoughData
      else
        let data := zdrop dataStart data in
        let r := reader_of data in
        if Z.land msgType MSG_DATA_MASK =? 0 then
          dataSize ← lengthForNonDataMessage r msgType;
          if len data <? dataSize then Err NotEnoughData
          else Ok {| mm_type := msgType; mm_compressionHeader := None;
                     mm_reliabilityHeader := None; mm_fragmentationHeader := None;
                     mm_data := ztake dataSize data; mm_dataOffset := dataStart |}
        else
          '(comp, r) ← decode_compression msgType r;
          let dataOffset := dataStart + if_present comp 4 in
          '(rel, r) ← decode_reliability (negb (Z.land msgType MSG_DATA_RELIABILITY_MASK =? 0)) r;
          let dataOffset := dataOffset + rel_size rel in
          '(frag, r) ← decode_fragmentation (negb (Z.land msgType MSG_DATA_FRAGMENTATION_MASK =? 0)) r;
          let dataOffset := dataOffset + if_present frag 4 in
          '(boundary, r) ← decode_boundary (negb (Z.land msgType MSG_DATA_BOUNDARY_MASK =? 0)) r;
          let dataOffset := dataOffset + if_present boundary 2 in
          let data := readToEnd r in
          let meta (data : list Z) := {| mm_type := MSG_DATA; mm_compressionHeader := comp;
                              mm_reliabilityHeader := rel; mm_fragmentationHeader := frag;
                              mm_data := data; mm_dataOffset := dataOffset |} in
          match boundary with
          | Some b => if len data <? b then Err InvalidData else Ok (meta (ztake b data))
          | None => Ok (meta data)
          end
  end.

Lemma decodeMeta_sliced data udp udpConnId : decodeMeta data udp udpConnId = decodeMeta_slices data udpConnId.
Proof.
  destruct data as [|t data]; [done|]. unfold decodeMeta, decodeMeta_slices.
  destruct (Z.ltb_spec (len (t :: data)) (if udpConnId then 9 else 1)) as [|Hs]; [done|].
  rewrite subspan_ok by lia. cbn [mbind result_bind]. destruct (_ =? 0).
  - destruct (lengthForNonDataMessage _ t) as [n|e|f]; cbn [mbind result_bind]; [|done..].
    destruct (Z.ltb_spec (len (zdrop (if udpConnId then 9 else 1) (t :: data))) n); [done|]. by rewrite subspan_count_ok by lia.
  - destruct (decode_compression _ _) as [[comp r1]|e|f]; cbn [mbind result_bind]; [|done..].
    destruct (decode_reliability _ _) as [[rel r2]|e|f]; cbn [mbind result_bind]; [|done..].
    destruct (decode_fragmentation _ _) as [[frag r3]|e|f]; cbn [mbind result_bind]; [|done..].
    destruct (decode_boundary _ _) as [[[b|] r4]|e|f]; cbn [mbind result_bind]; [|done..].
    destruct (Z.ltb_spec (len (readToEnd r4)) b); [done|]. by rewrite resize_take by lia.
Qed.

Lemma iter_next_slices it :
  iter_next it =
  if it_eof it || (len (it_data it) <=? it_pos it) then (None, it)
  else
    match decodeMeta (zdrop (it_pos it) (it_data it)) true ((it_pos it =? 0) && it_server it) with
    | Ok meta =>
        (Some (Ok meta),
         {| it_data := it_data it; it_pos := it_pos it + (mm_dataOffset meta + len (mm_data meta));
            it_eof := it_eof it; it_server := it_server it |})
    | res => (Some res, it)
    end.
Proof.
  unfold iter_next. destruct (it_eof it); [done|]. cbn [orb]. destruct (Z.leb_spec (len (it_data it)) (it_pos it)); [done|].
  by rewrite subspan_ok by lia.
Qed.
End Inside.

Section Decoders.
Context `{RL : ByteReaderLaws}.

(** *** Reading what was written *)
Lemma parses_compression t c :
  wf_comp c ->
  CompressionType_of_Z (Z.land (Z.shiftr t MSG_DATA_BIT_COMPRESSION_1) 3)
    = from_option ch_type CompNone c ->
  parses (decode_compression t) (comp_bytes c) c.
Proof.
  intros Hwf Ht. unfold decode_compression. rewrite Ht. destruct c as [[ty n]|]; cbn in *.
  - destruct Hwf as [Hty Hn]. rewrite <- (app_nil_r (le_split 4 n)).
    destruct ty; [done|..]; (eapply parses_bind; [eapply parses_map_err, parses_u32, Hn|apply parses_ret]).
  - apply parses_ret.
Qed.

Lemma parses_acks acks : Forall u16_ok acks -> parses (read_list (length acks)) (acks_bytes acks) acks.
Proof.
  unfold acks_bytes. induction 1 as [|a acks Ha Hacks IH]; cbn; [apply parses_ret|].
  eapply parses_bind; [by eapply parses_map_err, parses_u16|].
  rewrite <- (app_nil_r (concat _)). eapply parses_bind; [exact IH|apply parses_ret].
Qed.

Lemma parses_reliability rel b :
  wf_rel rel -> b = bool_decide (is_Some rel) -> parses (decode_reliability b) (rel_bytes rel) rel.
Proof.
  intros Hwf ->. eapply parses_ext; [apply read_reliability|].
  destruct rel as [[id n slots]|]; cbn in *; [|apply parses_ret].
  destruct Hwf as [Hid (acks & Hlen & Hacks & -> & ->)].
  eapply parses_bind; [by eapply parses_map_err, parses_u16|].
  eapply parses_bind; [eapply parses_map_err, parses_u16; lia|].
  rewrite Z.min_l by lia. rewrite ztake_app, Nat2Z.id, <- (app_nil_r (acks_bytes acks)).
  eapply parses_bind; [by apply parses_acks|apply parses_ret].
Qed.

Lemma parses_fragmentation frag b :
  wf_frag frag -> b = bool_decide (is_Some frag) -> parses (decode_fragmentation b) (frag_bytes frag) frag.
Proof.
  intros Hwf ->. unfold decode_fragmentation. destruct frag as [[id n last]|]; cbn in *; [|apply parses_ret].
  destruct Hwf as [Hid Hn]. destruct (flag_split n 15 last Hn) as (Hz & Hlow & Hhigh).
  eapply parses_bind; [by eapply parses_map_err, parses_u16|].
  change (if last then 32768 else 0) with (if last then 2 ^ 15 else 0).
  rewrite <- (app_nil_r (le_split 2 (Z.lor _ _))).
  eapply parses_bind; [by eapply parses_map_err, parses_u16|].
  change 32767 with (Z.ones 15). change 32768 with (2 ^ 15). rewrite Hlow, Hhigh. apply parses_ret.
Qed.

(** *** What each header reader consumes *)
(** The flags of a first byte say which headers follow it. *)
Record header_flags (t : Z) (comp : option CompressionHeader) (rel : option ReliabilityHeader)
    (frag : option FragmentationHeader) (bnd : bool) : Prop := {
  flag_data : (Z.land t MSG_DATA_MASK =? 0) = false;
  flag_comp : CompressionType_of_Z (Z.land (Z.shiftr t MSG_DATA_BIT_COMPRESSION_1) 3)
                = from_option ch_type CompNone comp;
  flag_rel : negb (Z.land t MSG_DATA_RELIABILITY_MASK =? 0) = bool_decide (is_Some rel);
  flag_frag : negb (Z.land t MSG_DATA_FRAGMENTATION_MASK =? 0) = bool_decide (is_Some frag);
  flag_boundary : negb (Z.land t MSG_DATA_BOUNDARY_MASK =? 0) = bnd;
}.

Lemma data_header_flags m frag :
  wf_comp (dm_compHeader m) ->
  header_flags (Z.lor (data_header_byte m false) (if bool_decide (is_Some frag) then 32 else 0))
    (dm_compHeader m) (dm_relHeader m) frag false.
Proof.
  unfold data_header_byte. intros Hc.
  destruct (dm_compHeader m) as [[[] n]|], (dm_relHeader m), frag; cbn in Hc;
    first [by destruct Hc | by constructor].
Qed.

Lemma parses_boundary (bnd : bool) n :
  (bnd = true -> 0 <= n < 2 ^ 16) ->
  parses (decode_boundary bnd) (if bnd then le_split 2 n else []) (if bnd then Some n else None).
Proof.
  intros Hn. unfold decode_boundary. destruct bnd; [|apply parses_ret].
  rewrite <- (app_nil_r (le_split 2 n)).
  eapply parses_bind; [by eapply parses_map_err, parses_u16, Hn|apply parses_ret].
Qed.

(** What [decodeMeta] makes of the bytes of a data message: its payload ends
    at the boundary when there is one, and with the input otherwise. *)
Lemma decodeMeta_build t conn comp rel frag (bnd : bool) payload tail udp (server : bool) :
  header_flags t comp rel frag bnd -> wf_comp comp -> wf_rel rel -> wf_frag frag ->
  length conn = (if server then 8 else 0)%nat ->
  (if bnd then len payload < 2 ^ 16 else tail = []) ->
  decodeMeta (t :: conn ++ comp_bytes comp ++ rel_bytes rel ++ frag_bytes frag ++
              (if bnd then le_split 2 (len payload) else []) ++ payload ++ tail) udp server
  = Ok {| mm_type := MSG_DATA; mm_compressionHeader := comp; mm_reliabilityHeader := rel;
          mm_fragmentationHeader := frag; mm_data := payload;
          mm_dataOffset := (if server then 9 else 1) + if_present comp 4 + rel_size rel
                           + if_present frag 4 + (if bnd then 2 else 0) |}.
Proof.
  intros Hf Hc Hr Hg Hconn Hbnd. rewrite decodeMeta_sliced. unfold decodeMeta_slices.
  set (rest := comp_bytes comp ++ _).
  assert (Hstart : (if server then 9 else 1) = len (t :: conn)).
  { cbn [length]. rewrite Hconn. by destruct server. }
  change (t :: conn ++ rest) with ((t :: conn) ++ rest). rewrite Hstart.
  rewrite (proj2 (Z.ltb_ge (len ((t :: conn) ++ rest)) (len (t :: conn)))) by len_lia.
  rewrite zdrop_app, (flag_data _ _ _ _ _ Hf). cbv beta zeta.
  pose proof (parses_compression t comp Hc (flag_comp _ _ _ _ _ Hf)) as Pc.
  pose proof (parses_reliability rel _ Hr (flag_rel _ _ _ _ _ Hf)) as Pr.
  pose proof (parses_fragmentation frag _ Hg (flag_frag _ _ _ _ _ Hf)) as Pg.
  assert (bnd = true -> 0 <= len payload < 2 ^ 16) as Hn by (intros ->; lia).
  pose proof (parses_boundary bnd (len payload) Hn) as Pb.
  destruct (Pc (reader_of rest) _ (unread_of rest)) as (r1 & -> & E1). cbn.
  destruct (Pr r1 _ E1) as (r2 & -> & E2). cbn.
  destruct (Pg r2 _ E2) as (r3 & -> & E3). cbn.
  rewrite (flag_boundary _ _ _ _ _ Hf).
  destruct (Pb r3 _ E3) as (r4 & -> & E4). cbn. rewrite readToEnd_law, E4.
  destruct bnd; cbn.
  - rewrite (proj2 (Z.ltb_ge _ _)) by len_lia. by rewrite ztake_app.
  - by rewrite Hbnd, app_nil_r, Z.add_0_r.
Qed.
End Decoders.

(** ** Round trips *)
Section RoundTrip.
Context `{WL : ByteWriterLaws, RL : ByteReaderLaws}.

Lemma rel_bytes_length rel : wf_rel rel -> len (rel_bytes rel) = rel_size rel.
Proof.
  destruct rel as [[i n slots]|]; [|done]. cbn. intros (_ & acks & ? & _ & -> & ->).
  rewrite Z.min_l, ztake_app, !length_app, !length_le_split by lia. unfold acks_bytes.
  assert (length (concat (le_split 2 <$> acks)) = 2 * length acks)%nat as ->; [|lia].
  clear. induction acks; cbn; rewrite ?length_app, ?length_le_split; lia.
Qed.

(** The datagram of an unfragmented data message ([UdpTransport.cpp], line
    249, and the streams): the header, then the data. *)
Definition data_frame (m : DataMessage) (connectionId : Z) : result string (list Z) :=
  w ← encodeDataHeader (MData m) connectionId false new_writer;
  Ok (written (writeBytes (dm_data m) w)).

Lemma data_frame_bytes m id :
  data_frame m id = Ok (data_header_bytes m id false ++ dm_data m).
Proof.
  unfold data_frame. destruct (encodeDataHeader_written m id false new_writer) as (w & -> & Hw).
  cbn. by rewrite writeBytes_law, Hw, written_new.
Qed.

(** Encoding, then decoding. *)
Lemma data_frame_decoded m connectionId udp :
  wf_data m -> 0 <= connectionId < 2 ^ 64 ->
  (connectionId <> 0 -> dm_compHeader m = None) ->
  exists bytes, data_frame m connectionId = Ok bytes /\
    decodeMeta bytes udp (negb (connectionId =? 0))
    = Ok {| mm_type := MSG_DATA; mm_compressionHeader := dm_compHeader m;
            mm_reliabilityHeader := dm_relHeader m; mm_fragmentationHeader := None;
            mm_data := dm_data m;
            mm_dataOffset := len bytes - len (dm_data m) |}.
Proof.
  intros [Hc Hr] Hid Hconn. eexists. split; [apply data_frame_bytes|].
  assert (Hlen : length (conn_bytes connectionId)
                 = (if negb (connectionId =? 0)%Z then 8 else 0)%nat).
  { unfold conn_bytes. destruct (connectionId =? 0); cbn; [done|apply length_le_split]. }
  assert (Hbytes : data_header_bytes m connectionId false ++ dm_data m =
    data_header_byte m false :: conn_bytes connectionId ++ comp_bytes (dm_compHeader m)
      ++ rel_bytes (dm_relHeader m) ++ frag_bytes None ++ dm_data m).
  { unfold data_header_bytes. cbn. rewrite <- !app_assoc. f_equal. unfold conn_bytes.
    destruct (Z.eqb_spec connectionId 0) as [|Hne]; [done|]. by rewrite (Hconn Hne). }
  rewrite Hbytes. pose proof (data_header_flags m None Hc) as Hf. cbn in Hf. rewrite Z.lor_0_r in Hf.
  rewrite <- (app_nil_r (dm_data m)) at 1.
  rewrite (decodeMeta_build _ _ _ _ None false (dm_data m) []) by (done || exact I). do 2 f_equal.
  cbn. rewrite !length_app, Hlen.
  rewrite <- (rel_bytes_length (dm_relHeader m) Hr).
  destruct (dm_compHeader m); cbn; rewrite ?length_le_split; destruct (connectionId =? 0); cbn; lia.
Qed.

(** C13. A data message that is encoded without a connection identifier (TCP,
    QUIC, WebSocket), or with one and no compression header, is decoded to
    the same headers and the same data, with the offset at which the data
    starts. *)
Theorem data_message_roundtrip m connectionId udp :
  wf_data m -> 0 <= connectionId < 2 ^ 64 ->
  (connectionId <> 0 -> dm_compHeader m = None) ->
  exists bytes, data_frame m connectionId = Ok bytes /\
    decodeMeta bytes udp (negb (connectionId =? 0))
    = Ok {| mm_type := MSG_DATA; mm_compressionHeader := dm_compHeader m;
            mm_reliabilityHeader := dm_relHeader m; mm_fragmentationHeader := None;
            mm_data := dm_data m;
            mm_dataOffset := len bytes - len (dm_data m) |}.
Proof. apply data_frame_decoded. Qed.

(** C38. The encoder writes the uncompressed size before the connection
    identifier, the decoder looks for the identifier first: whatever the
    uncompressed size was, a compressed message decoded with an identifier
    reports the high half of the identifier as its uncompressed size. *)
Theorem compressed_with_connection_id_misread m ch connectionId udp :
  wf_data m -> dm_compHeader m = Some ch -> 0 < connectionId < 2 ^ 64 ->
  exists bytes meta, data_frame m connectionId = Ok bytes /\
    decodeMeta bytes udp true = Ok meta /\
    ch_uncompressedSize <$> mm_compressionHeader meta = Some (connectionId / 2 ^ 32).
Proof.
  intros [Hc Hr] Hch Hid. destruct ch as [ty n]. do 2 eexists. split; [apply data_frame_bytes|].
  unfold data_header_bytes. rewrite Hch in *. cbn [comp_bytes ch_uncompressedSize].
  assert (Hsplit : conn_bytes connectionId = le_split 4 connectionId ++ le_split 4 (connectionId / 2 ^ 32)).
  { unfold conn_bytes. destruct (Z.eqb_spec connectionId 0); [lia|]. unfold le_split.
    rewrite !Z.div_div by lia. reflexivity. }
  pose proof (data_header_flags m None) as Hf. rewrite Hch in Hf. specialize (Hf Hc).
  cbn [bool_decide] in Hf. rewrite bool_decide_eq_false_2, Z.lor_0_r in Hf by (by intros []).
  pose proof (decodeMeta_build (data_header_byte m false) (le_split 4 n ++ le_split 4 connectionId)
    (Some {| ch_type := ty; ch_uncompressedSize := connectionId / 2 ^ 32 |}) (dm_relHeader m) None
    false (dm_data m) [] udp true) as HB. cbn in HB. rewrite app_nil_r in HB.
  rewrite Hsplit. cbn. rewrite <- !app_assoc in *. split; [apply HB|done].
  - destruct Hf as [? ? ? ? ?]. by constructor.
  - split; [apply Hc|]. cbn. split; [apply Z.div_pos; lia|apply Z.div_lt_upper_bound; lia].
  - done.
  - done.
  - by rewrite length_app, !length_le_split.
  - done.
Qed.

(** *** Control messages *)
Lemma decodeMeta_control t conn body udp (server : bool) :
  (Z.land t MSG_DATA_MASK =? 0) = true -> length conn = (if server then 8 else 0)%nat ->
  decodeMeta (t :: conn ++ body) udp server =
    (dataSize ← lengthForNonDataMessage (reader_of body) t;
     if len body <? dataSize then Err NotEnoughData
     else Ok {| mm_type := t; mm_compressionHeader := None;
                mm_reliabilityHeader := None; mm_fragmentationHeader := None;
                mm_data := ztake dataSize body; mm_dataOffset := if server then 9 else 1 |}).
Proof.
  intros Ht Hconn. rewrite decodeMeta_sliced. unfold decodeMeta_slices.
  assert (Hstart : (if server then 9 else 1) = len (t :: conn)).
  { cbn [length]. rewrite Hconn. by destruct server. }
  change (t :: conn ++ body) with ((t :: conn) ++ body). rewrite Hstart.
  rewrite (proj2 (Z.ltb_ge (len ((t :: conn) ++ body)) (len (t :: conn)))) by (rewrite length_app; lia).
  by rewrite zdrop_app, Ht.
Qed.

Lemma conn_bytes_length id : length (conn_bytes id) = (if negb (id =? 0)%Z then 8 else 0)%nat.
Proof. unfold conn_bytes. destruct (id =? 0); cbn; [done|apply length_le_split]. Qed.

Lemma encodeControlHeader_written msg t id w :
  headerByte (E := string) msg = Ok t -> 0 <= t < 256 ->
  exists w', encodeControlHeader msg id w = Ok w' /\ written w' = written w ++ t :: conn_bytes id.
Proof.
  intros Ht Hrange. unfold encodeControlHeader. rewrite Ht. eexists. split; [reflexivity|].
  unfold conn_bytes. destruct (id =? 0);
    rewrite ?writeU64_law, writeU8_law, le_split_1, <- ?app_assoc by done; done.
Qed.

(** The control messages that a client sends, connection control apart. *)
Definition wf_control (msg : QunetMessage) : Prop :=
  match msg with
  | MKeepalive m => 0 <= ka_timestamp m < 2 ^ 64
  | MHandshakeStart m => length (hs_qdbHash m) = 16%nat
  | MConnectionError m => 0 <= ce_errorCode m < 2 ^ 32
  | MClientClose _ | MClientReconnect _ => True
  | _ => False
  end.

Definition control_body (msg : QunetMessage) : list Z :=
  match msg with
  | MKeepalive m => le_split 8 (ka_timestamp m) ++ [0]
  | MHandshakeStart m => le_split 2 (major (hs_protocolVersion m)) ++
      le_split 2 (minor (hs_protocolVersion m)) ++ le_split 2 (hs_fragLimit m) ++ hs_qdbHash m
  | MClientClose _ => [0]
  | MClientReconnect m => le_split 8 (cr_connectionId m)
  | MConnectionError m => le_split 4 (ce_errorCode m)
  | _ => []
  end.

Lemma encodeControlMsg_written msg t id w :
  wf_control msg -> headerByte (E := string) msg = Ok t ->
  exists w', encodeControlMsg msg id w = Ok w' /\
    written w' = written w ++ t :: conn_bytes id ++ control_body msg.
Proof.
  intros Hwf Ht. unfold encodeControlMsg.
  assert (0 <= t < 256) as Hrange by (destruct msg; simplify_eq/=; unfold MSG_KEEPALIVE,
    MSG_HANDSHAKE_START, MSG_CLIENT_CLOSE, MSG_CLIENT_RECONNECT, MSG_CONNECTION_ERROR; lia).
  destruct (encodeControlHeader_written msg t id w Ht Hrange) as (w1 & -> & Hw1). cbn.
  destruct msg; try done; cbn; eexists; (split; [reflexivity|]);
    wrote; rewrite Hw1, <- ?app_assoc; done.
Qed.

Lemma control_length r msg t :
  wf_control msg -> headerByte (E := string) msg = Ok t ->
  lengthForNonDataMessage r t = Ok (len (control_body msg)) /\ (Z.land t MSG_DATA_MASK =? 0) = true.
Proof.
  intros Hwf Ht. destruct msg; simplify_eq/=; (split; [|done]); autorewrite with qn_len; try done.
  by rewrite Hwf.
Qed.

Lemma parses_keepalive ts :
  0 <= ts < 2 ^ 64 -> parses KeepaliveMessage_decode (le_split 8 ts ++ [0]) {| ka_timestamp := ts |}.
Proof.
  intros Hts. unfold KeepaliveMessage_decode. eapply parses_bind; [by apply parses_u64|].
  change [0] with (le_split 1 0 ++ []). eapply parses_bind; [by apply parses_u8|apply parses_ret].
Qed.

Lemma control_decoded msg t off :
  wf_control msg -> headerByte (E := string) msg = Ok t ->
  decodeWithMeta {| mm_type := t; mm_compressionHeader := None; mm_reliabilityHeader := None;
                    mm_fragmentationHeader := None; mm_data := control_body msg;
                    mm_dataOffset := off |}
  = match msg with
    | MKeepalive _ | MConnectionError _ => Ok msg
    | _ => Err InvalidMessageType
    end.
Proof.
  intros Hwf Ht. destruct msg as [[ts]| | | | | | | |[code]| | | | |]; try done; injection Ht as <-;
    try done; unfold decodeWithMeta, as_message; cbn [mm_type mm_data MSG_KEEPALIVE MSG_CONNECTION_ERROR].
  - destruct (parses_keepalive ts Hwf (reader_of (le_split 8 ts ++ [0])) []) as (r' & E & _).
    { by rewrite unread_of, app_nil_r. }
    change (control_body _) with (le_split 8 ts ++ [0]). by rewrite E.
  - destruct (parses_u32 code Hwf (reader_of (le_split 4 code)) []) as (r' & E & _).
    { by rewrite unread_of, app_nil_r. }
    change (control_body _) with (le_split 4 code). unfold ConnectionErrorMessage_decode. by rewrite E.
Qed.

(** A message that has an encoder. *)
Definition sendable (m : QunetMessage) : bool :=
  match m with
  | MData _ | MKeepalive _ | MHandshakeStart _ | MClientClose _ | MClientReconnect _ | MConnectionError _
  | MConnectionControl _ => true
  | _ => false
  end.

Lemma headerByte_sendable {E} m : sendable m = true -> is_fault (headerByte (E := E) m) = false.
Proof. by destruct m. Qed.

(** The part of a message that has no fixed size. *)
Definition body_size (m : QunetMessage) : Z :=
  match m with
  | MData m => len (dm_data m)
  | MHandshakeStart m => len (hs_qdbHash m)
  | MConnectionControl (PMTUDProbe data) => len data
  | _ => 0
  end.

(** It is encoded whatever its fields, after what is written already. *)
Lemma encode_control_total msg connectionId w :
  sendable msg = true -> match msg with MData _ => False | _ => True end ->
  exists w' bs, encodeControlMsg msg connectionId w = Ok w' /\ written w' = written w ++ bs /\ len bs <= body_size msg + 32.
Proof.
  intros Hs Hm. unfold encodeControlMsg, encodeControlHeader.
  assert (forall b, exists bs, written (if connectionId =? 0 then writeU8 b w else writeU64 connectionId (writeU8 b w)) = written w ++ bs
    /\ len bs <= 9) as H by (intros b; destruct (_ =? 0); wrote; rewrite <- ?app_assoc; eexists; (split; [reflexivity|len_lia])).
  destruct msg as [| | | | | | | | | | |[]| |]; try done; cbn [headerByte mbind result_bind];
    match goal with |- context [writeU8 ?b w] => destruct (H b) as (bs & Hb & Hl); generalize dependent (writeU8 b w) end;
    intros w0 Hb; cbn; eexists; eexists; (split; [reflexivity|]); wrote; rewrite Hb, <- ?app_assoc; (split; [reflexivity|len_lia]).
Qed.

Lemma length_acks_bytes acks : len (acks_bytes acks) = 2 * len acks.
Proof. unfold acks_bytes. induction acks as [|a acks IH]; [done|]. cbn [fmap list_fmap concat]. len_lia. Qed.

Lemma length_data_header m connectionId omit : len (data_header_bytes m connectionId omit) <= 34.
Proof.
  assert (len (rel_bytes (dm_relHeader m)) <= 20) as Hr.
  { unfold rel_bytes. destruct (dm_relHeader m) as [h|]; [|cbn; lia].
    rewrite !length_app, !length_le_split, !Nat2Z.inj_add, length_acks_bytes. len_lia. }
  assert (len (conn_bytes connectionId) <= 8) by (unfold conn_bytes; destruct (_ =? 0); rewrite ?length_le_split; cbn [length]; lia).
  assert (len (comp_bytes (dm_compHeader m)) <= 4) by (unfold comp_bytes; destruct (dm_compHeader m); rewrite ?length_le_split; cbn [length]; lia).
  unfold data_header_bytes. destruct omit; len_lia.
Qed.

(** C14. Each control message the client sends is delimited by the length
    table whatever follows it (padding, another message), under the type
    that its header byte announces; the two kinds that can be decoded are
    decoded to themselves. *)
Theorem control_message_roundtrip msg connectionId tail udp :
  wf_control msg ->
  exists w meta, encodeControlMsg msg connectionId new_writer = Ok w /\
    decodeMeta (written w ++ tail) udp (negb (connectionId =? 0)) = Ok meta /\
    headerByte (E := string) msg = Ok (mm_type meta) /\
    mm_dataOffset meta + len (mm_data meta) = len (written w) /\
    decodeWithMeta meta =
      match msg with
      | MKeepalive _ | MConnectionError _ => Ok msg
      | _ => Err InvalidMessageType
      end.
Proof.
  intros Hwf. destruct (headerByte (E := string) msg) as [t| |] eqn:Ht; [|by destruct msg..].
  destruct (encodeControlMsg_written msg t connectionId new_writer Hwf Ht) as (w & Hw & Hwr).
  destruct (control_length (reader_of (control_body msg ++ tail)) msg t Hwf Ht) as [Hlen Hmask].
  do 2 eexists. split; [exact Hw|]. rewrite Hwr, written_new. cbn [app].
  rewrite <- !app_assoc, decodeMeta_control by (done || apply conn_bytes_length).
  rewrite Hlen. cbn. rewrite (proj2 (Z.ltb_ge _ _)) by len_lia. split; [reflexivity|]. cbn.
  rewrite ztake_app.
  split; [done|]. split.
  { autorewrite with qn_len. rewrite conn_bytes_length. destruct (connectionId =? 0); cbn; lia. }
  by apply control_decoded.
Qed.

Lemma ConnectionControl_decode_size r m r' :
  ConnectionControlMessage_decode r = Ok (m, r') ->
  4 + match m with SetMTU _ => 0 | PMTUDProbe data => len data end <= len (unread r).
Proof.
  unfold ConnectionControlMessage_decode. intros H. run_reader.
  destruct (_ =? QUNET_CONNCTL_SET_MTU); [run_reader; len_lia|].
  destruct (_ =? QUNET_CONNCTL_PMTUD_PROBE); [run_reader; len_lia|done].
Qed.

(** A connection control message is never read back as itself: its code
    is written as one byte and read as two. *)
Theorem connection_control_not_decodable m connectionId udp :
  exists w, encodeControlMsg (MConnectionControl m) connectionId new_writer = Ok w /\
    (decodeMeta (written w) udp (negb (connectionId =? 0)) ≫= decodeWithMeta) <> Ok (MConnectionControl m).
Proof.
  unfold encodeControlMsg.
  destruct (encodeControlHeader_written (MConnectionControl m) 16 connectionId new_writer)
    as (w & -> & Hw); [done|done|]. rewrite written_new in Hw. cbn in Hw.
  assert (exists w' body, encode (MConnectionControl m) w = Ok w' /\
    written w' = 16 :: conn_bytes connectionId ++ body /\
    len body < 4 + match m with SetMTU _ => 0 | PMTUDProbe data => len data end)
    as (w' & body & He & Hw' & Hlen).
  { destruct m; do 2 eexists; (split; [reflexivity|]);
      rewrite ?writeBytes_law, writeU16_law, writeU8_law, Hw, <- !app_assoc; cbn [app];
      (split; [reflexivity|]); len_lia. }
  exists w'. split; [exact He|]. intros Hall. apply bind_ok in Hall as (meta & Hmeta & Hdec).
  rewrite Hw', decodeMeta_control in Hmeta by (done || apply conn_bytes_length).
  apply bind_ok in Hmeta as (n & _ & Hmeta). destruct (len body <? n); [done|]. injection Hmeta as <-.
  unfold decodeWithMeta, as_message in Hdec. cbn in Hdec.
  apply bind_ok in Hdec as ([m' r'] & Hd & [= ->]). apply map_invalid_ok in Hd.
  apply ConnectionControl_decode_size in Hd. len_lia.
Qed.
End RoundTrip.

(** ** The round trips on concrete messages *)
Definition example_data : DataMessage :=
  {| dm_data := [1; 2; 3]; dm_compHeader := Some {| ch_type := Lz4; ch_uncompressedSize := 300 |};
     dm_relHeader := Some {| rh_messageId := 5; rh_ackCount := 2; rh_acks := [7; 9; 0; 0; 0; 0; 0; 0] |} |}.

Lemma example_data_wf : wf_data example_data.
Proof.
  split; cbn; [by split|]. split; [done|]. exists [7; 9]. split; [cbn; lia|].
  split; [by repeat constructor|done].
Qed.

Lemma data_message_roundtrip_witness :
  exists bytes, data_frame example_data 0 = Ok bytes /\
    decodeMeta bytes true false
    = Ok {| mm_type := 128; mm_compressionHeader := dm_compHeader example_data;
            mm_reliabilityHeader := dm_relHeader example_data; mm_fragmentationHeader := None;
            mm_data := [1; 2; 3]; mm_dataOffset := len bytes - 3 |}.
Proof. apply (data_message_roundtrip example_data 0 true); [apply example_data_wf|lia|done]. Defined.

Lemma compressed_with_connection_id_misread_witness :
  exists bytes meta, data_frame example_data (2 ^ 40 + 5) = Ok bytes /\
    decodeMeta bytes true true = Ok meta /\
    ch_uncompressedSize <$> mm_compressionHeader meta = Some 256.
Proof.
  apply (compressed_with_connection_id_misread example_data {| ch_type := Lz4; ch_uncompressedSize := 300 |}
    (2 ^ 40 + 5) true); [apply example_data_wf|done|lia].
Defined.

Lemma control_message_roundtrip_witness :
  exists w meta, encodeControlMsg (MKeepalive {| ka_timestamp := 99 |}) 7 new_writer = Ok w /\
    decodeMeta (written w ++ [127; 0; 0]) true true = Ok meta /\
    Ok (E := string) 3 = Ok (mm_type meta) /\
    mm_dataOffset meta + len (mm_data meta) = len (written w) /\
    decodeWithMeta meta = Ok (MKeepalive {| ka_timestamp := 99 |}).
Proof. apply (control_message_roundtrip (MKeepalive {| ka_timestamp := 99 |}) 7 [127; 0; 0] true). cbn. lia. Defined.

Lemma connection_control_not_decodable_witness :
  exists w, encodeControlMsg (MConnectionControl (SetMTU 1400)) 0 new_writer = Ok w /\
    (decodeMeta (written w) true false ≫= decodeWithMeta) <> Ok (MConnectionControl (SetMTU 1400)).
Proof. apply (connection_control_not_decodable (SetMTU 1400) 0 true). Defined.
