(* ===== verification/CodecSafety.v ===== *)
(** * Safety of the message decoder

    What [decodeMeta], [decodeWithMeta] and the datagram iterator do with
    arbitrary bytes: they never throw nor read out of range, the payload is a
    slice of the input, the iterator advances, and a message that the length
    table delimits can be decoded. *)
From S2P Require Import Prelude Dbuf Messages Codec CodecSpec.

#[local] Arguments decodeMeta : simpl never.

(** The bytes of a reliability header that are read: at most eight
    acknowledgements. *)
Definition rel_consumed (rel : option ReliabilityHeader) : Z :=
  match rel with Some h => 4 + 2 * Z.max 0 (Z.min (rh_ackCount h) 8) | None => 0 end.

Lemma rel_size_consumed rel :
  (forall h, rel = Some h -> 0 <= rh_ackCount h) ->
  rel_size rel = rel_consumed rel + 2 * Z.max 0 (from_option rh_ackCount 0 rel - 8).
Proof. destruct rel as [h|]; cbn; [|lia]. intros H. specialize (H h eq_refl). lia. Qed.

Section Total.
Context `{RL : ByteReaderLaws}.

(** Nothing in the decoders throws: every primitive read is total. *)
Lemma map_invalid_total {A} (m : result read_error A) : is_fault m = false -> is_fault (map_invalid m) = false.
Proof. intros H. unfold map_invalid. by rewrite map_err_fault. Qed.

Lemma readU8_total r : is_fault (readU8 r) = false.
Proof. rewrite readU8_law. apply reads_total. Qed.
Lemma readU16_total r : is_fault (readU16 r) = false.
Proof. rewrite readU16_law. apply reads_total. Qed.
Lemma readU32_total r : is_fault (readU32 r) = false.
Proof. rewrite readU32_law. apply reads_total. Qed.
Lemma readU64_total r : is_fault (readU64 r) = false.
Proof. rewrite readU64_law. apply reads_total. Qed.
Lemma readBytes_total n r : is_fault (readBytes n r) = false.
Proof. rewrite readBytes_law. apply reads_total. Qed.
Lemma skip_total n r : is_fault (skip n r) = false.
Proof. rewrite skip_law. apply reads_total. Qed.
Lemma readString_total r : is_fault (readString r) = false.
Proof.
  rewrite readString_law. apply bind_not_fault; [apply readU16_total|]. intros [n ?] _. apply readBytes_total.
Qed.
End Total.

Create HintDb total.
#[export] Hint Resolve readU8_total readU16_total readU32_total readU64_total readBytes_total skip_total
  readString_total readBool_total map_invalid_total reads_total : total.

(** Follows a decoder through its reads and its tests. *)
Ltac not_faulty :=
  repeat first
    [ reflexivity
    | solve [auto with total]
    | match goal with
      | |- is_fault (mbind _ _) = false => apply bind_not_fault; [solve [auto with total]|intros [? ?] _]
      | |- is_fault (map_invalid _) = false => apply map_invalid_total
      | |- is_fault (if ?b then _ else _) = false => destruct b
      | |- is_fault (match ?x with _ => _ end) = false => destruct x
      end ].

Section Decoders.
Context `{RL : ByteReaderLaws}.

Lemma length_total r t : is_fault (lengthForNonDataMessage r t) = false.
Proof.
  unfold lengthForNonDataMessage. cbn.
  assert (is_fault (length_pong r) = false) by (unfold length_pong; not_faulty).
  assert (is_fault (length_keepalive_response r) = false)
    by (unfold length_keepalive_response; not_faulty).
  assert (is_fault (length_handshake_finish r) = false)
    by (unfold length_handshake_finish; not_faulty).
  assert (is_fault (length_error_code r) = false) by (unfold length_error_code; not_faulty).
  assert (is_fault (length_qdb_chunk_response r) = false)
    by (unfold length_qdb_chunk_response; not_faulty).
  assert (is_fault (length_connection_control r) = false)
    by (unfold length_connection_control; not_faulty).
  repeat case_match; done.
Qed.

Lemma read_list_total n r : is_fault (read_list n r) = false.
Proof.
  revert r. induction n as [|n IH]; intros r; cbn; [done|].
  apply bind_not_fault; [auto with total|]. intros [a r1] _.
  apply bind_not_fault; [apply IH|]. by intros [? ?] _.
Qed.

Lemma compression_total t r : is_fault (decode_compression t r) = false.
Proof. unfold decode_compression. not_faulty. Qed.
Lemma reliability_total b r : is_fault (decode_reliability b r) = false.
Proof.
  rewrite read_reliability. destruct b; [|done].
  apply bind_not_fault; [auto with total|]. intros [id r1] _.
  apply bind_not_fault; [auto with total|]. intros [n r2] _.
  apply bind_not_fault; [apply read_list_total|]. by intros [? ?] _.
Qed.
Lemma fragmentation_total b r : is_fault (decode_fragmentation b r) = false.
Proof. unfold decode_fragmentation. not_faulty. Qed.
Lemma boundary_total b r : is_fault (decode_boundary b r) = false.
Proof. unfold decode_boundary. not_faulty. Qed.

Lemma decodeMeta_total data udp udpConnId :
  data <> [] -> is_fault (decodeMeta data udp udpConnId) = false.
Proof.
  intros Hne. rewrite decodeMeta_sliced. destruct data as [|t data]; [done|]. unfold decodeMeta_slices.
  destruct (_ <? _); [done|]. destruct (_ =? 0).
  { apply bind_not_fault; [apply length_total|]. intros n _. by destruct (_ <? _). }
  apply bind_not_fault; [apply compression_total|]. intros [comp r1] _.
  apply bind_not_fault; [apply reliability_total|]. intros [rel r2] _.
  apply bind_not_fault; [apply fragmentation_total|]. intros [frag r3] _.
  apply bind_not_fault; [apply boundary_total|]. intros [[b|] r4] _; [|done].
  by destruct (_ <? _).
Qed.

Lemma decodeWithMeta_total meta : is_fault (decodeWithMeta meta) = false.
Proof.
  unfold decodeWithMeta. destruct (negb _); [done|].
  unfold as_message, KeepaliveMessage_decode, KeepaliveResponseMessage_decode,
    HandshakeFinishMessage_decode, HandshakeFailureMessage_decode, ServerCloseMessage_decode,
    ConnectionErrorMessage_decode, ConnectionControlMessage_decode, QdbData_decode,
    error_code_decode, readBytes_if_any.
  assert (F : forall A (k : A -> QunetMessage) d, is_fault d = false ->
             is_fault ('(a, _) ← @map_invalid (A * reader) d; Ok (k a)) = false).
  { intros A k d Hd. apply bind_not_fault; [by apply map_invalid_total|]. by intros [? ?] _. }
  repeat case_match; try done; apply F.
  all: repeat (reflexivity || (apply bind_not_fault; [|intros [? ?] _]) || not_faulty).
Qed.


(** *** How far each header reader moves *)
Lemma moved_reads {A} w (f : list Z -> A) d r a r' :
  (forall r, d r = reads unread advance w f r) -> 0 <= w -> d r = Ok (a, r') -> moved w r r'.
Proof. intros Hd Hw H. rewrite Hd in H. apply reads_ok in H as (? & _ & ->). apply moved_advance. lia. Qed.

Lemma moved_u16 r a r' : map_invalid (readU16 r) = Ok (a, r') -> moved 2 r r'.
Proof. intros H. eapply moved_reads; [apply readU16_law|lia|by apply map_invalid_ok]. Qed.
Lemma moved_u32 r a r' : map_invalid (readU32 r) = Ok (a, r') -> moved 4 r r'.
Proof. intros H. eapply moved_reads; [apply readU32_law|lia|by apply map_invalid_ok]. Qed.

Lemma u16_nonneg r a r' : bytes_ok (unread r) -> map_invalid (readU16 r) = Ok (a, r') -> 0 <= a < 2 ^ 16.
Proof.
  intros Hb H. apply map_invalid_ok in H. rewrite readU16_law in H. apply reads_ok in H as (? & -> & _).
  assert (len (ztake 2 (unread r)) = 2) as E by (rewrite len_ztake; lia).
  pose proof (le_combine_range (ztake 2 (unread r)) ltac:(auto with qn)) as Hr. by rewrite E in Hr.
Qed.

Lemma moved_bytes n r r' : moved n r r' -> bytes_ok (unread r) -> bytes_ok (unread r').
Proof. intros [_ ->]. auto with qn. Qed.

Lemma moved_compression t r c r' : decode_compression t r = Ok (c, r') -> moved (if_present c 4) r r'.
Proof.
  unfold decode_compression. intros H.
  destruct (CompressionType_of_Z _); [by injection H as <- <-; apply moved_0|..];
    apply bind_ok in H as ([n r1] & H1 & [= <- <-]); by apply moved_u32 in H1.
Qed.

Lemma moved_acks n r acks r' :
  read_list n r = Ok (acks, r') -> length acks = n /\ moved (2 * Z.of_nat n) r r'.
Proof.
  revert r acks. induction n as [|n IH]; cbn; intros r acks H.
  { injection H as <- <-. split; [done|apply moved_0]. }
  apply bind_ok in H as ([a r1] & H1 & H). apply bind_ok in H as ([l r2] & H2 & [= <- <-]).
  apply IH in H2 as [<- H2]. split; [done|].
  eapply moved_eq; [eapply moved_trans; [by eapply moved_u16|exact H2]|lia].
Qed.

Lemma moved_reliability b r rel r' :
  decode_reliability b r = Ok (rel, r') -> moved (rel_consumed rel) r r'.
Proof.
  rewrite read_reliability. intros H. destruct b; [|injection H as <- <-; apply moved_0].
  apply bind_ok in H as ([id r1] & H1 & H). apply bind_ok in H as ([n r2] & H2 & H).
  apply bind_ok in H as ([acks r3] & H3 & [= <- <-]). apply moved_acks in H3 as [Hl H3].
  eapply moved_eq; [eapply moved_trans; [by eapply moved_u16|]; eapply moved_trans;
    [by eapply moved_u16|exact H3]|cbn; lia].
Qed.

Lemma reliability_count b r rel r' :
  bytes_ok (unread r) -> decode_reliability b r = Ok (rel, r') ->
  forall h, rel = Some h -> u16_ok (rh_ackCount h) /\ length (rh_acks h) = 8%nat.
Proof.
  rewrite read_reliability. intros Hb H h Hh. destruct b; [|congruence].
  apply bind_ok in H as ([id r1] & H1 & H). apply bind_ok in H as ([n r2] & H2 & H).
  apply bind_ok in H as ([acks r3] & H3 & [= <- <-]). injection Hh as <-. cbn.
  apply moved_acks in H3 as [Hl _]. split.
  - eapply u16_nonneg; [|exact H2]. eapply moved_bytes; [by eapply moved_u16|done].
  - rewrite length_app, length_replicate. lia.
Qed.

Lemma moved_fragmentation b r frag r' :
  decode_fragmentation b r = Ok (frag, r') -> moved (if_present frag 4) r r'.
Proof.
  unfold decode_fragmentation. intros H. destruct b; [|injection H as <- <-; apply moved_0].
  apply bind_ok in H as ([id r1] & H1 & H). apply bind_ok in H as ([i r2] & H2 & [= <- <-]).
  eapply moved_eq; [eapply moved_trans; by eapply moved_u16|done].
Qed.

Lemma moved_boundary b r bnd r' :
  decode_boundary b r = Ok (bnd, r') -> moved (if_present bnd 2) r r'.
Proof.
  unfold decode_boundary. intros H. destruct b; [|injection H as <- <-; apply moved_0].
  apply bind_ok in H as ([n r1] & H1 & [= <- <-]). by eapply moved_u16.
Qed.

Definition skipped_acks (meta : QunetMessageMeta) : Z :=
  2 * Z.max 0 (from_option rh_ackCount 0 (mm_reliabilityHeader meta) - 8).

Lemma decodeMeta_payload data udp udpConnId meta :
  bytes_ok data -> decodeMeta data udp udpConnId = Ok meta ->
  let start := mm_dataOffset meta - skipped_acks meta in
  1 <= start /\ start + len (mm_data meta) <= len data /\
  mm_data meta = ztake (len (mm_data meta)) (zdrop start data).
Proof.
  intros Hb Hdec. rewrite decodeMeta_sliced in Hdec. destruct data as [|t data]; [done|]. unfold decodeMeta_slices in Hdec.
  set (start := if udpConnId then 9 else 1) in *. assert (1 <= start <= 9) by (destruct udpConnId; lia).
  set (whole := t :: data) in *. destruct (Z.ltb_spec (len whole) start); [done|].
  clearbody whole start. destruct (_ =? 0).
  { apply bind_ok in Hdec as (n & _ & Hdec). destruct (Z.ltb_spec (len (zdrop start whole)) n); [done|].
    injection Hdec as <-. unfold skipped_acks. cbn. rewrite Z.sub_0_r. rewrite len_zdrop in * by lia.
    rewrite !len_ztake_max, len_zdrop by lia. split; [lia|]. split; [lia|].
    unfold ztake. f_equal. lia. }
  apply bind_ok in Hdec as ([comp r1] & H1 & Hdec). apply bind_ok in Hdec as ([rel r2] & H2 & Hdec).
  apply bind_ok in Hdec as ([frag r3] & H3 & Hdec). apply bind_ok in Hdec as ([bnd r4] & H4 & Hdec).
  apply moved_compression in H1. assert (Hrel := moved_reliability _ _ _ _ H2).
  assert (Hcount : forall h, rel = Some h -> 0 <= rh_ackCount h).
  { intros h Hh. eapply reliability_count in H2; [apply H2|..|exact Hh].
    eapply moved_bytes; [exact H1|]. rewrite unread_of. auto with qn. }
  apply moved_fragmentation in H3. apply moved_boundary in H4.
  pose proof (moved_trans _ _ _ _ _ H1 (moved_trans _ _ _ _ _ Hrel (moved_trans _ _ _ _ _ H3 H4))) as [Hr Er].
  rewrite unread_of in Hr, Er. rewrite len_zdrop in Hr by lia. rewrite readToEnd_law, Er in Hdec.
  rewrite zdrop_zdrop in Hdec by lia. set (k := start + _) in Hdec.
  assert (exists n, 0 <= n <= len (zdrop k whole) /\ mm_data meta = ztake n (zdrop k whole) /\
    mm_dataOffset meta - skipped_acks meta = k)
    as (n & Hn & Hd & Hoff).
  { unfold skipped_acks. pose proof (rel_size_consumed rel Hcount) as Hs. destruct bnd as [b|].
    - destruct (Z.ltb_spec (len (zdrop k whole)) b); [done|]. injection Hdec as <-. cbn.
      exists (Z.max 0 b). split; [lia|]. split; [unfold ztake; f_equal; lia|]. subst k. cbn in *. lia.
    - injection Hdec as <-. cbn. exists (len (zdrop k whole)). split; [lia|].
      split; [by rewrite ztake_ge|]. subst k. cbn in *. lia. }
  cbv zeta. rewrite Hoff, Hd, len_ztake by done. rewrite len_zdrop in Hn by lia.
  split; [lia|]. split; [lia|done].
Qed.

(** C37. The payload that [decodeMeta] returns is a slice of its input, inside
    it.  It starts at the offset that is reported when the reliability
    header announces at most the eight acknowledgements it can hold; each
    one beyond is counted in the offset without having been read. *)
Theorem decodeMeta_slice data udp udpConnId meta :
  bytes_ok data -> decodeMeta data udp udpConnId = Ok meta ->
  (exists before after, data = before ++ mm_data meta ++ after /\
    len before = mm_dataOffset meta - skipped_acks meta) /\
  (from_option rh_ackCount 0 (mm_reliabilityHeader meta) <= 8 -> skipped_acks meta = 0).
Proof.
  intros Hb H. destruct (decodeMeta_payload _ _ _ _ Hb H) as (H1 & H2 & H3).
  split; [|unfold skipped_acks; lia].
  set (start := mm_dataOffset meta - skipped_acks meta) in *.
  exists (ztake start data), (zdrop (len (mm_data meta)) (zdrop start data)).
  split; [|rewrite len_ztake; lia]. rewrite H3 at 1. rewrite ztake_zdrop. by rewrite ztake_zdrop.
Qed.

(** A decoded compression header names an algorithm. *)
Definition comp_ok (comp : option CompressionHeader) : Prop :=
  forall h, comp = Some h -> ch_type h <> CompNone.

Lemma compression_type t r c r' : decode_compression t r = Ok (c, r') -> comp_ok c.
Proof.
  unfold decode_compression. intros H. destruct (CompressionType_of_Z _); [by injection H as <- <-|..];
    apply bind_ok in H as ([n r1] & H1 & [= <- <-]); by intros h [= <-].
Qed.

Lemma decodeMeta_comp data udp udpConnId meta :
  decodeMeta data udp udpConnId = Ok meta -> comp_ok (mm_compressionHeader meta).
Proof.
  intros H. rewrite decodeMeta_sliced in H. destruct data as [|t data]; [done|]. unfold decodeMeta_slices in H.
  destruct (_ <? _); [done|]. destruct (_ =? 0).
  { apply bind_ok in H as (n & _ & H). destruct (_ <? _); [done|]. by injection H as <-. }
  apply bind_ok in H as ([comp r1] & H1 & H). apply bind_ok in H as ([rel r2] & _ & H).
  apply bind_ok in H as ([frag r3] & _ & H). apply bind_ok in H as ([bnd r4] & _ & H).
  assert (mm_compressionHeader meta = comp) as ->.
  { destruct bnd as [b|]; [destruct (_ <? _); [done|]|]; by injection H as <-. }
  by eapply compression_type.
Qed.

(** The reliability header of a decoded message. *)
Lemma decodeMeta_header data udp udpConnId meta h :
  bytes_ok data -> decodeMeta data udp udpConnId = Ok meta -> mm_reliabilityHeader meta = Some h ->
  u16_ok (rh_ackCount h) /\ length (rh_acks h) = 8%nat.
Proof.
  intros Hb H Hh. rewrite decodeMeta_sliced in H. destruct data as [|t data]; [done|]. unfold decodeMeta_slices in H.
  destruct (_ <? _); [done|]. destruct (_ =? 0).
  { apply bind_ok in H as (n & _ & H). destruct (_ <? _); [done|]. by injection H as <-. }
  apply bind_ok in H as ([comp r1] & H1 & H). apply bind_ok in H as ([rel r2] & H2 & H).
  apply bind_ok in H as ([frag r3] & _ & H). apply bind_ok in H as ([bnd r4] & _ & H).
  assert (rel = Some h) as ->.
  { destruct bnd as [b|]; [destruct (_ <? _); [done|]|]; injection H as <-; exact Hh. }
  eapply reliability_count in H2; [exact H2| |done].
  eapply moved_bytes; [by eapply moved_compression|]. rewrite unread_of. auto with qn.
Qed.
End Decoders.

(** ** The length table and the decoders agree *)
Section Agreement.
Context `{RL : ByteReaderLaws}.

(** A decoder that succeeds consumes some [w] bytes, and does the same on
    any reader limited to at least these [w] bytes. *)
Definition local_decoder {E A} (d : reader -> result E (A * reader)) : Prop :=
  forall r a r', d r = Ok (a, r') -> exists w, moved w r r' /\
    forall m r2, w <= m -> unread r2 = ztake m (unread r) ->
      exists r2', d r2 = Ok (a, r2') /\ unread r2' = ztake (m - w) (unread r').

Lemma zdrop_ztake {A} w m (l : list A) : 0 <= w -> zdrop w (ztake m l) = ztake (m - w) (zdrop w l).
Proof. intros. unfold zdrop, ztake. rewrite skipn_firstn_comm. f_equal. lia. Qed.

Lemma local_reads {A} w (f : list Z -> A) d :
  (forall r, d r = reads unread advance w f r) -> 0 <= w -> local_decoder d.
Proof.
  intros Hd Hw r a r' H. rewrite Hd in H. apply reads_ok in H as (Hlen & -> & ->).
  exists w. split; [by apply moved_advance|]. intros m r2 Hm E.
  exists (advance w r2). rewrite Hd, !unread_advance, E, zdrop_ztake by lia. split; [|done].
  apply reads_ok. rewrite E. split; [rewrite len_ztake_max; lia|]. split; [|done].
  f_equal. unfold ztake. rewrite take_take. f_equal. lia.
Qed.

Lemma local_readBool : local_decoder readBool.
Proof.
  intros r b r' H. destruct (readBool_inv _ _ _ H) as [-> Hlen].
  exists 1. split; [apply moved_advance; lia|]. intros m r2 Hm E.
  destruct (unread r) as [|c tl] eqn:Er; [cbn in Hlen; lia|].
  assert (E2 : unread r2 = c :: ztake (m - 1) tl).
  { rewrite E. unfold ztake. by replace (Z.to_nat m) with (S (Z.to_nat (m - 1))) by lia. }
  pose proof (readBool_local r r2 c tl _ Er E2) as HL. rewrite H in HL.
  destruct (readBool r2) as [[b2 r2']| |] eqn:H2; try discriminate HL.
  injection HL as <-. destruct (readBool_inv _ _ _ H2) as [-> _].
  exists (advance 1 r2). split; [done|]. rewrite !unread_advance, E2, Er. done.
Qed.

Lemma local_bind {E A B} (d : reader -> result E (A * reader)) (k : A -> reader -> result E (B * reader)) :
  local_decoder d -> (forall a, local_decoder (k a)) ->
  local_decoder (fun r => d r ≫= fun '(x, r) => k x r).
Proof.
  intros Hd Hk r b r' H. apply bind_ok in H as ([a r1] & H1 & H2).
  destruct (Hd _ _ _ H1) as (w1 & M1 & L1). destruct (Hk _ _ _ _ H2) as (w2 & M2 & L2).
  exists (w1 + w2). split; [by eapply moved_trans|]. intros m s Hm Es.
  assert (0 <= w1 /\ 0 <= w2) as [? ?] by (destruct M1, M2; lia).
  destruct (L1 m s ltac:(lia) Es) as (s1 & S1 & E1).
  destruct (L2 (m - w1) s1 ltac:(lia) E1) as (s2 & S2 & E2).
  exists s2. cbn beta. rewrite S1. cbn. by rewrite S2, E2, Z.sub_add_distr.
Qed.

Lemma local_ret {E A} (a : A) : local_decoder (fun r => @Ok E _ (a, r)).
Proof.
  intros r b r' [= <- <-]. exists 0. split; [apply moved_0|]. intros m s _ E'. exists s.
  by rewrite Z.sub_0_r.
Qed.

Lemma local_err {E A} (e : E) : local_decoder (fun r => @Err E (A * reader) e).
Proof. by intros r a r' [=]. Qed.

Lemma local_if {E A} (b : bool) (d1 d2 : reader -> result E (A * reader)) :
  local_decoder d1 -> local_decoder d2 -> local_decoder (fun r => if b then d1 r else d2 r).
Proof. by destruct b. Qed.

Lemma local_ext {E A} (d d' : reader -> result E (A * reader)) :
  (forall r, d r = d' r) -> local_decoder d' -> local_decoder d.
Proof.
  intros H Hd' r a r'. rewrite H. intros HH. destruct (Hd' _ _ _ HH) as (w & ? & L).
  exists w. split; [done|]. intros m r2. rewrite H. apply L.
Qed.

(** With unsigned reads, the sizes that are read are not negative, but the
    laws do not know it: a negative size reads nothing. *)
Lemma local_readBytes n : local_decoder (readBytes n).
Proof.
  destruct (Z.le_gt_cases 0 n); [by apply (local_reads n id); [apply readBytes_law|]|].
  apply (local_ext _ (fun r => Ok ([], advance n r))).
  { intros r. rewrite readBytes_law. unfold reads. destruct (Z.leb_spec n (len (unread r))); [|lia].
    unfold id. by rewrite ztake_0 by lia. }
  intros r a r' [= <- <-]. exists 0. split.
  { split; [lia|]. rewrite unread_advance. by rewrite !zdrop_0 by lia. }
  intros m r2 _ E. exists (advance n r2). by rewrite !unread_advance, E, !zdrop_0, Z.sub_0_r by lia.
Qed.

Lemma local_readU8 : local_decoder readU8.
Proof. by eapply local_reads; [apply readU8_law|]. Qed.
Lemma local_readU16 : local_decoder readU16.
Proof. by eapply local_reads; [apply readU16_law|]. Qed.
Lemma local_readU32 : local_decoder readU32.
Proof. by eapply local_reads; [apply readU32_law|]. Qed.
Lemma local_readU64 : local_decoder readU64.
Proof. by eapply local_reads; [apply readU64_law|]. Qed.
Lemma local_readString : local_decoder readString.
Proof.
  eapply local_ext; [apply readString_law|].
  apply (local_bind readU16 (fun n => readBytes n)); [apply local_readU16|apply local_readBytes].
Qed.
End Agreement.

Create HintDb local_decoder.
#[export] Hint Resolve local_readU8 local_readU16 local_readU32 local_readU64 local_readString
  local_readBytes local_readBool local_ret local_err : local_decoder.

Ltac local_step :=
  first [ solve [auto with local_decoder]
        | refine (local_bind _ (fun _ _ => _) _ _); [|intros]
        | refine (local_bind _ _ _ _); [|intros]
        | apply local_if ].

Section LocalMessages.
Context `{RL : ByteReaderLaws}.

Lemma local_KeepaliveMessage : local_decoder KeepaliveMessage_decode.
Proof. repeat local_step. Qed.
Lemma local_readBytes_if_any n : local_decoder (readBytes_if_any n).
Proof. unfold readBytes_if_any. repeat local_step. Qed.
#[local] Hint Resolve local_readBytes_if_any : local_decoder.
Lemma local_KeepaliveResponseMessage : local_decoder KeepaliveResponseMessage_decode.
Proof. repeat local_step. Qed.
Lemma local_QdbData : local_decoder QdbData_decode.
Proof. repeat local_step. Qed.
#[local] Hint Resolve local_QdbData : local_decoder.
Lemma local_HandshakeFinishMessage : local_decoder HandshakeFinishMessage_decode.
Proof. repeat local_step. Qed.
Lemma local_error_code : local_decoder error_code_decode.
Proof. repeat local_step. Qed.
#[local] Hint Resolve local_error_code : local_decoder.
Lemma local_HandshakeFailureMessage : local_decoder HandshakeFailureMessage_decode.
Proof.
  unfold HandshakeFailureMessage_decode. refine (local_bind _ (fun p _ => _) _ _); [auto with local_decoder|].
  intros [code text]. auto with local_decoder.
Qed.
Lemma local_ServerCloseMessage : local_decoder ServerCloseMessage_decode.
Proof.
  unfold ServerCloseMessage_decode. refine (local_bind _ (fun p _ => _) _ _); [auto with local_decoder|].
  intros [code text]. auto with local_decoder.
Qed.
Lemma local_ConnectionErrorMessage : local_decoder ConnectionErrorMessage_decode.
Proof. repeat local_step. Qed.
Lemma local_ConnectionControlMessage : local_decoder ConnectionControlMessage_decode.
Proof. repeat local_step. Qed.

(** *** A length that is accepted covers what the decoder reads *)
Definition covers {A} (d : reader -> result read_error (A * reader)) (r : reader) (n : Z) : Prop :=
  exists a r', d r = Ok (a, r') /\ len (unread r) <= n + len (unread r').

Lemma reads_done {A} w (f : list Z -> A) r :
  w <= len (unread r) -> reads unread advance w f r = Ok (f (ztake w (unread r)), advance w r).
Proof. intros. by apply reads_ok. Qed.

Lemma le_combine_small n r :
  bytes_ok (unread r) -> 0 <= n <= len (unread r) -> 0 <= le_combine (ztake n (unread r)) < 2 ^ (8 * n).
Proof.
  intros Hb Hn. pose proof (le_combine_range (ztake n (unread r)) ltac:(auto with qn)) as H.
  by rewrite len_ztake in H.
Qed.

Lemma bytes_advance n r : bytes_ok (unread r) -> bytes_ok (unread (advance n r)).
Proof. intros. rewrite unread_advance. auto with qn. Qed.
#[local] Hint Resolve bytes_advance : qn.

Ltac goal_reads :=
  repeat (first [rewrite readU8_law | rewrite readU16_law | rewrite readU32_law
                | rewrite readU64_law | rewrite readBytes_law];
          rewrite reads_done by (done || len_lia); cbn).
(** The sizes that were read are not negative. *)
Ltac sizes :=
  repeat match goal with
  | H : context [le_combine (ztake ?n (unread ?r))] |- _ =>
      lazymatch goal with
      | _ : 0 <= le_combine (ztake n (unread r)) < _ |- _ => fail
      | _ => assert (0 <= le_combine (ztake n (unread r)) < 2 ^ (8 * n))
               by (apply le_combine_small; [auto with qn|lia])
      end
  end.

Lemma covers_keepalive_response r n :
  bytes_ok (unread r) -> length_keepalive_response r = Ok n -> covers KeepaliveResponseMessage_decode r n.
Proof.
  intros Hb H. unfold length_keepalive_response in H. unfold map_invalid in H. run_reader. sizes.
  unfold KeepaliveResponseMessage_decode, readBytes_if_any, covers. goal_reads.
  destruct (Z.ltb_spec 0 (le_combine (ztake 2 (unread (advance 8 r))))); goal_reads;
    do 2 eexists; (split; [reflexivity|]); len_lia.
Qed.

Lemma covers_error_code r n :
  bytes_ok (unread r) -> length_error_code r = Ok n -> covers error_code_decode r n.
Proof.
  intros Hb H. unfold length_error_code in H. unfold map_invalid in H. run_reader.
  unfold error_code_decode, covers. goal_reads. destruct (_ =? 0); run_reader; sizes.
  - rewrite readString_law. goal_reads. do 2 eexists; (split; [reflexivity|]); len_lia.
  - do 2 eexists; (split; [reflexivity|]); len_lia.
Qed.

Lemma covers_connection_control r n :
  bytes_ok (unread r) -> length_connection_control r = Ok n -> covers ConnectionControlMessage_decode r n.
Proof.
  intros Hb H. unfold length_connection_control in H. unfold map_invalid in H. run_reader.
  unfold ConnectionControlMessage_decode, covers. goal_reads.
  destruct (Z.eqb_spec (le_combine (ztake 2 (unread r))) QUNET_CONNCTL_SET_MTU) as [->|_];
    [|destruct (Z.eqb_spec (le_combine (ztake 2 (unread r))) QUNET_CONNCTL_PMTUD_PROBE) as [->|_]; [|done]];
    run_reader; sizes; cbn; goal_reads; do 2 eexists; (split; [reflexivity|]); len_lia.
Qed.

Lemma covers_handshake_finish r n :
  bytes_ok (unread r) -> len (unread r) <= 2 ^ 32 - 8 ->
  length_handshake_finish r = Ok n -> covers HandshakeFinishMessage_decode r n.
Proof.
  intros Hb Hsmall H. unfold length_handshake_finish in H. unfold map_invalid in H.
  run_reader. unfold HandshakeFinishMessage_decode, QdbData_decode, readBytes_if_any, covers.
  goal_reads. destruct (readBool_inv _ _ _ H1) as [-> ?]. rewrite H1. cbn. destruct b.
  - run_reader. set (r1 := advance 1 (advance 8 r)) in *.
    assert (E : unread (advance 4 (advance 4 (advance 4 r1))) = unread (advance 12 r1)).
    { by rewrite !unread_advance, !zdrop_zdrop by lia. }
    assert (len (unread (advance 12 r1)) = len (unread r1) - 12) by len_lia.
    assert (len (unread r1) = len (unread r) - 9) by (unfold r1; len_lia).
    assert (bytes_ok (unread r1)) by (unfold r1; auto with qn). clearbody r1. sizes. goal_reads.
    rewrite E. set (sz := le_combine (ztake 4 (unread (advance 12 r1)))) in *.
    assert (len (unread (advance 4 (advance 12 r1))) = len (unread r1) - 16) by len_lia.
    assert (len (unread (advance 4 (advance 4 (advance 4 (advance 4 r1))))) = len (unread r1) - 16) by len_lia.
    rewrite u_small by lia. destruct (Z.ltb_spec 0 sz); cbn;
      rewrite ?readBytes_law, ?reads_done by lia; cbn; do 2 eexists; (split; [reflexivity|]); len_lia.
  - run_reader. do 2 eexists; (split; [reflexivity|]); len_lia.
Qed.

Lemma covers_handshake_failure r n :
  covers error_code_decode r n -> covers HandshakeFailureMessage_decode r n.
Proof.
  intros ([code text] & r' & H & ?). unfold covers, HandshakeFailureMessage_decode. rewrite H. cbn. eauto.
Qed.
Lemma covers_server_close r n :
  covers error_code_decode r n -> covers ServerCloseMessage_decode r n.
Proof.
  intros ([code text] & r' & H & ?). unfold covers, ServerCloseMessage_decode. rewrite H. cbn. eauto.
Qed.
Lemma covers_keepalive r : 9 <= len (unread r) -> covers KeepaliveMessage_decode r 9.
Proof.
  intros H. unfold covers, KeepaliveMessage_decode. goal_reads. do 2 eexists; (split; [reflexivity|]); len_lia.
Qed.
Lemma covers_connection_error r : 4 <= len (unread r) -> covers ConnectionErrorMessage_decode r 4.
Proof.
  intros H. unfold covers, ConnectionErrorMessage_decode. goal_reads.
  do 2 eexists; (split; [reflexivity|]); len_lia.
Qed.

(** Limiting the input to the covered bytes changes nothing. *)
Lemma decode_slice {A} (k : A -> QunetMessage) d body n :
  local_decoder d -> covers d (reader_of body) n -> n <= len body ->
  exists a r', d (reader_of body) = Ok (a, r') /\ as_message k (d (reader_of (ztake n body))) = Ok (k a).
Proof.
  intros Hl (a & r' & Hd & Hc) Hn. exists a, r'. split; [done|]. unfold as_message.
  destruct (Hl _ _ _ Hd) as (w & Hm & L). pose proof (moved_len _ _ _ Hm).
  destruct (L n (reader_of (ztake n body))) as (r2 & -> & _); [lia|by rewrite !unread_of|done].
Qed.
End LocalMessages.

(** The message types for which a decoder exists. *)
Definition decodable (msgType : Z) : bool :=
  bool_decide (msgType ∈ [MSG_KEEPALIVE; MSG_KEEPALIVE_RESPONSE; MSG_HANDSHAKE_FINISH;
    MSG_HANDSHAKE_FAILURE; MSG_SERVER_CLOSE; MSG_CONNECTION_ERROR; MSG_RECONNECT_SUCCESS;
    MSG_RECONNECT_FAILURE; MSG_CONNECTION_CONTROL; MSG_PADDING]).

Section LengthTable.
Context `{RL : ByteReaderLaws}.

Lemma length_ok_decodes t body n off :
  bytes_ok body -> len body <= 2 ^ 32 - 8 -> n <= len body ->
  lengthForNonDataMessage (reader_of body) t = Ok n -> Z.land t MSG_DATA_MASK = 0 ->
  is_ok (decodeWithMeta {| mm_type := t; mm_compressionHeader := None; mm_reliabilityHeader := None;
    mm_fragmentationHeader := None; mm_data := ztake n body; mm_dataOffset := off |}) = decodable t.
Proof.
  intros Hb Hsmall Hn H Ht. unfold decodeWithMeta. cbn [mm_type mm_data]. rewrite Ht. cbn [negb Z.eqb].
  unfold lengthForNonDataMessage in H. cbn in H. set (r := reader_of body) in *.
  assert (Er : unread r = body) by apply unread_of.
  assert (Hbr : bytes_ok (unread r)) by by rewrite Er.
  assert (D : forall A (k : A -> QunetMessage) d, local_decoder d -> covers d r n ->
            is_ok (as_message k (d (reader_of (ztake n body)))) = true).
  { intros A k d Hl Hc. by destruct (decode_slice k d body n Hl Hc Hn) as (a & r' & _ & ->). }
  repeat (destruct t; try discriminate H; try (injection H as <-); try reflexivity).
  all: repeat (match goal with p : positive |- _ => destruct p end; try discriminate H; try (injection H as <-); try reflexivity).
  all: cbn [decodable] in *; apply D.
  all: first [apply local_KeepaliveMessage | apply local_KeepaliveResponseMessage
             | apply local_HandshakeFinishMessage | apply local_HandshakeFailureMessage
             | apply local_ServerCloseMessage | apply local_ConnectionErrorMessage
             | apply local_ConnectionControlMessage | idtac].
  all: first [apply covers_keepalive; rewrite Er; done | by apply covers_keepalive_response
             | apply covers_handshake_finish; [done|by rewrite Er|done]
             | by apply covers_handshake_failure, covers_error_code
             | by apply covers_server_close, covers_error_code
             | apply covers_connection_error; rewrite Er; done | by apply covers_connection_control ].
Qed.

(** C18. The length table and the decoders agree: a control message that
    [decodeMeta] delimits is decoded, without an error, from the delimited
    bytes exactly when its type has a decoder. *)
Theorem length_table_agrees data udp udpConnId meta :
  bytes_ok data -> len data <= 2 ^ 32 - 8 -> decodeMeta data udp udpConnId = Ok meta ->
  is_ok (decodeWithMeta meta) = decodable (mm_type meta).
Proof.
  intros Hb Hsmall H. rewrite decodeMeta_sliced in H. destruct data as [|t data]; [done|]. unfold decodeMeta_slices in H.
  destruct (Z.ltb_spec (len (t :: data)) (if udpConnId then 9 else 1)) as [|Hstart]; [done|].
  destruct (Z.eqb_spec (Z.land t MSG_DATA_MASK) 0) as [Ht|Ht].
  - apply bind_ok in H as (n & Hn & H). destruct (Z.ltb_spec (len (zdrop (if udpConnId then 9 else 1) (t :: data))) n); [done|].
    injection H as <-. cbn [mm_type]. apply length_ok_decodes; try done; [auto with qn|].
    rewrite len_zdrop_max. destruct udpConnId; lia.
  - assert (mm_type meta = MSG_DATA) as Hty; [|unfold decodeWithMeta; by rewrite Hty].
    apply bind_ok in H as ([comp r1] & _ & H). apply bind_ok in H as ([rel r2] & _ & H).
    apply bind_ok in H as ([frag r3] & _ & H). apply bind_ok in H as ([[b|] r4] & _ & H).
    + destruct (_ <? _); [done|]. by injection H as <-.
    + by injection H as <-.
Qed.
End LengthTable.


(** A reliability header that announces nine acknowledgements. *)
Definition nine_acks : list Z := [144; 5; 0; 9; 0] ++ replicate 18 1 ++ [42].
Definition nine_acks_meta : QunetMessageMeta :=
  {| mm_type := 128; mm_compressionHeader := None;
     mm_reliabilityHeader := Some {| rh_messageId := 5; rh_ackCount := 9; rh_acks := replicate 8 257 |};
     mm_fragmentationHeader := None; mm_data := [1; 1; 42]; mm_dataOffset := 23 |}.

Lemma decodeMeta_slice_witness :
  (exists before after, nine_acks = before ++ [1; 1; 42] ++ after /\ len before = 23 - 2) /\
  (9 <= 8 -> 2 = 0).
Proof.
  apply (decodeMeta_slice nine_acks true false nine_acks_meta); [|by vm_compute].
  repeat constructor; unfold byte_ok; lia.
Defined.

Lemma length_table_agrees_witness :
  is_ok (decodeWithMeta {| mm_type := 16; mm_compressionHeader := None; mm_reliabilityHeader := None;
    mm_fragmentationHeader := None; mm_data := [1; 0; 120; 5]; mm_dataOffset := 1 |}) = true.
Proof.
  apply (length_table_agrees [16; 1; 0; 120; 5; 99] true false); [|cbn; lia|by vm_compute].
  repeat constructor; unfold byte_ok; lia.
Defined.
