(* ===== verification/CodecIter.v ===== *)
(** * The messages of a datagram

    The iterator of [QunetMessage.cpp] always stops, and over the
    concatenation of messages that carry their own length it yields each of
    them. *)
From S2P Require Import Prelude Dbuf Messages Codec CodecSpec CodecSafety.

#[local] Arguments decodeMeta : simpl never.

Section Termination.
Context `{RL : ByteReaderLaws}.

Lemma iter_next_progress it res it' :
  bytes_ok (it_data it) -> 0 <= it_pos it -> iter_next it = (Some res, it') ->
  is_fault res = false /\ it_pos it < len (it_data it) /\
  (is_ok res = true -> it_pos it < it_pos it' /\ it_data it' = it_data it).
Proof.
  intros Hb Hpos H. rewrite iter_next_slices in H.
  destruct (it_eof it || (len (it_data it) <=? it_pos it)) eqn:E; [done|].
  apply orb_false_iff in E as [_ E]. apply Z.leb_gt in E.
  set (data := zdrop (it_pos it) (it_data it)) in *.
  assert (data <> []) as Hne.
  { intros Hnil. apply (f_equal (fun l : list Z => len l)) in Hnil. unfold data in Hnil.
    rewrite len_zdrop in Hnil by lia. cbn in Hnil. lia. }
  set (c := (it_pos it =? 0) && it_server it) in *.
  pose proof (decodeMeta_total data true c Hne) as Hf.
  destruct (decodeMeta data true c) as [meta| |] eqn:Hd; [|injection H as <- <-; done|done].
  injection H as <- <-. cbn. split; [done|]. split; [done|]. intros _. split; [|done].
  destruct (decodeMeta_payload data true c meta) as (? & ? & _); [unfold data; auto with qn|done|].
  unfold skipped_acks in *. lia.
Qed.

(** Whatever the bytes, walking the messages of a datagram ends within as
    many steps as there are bytes, without a throw. *)
Theorem iter_terminates data server :
  bytes_ok data ->
  exists res, iter_collect (S (length data)) (new_iter data server) = Some res /\ is_fault res = false.
Proof.
  intros Hb. assert (forall fuel it, it_data it = data -> 0 <= it_pos it ->
    Z.max 0 (len data - it_pos it) < Z.of_nat fuel ->
    exists res, iter_collect fuel it = Some res /\ is_fault res = false) as G.
  { induction fuel as [|fuel IH]; intros it Hd Hpos Hfuel; [lia|]. cbn [iter_collect].
    destruct (iter_next it) as [[res|] it'] eqn:Hn; [|by eauto].
    destruct (iter_next_progress it res it') as (Hf & Hlt & Hok); [by rewrite Hd|done|done|].
    destruct res as [meta|e|f]; [|by eauto|done]. destruct (Hok eq_refl) as [Hadv Hd'].
    rewrite Hd in *. destruct (IH it') as (res & -> & Hres); [done|lia|lia|].
    destruct res; eauto. }
  apply G; [done|done|]. cbn. lia.
Qed.
End Termination.

(** ** Several messages in one datagram *)
Section Packets.
Context `{RL : ByteReaderLaws}.

(** A message that carries its own length: a control message, or a data
    message with a boundary, under a first byte [t] whose flags match. *)
Inductive packet :=
  | PControl (msg : QunetMessage)
  | PData (t : Z) (comp : option CompressionHeader) (rel : option ReliabilityHeader)
          (frag : option FragmentationHeader) (payload : list Z).

Definition wf_packet (p : packet) : Prop :=
  match p with
  | PControl msg => wf_control msg
  | PData t comp rel frag payload =>
      header_flags t comp rel frag true /\ wf_comp comp /\ wf_rel rel /\ wf_frag frag /\
      len payload < 2 ^ 16
  end.

Definition control_type (msg : QunetMessage) : Z :=
  match headerByte (E := string) msg with Ok t => t | _ => 0 end.

Definition packet_bytes (p : packet) : list Z :=
  match p with
  | PControl msg => control_type msg :: control_body msg
  | PData t comp rel frag payload =>
      t :: comp_bytes comp ++ rel_bytes rel ++ frag_bytes frag ++ le_split 2 (len payload) ++ payload
  end.

Definition packet_meta (p : packet) : QunetMessageMeta :=
  match p with
  | PControl msg =>
      {| mm_type := control_type msg; mm_compressionHeader := None; mm_reliabilityHeader := None;
         mm_fragmentationHeader := None; mm_data := control_body msg; mm_dataOffset := 1 |}
  | PData t comp rel frag payload =>
      {| mm_type := MSG_DATA; mm_compressionHeader := comp; mm_reliabilityHeader := rel;
         mm_fragmentationHeader := frag; mm_data := payload;
         mm_dataOffset := 1 + if_present comp 4 + rel_size rel + if_present frag 4 + 2 |}
  end.

Lemma packet_delimited p tail udp :
  wf_packet p -> decodeMeta (packet_bytes p ++ tail) udp false = Ok (packet_meta p).
Proof.
  destruct p as [msg|t comp rel frag payload]; cbn [wf_packet packet_bytes packet_meta].
  - intros Hwf. unfold control_type.
    destruct (headerByte (E := string) msg) as [t| |] eqn:Ht; [|by destruct msg..].
    destruct (control_length (reader_of (control_body msg ++ tail)) msg t Hwf Ht) as [Hlen Hmask].
    cbn [app]. etransitivity; [exact (decodeMeta_control t [] (control_body msg ++ tail) udp false Hmask eq_refl)|].
    rewrite Hlen. cbn. rewrite (proj2 (Z.ltb_ge _ _)) by len_lia. by rewrite ztake_app.
  - intros (Hf & Hc & Hr & Hg & Hlen). cbn [app]. rewrite <- !app_assoc.
    apply (decodeMeta_build t [] comp rel frag true payload tail udp false); done.
Qed.

Lemma comp_bytes_length c : len (comp_bytes c) = if_present c 4.
Proof. destruct c; cbn; [by rewrite length_le_split|done]. Qed.
Lemma frag_bytes_length f : len (frag_bytes f) = if_present f 4.
Proof. destruct f; cbn; [by rewrite length_app, !length_le_split|done]. Qed.

Lemma packet_size p :
  wf_packet p -> mm_dataOffset (packet_meta p) + len (mm_data (packet_meta p)) = len (packet_bytes p).
Proof.
  destruct p as [msg|t comp rel frag payload]; cbn [packet_bytes packet_meta mm_dataOffset mm_data].
  - intros _. len_lia.
  - intros (_ & _ & Hr & _). cbn [length]. rewrite !length_app, length_le_split.
    pose proof (comp_bytes_length comp). pose proof (frag_bytes_length frag).
    pose proof (rel_bytes_length rel Hr). lia.
Qed.

Lemma packet_bytes_pos p : 1 <= len (packet_bytes p).
Proof. destruct p; cbn; lia. Qed.

Lemma iter_collect_packets before ps fuel :
  Forall wf_packet ps -> (length (concat (packet_bytes <$> ps)) < fuel)%nat ->
  iter_collect fuel {| it_data := before ++ concat (packet_bytes <$> ps); it_pos := len before;
                       it_eof := false; it_server := false |} = Some (Ok (packet_meta <$> ps)).
Proof.
  intros Hps. revert before fuel. induction Hps as [|p ps Hp Hps IH]; intros before fuel Hfuel.
  - destruct fuel as [|fuel]; [lia|]. cbn. rewrite iter_next_slices. cbn.
    by rewrite app_nil_r, Z.leb_refl.
  - destruct fuel as [|fuel]; [lia|]. cbn [fmap list_fmap concat] in *.
    pose proof (packet_bytes_pos p). cbn [iter_collect]. rewrite iter_next_slices. cbn [it_data it_pos it_eof it_server].
    rewrite orb_false_l, (proj2 (Z.leb_gt _ _)) by len_lia.
    rewrite zdrop_app, andb_false_r, (packet_delimited p _ true Hp), packet_size by done.
    specialize (IH (before ++ packet_bytes p) fuel). rewrite <- app_assoc, length_app, Nat2Z.inj_add in IH.
    rewrite IH; [done|]. rewrite length_app in Hfuel. lia.
Qed.

(** C17. Over a datagram of several messages that carry their own length, the
    iterator yields each of them, in order and with its headers, and stops
    after the last one. *)
Theorem iter_concatenation ps :
  Forall wf_packet ps ->
  let datagram := concat (packet_bytes <$> ps) in
  iter_collect (S (length datagram)) (new_iter datagram false) = Some (Ok (packet_meta <$> ps)).
Proof. intros Hps. apply (iter_collect_packets []); [done|lia]. Qed.
End Packets.

(** ** Concrete inputs *)
Lemma iter_terminates_witness :
  exists res, iter_collect 12 (new_iter [4; 99; 0; 0; 0; 0; 0; 0; 0; 0; 0] false) = Some res /\
              is_fault res = false.
Proof.
  apply (iter_terminates [4; 99; 0; 0; 0; 0; 0; 0; 0; 0; 0] false).
  repeat constructor; unfold byte_ok; lia.
Defined.

Definition example_packets : list packet :=
  [PControl (MKeepalive {| ka_timestamp := 7 |});
   PData 136 None None None [1; 2; 3];
   PData (128 + 8 + 32) None None
     (Some {| fh_messageId := 4; fh_fragmentIndex := 1; fh_lastFragment := true |}) [9]].

Lemma iter_concatenation_witness :
  let datagram := concat (packet_bytes <$> example_packets) in
  iter_collect (S (length datagram)) (new_iter datagram false) = Some (Ok (packet_meta <$> example_packets)).
Proof.
  apply (iter_concatenation example_packets).
  repeat constructor; cbn; unfold u16_ok; lia.
Defined.
