(* ===== verification/Time.v ===== *)
(** * Instants and durations, as an interface

    [asp::time::Instant] and [asp::time::Duration] are types of a package that
    the build fetches.  The source reads the clock, subtracts and compares;
    the laws are stated through [nanos], the length of a duration.  A
    subtraction stops at zero: [remTimeout.isZero()] ([UdpTransport.cpp]) and
    [untilKeepalive().isZero()] rely on it.  A definition that calls
    [Instant::now()] takes the reading [now] as an argument. *)
From S2P Require Import Prelude.

Class TimeLib := {
  instant : Type;
  duration : Type;
  (** [now.durationSince(t)]; [t.elapsed()] is [since now t]. *)
  since : instant -> instant -> duration;
  fromNanos : Z -> duration;
  fromMicros : Z -> duration;
  fromMillis : Z -> duration;
  fromSecs : Z -> duration;
  zero : duration;
  infinite : duration;
  dsub : duration -> duration -> duration;
  dadd : duration -> duration -> duration;
  ddiv : duration -> Z -> duration;
  absDiff : duration -> duration -> duration;
  (** [t + d], and [t >= t'] *)
  iadd : instant -> duration -> instant;
  igeb : instant -> instant -> bool;
  dltb : duration -> duration -> bool;
  isZero : duration -> bool;
  millis : duration -> Z;
  micros : duration -> Z;
}.

Class TimeLaws (T : TimeLib) := {
  nanos : duration -> Z;
  nanos_nonneg d : 0 <= nanos d;
  nanos_infinite d : nanos d <= nanos infinite;
  nanos_zero : nanos zero = 0;
  nanos_inj a b : nanos a = nanos b -> a = b;
  dltb_law a b : dltb a b = (nanos a <? nanos b);
  dsub_law a b : nanos (dsub a b) = Z.max 0 (nanos a - nanos b);
  dadd_law a b : nanos (dadd a b) = Z.min (nanos a + nanos b) (nanos infinite);
  absDiff_law a b : nanos (absDiff a b) = Z.abs (nanos a - nanos b);
  since_self t : nanos (since t t) = 0;
  isZero_law d : isZero d = (nanos d =? 0);
  millis_law d : millis d = nanos d / 1000000;
  micros_law d : micros d = nanos d / 1000;
  fromNanos_law n : 0 <= n < 2 ^ 60 -> nanos (fromNanos n) = n;
  fromMicros_law n : 0 <= n < 2 ^ 50 -> nanos (fromMicros n) = n * 1000;
  fromMillis_law n : 0 <= n < 2 ^ 40 -> nanos (fromMillis n) = n * 1000000;
  fromSecs_law n : 0 <= n < 2 ^ 30 -> nanos (fromSecs n) = n * 1000000000;
}.

(** Instants are ordered, and an instant from which more than [d] has passed is
    [d] before now at least. *)
Class InstantLaws (T : TimeLib) := {
  igeb_trans a b c : igeb a b = true -> igeb b c = true -> igeb a c = true;
  igeb_total a b : igeb a b = true \/ igeb b a = true;
  igeb_elapsed now t d : dltb d (since now t) = true -> igeb now (iadd t d) = true;
}.

(** [operator<=] and the others, from [operator<]; [std::min] and [std::max]
    return their first argument when the two are equal. *)
Definition dleb `{TimeLib} (a b : duration) : bool := negb (dltb b a).
Definition dmin `{TimeLib} (a b : duration) : duration := if dltb b a then b else a.
Definition dmax `{TimeLib} (a b : duration) : duration := if dltb a b then b else a.

Section Consequences.
Context `{TL : TimeLaws}.

Lemma dleb_law a b : dleb a b = (nanos a <=? nanos b).
Proof. unfold dleb. rewrite dltb_law. destruct (Z.ltb_spec (nanos b) (nanos a)), (Z.leb_spec (nanos a) (nanos b)); (done || lia). Qed.

Lemma nanos_dmin a b : nanos (dmin a b) = Z.min (nanos a) (nanos b).
Proof. unfold dmin. rewrite dltb_law. destruct (Z.ltb_spec (nanos b) (nanos a)); lia. Qed.

Lemma dmin_infinite d : dmin infinite d = d.
Proof. apply nanos_inj. rewrite nanos_dmin. pose proof (nanos_infinite d). lia. Qed.
End Consequences.

(** ** Durations of up to 2^63 - 1 nanoseconds *)
Definition max_nanos : Z := 2 ^ 63 - 1.
Definition clamp_nanos (z : Z) : Z := Z.max 0 (Z.min z max_nanos).

Record nano_duration := { nd_nanos : Z; nd_ok : (clamp_nanos nd_nanos =? nd_nanos) = true }.

Lemma nano_duration_eq a b : nd_nanos a = nd_nanos b -> a = b.
Proof. destruct a as [x p], b as [y q]. cbn. intros <-. f_equal. apply (proof_irrel p q). Qed.

Lemma clamp_idemp z : (clamp_nanos (clamp_nanos z) =? clamp_nanos z) = true.
Proof. apply Z.eqb_eq. unfold clamp_nanos, max_nanos. lia. Qed.

Definition of_nanos (z : Z) : nano_duration := {| nd_nanos := clamp_nanos z; nd_ok := clamp_idemp z |}.

#[export] Instance nano_time : TimeLib := {|
  instant := Z;
  duration := nano_duration;
  since now t := of_nanos (now - t);
  fromNanos n := of_nanos n;
  fromMicros n := of_nanos (n * 1000);
  fromMillis n := of_nanos (n * 1000000);
  fromSecs n := of_nanos (n * 1000000000);
  zero := of_nanos 0;
  infinite := of_nanos max_nanos;
  dsub a b := of_nanos (nd_nanos a - nd_nanos b);
  dadd a b := of_nanos (nd_nanos a + nd_nanos b);
  ddiv a n := of_nanos (nd_nanos a / n);
  absDiff a b := of_nanos (Z.abs (nd_nanos a - nd_nanos b));
  iadd t d := t + nd_nanos d;
  igeb t t' := t' <=? t;
  dltb a b := nd_nanos a <? nd_nanos b;
  isZero d := nd_nanos d =? 0;
  millis d := nd_nanos d / 1000000;
  micros d := nd_nanos d / 1000;
|}.

Lemma nd_range d : 0 <= nd_nanos d <= max_nanos.
Proof. destruct d as [z p]. cbn. apply Z.eqb_eq in p. unfold clamp_nanos, max_nanos in *. lia. Qed.

#[export] Instance nano_time_laws : TimeLaws nano_time.
Proof.
  refine {| nanos := nd_nanos : @duration nano_time -> Z |}; try done; cbn.
  - intros d. apply nd_range.
  - intros d. apply (nd_range d).
  - intros a b. apply nano_duration_eq.
  - intros a b. pose proof (nd_range a). pose proof (nd_range b).
    unfold clamp_nanos, max_nanos in *. lia.
  - intros a b. pose proof (nd_range a). pose proof (nd_range b).
    unfold clamp_nanos, max_nanos in *. lia.
  - intros a b. pose proof (nd_range a). pose proof (nd_range b).
    unfold clamp_nanos, max_nanos in *. lia.
  - intros t. unfold clamp_nanos, max_nanos. lia.
  - intros n Hn. unfold clamp_nanos, max_nanos. lia.
  - intros n Hn. unfold clamp_nanos, max_nanos. lia.
  - intros n Hn. unfold clamp_nanos, max_nanos. lia.
  - intros n Hn. unfold clamp_nanos, max_nanos. lia.
Qed.

#[export] Instance nano_instant_laws : InstantLaws nano_time.
Proof.
  split; cbn.
  - intros a b c Hab%Z.leb_le Hbc%Z.leb_le. apply Z.leb_le. lia.
  - intros a b. rewrite !Z.leb_le. lia.
  - intros now t d Hd%Z.ltb_lt. apply Z.leb_le. pose proof (nd_range d). unfold clamp_nanos, max_nanos in *. lia.
Qed.
