(* ===== verification/Errors.v ===== *)
(** * Error types

    [include/qunet/socket/transport/Error.hpp], [src/socket/transport/Error.cpp],
    [include/qunet/compression/Error.hpp], [src/compression/Error.cpp]: the error
    codes of compression and of the transports, and their texts.  The errors of
    the socket, QUIC, TLS and WebSocket libraries are values of those libraries
    and are carried by their message. *)
From S2P Require Import Prelude Messages Codec.

Inductive DecompressorError :=
  | D_NotInitialized
  | D_AlreadyInitialized
  | D_InvalidDictionary
  | D_DecompressionFailed
  | D_SizeMismatch.

Inductive CompressorError :=
  | C_NotInitialized
  | C_AlreadyInitialized
  | C_InvalidDictionary
  | C_CompressionFailed.

Definition CompressorError_message (e : CompressorError) : list Z :=
  match e with
  | C_NotInitialized => str "Compressor not initialized"
  | C_AlreadyInitialized => str "Compressor already initialized"
  | C_InvalidDictionary => str "Invalid dictionary for compressor"
  | C_CompressionFailed => str "Compression failed"
  end.

Definition DecompressorError_message (e : DecompressorError) : list Z :=
  match e with
  | D_NotInitialized => str "Decompressor not initialized"
  | D_AlreadyInitialized => str "Decompressor already initialized"
  | D_InvalidDictionary => str "Invalid dictionary for decompressor"
  | D_DecompressionFailed => str "Decompression failed"
  | D_SizeMismatch => str "Decompressed size does not match expected size"
  end.

Inductive CustomCode :=
  | ConnectionTimedOut
  | HandshakeTimedOut
  | NotImplemented
  | UnexpectedMessage
  | MessageTooLong
  | ZeroLengthMessage
  | NoBufferSpace
  | CongestionLimited
  | DefragmentationError
  | TooUnreliable
  | InvalidQunetDatabase
  | InvalidArgument
  | ReconnectFailed
  | TimedOut
  | Closed
  | Cancelled
  | Other.

Definition CustomKind_message (code : CustomCode) : list Z :=
  match code with
  | NotImplemented => str "Not implemented"
  | ConnectionTimedOut => str "Connection timed out"
  | HandshakeTimedOut => str "Qunet handshake timed out"
  | UnexpectedMessage => str "Unexpected message received"
  | MessageTooLong => str "Message too long"
  | ZeroLengthMessage => str "Zero length message received"
  | NoBufferSpace => str "No buffer space available"
  | CongestionLimited => str "Congestion limited, cannot send data right now"
  | DefragmentationError => str "Defragmentation error, message could not be reassembled"
  | TooUnreliable => str "Transport is too unreliable, too many lost messages"
  | InvalidQunetDatabase => str "Invalid Qunet database, cannot decode"
  | InvalidArgument => str "Invalid argument"
  | ReconnectFailed => str "Reconnect failed, server rejected the attempt"
  | TimedOut => str "Operation timed out"
  | Closed => str "Operation cannot be performed because the connection is already closed"
  | Cancelled => str "Connection cancelled"
  | Other => str "Unknown transport error"
  end.

(** A code of [qsox::Error], and the text its [message()] gives. *)
Record SocketError := { se_timedOut : bool; se_text : list Z }.

(** A code of ngtcp2, and the text that [ngtcp2_strerror] gives. *)
Record QuicError := { qe_code : Z; qe_text : list Z }.

(** The alternatives of [m_kind], in their order. *)
Inductive TransportError :=
  | TE_Socket (e : SocketError)
  | TE_Quic (e : QuicError)
  | TE_Tls (text : list Z)
  | TE_Ws (text : list Z)
  | TE_String (text : list Z)
  | TE_HandshakeFailure (reason : list Z)
  | TE_Decode (e : MessageDecodeError)
  | TE_Compressor (e : CompressorError)
  | TE_Decompressor (e : DecompressorError)
  | TE_Custom (code : CustomCode).

#[export] Instance CustomCode_eq_dec : EqDecision CustomCode.
Proof. solve_decision. Defined.
#[export] Instance CompressorError_eq_dec : EqDecision CompressorError.
Proof. solve_decision. Defined.
#[export] Instance DecompressorError_eq_dec : EqDecision DecompressorError.
Proof. solve_decision. Defined.
#[export] Instance SocketError_eq_dec : EqDecision SocketError.
Proof. solve_decision. Defined.
#[export] Instance QuicError_eq_dec : EqDecision QuicError.
Proof. solve_decision. Defined.
#[export] Instance TransportError_eq_dec : EqDecision TransportError.
Proof. solve_decision. Defined.

Definition TransportError_message (e : TransportError) : list Z :=
  match e with
  | TE_Socket e => str "Socket error: " ++ se_text e
  | TE_Quic e => str "QUIC error: " ++ qe_text e
  | TE_Tls text => str "TLS error: " ++ text
  | TE_Ws text => str "WS error: " ++ text
  | TE_String text => text
  | TE_HandshakeFailure reason => str "Handshake failed: " ++ reason
  | TE_Decode e => str "Error decoding message: " ++ MessageDecodeError_message e
  | TE_Compressor e => str "Compression error: " ++ CompressorError_message e
  | TE_Decompressor e => str "Decompression error: " ++ DecompressorError_message e
  | TE_Custom code => CustomKind_message code
  end.

Abbreviation TransportResult A := (result TransportError A).
