(* ===== verification/Effects.v ===== *)
(** * Effectful code

    The transports are objects whose methods are coroutines: they change the
    object, send and receive on a socket, and return early on an error.  A
    method is a function of the state to a result and a state, so that the
    state after an error is known too ([ARC_CO_UNWRAP] keeps what was changed
    before).  The socket is a library; [Net] is a script of what it will do and
    the list of what was handed to it. *)
From Stdlib Require Import SpecFloat.
From S2P Require Import Prelude Errors.

Definition STE (E S A : Type) : Type := S -> result E A * S.
(** The methods of the transports. *)
Abbreviation ST := (STE TransportError).

#[export] Instance ST_ret {E S} : MRet (STE E S) := fun A a s => (Ok a, s).
#[export] Instance ST_bind {E S} : MBind (STE E S) := fun A B k m s =>
  match m s with
  | (Ok a, s) => k a s
  | (Err e, s) => (Err e, s)
  | (Fault f, s) => (Fault f, s)
  end.

Section Primitives.
Context {E S : Type}.

Definition get {A} (f : S -> A) : STE E S A := fun s => (Ok (f s), s).
Definition modify (f : S -> S) : STE E S unit := fun s => (Ok tt, f s).
(** A method that computes a value and a new state, and cannot fail. *)
Definition state {A} (f : S -> A * S) : STE E S A := fun s => let '(a, s) := f s in (Ok a, s).
(** A method that can fail and changes nothing when it does. *)
Definition update (f : S -> result E S) : STE E S unit := fun s =>
  match f s with Ok s' => (Ok tt, s') | Err e => (Err e, s) | Fault x => (Fault x, s) end.
Definition lift {A} (m : result E A) : STE E S A := fun s => (m, s).
Definition throw {A} (e : E) : STE E S A := lift (Err e).
Definition when (b : bool) (m : STE E S unit) : STE E S unit := if b then m else mret tt.
End Primitives.
Definition custom {S A} (c : CustomCode) : ST S A := throw (TE_Custom c).

(** The result of a method, kept while more is done; what it throws goes on. *)
Definition attempt {E S A} (m : STE E S A) : STE E S (result E A) := fun s =>
  match m s with (Fault f, s) => (Fault f, s) | (res, s) => (Ok res, s) end.

(** A method of a part of the state. *)
Definition focus {E S T A} (get_part : S -> T) (set_part : T -> S -> S) (m : STE E T A) : STE E S A :=
  fun s => let '(res, t) := m (get_part s) in (res, set_part t s).

Lemma bind_run {E S A B} (m : STE E S A) (k : A -> STE E S B) s a s' :
  m s = (Ok a, s') -> (m ≫= k) s = k a s'.
Proof. unfold mbind, ST_bind. by intros ->. Qed.

Lemma bind_err {E S A B} (m : STE E S A) (k : A -> STE E S B) s e s' :
  m s = (Err e, s') -> (m ≫= k) s = (Err e, s').
Proof. unfold mbind, ST_bind. by intros ->. Qed.

Lemma st_bind_ok {E S A B} (m : STE E S A) (k : A -> STE E S B) s b s'' :
  (m ≫= k) s = (Ok b, s'') -> exists a s', m s = (Ok a, s') /\ k a s' = (Ok b, s'').
Proof. unfold mbind, ST_bind. destruct (m s) as [[a|e|f] s'] eqn:?; [by eauto|done..]. Qed.

Lemma focus_ok {E S T A} (get_part : S -> T) (set_part : T -> S -> S) (m : STE E T A) s a s' :
  focus get_part set_part m s = (Ok a, s') -> exists t, m (get_part s) = (Ok a, t) /\ s' = set_part t s.
Proof. unfold focus. destruct (m (get_part s)) as [res t]. intros [= -> <-]. eauto. Qed.

(** Takes a successful run apart, a call at a time. *)
Ltac st_inv H :=
  repeat (let Hs := fresh "Hs" in apply st_bind_ok in H as (? & ? & Hs & H)).

(** A run whose result is known. *)
Lemma run_result {E S A} (m : STE E S A) s res : (m s).1 = res -> m s = (res, (m s).2).
Proof. intros <-. apply surjective_pairing. Qed.

(** Runs the first step of a bind whose result a hypothesis gives. *)
Ltac run_step := erewrite bind_run by (first [eassumption | reflexivity]); cbv beta.

(** ** Triples
    [triple P m Q E]: from a state where [P] holds, [m] does not throw; it ends
    with a result that satisfies [Q], or with an error or waiting for the
    network in a state that satisfies [E]. *)
Definition triple {X S A} (P : S -> Prop) (m : STE X S A) (Q : A -> S -> Prop) (E : S -> Prop) : Prop :=
  forall s, P s ->
    match m s with
    | (Ok a, s) => Q a s
    | (Err _, s) | (Fault WouldBlock, s) => E s
    | (Fault _, _) => False
    end.

Section Triples.
Context {X S : Type}.

Lemma triple_ret {A} (P : S -> Prop) (a : A) E : triple P (mret a : STE X S A) (fun _ => P) E.
Proof. by intros s H. Qed.

Lemma triple_bind {A B} P (m : STE X S A) Q (k : A -> STE X S B) R E :
  triple P m Q E -> (forall a, triple (Q a) (k a) R E) -> triple P (m ≫= k) R E.
Proof.
  intros Hm Hk s Hs. specialize (Hm s Hs). unfold mbind, ST_bind.
  destruct (m s) as [[a|e|f] s']; [by apply Hk|done|by destruct f].
Qed.

Lemma triple_conseq {A} (P P' : S -> Prop) (m : STE X S A) Q Q' (E E' : S -> Prop) :
  triple P' m Q' E' -> (forall s, P s -> P' s) -> (forall a s, Q' a s -> Q a s) -> (forall s, E' s -> E s) ->
  triple P m Q E.
Proof.
  intros Hm HP HQ HE s Hs. specialize (Hm s (HP s Hs)).
  destruct (m s) as [[a|e|f] s']; [by apply HQ|by apply HE|]. destruct f; try done. by apply HE.
Qed.

Lemma triple_modify (P : S -> Prop) f (Q : S -> Prop) E :
  (forall s, P s -> Q (f s)) -> triple P (modify f : STE X S unit) (fun _ => Q) E.
Proof. intros H s Hs. by apply H. Qed.

Lemma triple_get {A} (P : S -> Prop) (f : S -> A) E : triple P (get f : STE X S A) (fun a s => P s /\ a = f s) E.
Proof. by intros s H. Qed.

(** What is read is known. *)
Lemma triple_read {A B} (P : S -> Prop) (f : S -> A) (k : A -> STE X S B) Q E :
  (forall a, triple (fun s => P s /\ f s = a) (k a) Q E) -> triple P (get f ≫= k) Q E.
Proof. intros H s Hs. by apply (H (f s)). Qed.

Lemma triple_pre {A} (P : S -> Prop) (m : STE X S A) Q E : (forall s, P s -> triple (eq s) m Q E) -> triple P m Q E.
Proof. intros H s Hs. by apply (H s Hs). Qed.

Lemma triple_lift {A} (P E : S -> Prop) (m : result X A) :
  is_fault m = false -> (forall s, P s -> E s) -> triple P (lift m) (fun a s => P s /\ m = Ok a) E.
Proof. intros Hf HE s Hs. unfold lift. destruct m; [done|by apply HE|done]. Qed.

(** The result is kept: an error is a value. *)
Lemma triple_attempt {A} (P : S -> Prop) (m : STE X S A) Q E :
  triple P m Q E -> triple P (attempt m) (fun res s => match res with Ok a => Q a s | _ => E s end) E.
Proof.
  intros Hm s Hs. specialize (Hm s Hs). unfold attempt. destruct (m s) as [[a|e|f] s']; [done|done|by destruct f].
Qed.

(** A part of the state is changed, the rest stays as it is. *)
Lemma triple_focus {T A} (get_part : S -> T) (set_part : T -> S -> S) (P : S -> Prop) (m : STE X T A) Q E :
  (forall s, P s -> triple (eq (get_part s)) m (fun a t => Q a (set_part t s)) (fun t => E (set_part t s))) ->
  triple P (focus get_part set_part m) Q E.
Proof.
  intros Hm s Hs. specialize (Hm s Hs _ eq_refl). unfold focus.
  destruct (m (get_part s)) as [[a|e|f] t]; [done|done|by destruct f].
Qed.
End Triples.

(** ** What a method leaves alone
    [keeps f m]: [m] does not change [f], however it ends. *)
Definition keeps {X S A B} (f : S -> B) (m : STE X S A) : Prop := forall s, f (m s).2 = f s.

Section Keeps.
Context {X S B : Type} (f : S -> B).

Lemma keeps_ret {A} (a : A) : keeps f (mret a : STE X S A).
Proof. done. Qed.
Lemma keeps_get {A} (g : S -> A) : keeps f (get g : STE X S A).
Proof. done. Qed.
Lemma keeps_lift {A} (m : result X A) : keeps f (lift m).
Proof. done. Qed.
Lemma keeps_throw {A} (e : X) : keeps f (throw e : STE X S A).
Proof. done. Qed.

Lemma keeps_bind {A C} (m : STE X S A) (k : A -> STE X S C) :
  keeps f m -> (forall a, keeps f (k a)) -> keeps f (m ≫= k).
Proof.
  intros Hm Hk s. specialize (Hm s). unfold mbind, ST_bind. destruct (m s) as [[a|e|x] s']; cbn in *; [|done..].
  by rewrite Hk.
Qed.

Lemma keeps_modify g : (forall s, f (g s) = f s) -> keeps f (modify g : STE X S unit).
Proof. done. Qed.

Lemma keeps_state {A} (g : S -> A * S) : (forall s, f (g s).2 = f s) -> keeps f (state g : STE X S A).
Proof. intros H s. specialize (H s). unfold state. by destruct (g s). Qed.

Lemma keeps_update g : (forall s s', g s = Ok s' -> f s' = f s) -> keeps f (update g : STE X S unit).
Proof. intros H s. specialize (H s). unfold update. destruct (g s); [by apply H|done..]. Qed.

Lemma keeps_when (b : bool) (m : STE X S unit) : keeps f m -> keeps f (when b m).
Proof. by destruct b. Qed.

Lemma keeps_attempt {A} (m : STE X S A) : keeps f m -> keeps f (attempt m).
Proof. intros H s. specialize (H s). unfold attempt. by destruct (m s) as [[]]. Qed.

Lemma keeps_outside {T A} (get_part : S -> T) (set_part : T -> S -> S) (m : STE X T A) :
  (forall t s, f (set_part t s) = f s) -> keeps f (focus get_part set_part m).
Proof. intros H s. unfold focus. by destruct (m (get_part s)); cbn. Qed.

Lemma keeps_inside {T A} (g : T -> B) (get_part : S -> T) (set_part : T -> S -> S) (m : STE X T A) :
  (forall s, f s = g (get_part s)) -> (forall t s, get_part (set_part t s) = t) ->
  keeps g m -> keeps f (focus get_part set_part m).
Proof.
  intros Hf Hg Hm s. specialize (Hm (get_part s)). unfold focus. destruct (m (get_part s)) as [res t]. cbn in *.
  by rewrite !Hf, Hg.
Qed.
End Keeps.

Create HintDb keeps.
#[export] Hint Resolve keeps_ret keeps_get keeps_lift keeps_throw keeps_when keeps_attempt : keeps.

(** Follows the structure of a method; what is left are its calls. *)
Ltac keeps_step :=
  lazymatch goal with
  | |- keeps _ (mbind _ _) => apply keeps_bind; [|intros ?]
  | |- keeps _ (match ?x with _ => _ end) => destruct x
  | |- keeps _ (when _ _) => apply keeps_when
  | |- keeps _ (modify _) => apply keeps_modify; intros ?
  | |- keeps _ (custom _) => apply keeps_throw
  | |- keeps _ (let '_ := ?x in _) => destruct x
  end.
Ltac keeps_auto := repeat first [solve [eauto with keeps] | keeps_step].

(** ** What a method preserves, however it ends *)
Definition preserves {X S A} (P : S -> Prop) (m : STE X S A) : Prop := forall s, P s -> P (m s).2.

Section Preserves.
Context {X S : Type} (P : S -> Prop).

Lemma preserves_ret {A} (a : A) : preserves P (mret a : STE X S A).
Proof. by intros s. Qed.
Lemma preserves_get {A} (g : S -> A) : preserves P (get g : STE X S A).
Proof. by intros s. Qed.
Lemma preserves_lift {A} (m : result X A) : preserves P (lift m).
Proof. by intros s. Qed.
Lemma preserves_throw {A} (e : X) : preserves P (throw e : STE X S A).
Proof. by intros s. Qed.
Lemma preserves_bind {A C} (m : STE X S A) (k : A -> STE X S C) :
  preserves P m -> (forall a, preserves P (k a)) -> preserves P (m ≫= k).
Proof.
  intros Hm Hk s Hs. specialize (Hm s Hs). unfold mbind, ST_bind. destruct (m s) as [[a|e|x] s']; cbn in *; [by apply Hk|done..].
Qed.
Lemma preserves_attempt {A} (m : STE X S A) : preserves P m -> preserves P (attempt m).
Proof. intros H s Hs. specialize (H s Hs). unfold attempt. by destruct (m s) as [[]]. Qed.
Lemma preserves_modify g : (forall s, P s -> P (g s)) -> preserves P (modify g : STE X S unit).
Proof. done. Qed.
Lemma preserves_state {A} (g : S -> A * S) : (forall s, P s -> P (g s).2) -> preserves P (state g : STE X S A).
Proof. intros H s Hs. specialize (H s Hs). unfold state. by destruct (g s). Qed.
Lemma preserves_update g : (forall s s', P s -> g s = Ok s' -> P s') -> preserves P (update g : STE X S unit).
Proof. intros H s Hs. specialize (H s). unfold update. destruct (g s); [by apply H|done..]. Qed.
Lemma preserves_focus {T A} (get_part : S -> T) (set_part : T -> S -> S) (m : STE X T A) :
  (forall t s, P s -> P (set_part t s)) -> preserves P (focus get_part set_part m).
Proof. intros H s Hs. unfold focus. destruct (m (get_part s)). by apply H. Qed.
End Preserves.

Create HintDb preserves.
#[export] Hint Resolve preserves_ret preserves_get preserves_lift preserves_throw preserves_attempt : preserves.

Ltac preserves_step :=
  lazymatch goal with
  | |- preserves _ (mbind _ _) => apply preserves_bind; [|intros ?]
  | |- preserves _ (match ?x with _ => _ end) => destruct x
  | |- preserves _ (modify _) => apply preserves_modify; intros ? ?
  | |- preserves _ (custom _) => apply preserves_throw
  | |- preserves _ (let '_ := ?x in _) => destruct x
  end.
Ltac preserves_auto := repeat first [solve [eauto with preserves] | preserves_step].

(** ** Methods that neither throw nor wait *)
Definition returns {X S A} (m : STE X S A) : Prop := forall s, is_fault (m s).1 = false.

Section Returns.
Context {X S : Type}.

Lemma returns_ret {A} (a : A) : returns (mret a : STE X S A).
Proof. done. Qed.
Lemma returns_get {A} (g : S -> A) : returns (get g : STE X S A).
Proof. done. Qed.
Lemma returns_modify g : returns (modify g : STE X S unit).
Proof. done. Qed.
Lemma returns_throw {A} (e : X) : returns (throw e : STE X S A).
Proof. done. Qed.
Lemma returns_state {A} (g : S -> A * S) : returns (state g : STE X S A).
Proof. intros s. unfold state. by destruct (g s). Qed.

Lemma returns_bind {A B} (m : STE X S A) (k : A -> STE X S B) : returns m -> (forall a, returns (k a)) -> returns (m ≫= k).
Proof.
  intros Hm Hk s. specialize (Hm s). unfold mbind, ST_bind. destruct (m s) as [[a|e|f] s']; [by apply Hk|done|done].
Qed.

Lemma returns_focus {T A} (get_part : S -> T) (set_part : T -> S -> S) (m : STE X T A) :
  returns m -> returns (focus get_part set_part m).
Proof. intros H s. specialize (H (get_part s)). unfold focus. by destruct (m (get_part s)). Qed.

(** A method that returns and leaves alone what an assertion looks at. *)
Lemma triple_keeps {A B} (f : S -> B) (P : B -> Prop) (m : STE X S A) :
  keeps f m -> returns m -> triple (fun s => P (f s)) m (fun _ s => P (f s)) (fun s => P (f s)).
Proof.
  intros Hk Hr s Hs. specialize (Hk s). specialize (Hr s). destruct (m s) as [[a|e|x] s']; cbn in *; by rewrite ?Hk.
Qed.
End Returns.

Create HintDb returns.
#[export] Hint Resolve returns_ret returns_get returns_modify returns_throw returns_state returns_focus : returns.

Ltac returns_step :=
  lazymatch goal with
  | |- returns (mbind _ _) => apply returns_bind; [|intros ?]
  | |- returns (match ?x with _ => _ end) => destruct x
  | |- returns (custom _) => apply returns_throw
  end.
Ltac returns_auto := repeat first [solve [eauto with returns] | returns_step].

(** ** Methods that are safe, and what they yield
    [safe P m]: [m] does not throw, and keeps [P] however it ends.
    [yields P m Q]: [m] keeps [P] however it ends, and what it returns satisfies
    [Q]. *)
Definition safe {X S A} (P : S -> Prop) (m : STE X S A) : Prop := triple P m (fun _ => P) P.
Definition yields {X S A} (P : S -> Prop) (m : STE X S A) (Q : A -> Prop) : Prop :=
  forall s, P s -> P (m s).2 /\ forall a, (m s).1 = Ok a -> Q a.

Section Safe.
Context {X S : Type} (P : S -> Prop).

Lemma safe_ret {A} (a : A) : safe P (mret a : STE X S A).
Proof. by intros s Hs. Qed.
Lemma safe_get {A} (f : S -> A) : safe P (get f : STE X S A).
Proof. by intros s Hs. Qed.
Lemma safe_throw {A} (e : X) : safe P (throw e : STE X S A).
Proof. by intros s Hs. Qed.
Lemma safe_lift {A} (m : result X A) : is_fault m = false -> safe P (lift m).
Proof. intros Hf s Hs. unfold lift. by destruct m. Qed.
Lemma safe_modify f : (forall s, P s -> P (f s)) -> safe P (modify f : STE X S unit).
Proof. intros H s Hs. by apply H. Qed.
Lemma safe_state {A} (f : S -> A * S) : (forall s, P s -> P (f s).2) -> safe P (state f : STE X S A).
Proof. intros H s Hs. specialize (H s Hs). unfold state. by destruct (f s). Qed.
Lemma safe_when b (m : STE X S unit) : safe P m -> safe P (when b m).
Proof. intros H. by destruct b; [|apply safe_ret]. Qed.
Lemma safe_bind {A B} (m : STE X S A) (k : A -> STE X S B) : safe P m -> (forall a, safe P (k a)) -> safe P (m ≫= k).
Proof. intros Hm Hk. eapply triple_bind; [exact Hm|exact Hk]. Qed.
Lemma safe_read {A B} (f : S -> A) (k : A -> STE X S B) :
  (forall s, P s -> safe P (k (f s))) -> safe P (get f ≫= k).
Proof. intros H s Hs. by apply (H s). Qed.
Lemma safe_returns {A} (m : STE X S A) : returns m -> preserves P m -> safe P m.
Proof. intros Hr Hp s Hs. specialize (Hr s). specialize (Hp s Hs). by destruct (m s) as [[a|e|f] s']. Qed.
Lemma safe_and (Q : S -> Prop) {A} (m : STE X S A) : safe P m -> preserves Q m -> safe (fun s => P s /\ Q s) m.
Proof. intros H Hp s [Hs HQ]. specialize (H s Hs). specialize (Hp s HQ). by destruct (m s) as [[a|e|[]] s']. Qed.
Lemma safe_preserves {A} (m : STE X S A) : safe P m -> (forall s f, (m s).1 = Fault f -> P s -> P (m s).2) -> preserves P m.
Proof. intros H Hf s Hs. specialize (H s Hs). specialize (Hf s). by destruct (m s) as [[a|e|[]] s']. Qed.
Lemma safe_focus {T A} (get_part : S -> T) (set_part : T -> S -> S) (Q : T -> Prop) (m : STE X T A) :
  (forall s, P s -> Q (get_part s)) -> (forall t s, P s -> Q t -> P (set_part t s)) ->
  safe Q m -> safe P (focus get_part set_part m).
Proof.
  intros Hg Hs Hm s HP. specialize (Hm _ (Hg s HP)). unfold focus. destruct (m (get_part s)) as [[a|e|[]] t]; try done; by apply Hs.
Qed.
(** What was returned is known. *)
Lemma safe_yields {A B} (m : STE X S A) (Q : A -> Prop) (k : A -> STE X S B) :
  safe P m -> yields P m Q -> (forall a, Q a -> safe P (k a)) -> safe P (m ≫= k).
Proof.
  intros Hm Hy Hk s Hs. specialize (Hm s Hs). destruct (Hy s Hs) as [_ Ha]. unfold mbind, ST_bind.
  destruct (m s) as [[a|e|[]] s']; try done. by apply (Hk a (Ha a eq_refl)).
Qed.

Lemma yields_ret {A} (a : A) (Q : A -> Prop) : Q a -> yields P (mret a : STE X S A) Q.
Proof. intros Ha s Hs. split; [done|]. by intros a' [= <-]. Qed.
Lemma yields_lift {A} (m : result X A) (Q : A -> Prop) : (forall a, m = Ok a -> Q a) -> yields P (lift m) Q.
Proof. intros H s Hs. by split. Qed.
Lemma yields_throw {A} (e : X) (Q : A -> Prop) : yields P (throw e : STE X S A) Q.
Proof. by intros s Hs. Qed.
Lemma yields_preserves {A} (m : STE X S A) : preserves P m -> yields P m (fun _ => True).
Proof. intros H s Hs. split; [by apply H|done]. Qed.
Lemma yields_bind {A B} (m : STE X S A) (Q : A -> Prop) (k : A -> STE X S B) R :
  yields P m Q -> (forall a, Q a -> yields P (k a) R) -> yields P (m ≫= k) R.
Proof.
  intros Hm Hk s Hs. destruct (Hm s Hs) as [Hs' Ha]. unfold mbind, ST_bind.
  destruct (m s) as [[a|e|f] s']; [by apply (Hk a (Ha a eq_refl))|done|done].
Qed.
Lemma yields_seq {A B} (m : STE X S A) (k : A -> STE X S B) R :
  preserves P m -> (forall a, yields P (k a) R) -> yields P (m ≫= k) R.
Proof. intros Hm Hk. eapply yields_bind; [by apply yields_preserves|]. intros a _. apply Hk. Qed.
Lemma yields_read {A B} (f : S -> A) (k : A -> STE X S B) R :
  (forall s, P s -> yields P (k (f s)) R) -> yields P (get f ≫= k) R.
Proof. intros H s Hs. by apply (H s). Qed.
End Safe.

Create HintDb safe.
#[export] Hint Resolve safe_ret safe_get safe_throw : safe.

Ltac safe_step :=
  lazymatch goal with
  | |- safe _ (mbind _ (get _)) => apply safe_read; intros ? ?
  | |- safe _ (mbind _ _) => apply safe_bind; [|intros ?]
  | |- safe _ (when _ _) => apply safe_when
  | |- safe _ (match ?x with _ => _ end) => destruct x
  | |- safe _ (custom _) => apply safe_throw
  | |- safe _ (let '_ := ?x in _) => destruct x
  end.
Ltac safe_auto := repeat first [solve [eauto with safe] | safe_step].

(** ** The socket *)
Record Net := {
  net_sent : list (list Z);
  (** [m_lossSim]: the share of the packets that are not handed to the socket *)
  net_lossSim : spec_float;
  (** what the uniform distribution on [[0, 1)] will draw; then 0 *)
  net_draws : list spec_float;
  (** the errors of the calls of [send] to come; then success *)
  net_errors : list (option SocketError);
  (** what [recv] will return; then it waits *)
  net_incoming : list (list Z);
}.

Definition quiet_net (incoming : list (list Z)) : Net :=
  {| net_sent := []; net_lossSim := S754_zero false; net_draws := []; net_errors := []; net_incoming := incoming |}.

(** [std::clamp] *)
Definition fclamp (v lo hi : spec_float) : spec_float :=
  if SFltb v lo then lo else if SFltb hi v then hi else v.

Definition randomChance (chance : spec_float) (n : Net) : bool * Net :=
  (SFltb (default (S754_zero false) (head (net_draws n))) chance,
   {| net_sent := net_sent n; net_lossSim := net_lossSim n; net_draws := tail (net_draws n);
      net_errors := net_errors n; net_incoming := net_incoming n |}).

Definition socket_send (data : list Z) : ST Net unit := fun n =>
  match net_errors n with
  | Some e :: errors =>
      (Err (TE_Socket e), {| net_sent := net_sent n; net_lossSim := net_lossSim n; net_draws := net_draws n;
                             net_errors := errors; net_incoming := net_incoming n |})
  | errors =>
      (Ok tt, {| net_sent := net_sent n ++ [data]; net_lossSim := net_lossSim n; net_draws := net_draws n;
                 net_errors := tail errors; net_incoming := net_incoming n |})
  end.

(** [recv(buffer, size)]: a longer datagram is cut. *)
Definition socket_recv (size : Z) : ST Net (list Z) := fun n =>
  match net_incoming n with
  | [] => (Fault WouldBlock, n)
  | d :: ds =>
      (Ok (ztake size d), {| net_sent := net_sent n; net_lossSim := net_lossSim n; net_draws := net_draws n;
                             net_errors := net_errors n; net_incoming := ds |})
  end.

Lemma socket_send_returns data : returns (socket_send data).
Proof. intros n. unfold socket_send. by destruct (net_errors n) as [|[]]. Qed.
#[export] Hint Resolve socket_send_returns : returns.

(** A network on which every packet is handed to the socket: no loss is
    simulated and no [send] fails. *)
Definition lossless (n : Net) : Prop :=
  net_lossSim n = S754_zero false /\ net_draws n = [] /\ net_errors n = [].

Definition sending (ds : list (list Z)) (n : Net) : Net :=
  {| net_sent := net_sent n ++ ds; net_lossSim := net_lossSim n; net_draws := net_draws n;
     net_errors := net_errors n; net_incoming := net_incoming n |}.

Lemma sending_lossless ds n : lossless n -> lossless (sending ds n).
Proof. done. Qed.

Lemma sending_app ds ds' n : sending ds' (sending ds n) = sending (ds ++ ds') n.
Proof. unfold sending. cbn. by rewrite app_assoc. Qed.

Lemma sending_nil n : sending [] n = n.
Proof. unfold sending. rewrite app_nil_r. by destruct n. Qed.

Lemma socket_send_lossless data n : lossless n -> socket_send data n = (Ok tt, sending [data] n).
Proof. destruct n. intros (?&?&?). unfold socket_send, sending. cbn in *. by subst. Qed.
