(* ===== verification/Fragment.v ===== *)
(** * FragmentStore: reassembly of fragmented messages

    [include/qunet/socket/transport/udp/FragmentStore.hpp] and
    [src/socket/transport/udp/FragmentStore.cpp].  The store is a map from
    message identifiers to partial messages.  The order in which
    [processStored] walks the [std::unordered_map] is unspecified: it is the
    argument [order], any list of the keys. *)
From stdpp Require Import gmap sorting.
From S2P Require Import Prelude Time Messages Codec Errors.

(** The [Fragment] of a partial message. *)
Record Fragment := { f_index : Z; f_data : list Z }.

(** [FragmentStore::Message]; [None] in [totalFragmentCount] is the [-1] that
    means unknown, a value that [fragments.size()] never reaches. *)
Record PartialMessage {T : TimeLib} := {
  pm_messageId : Z;
  pm_receivedAt : option instant;
  pm_totalFragmentCount : option Z;
  pm_fragments : list Fragment;
  pm_compressionHeader : option CompressionHeader;
  pm_reliabilityHeader : option ReliabilityHeader;
}.

Record FragmentStore {T : TimeLib} := {
  fs_messages : gmap Z PartialMessage;
  fs_nextMessageId : Z;
}.

#[export] Instance Fragment_eq_dec : EqDecision Fragment.
Proof. solve_decision. Defined.

(** [a.index < b.index] as the order of [std::sort]; equal indices never occur
    in a store, so its being unstable does not show. *)
Definition index_le (a b : Fragment) : Prop := f_index a <= f_index b.
#[export] Instance index_le_dec : RelDecision index_le.
Proof. intros a b. unfold index_le. apply _. Defined.

Section Store.
Context {T : TimeLib}.

Definition new_FragmentStore : FragmentStore := {| fs_messages := ∅; fs_nextMessageId := 1 |}.

(** The value [m_messages[id]] creates. *)
Definition empty_message : PartialMessage :=
  {| pm_messageId := 0; pm_receivedAt := None; pm_totalFragmentCount := None; pm_fragments := [];
     pm_compressionHeader := None; pm_reliabilityHeader := None |}.

(** The loop over the sorted fragments that looks for a gap. *)
Fixpoint check_sequence (expected : Z) (fs : list Fragment) : bool :=
  match fs with
  | [] => true
  | f :: fs => (f_index f =? expected) && check_sequence (expected + 1) fs
  end.

(** [out] is value-initialised: its type is 0. *)
Definition reassemble (msg : PartialMessage) : TransportResult (option QunetMessageMeta) :=
  let fragments := merge_sort index_le (pm_fragments msg) in
  if check_sequence 0 fragments then
    Ok (Some {| mm_type := 0;
                mm_compressionHeader := pm_compressionHeader msg;
                mm_reliabilityHeader := pm_reliabilityHeader msg;
                mm_fragmentationHeader := None;
                mm_data := concat (f_data <$> fragments);
                mm_dataOffset := 0 |})
  else Err (TE_Custom DefragmentationError).

Definition EXPIRY : duration := fromSecs 10.

Definition is_complete (msg : PartialMessage) : bool :=
  match pm_totalFragmentCount msg with
  | Some n => n =? len (pm_fragments msg)
  | None => false
  end.

(** A message that was never given a time is not met by [processStored]: the
    insertion sets it. *)
Definition is_stale (now : instant) (msg : PartialMessage) : bool :=
  match pm_receivedAt msg with
  | Some t => dltb EXPIRY (since now t)
  | None => false
  end.

(** One walk over the map, in the order [order]: it stops at the first
    complete message and drops the stale ones it meets before. *)
Fixpoint processStored (now : instant) (order : list Z) (m : gmap Z PartialMessage)
    : TransportResult (option QunetMessageMeta) * gmap Z PartialMessage :=
  match order with
  | [] => (Ok None, m)
  | k :: order =>
      match m !! k with
      | None => processStored now order m
      | Some msg =>
          if is_complete msg then (reassemble msg, delete k m)
          else if is_stale now msg then processStored now order (delete k m)
          else processStored now order m
      end
  end.

(** The entry of a message after a fragment of it that is not a duplicate. *)
Definition add_fragment (now : instant) (message : QunetMessageMeta) (frh : FragmentationHeader)
    (fmsg : PartialMessage) : PartialMessage :=
  let first := match pm_fragments fmsg with [] => true | _ => false end in
  {| pm_messageId := if first then fh_messageId frh else pm_messageId fmsg;
     pm_receivedAt := if first then Some now else pm_receivedAt fmsg;
     pm_totalFragmentCount :=
       if fh_lastFragment frh then Some (fh_fragmentIndex frh + 1) else pm_totalFragmentCount fmsg;
     pm_fragments := pm_fragments fmsg ++ [{| f_index := fh_fragmentIndex frh; f_data := mm_data message |}];
     pm_compressionHeader :=
       match mm_compressionHeader message with Some h => Some h | None => pm_compressionHeader fmsg end;
     pm_reliabilityHeader :=
       match mm_reliabilityHeader message with Some h => Some h | None => pm_reliabilityHeader fmsg end |}.

Definition has_index (i : Z) (fs : list Fragment) : bool := existsb (fun f => f_index f =? i) fs.

Definition processFragment (now : instant) (order : list Z) (message : QunetMessageMeta) (s : FragmentStore)
    : TransportResult (option QunetMessageMeta) * FragmentStore :=
  match mm_fragmentationHeader message with
  | None => (Fault AssertionFailed, s)
  | Some frh =>
      let fmsg := default empty_message (fs_messages s !! fh_messageId frh) in
      if has_index (fh_fragmentIndex frh) (pm_fragments fmsg) then
        (* operator[] has inserted the entry, which exists: it has a fragment *)
        (Ok None, s)
      else
        let m := <[fh_messageId frh := add_fragment now message frh fmsg]> (fs_messages s) in
        let '(res, m) := processStored now order m in
        (res, {| fs_messages := m; fs_nextMessageId := fs_nextMessageId s |})
  end.

Definition FragmentStore_nextMessageId (s : FragmentStore) : Z * FragmentStore :=
  (fs_nextMessageId s,
   {| fs_messages := fs_messages s; fs_nextMessageId := u16 (fs_nextMessageId s + 1) |}).
End Store.

(** ** What one fragment does *)
Section Spec.
Context {T : TimeLib}.

(** No entry is complete between two calls, and every entry has a fragment. *)
Definition store_inv (m : gmap Z PartialMessage) : Prop :=
  map_Forall (fun k msg => u16_ok k /\ is_complete msg = false /\ pm_fragments msg <> []) m.

(** An order that walks every possible key. *)
Definition walks_all (order : list Z) : Prop := forall k, u16_ok k -> k ∈ order.

(** Entries are only dropped when they are stale or complete. *)
Lemma processStored_keeps now order m k :
  (processStored now order m).2 !! k = m !! k \/
  (processStored now order m).2 !! k = None /\
    exists msg, m !! k = Some msg /\ is_complete msg || is_stale now msg = true.
Proof.
  revert m. induction order as [|k' order IH]; intros m; cbn [processStored]; [by left|].
  destruct (m !! k') as [msg|] eqn:Hk'; [|apply IH].
  assert (forall m' : gmap Z PartialMessage, m' = delete k' m -> is_complete msg || is_stale now msg = true ->
    m' !! k = m !! k \/ m' !! k = None /\
      exists msg, m !! k = Some msg /\ is_complete msg || is_stale now msg = true) as Hdel.
  { intros m' -> Hc. destruct (decide (k' = k)) as [->|]; [|left; by rewrite lookup_delete_ne].
    right. rewrite lookup_delete_eq. eauto. }
  destruct (is_complete msg) eqn:Hc; [by apply Hdel|].
  destruct (is_stale now msg) eqn:Hs; [|apply IH].
  destruct (Hdel _ eq_refl ltac:(by rewrite orb_true_r)) as [Hd|(Hd & Hex)], (IH (delete k' m)) as [E|(E & msg' & Hm' & ?)].
  - left. by rewrite E.
  - right. split; [done|]. rewrite Hd in Hm'. eauto.
  - right. split; [by rewrite E|done].
  - by right.
Qed.

Lemma processStored_subset now order m k msg :
  (processStored now order m).2 !! k = Some msg -> m !! k = Some msg.
Proof. intros H. destruct (processStored_keeps now order m k) as [<-|[HN _]]; [done|]. by rewrite H in HN. Qed.

Lemma processStored_none now order m :
  map_Forall (fun _ msg => is_complete msg = false) m -> (processStored now order m).1 = Ok None.
Proof.
  revert m. induction order as [|k order IH]; intros m Hm; cbn [processStored]; [done|].
  destruct (m !! k) as [msg|] eqn:Hk; [|by apply IH]. rewrite (Hm _ _ Hk).
  destruct (is_stale now msg); apply IH; [by apply map_Forall_delete|done].
Qed.

(** The complete message is found whatever the order. *)
Lemma processStored_complete now order m id msg :
  m !! id = Some msg -> is_complete msg = true -> id ∈ order ->
  map_Forall (fun k msg => k <> id -> is_complete msg = false) m ->
  (processStored now order m).1 = reassemble msg /\ (processStored now order m).2 !! id = None.
Proof.
  revert m. induction order as [|k order IH]; intros m Hid Hc Hin Hm; [by apply not_elem_of_nil in Hin|].
  cbn [processStored]. destruct (decide (k = id)) as [->|Hne].
  - rewrite Hid, Hc. cbn. by rewrite lookup_delete_eq.
  - apply elem_of_cons in Hin as [?|Hin]; [done|].
    destruct (m !! k) as [msg'|] eqn:Hk; [|by apply IH]. rewrite (Hm _ _ Hk Hne).
    destruct (is_stale now msg'); apply IH; try done; [by rewrite lookup_delete_ne|by apply map_Forall_delete].
Qed.

(** When nothing is complete, the walk drops exactly the stale entries. *)
Lemma processStored_drops now order m k :
  map_Forall (fun _ msg => is_complete msg = false) m -> k ∈ order ->
  (processStored now order m).2 !! k
  = match m !! k with Some msg => if is_stale now msg then None else Some msg | None => None end.
Proof.
  revert m. induction order as [|k' order IH]; intros m Hm Hin; [by apply not_elem_of_nil in Hin|].
  assert (forall order m, map_Forall (fun _ msg => is_complete msg = false) m ->
    match m !! k with Some msg => is_stale now msg = false | None => True end ->
    (processStored now order m).2 !! k = m !! k) as Hkeep.
  { clear. intros order m Hm Hk. destruct (processStored_keeps now order m k) as [?|(_ & msg & E & Hc)]; [done|].
    rewrite E in Hk. by rewrite (Hm _ _ E), Hk in Hc. }
  cbn [processStored]. apply elem_of_cons in Hin as [<-|Hin].
  - destruct (m !! k) as [msg|] eqn:Hk; [|rewrite Hkeep; rewrite ?Hk; done]. rewrite (Hm _ _ Hk).
    destruct (is_stale now msg) eqn:Hs.
    + rewrite Hkeep; rewrite ?lookup_delete_eq; [done| |done]. by apply map_Forall_delete.
    + rewrite Hkeep; rewrite ?Hk; done.
  - destruct (m !! k') as [msg'|] eqn:Hk'; [|by apply IH]. rewrite (Hm _ _ Hk').
    destruct (is_stale now msg') eqn:Hs; [|by apply IH].
    rewrite IH; [|by apply map_Forall_delete|done].
    destruct (decide (k' = k)) as [->|]; [by rewrite lookup_delete_eq, Hk', Hs|by rewrite lookup_delete_ne].
Qed.

(** What a fragment does to the entry of its message: nothing if its index is
    known, and otherwise the entry grows, and leaves the store when it is
    complete. *)
Definition entry_after (now : instant) (message : QunetMessageMeta) (frh : FragmentationHeader)
    (entry : option PartialMessage) : TransportResult (option QunetMessageMeta) * option PartialMessage :=
  let fmsg := default empty_message entry in
  if has_index (fh_fragmentIndex frh) (pm_fragments fmsg) then (Ok None, entry)
  else
    let added := add_fragment now message frh fmsg in
    if is_complete added then (reassemble added, None)
    else (Ok None, Some added).

Lemma add_fragment_nonempty now message frh fmsg : pm_fragments (add_fragment now message frh fmsg) <> [].
Proof. cbn. by destruct (pm_fragments fmsg). Qed.

Lemma store_inv_insert m id msg :
  store_inv m -> u16_ok id -> is_complete msg = false -> pm_fragments msg <> [] ->
  store_inv (<[id := msg]> m).
Proof. intros Hm ? ? ?. by apply map_Forall_insert_2. Qed.

Lemma store_inv_subset m m' :
  store_inv m -> (forall k msg, m' !! k = Some msg -> m !! k = Some msg) -> store_inv m'.
Proof. intros Hm Hsub k msg Hk. by eapply Hm, Hsub. Qed.

Lemma processFragment_steps now order message frh s :
  store_inv (fs_messages s) -> walks_all order -> mm_fragmentationHeader message = Some frh ->
  u16_ok (fh_messageId frh) ->
  let id := fh_messageId frh in
  let '(res, s') := processFragment now order message s in
  let '(res', entry) := entry_after now message frh (fs_messages s !! id) in
  res = res' /\ store_inv (fs_messages s') /\
  (fs_messages s' !! id = entry \/
    fs_messages s' !! id = None /\ exists msg, entry = Some msg /\ is_stale now msg = true) /\
  (forall k, k <> id -> fs_messages s' !! k = fs_messages s !! k \/
    fs_messages s' !! k = None /\ exists msg, fs_messages s !! k = Some msg /\ is_stale now msg = true).
Proof.
  intros Hinv Hwalk Hfrh Hid id. subst id. unfold processFragment, entry_after. rewrite Hfrh.
  set (id := fh_messageId frh) in *. set (fmsg := default empty_message (fs_messages s !! id)).
  destruct (has_index _ _) eqn:Hdup; [by eauto 10|].
  set (added := add_fragment now message frh fmsg). set (m := <[id := added]> (fs_messages s)).
  assert (Hothers : map_Forall (fun k msg => k <> id -> is_complete msg = false) m).
  { intros k msg Hk Hne. unfold m in Hk. rewrite lookup_insert_ne in Hk by done. by apply (Hinv _ _ Hk). }
  assert (Hm : forall k, k <> id -> m !! k = fs_messages s !! k) by (intros; by apply lookup_insert_ne).
  pose proof (processStored_keeps now order m) as Hkeep.
  pose proof (processStored_subset now order m) as Hsub.
  assert (Hrest : forall k, k <> id -> (processStored now order m).2 !! k = fs_messages s !! k \/
    (processStored now order m).2 !! k = None /\
    exists msg, fs_messages s !! k = Some msg /\ is_stale now msg = true).
  { intros k Hne. rewrite <- (Hm k Hne). destruct (Hkeep k) as [?|(? & msg & Hk & Hc)]; [by left|right].
    split; [done|]. exists msg. split; [done|]. by rewrite (Hothers k msg Hk Hne) in Hc. }
  destruct (is_complete added) eqn:Hc.
  - destruct (processStored_complete now order m id added) as [E1 E2];
      [by apply lookup_insert_eq|done|by apply Hwalk|done|].
    destruct (processStored now order m) as [res m'] eqn:E. cbn in *. subst res.
    split; [done|]. split; [|by eauto].
    apply (store_inv_subset (fs_messages s)); [done|]. intros k msg Hk.
    destruct (decide (k = id)) as [->|Hne]; [congruence|]. rewrite <- (Hm k Hne). by apply Hsub.
  - assert (Hinv' : store_inv m) by (apply store_inv_insert; [done|done|done|apply add_fragment_nonempty]).
    assert (Hnone : map_Forall (fun _ msg => is_complete msg = false) m) by (intros k msg Hk; apply (Hinv' _ _ Hk)).
    pose proof (processStored_none now order m Hnone) as E1. pose proof (Hkeep id) as Hk.
    destruct (processStored now order m) as [res m'] eqn:E. cbn in *. subst res.
    split; [done|]. split; [by eapply store_inv_subset|]. split; [|done].
    unfold m in Hk. rewrite lookup_insert_eq in Hk. destruct Hk as [?|(? & msg & [= <-] & Hs)]; [by left|right].
    rewrite Hc in Hs. eauto.
Qed.
End Spec.

(** ** Reassembly *)
Section Reassembly.
Context {T : TimeLib}.

(** A message cut in [chunks]; the other headers are on the first fragment
    only, as the sender puts them. *)
Variable id : Z.
Variable chunks : list (list Z).
Variable comp : option CompressionHeader.
Variable rel : option ReliabilityHeader.
Variable offset : nat -> Z.

Definition fragment_header (i : nat) : FragmentationHeader :=
  {| fh_messageId := id; fh_fragmentIndex := Z.of_nat i;
     fh_lastFragment := bool_decide (S i = length chunks) |}.

Definition fragment_meta (i : nat) : QunetMessageMeta :=
  {| mm_type := MSG_DATA;
     mm_compressionHeader := if bool_decide (i = 0%nat) then comp else None;
     mm_reliabilityHeader := if bool_decide (i = 0%nat) then rel else None;
     mm_fragmentationHeader := Some (fragment_header i);
     mm_data := nth i chunks [];
     mm_dataOffset := offset i |}.

Definition whole_message : QunetMessageMeta :=
  {| mm_type := 0; mm_compressionHeader := comp; mm_reliabilityHeader := rel;
     mm_fragmentationHeader := None; mm_data := concat chunks; mm_dataOffset := 0 |}.

Definition to_fragment (i : nat) : Fragment := {| f_index := Z.of_nat i; f_data := nth i chunks [] |}.

(** The entry once the fragments [ds] have arrived, the first of them at [t]. *)
Definition entry_of (t : instant) (ds : list nat) : PartialMessage :=
  {| pm_messageId := id; pm_receivedAt := Some t;
     pm_totalFragmentCount := if bool_decide (pred (length chunks) ∈ ds) then Some (len chunks) else None;
     pm_fragments := to_fragment <$> ds;
     pm_compressionHeader := if bool_decide (0%nat ∈ ds) then comp else None;
     pm_reliabilityHeader := if bool_decide (0%nat ∈ ds) then rel else None |}.

Definition arrived (ds : list nat) : Prop := NoDup ds /\ forall i, i ∈ ds -> (i < length chunks)%nat.

Lemma has_index_to_fragment i ds : has_index (Z.of_nat i) (to_fragment <$> ds) = bool_decide (i ∈ ds).
Proof.
  unfold has_index. apply eq_true_iff_eq. rewrite existsb_exists, bool_decide_eq_true. split.
  - intros (f & Hf & E). apply Z.eqb_eq in E. apply list_elem_of_In, list_elem_of_fmap in Hf as (j & -> & Hj).
    cbn in E. apply Nat2Z.inj in E as ->. done.
  - intros Hi. exists (to_fragment i). split; [|apply Z.eqb_refl].
    apply list_elem_of_In, list_elem_of_fmap. eauto.
Qed.

Lemma arrived_length ds : arrived ds -> (length ds <= length chunks)%nat.
Proof.
  intros [Hnd Hlt]. rewrite <- (length_seq (length chunks) 0). apply submseteq_length, NoDup_submseteq; [done|].
  intros i Hi. apply elem_of_seq. specialize (Hlt i Hi). lia.
Qed.

Lemma arrived_all ds : arrived ds -> length ds = length chunks -> ds ≡ₚ seq 0 (length chunks).
Proof.
  intros [Hnd Hlt] Hlen. apply submseteq_length_Permutation; [|by rewrite length_seq, Hlen].
  apply NoDup_submseteq; [done|]. intros i Hi. apply elem_of_seq. specialize (Hlt i Hi). lia.
Qed.

Lemma list_elem_of_singleton_bool (x i : nat) : bool_decide (x ∈ [i]) = bool_decide (x = i).
Proof. apply bool_decide_ext, list_elem_of_singleton. Qed.

Lemma in_snoc (x i : nat) ds : bool_decide (x ∈ ds ++ [i]) = bool_decide (x ∈ ds) || bool_decide (i = x).
Proof. apply eq_true_iff_eq. rewrite orb_true_iff, !bool_decide_eq_true, elem_of_app, list_elem_of_singleton. naive_solver. Qed.

(** The entry once the fragments [ds] have arrived, which is absent before
    the first one. *)
Definition entry_state (t : instant) (ds : list nat) : option PartialMessage :=
  match ds with [] => None | _ => Some (entry_of t ds) end.

Lemma add_fragment_entry now t ds i :
  (i < length chunks)%nat ->
  add_fragment now (fragment_meta i) (fragment_header i) (default empty_message (entry_state t ds))
  = entry_of (match ds with [] => now | _ => t end) (ds ++ [i]).
Proof.
  intros Hi. assert (E : bool_decide (S i = length chunks) = bool_decide (i = pred (length chunks)))
    by (apply bool_decide_ext; lia).
  assert (Hn : Z.of_nat i + 1 = len chunks \/ i <> pred (length chunks)) by lia.
  destruct ds as [|d ds]; unfold add_fragment; cbn; unfold entry_of.
  - rewrite !list_elem_of_singleton_bool, E. f_equal; repeat case_bool_decide; simplify_eq; try done;
      try (by destruct comp); try (by destruct rel); f_equal; lia.
  - change (d :: ds ++ [i]) with ((d :: ds) ++ [i]). rewrite !in_snoc, fmap_app, E. cbn.
    f_equal.
    + destruct Hn as [<-|]; [|rewrite bool_decide_eq_false_2 by done; by rewrite orb_false_r].
      by repeat case_bool_decide.
    + repeat case_bool_decide; try done; by destruct comp.
    + repeat case_bool_decide; try done; by destruct rel.
Qed.

Lemma StronglySorted_seq a n : StronglySorted le (seq a n).
Proof.
  revert a. induction n as [|n IH]; intros a; cbn; constructor; [done|].
  apply Forall_forall. intros x Hx. apply elem_of_seq in Hx. lia.
Qed.

Lemma merge_sort_fragments ds :
  ds ≡ₚ seq 0 (length chunks) ->
  merge_sort index_le (to_fragment <$> ds) = to_fragment <$> seq 0 (length chunks).
Proof.
  intros Hds. apply (StronglySorted_unique_strong index_le).
  - intros x y Hx Hy. rewrite merge_sort_Permutation in Hx.
    apply list_elem_of_fmap in Hx as (i & -> & _), Hy as (j & -> & _). unfold index_le. cbn. intros.
    by replace j with i by lia.
  - apply StronglySorted_merge_sort.
    + intros x y z. unfold index_le. lia.
    + intros x y. unfold index_le. lia.
  - apply (StronglySorted_fmap to_fragment le); [unfold index_le; cbn; lia|apply StronglySorted_seq].
  - by rewrite merge_sort_Permutation, Hds.
Qed.

Lemma check_sequence_seq a n : check_sequence (Z.of_nat a) (to_fragment <$> seq a n) = true.
Proof.
  revert a. induction n as [|n IH]; intros a; cbn; [done|]. rewrite Z.eqb_refl. cbn.
  replace (Z.of_nat a + 1) with (Z.of_nat (S a)) by lia. apply IH.
Qed.

Lemma nth_seq_all {A} (l : list A) d : (fun i => nth i l d) <$> seq 0 (length l) = l.
Proof.
  induction l as [|x l IH]; [done|]. cbn [length seq fmap list_fmap]. cbn [nth]. f_equal.
  rewrite <- fmap_S_seq, <- list_fmap_compose. exact IH.
Qed.

Lemma reassemble_all t ds :
  chunks <> [] -> arrived ds -> length ds = length chunks ->
  reassemble (entry_of t ds) = Ok (Some whole_message).
Proof.
  intros Hne Hds Hlen. pose proof (arrived_all ds Hds Hlen) as Hperm.
  unfold reassemble, whole_message. cbn. rewrite (merge_sort_fragments ds Hperm).
  rewrite (check_sequence_seq 0). rewrite bool_decide_eq_true_2; [|rewrite Hperm, elem_of_seq; destruct chunks; cbn; [done|lia]].
  do 3 f_equal. rewrite <- list_fmap_compose. unfold compose. cbn. by rewrite nth_seq_all.
Qed.

Lemma entry_complete t ds : is_complete (entry_of t ds) =
  bool_decide (pred (length chunks) ∈ ds) && (len chunks =? len ds).
Proof. unfold is_complete. cbn. case_bool_decide; cbn; [by rewrite length_fmap|done]. Qed.

(** The fragments that arrive: of this message, or of another one. *)
Inductive event :=
  | Ours (now : instant) (order : list Z) (i : nat)
  | Others (now : instant) (order : list Z) (frh : FragmentationHeader) (message : QunetMessageMeta).

Definition event_time (e : event) : instant := match e with Ours t _ _ | Others t _ _ _ => t end.

Definition event_ok (e : event) : Prop :=
  match e with
  | Ours _ order i => walks_all order /\ (i < length chunks)%nat
  | Others _ order frh message => walks_all order /\ mm_fragmentationHeader message = Some frh /\
      u16_ok (fh_messageId frh) /\ fh_messageId frh <> id
  end.

Definition receive_event (e : event) (s : FragmentStore) :=
  match e with
  | Ours t order i => processFragment t order (fragment_meta i) s
  | Others t order _ message => processFragment t order message s
  end.

Fixpoint receive_events (es : list event) (s : FragmentStore)
    : list (TransportResult (option QunetMessageMeta)) * FragmentStore :=
  match es with
  | [] => ([], s)
  | e :: es =>
      let '(res, s) := receive_event e s in
      let '(results, s) := receive_events es s in
      (res :: results, s)
  end.

Fixpoint ours (es : list event) : list nat :=
  match es with
  | [] => []
  | Ours _ _ i :: es => i :: ours es
  | Others _ _ _ _ :: es => ours es
  end.

(** All the fragments arrive within the expiry time of each other. *)
Definition timely (times : list instant) : Prop :=
  forall t t', t ∈ times -> t' ∈ times -> dltb EXPIRY (since t' t) = false.

(** One fragment of the message, when it does not complete it and when it
    does. *)
Lemma ours_step s t now order i ds :
  u16_ok id -> chunks <> [] -> store_inv (fs_messages s) -> walks_all order -> (i < length chunks)%nat ->
  arrived ds -> (length ds < length chunks)%nat -> timely [t; now] ->
  fs_messages s !! id = entry_state t ds ->
  let t' := match ds with [] => now | _ => t end in
  let '(res, s') := processFragment now order (fragment_meta i) s in
  store_inv (fs_messages s') /\
  if bool_decide (i ∈ ds) then res = Ok None /\ fs_messages s' !! id = entry_state t ds
  else if bool_decide (S (length ds) = length chunks)
  then res = Ok (Some whole_message) /\ fs_messages s' !! id = None
  else res = Ok None /\ fs_messages s' !! id = entry_state t' (ds ++ [i]).
Proof.
  intros Hid Hne Hinv Hwalk Hi Hds Hlen Htime Hentry t'.
  pose proof (processFragment_steps now order (fragment_meta i) (fragment_header i) s Hinv Hwalk eq_refl Hid) as H.
  cbn zeta in H. change (fh_messageId (fragment_header i)) with id in H.
  destruct (processFragment now order (fragment_meta i) s) as [res s'].
  unfold entry_after in H. rewrite Hentry, (add_fragment_entry now t ds i Hi) in H. fold t' in H.
  assert (Hfs : pm_fragments (default empty_message (entry_state t ds)) = to_fragment <$> ds) by by destruct ds.
  rewrite Hfs in H. change (fh_fragmentIndex (fragment_header i)) with (Z.of_nat i) in H.
  rewrite has_index_to_fragment in H.
  assert (Hst : forall ds', is_stale now (entry_of t' ds') = false).
  { intros ds'. unfold is_stale. cbn. apply Htime; unfold t'; destruct ds; set_solver. }
  assert (Hst' : forall msg, entry_state t ds = Some msg -> is_stale now msg = false).
  { intros msg Hm. unfold entry_state in Hm. destruct ds; [done|]. injection Hm as <-. apply Hst. }
  case_bool_decide as Hin.
  { destruct H as (-> & Hinv' & Hk & _). split; [done|]. split; [done|].
    destruct Hk as [?|(? & msg & Hm & Hs)]; [done|]. by rewrite (Hst' _ Hm) in Hs. }
  assert (Hsnoc : arrived (ds ++ [i])).
  { destruct Hds as [Hnd Hlt]. split; [apply NoDup_app; split; [done|]; split; [set_solver|apply NoDup_singleton]|].
    intros k Hk. apply elem_of_app in Hk as [?|Hk]; [auto|]. by apply list_elem_of_singleton in Hk as ->. }
  assert (Hc : is_complete (entry_of t' (ds ++ [i])) = bool_decide (S (length ds) = length chunks)).
  { rewrite entry_complete, length_app. cbn [length].
    destruct (decide (S (length ds) = length chunks)) as [Hfull|Hfull];
      [rewrite (bool_decide_eq_true_2 (S _ = _)) by done|rewrite (bool_decide_eq_false_2 (S _ = _)) by done].
    - rewrite (proj2 (Z.eqb_eq _ _)), andb_true_r by lia. apply bool_decide_eq_true_2.
      rewrite (arrived_all _ Hsnoc), elem_of_seq; [lia|]. rewrite length_app. cbn. lia.
    - by rewrite (proj2 (Z.eqb_neq _ _)), andb_false_r by lia. }
  rewrite Hc in H. case_bool_decide as Hfull.
  - destruct H as (-> & Hinv' & Hk & _). split; [done|].
    split; [apply reassemble_all; [done|done|rewrite length_app; cbn; lia]|].
    by destruct Hk as [?|(? & ? & ? & _)].
  - destruct H as (-> & Hinv' & Hk & _). split; [done|]. split; [done|].
    unfold entry_state at 1. destruct (ds ++ [i]) eqn:E; [by destruct ds|]. rewrite <- E in *.
    destruct Hk as [?|(_ & msg & [= <-] & Hs)]; [done|]. by rewrite Hst in Hs.
Qed.

Lemma arrived_missing ds j : arrived ds -> (j < length chunks)%nat -> j ∉ ds -> (length ds < length chunks)%nat.
Proof.
  intros Hds Hj Hin. pose proof (arrived_length ds Hds).
  destruct (decide (length ds = length chunks)) as [E|]; [|lia].
  destruct Hin. rewrite (arrived_all ds Hds E), elem_of_seq. lia.
Qed.

(** What the store holds for the message, in the middle of a sequence of
    events at the times [times]. *)
Definition progress (times : list instant) (ds : list nat) (s : FragmentStore) : Prop :=
  store_inv (fs_messages s) /\ arrived ds /\
  exists t, (ds = [] \/ t ∈ times) /\ fs_messages s !! id = entry_state t ds.

Lemma event_step times ds e s j :
  u16_ok id -> chunks <> [] -> timely times -> event_time e ∈ times -> event_ok e ->
  (j < length chunks)%nat -> j ∉ ds -> j ∉ ours [e] -> progress times ds s ->
  let '(res, s') := receive_event e s in
  match e with Ours _ _ _ => res = Ok None | _ => True end /\
  exists ds', progress times ds' s' /\ forall x, x ∈ ds' <-> x ∈ ds \/ x ∈ ours [e].
Proof.
  intros Hid Hne Htimes Ht Hok Hj Hjds Hje (Hinv & Hds & t0 & Ht0 & Hentry).
  destruct e as [now order i|now order frh message]; cbn [receive_event event_time event_ok ours] in *.
  - destruct Hok as [Hwalk Hi].
    assert (exists t, t ∈ times /\ fs_messages s !! id = entry_state t ds) as (t & Htt & Hent).
    { destruct Ht0 as [->|?]; eauto. }
    assert (timely [t; now]) as Htl by (intros a b Ha Hb; apply Htimes; set_solver).
    pose proof (ours_step s t now order i ds Hid Hne Hinv Hwalk Hi Hds (arrived_missing ds j Hds Hj Hjds) Htl Hent) as H.
    destruct (processFragment now order (fragment_meta i) s) as [res s']. destruct H as [Hinv' H].
    case_bool_decide as Hin.
    { destruct H as [-> Hk]. split; [done|]. exists ds. split; [|set_solver]. repeat (split; [done|]). eauto. }
    assert (Hsnoc : arrived (ds ++ [i])).
    { destruct Hds as [Hnd Hlt]. split; [apply NoDup_app; split; [done|]; split; [set_solver|apply NoDup_singleton]|].
      intros k Hk. apply elem_of_app in Hk as [?|Hk]; [auto|]. by apply list_elem_of_singleton in Hk as ->. }
    rewrite bool_decide_eq_false_2 in H.
    2: { assert (length (ds ++ [i]) < length chunks)%nat as Hl by (apply (arrived_missing _ j); [done|done|set_solver]).
         rewrite length_app in Hl. cbn in Hl. lia. }
    destruct H as [-> Hk]. split; [done|]. exists (ds ++ [i]). split; [|set_solver].
    split; [done|]. split; [done|]. exists (match ds with [] => now | _ => t end).
    split; [right; by destruct ds|done].
  - destruct Hok as (Hwalk & Hfrh & Hu & Hneq).
    pose proof (processFragment_steps now order message frh s Hinv Hwalk Hfrh Hu) as H. cbn zeta in H.
    destruct (processFragment now order message s) as [res s'].
    destruct (entry_after now message frh (fs_messages s !! fh_messageId frh)) as [res' entry].
    destruct H as (_ & Hinv' & _ & Hothers). split; [done|]. exists ds. split; [|set_solver].
    split; [done|]. split; [done|]. exists t0. split; [done|].
    destruct (Hothers id ltac:(done)) as [->|(_ & msg & Hm & Hs)]; [done|].
    rewrite Hentry in Hm. unfold entry_state in Hm. destruct ds as [|d ds]; [done|]. injection Hm as <-.
    destruct Ht0 as [?|Ht0]; [done|]. unfold is_stale in Hs. cbn in Hs. by rewrite (Htimes t0 now Ht0 Ht) in Hs.
Qed.

Lemma events_steps times es ds s j :
  u16_ok id -> chunks <> [] -> timely times -> Forall (fun e => event_time e ∈ times /\ event_ok e) es ->
  (j < length chunks)%nat -> j ∉ ds -> j ∉ ours es -> progress times ds s ->
  let '(results, s') := receive_events es s in
  Forall2 (fun e res => match e with Ours _ _ _ => res = Ok None | _ => True end) es results /\
  exists ds', progress times ds' s' /\ forall x, x ∈ ds' <-> x ∈ ds \/ x ∈ ours es.
Proof.
  intros Hid Hne Htimes Hes Hj. revert ds s.
  induction Hes as [|e es [Ht Hok] Hes IH]; intros ds s Hjds Hjes Hp; cbn [receive_events].
  { split; [done|]. exists ds. split; [done|]. set_solver. }
  assert (Hours : forall x, x ∈ ours (e :: es) <-> x ∈ ours [e] \/ x ∈ ours es) by (intros; destruct e; set_solver).
  pose proof (event_step times ds e s j Hid Hne Htimes Ht Hok Hj Hjds ltac:(set_solver) Hp) as H.
  destruct (receive_event e s) as [res s1]. destruct H as (Hres & ds1 & Hp1 & Hds1).
  specialize (IH ds1 s1 ltac:(set_solver) ltac:(set_solver) Hp1).
  destruct (receive_events es s1) as [results s2]. destruct IH as (Hresults & ds2 & Hp2 & Hds2).
  split; [by constructor|]. exists ds2. split; [done|]. intros x. rewrite Hds2, Hds1, Hours. tauto.
Qed.

(** The message comes back when the last of its fragments arrives. *)
Lemma reassembled s es now order j :
  u16_ok id -> chunks <> [] -> store_inv (fs_messages s) -> fs_messages s !! id = None ->
  timely (now :: (event_time <$> es)) -> Forall event_ok es -> walks_all order ->
  (j < length chunks)%nat -> j ∉ ours es ->
  (forall i, (i < length chunks)%nat -> i <> j -> i ∈ ours es) ->
  let '(results, s1) := receive_events es s in
  let '(res, s2) := processFragment now order (fragment_meta j) s1 in
  Forall2 (fun e res => match e with Ours _ _ _ => res = Ok None | _ => True end) es results /\
  res = Ok (Some whole_message) /\ fs_messages s2 !! id = None.
Proof.
  intros Hid Hne Hinv Hnone Htimes Hes Hwalk Hj Hjes Hall.
  set (times := now :: (event_time <$> es)) in *.
  assert (Forall (fun e => event_time e ∈ times /\ event_ok e) es) as Hes'.
  { apply Forall_forall. intros e He. rewrite Forall_forall in Hes. split; [|auto].
    right. apply list_elem_of_fmap. eauto. }
  assert (progress times [] s) as Hp.
  { split; [done|]. split; [split; [apply NoDup_nil_2|intros i Hi; by apply not_elem_of_nil in Hi]|].
    exists now. split; [by left|done]. }
  pose proof (events_steps times es [] s j Hid Hne Htimes Hes' Hj (not_elem_of_nil j) Hjes Hp) as H.
  destruct (receive_events es s) as [results s1]. destruct H as (Hresults & ds & (Hinv1 & Hds & t0 & Ht0 & Hentry) & Hmem).
  assert (exists t, t ∈ times /\ fs_messages s1 !! id = entry_state t ds) as (t & Htt & Hent).
  { destruct Ht0 as [->|?]; [exists now; split; [by left|done]|eauto]. }
  assert (Hjds : j ∉ ds) by (rewrite Hmem; set_solver).
  assert (timely [t; now]) as Htl by (intros a b Ha Hb; apply Htimes; set_solver).
  pose proof (arrived_missing ds j Hds Hj Hjds) as Hlt.
  pose proof (ours_step s1 t now order j ds Hid Hne Hinv1 Hwalk Hj Hds Hlt Htl Hent) as H. cbn zeta in H.
  destruct (processFragment now order (fragment_meta j) s1) as [res s2]. destruct H as [_ H].
  rewrite bool_decide_eq_false_2 in H by done. rewrite bool_decide_eq_true_2 in H; [by destruct H|].
  enough (length chunks <= S (length ds))%nat by lia.
  rewrite <- (length_seq (length chunks) 0). change (S (length ds)) with (length (j :: ds)).
  apply submseteq_length, NoDup_submseteq; [apply NoDup_seq|]. intros i Hi. apply elem_of_seq in Hi.
  destruct (decide (i = j)) as [->|]; [by left|]. right. apply Hmem. right. apply Hall; [lia|done].
Qed.

(** C4. A message cut in fragments is put back together whatever the order in
    which its fragments arrive, with any duplicates, among the fragments of
    other messages and whatever the order in which the hash map is walked, when
    they all arrive within the ten seconds after which fragments expire:
    up to the fragment that completes it every fragment returns nothing, that one
    returns the message, and the store then holds nothing of it.  So this holds again
    of what arrives later: a second complete set of the fragments, if the network
    duplicates all of them, gives the message again. *)
Theorem reassembly_any_order s es now order j :
  u16_ok id -> chunks <> [] -> store_inv (fs_messages s) -> fs_messages s !! id = None ->
  timely (now :: (event_time <$> es)) -> Forall event_ok es -> walks_all order ->
  (j < length chunks)%nat -> j ∉ ours es ->
  (forall i, (i < length chunks)%nat -> i <> j -> i ∈ ours es) ->
  let '(results, s1) := receive_events es s in
  let '(res, s2) := processFragment now order (fragment_meta j) s1 in
  Forall2 (fun e res => match e with Ours _ _ _ => res = Ok None | _ => True end) es results /\
  res = Ok (Some whole_message) /\ fs_messages s2 !! id = None.
Proof. apply reassembled. Qed.
End Reassembly.

(** ** Any fragment *)
Section AnyFragment.
Context {T : TimeLib}.

(** Whatever the fragment, forged ones included: the store stays well
    formed and nothing throws; a message that is returned, or found to have a
    gap, has left the store; the other messages stay as they are unless they
    have expired. *)
Theorem processFragment_safe now order message frh s :
  store_inv (fs_messages s) -> walks_all order -> mm_fragmentationHeader message = Some frh ->
  u16_ok (fh_messageId frh) ->
  let '(res, s') := processFragment now order message s in
  store_inv (fs_messages s') /\ is_fault res = false /\
  (res = Ok None \/ fs_messages s' !! fh_messageId frh = None) /\
  (forall k, k <> fh_messageId frh -> fs_messages s' !! k = fs_messages s !! k \/
    fs_messages s' !! k = None /\ exists msg, fs_messages s !! k = Some msg /\ is_stale now msg = true).
Proof.
  intros Hinv Hwalk Hfrh Hid.
  pose proof (processFragment_steps now order message frh s Hinv Hwalk Hfrh Hid) as H. cbn zeta in H.
  destruct (processFragment now order message s) as [res s']. unfold entry_after in H.
  assert (Hr : forall msg, is_fault (reassemble msg) = false) by (intros msg; unfold reassemble; by destruct (check_sequence _ _)).
  destruct (has_index _ _); [|destruct (is_complete _)].
  - destruct H as (-> & ? & _ & ?). split_and!; auto.
  - destruct H as (-> & ? & [?|(? & ? & ? & _)] & ?); [|done]. split_and!; auto.
  - destruct H as (-> & ? & _ & ?). split_and!; auto.
Qed.
End AnyFragment.

(** ** Concrete inputs *)
Fixpoint keys_from (n : nat) (k : Z) : list Z :=
  match n with O => [] | S n => k :: keys_from n (k + 1) end.
Definition every_key : list Z := keys_from (Z.to_nat 65536) 0.

Lemma elem_of_keys_from n k x : k <= x < k + Z.of_nat n -> x ∈ keys_from n k.
Proof.
  revert k. induction n as [|n IH]; intros k Hx; cbn; [lia|]. apply elem_of_cons.
  destruct (decide (x = k)); [by left|right]. apply IH. lia.
Qed.

Lemma every_key_walks : walks_all every_key.
Proof. intros k Hk. apply elem_of_keys_from. unfold u16_ok in Hk. lia. Qed.

Definition example_chunks : list (list Z) := [[1; 2]; [3]; [4; 5]].
Definition example_other : FragmentationHeader :=
  {| fh_messageId := 8; fh_fragmentIndex := 0; fh_lastFragment := false |}.
Definition example_other_meta : QunetMessageMeta :=
  {| mm_type := 128; mm_compressionHeader := None; mm_reliabilityHeader := None;
     mm_fragmentationHeader := Some example_other; mm_data := [9]; mm_dataOffset := 5 |}.
Definition example_events : list (@event nano_time) :=
  [Ours (5 : @instant nano_time) every_key 2; Others (6 : @instant nano_time) every_key example_other example_other_meta;
   Ours (7 : @instant nano_time) every_key 0; Ours (7 : @instant nano_time) every_key 2].

Lemma reassembly_any_order_witness :
  let '(results, s1) := receive_events 7 example_chunks None None (fun _ => 5) example_events new_FragmentStore in
  let '(res, s2) := processFragment (9 : @instant nano_time) every_key
                      (fragment_meta 7 example_chunks None None (fun _ => 5) 1) s1 in
  Forall2 (fun e res => match e with Ours _ _ _ => res = Ok None | _ => True end) example_events results /\
  res = Ok (Some (whole_message example_chunks None None)) /\ fs_messages s2 !! 7 = None.
Proof.
  apply (reassembly_any_order 7 example_chunks None None (fun _ => 5) new_FragmentStore example_events
    (9 : @instant nano_time) every_key 1).
  - unfold u16_ok. lia.
  - done.
  - apply map_Forall_empty.
  - apply lookup_empty.
  - intros t t' Ht Ht'. cbn in Ht, Ht'. rewrite !elem_of_cons, elem_of_nil in Ht, Ht'.
    destruct Ht as [->|[->|[->|[->|[->|[]]]]]], Ht' as [->|[->|[->|[->|[->|[]]]]]]; done.
  - assert (forall t i, (i < 3)%nat -> event_ok 7 example_chunks (Ours (T := nano_time) t every_key i)) as Hours.
    { intros t i Hi. split; [apply every_key_walks|exact Hi]. }
    apply Forall_cons; split; [apply Hours; lia|]. apply Forall_cons; split.
    { split; [apply every_key_walks|]. split; [done|]. cbn. unfold u16_ok. lia. }
    apply Forall_cons; split; [apply Hours; lia|]. apply Forall_cons; split; [apply Hours; lia|apply Forall_nil_2].
  - apply every_key_walks.
  - cbn. lia.
  - cbn. set_solver.
  - intros i Hi Hne. cbn in Hi |- *. rewrite !elem_of_cons. lia.
Defined.

Lemma processFragment_safe_witness :
  let '(res, s') := processFragment (9 : @instant nano_time) every_key example_other_meta new_FragmentStore in
  store_inv (fs_messages s') /\ is_fault res = false /\
  (res = Ok None \/ fs_messages s' !! 8 = None) /\
  (forall k, k <> 8 -> fs_messages s' !! k = None \/
    fs_messages s' !! k = None /\ exists msg, None = Some msg /\ is_stale (9 : @instant nano_time) msg = true).
Proof.
  apply (processFragment_safe (9 : @instant nano_time) every_key example_other_meta example_other new_FragmentStore).
  - apply map_Forall_empty.
  - apply every_key_walks.
  - done.
  - unfold u16_ok. cbn. lia.
Defined.
