(* ===== verification/Reliable.v ===== *)
(** * ReliableStore: acknowledgements, order, retransmission

    [include/qunet/socket/transport/udp/ReliableStore.hpp] and
    [src/socket/transport/udp/ReliableStore.cpp].  A definition that reads the
    clock takes the reading as an argument. *)
From Stdlib Require Import SpecFloat.
From S2P Require Import Prelude Time Messages Codec Errors.

Record UnackedRemoteMessage {T : TimeLib} := { ur_messageId : Z; ur_receivedAt : instant }.
Record UnackedLocalMessage {T : TimeLib} := {
  ul_messageId : Z;
  ul_msg : QunetMessage;
  ul_sentAt : instant;
  ul_retransmitAttempts : Z;
}.
Record StoredOutOfOrderMessage {T : TimeLib} := { so_meta : QunetMessageMeta; so_receivedAt : instant }.

Record ReliableStore {T : TimeLib} := {
  rs_remoteUnacked : list UnackedRemoteMessage;
  rs_remoteOutOfOrder : list StoredOutOfOrderMessage;
  rs_remoteDelayedQueue : list QunetMessageMeta;
  rs_nextRemoteId : Z;
  rs_nextLocalId : Z;
  rs_localUnacked : list UnackedLocalMessage;
  rs_avgRttMicros : Z;
}.

(** The identifier after [id]: 0 is skipped. *)
Definition next_id (id : Z) : Z := let id := u16 (id + 1) in if id =? 0 then 1 else id.

Section Store.
Context {T : TimeLib}.

Definition new_ReliableStore : ReliableStore :=
  {| rs_remoteUnacked := []; rs_remoteOutOfOrder := []; rs_remoteDelayedQueue := [];
     rs_nextRemoteId := 1; rs_nextLocalId := 1; rs_localUnacked := []; rs_avgRttMicros := 0 |}.

Definition set_remote (unacked : list UnackedRemoteMessage) (ooo : list StoredOutOfOrderMessage)
    (delayed : list QunetMessageMeta) (next : Z) (s : ReliableStore) : ReliableStore :=
  {| rs_remoteUnacked := unacked; rs_remoteOutOfOrder := ooo; rs_remoteDelayedQueue := delayed;
     rs_nextRemoteId := next; rs_nextLocalId := rs_nextLocalId s;
     rs_localUnacked := rs_localUnacked s; rs_avgRttMicros := rs_avgRttMicros s |}.

Definition set_local (next : Z) (unacked : list UnackedLocalMessage) (s : ReliableStore) : ReliableStore :=
  {| rs_remoteUnacked := rs_remoteUnacked s; rs_remoteOutOfOrder := rs_remoteOutOfOrder s;
     rs_remoteDelayedQueue := rs_remoteDelayedQueue s; rs_nextRemoteId := rs_nextRemoteId s;
     rs_nextLocalId := next; rs_localUnacked := unacked; rs_avgRttMicros := rs_avgRttMicros s |}.

(** ** Acknowledgements of local messages *)
Fixpoint erase_first (messageId : Z) (l : list UnackedLocalMessage) : list UnackedLocalMessage :=
  match l with
  | [] => []
  | m :: l => if ul_messageId m =? messageId then l else m :: erase_first messageId l
  end.

Definition ackLocal (messageId : Z) (s : ReliableStore) : ReliableStore :=
  set_local (rs_nextLocalId s) (erase_first messageId (rs_localUnacked s)) s.

(** The loop of [processAcks]: [n] acknowledgements are left, [acks] are the
    slots of the array that are left. *)
Fixpoint processAcks_loop (n : nat) (acks : list Z) (s : ReliableStore) : TransportResult ReliableStore :=
  match n, acks with
  | O, _ => Ok s
  | S n, a :: acks => processAcks_loop n acks (ackLocal a s)
  | S _, [] => Fault OutOfBounds
  end.

Definition processAcks (header : ReliabilityHeader) (s : ReliableStore) : TransportResult ReliableStore :=
  processAcks_loop (Z.to_nat (rh_ackCount header)) (rh_acks header) s.

(** ** Remote messages *)
(** [meta.reliabilityHeader->messageId]; a stored message has the header,
    [handleIncoming] asserts it. *)
Definition meta_id (meta : QunetMessageMeta) : option Z := rh_messageId <$> mm_reliabilityHeader meta.

(** The first stored message with an identifier, and the others. *)
Fixpoint take_stored (messageId : Z) (l : list StoredOutOfOrderMessage)
    : option (QunetMessageMeta * list StoredOutOfOrderMessage) :=
  match l with
  | [] => None
  | m :: l =>
      if bool_decide (meta_id (so_meta m) = Some messageId) then Some (so_meta m, l)
      else match take_stored messageId l with
           | Some (meta, l) => Some (meta, m :: l)
           | None => None
           end
  end.

(** [pushRemoteUnackedWithId], [pushRemoteUnacked] and [maybeRestoreRemote] call
    each other; the first two take the third as an argument. *)
Definition pushRemoteUnackedWithId (restore : ReliableStore -> TransportResult ReliableStore)
    (now : instant) (messageId : Z) (dupe : bool) (s : ReliableStore) : TransportResult ReliableStore :=
  if dupe && existsb (fun m => ur_messageId m =? messageId) (rs_remoteUnacked s) then Ok s
  else
    restore (set_remote (rs_remoteUnacked s ++ [{| ur_messageId := messageId; ur_receivedAt := now |}])
               (rs_remoteOutOfOrder s) (rs_remoteDelayedQueue s) (rs_nextRemoteId s) s).

Definition pushRemoteUnacked (restore : ReliableStore -> TransportResult ReliableStore)
    (now : instant) (s : ReliableStore) : TransportResult ReliableStore :=
  let id := rs_nextRemoteId s in
  let s := set_remote (rs_remoteUnacked s) (rs_remoteOutOfOrder s) (rs_remoteDelayedQueue s) (next_id id) s in
  pushRemoteUnackedWithId restore now id false s.

Fixpoint maybeRestoreRemote (fuel : nat) (now : instant) (s : ReliableStore) : TransportResult ReliableStore :=
  match fuel with
  | O => Fault OutOfFuel
  | S fuel =>
      match take_stored (rs_nextRemoteId s) (rs_remoteOutOfOrder s) with
      | Some (meta, rest) =>
          pushRemoteUnacked (maybeRestoreRemote fuel now) now
            (set_remote (rs_remoteUnacked s) rest (rs_remoteDelayedQueue s ++ [meta]) (rs_nextRemoteId s) s)
      | None => Ok s
      end
  end.

(** Each restored message leaves the list of stored ones. *)
Definition restore_fuel (s : ReliableStore) : nat := S (length (rs_remoteOutOfOrder s)).

Definition pushRemoteDuplicate (now : instant) (messageId : Z) (s : ReliableStore) : TransportResult ReliableStore :=
  pushRemoteUnackedWithId (maybeRestoreRemote (restore_fuel s) now) now messageId true s.

Definition storeRemoteOutOfOrder (now : instant) (meta : QunetMessageMeta) (s : ReliableStore)
    : TransportResult ReliableStore :=
  if 32 <=? len (rs_remoteOutOfOrder s) then Err (TE_Custom TooUnreliable)
  else if existsb (fun m => bool_decide (meta_id (so_meta m) = meta_id meta)) (rs_remoteOutOfOrder s) then Ok s
  else Ok (set_remote (rs_remoteUnacked s)
             (rs_remoteOutOfOrder s ++ [{| so_meta := meta; so_receivedAt := now |}])
             (rs_remoteDelayedQueue s) (rs_nextRemoteId s) s).

Definition is_duplicate (next id : Z) : bool := (id <? next) && (next - id <? 16384).

(** The state after an error is the one [processAcks] left. *)
Definition handleIncoming (now : instant) (message : QunetMessageMeta) (s : ReliableStore)
    : TransportResult bool * ReliableStore :=
  match mm_reliabilityHeader message with
  | None => (Fault AssertionFailed, s)
  | Some rlh =>
      match processAcks rlh s with
      | Ok s =>
          if rh_messageId rlh =? 0 then (Ok true, s)
          else
            let isDuplicate := is_duplicate (rs_nextRemoteId s) (rh_messageId rlh) in
            let isOutOfOrder := negb isDuplicate && negb (rh_messageId rlh =? rs_nextRemoteId s) in
            if isDuplicate then
              match pushRemoteDuplicate now (rh_messageId rlh) s with
              | Ok s => (Ok false, s) | Err e => (Err e, s) | Fault f => (Fault f, s)
              end
            else if isOutOfOrder then
              match storeRemoteOutOfOrder now message s with
              | Ok s => (Ok false, s) | Err e => (Err e, s) | Fault f => (Fault f, s)
              end
            else
              match pushRemoteUnacked (maybeRestoreRemote (restore_fuel s) now) now s with
              | Ok s => (Ok true, s) | Err e => (Err e, s) | Fault f => (Fault f, s)
              end
      | Err e => (Err e, s)
      | Fault f => (Fault f, s)
      end
  end.

Definition hasDelayedMessage (s : ReliableStore) : bool :=
  match rs_remoteDelayedQueue s with [] => false | _ => true end.

Definition popDelayedMessage (s : ReliableStore) : option QunetMessageMeta * ReliableStore :=
  match rs_remoteDelayedQueue s with
  | [] => (None, s)
  | meta :: q => (Some meta, set_remote (rs_remoteUnacked s) (rs_remoteOutOfOrder s) q (rs_nextRemoteId s) s)
  end.

(** ** Outgoing messages *)
Definition ReliableStore_nextMessageId (s : ReliableStore) : Z * ReliableStore :=
  (rs_nextLocalId s, set_local (next_id (rs_nextLocalId s)) (rs_localUnacked s) s).

(** The loop writes at most eight slots and leaves the others. *)
Definition setOutgoingAcks (header : ReliabilityHeader) (s : ReliableStore) : ReliabilityHeader * ReliableStore :=
  let acked := ur_messageId <$> take 8 (rs_remoteUnacked s) in
  ({| rh_messageId := rh_messageId header; rh_ackCount := len acked;
      rh_acks := acked ++ drop (length acked) (rh_acks header) |},
   set_remote (drop 8 (rs_remoteUnacked s)) (rs_remoteOutOfOrder s) (rs_remoteDelayedQueue s)
     (rs_nextRemoteId s) s).

(** [msg] holds a data message with a reliability header. *)
Definition pushLocalUnacked (now : instant) (msg : QunetMessage) (s : ReliableStore) : TransportResult ReliableStore :=
  if 64 <=? len (rs_localUnacked s) then Err (TE_Custom TooUnreliable)
  else match msg with
       | MData {| dm_relHeader := Some h |} =>
           Ok (set_local (rs_nextLocalId s)
                 (rs_localUnacked s ++ [{| ul_messageId := rh_messageId h; ul_msg := msg;
                                           ul_sentAt := now; ul_retransmitAttempts := 0 |}]) s)
       | _ => Fault AssertionFailed
       end.

(** ** Deadlines, in single precision *)
Section Deadlines.
(** [Duration::millis<float>()] and [Duration::fromMillis(float)] *)
Variable millis_float : duration -> spec_float.
Variable fromMillis_float : spec_float -> duration.

Definition float_of_Z (z : Z) : spec_float := binary_normalize 24 128 z 0 false.
(** [1.6f] *)
Definition float_1_6 : spec_float := S754_finite false 13421773 (-23).
Definition fmul : spec_float -> spec_float -> spec_float := SFmul 24 128.
Definition fadd : spec_float -> spec_float -> spec_float := SFadd 24 128.
(** [std::max] *)
Definition fmax (a b : spec_float) : spec_float := if SFltb a b then b else a.

Definition calcAckDeadline : duration := fromMillis 50.

Definition calcRetransmissionDeadline (nthAttempt : Z) (s : ReliableStore) : duration :=
  let rtt := fromMicros (rs_avgRttMicros s) in
  let rtt := if isZero rtt then fromMillis 200 else rtt in
  let ackDelay := calcAckDeadline in
  let base := fmax (fadd (fmul (millis_float rtt) float_1_6) (millis_float ackDelay)) (float_of_Z 175) in
  let mult := Z.max 1 (Z.min nthAttempt 6) in
  fromMillis_float (fmul base (float_of_Z mult)).

Definition ReliableStore_untilTimerExpiry (now : instant) (s : ReliableStore) : duration :=
  let expiry := infinite in
  match rs_localUnacked s, rs_remoteUnacked s with
  | [], [] => expiry
  | _, _ =>
      let ackDelay := calcAckDeadline in
      let expiry := foldl (fun expiry msg =>
          let retransDelay := calcRetransmissionDeadline (ul_retransmitAttempts msg) s in
          let dur := dsub retransDelay (since now (ul_sentAt msg)) in
          dmin expiry dur) expiry (rs_localUnacked s) in
      foldl (fun expiry msg =>
          let dur := dsub ackDelay (since now (ur_receivedAt msg)) in
          dmin expiry dur) expiry (rs_remoteUnacked s)
  end.

Definition updateRtt (rttMicros : Z) (s : ReliableStore) : ReliableStore :=
  {| rs_remoteUnacked := rs_remoteUnacked s; rs_remoteOutOfOrder := rs_remoteOutOfOrder s;
     rs_remoteDelayedQueue := rs_remoteDelayedQueue s; rs_nextRemoteId := rs_nextRemoteId s;
     rs_nextLocalId := rs_nextLocalId s; rs_localUnacked := rs_localUnacked s;
     rs_avgRttMicros := rttMicros |}.

(** The loop over the unacknowledged messages: the first one that is due gets
    a new time and one more attempt, and is returned. *)
Fixpoint retransmit_loop (now : instant) (s : ReliableStore) (l : list UnackedLocalMessage)
    : TransportResult (option QunetMessage) * list UnackedLocalMessage :=
  match l with
  | [] => (Ok None, [])
  | msg :: l =>
      let retransDelay := calcRetransmissionDeadline (ul_retransmitAttempts msg) s in
      let sinceSent := since now (ul_sentAt msg) in
      if dleb retransDelay sinceSent then
        let msg' := {| ul_messageId := ul_messageId msg; ul_msg := ul_msg msg; ul_sentAt := now;
                       ul_retransmitAttempts := ul_retransmitAttempts msg + 1 |} in
        (if 10 <=? ul_retransmitAttempts msg then Err (TE_Custom TooUnreliable) else Ok (Some (ul_msg msg)),
         msg' :: l)
      else
        let '(res, l) := retransmit_loop now s l in (res, msg :: l)
  end.

Definition maybeRetransmit (now : instant) (s : ReliableStore)
    : TransportResult (option QunetMessage) * ReliableStore :=
  let '(res, l) := retransmit_loop now s (rs_localUnacked s) in
  (res, set_local (rs_nextLocalId s) l s).

Definition hasUrgentOutgoingAcks (now : instant) (s : ReliableStore) : bool :=
  let ackDelay := calcAckDeadline in
  existsb (fun msg => dleb ackDelay (since now (ur_receivedAt msg))) (rs_remoteUnacked s).
End Deadlines.
End Store.
