(* ===== verification/ReliableSpec.v ===== *)
(** * ReliableStore: in-order, exactly-once delivery

    The receiving half of the store against an abstract receiver, which knows
    how many messages it has delivered and which later ones it holds. *)
From S2P Require Import Prelude Time Messages Codec Errors Reliable.

(** The identifier of the [n]-th reliable message of a connection. *)
Definition message_id (n : nat) : Z := 1 + Z.of_nat n mod 65535.

Lemma message_id_range n : 1 <= message_id n < 65536.
Proof. unfold message_id. dlia. Qed.

Lemma next_id_message_id n : next_id (message_id n) = message_id (S n).
Proof.
  unfold next_id, message_id. rewrite Nat2Z.inj_succ. unfold u.
  destruct (Z.eqb_spec ((1 + Z.of_nat n mod 65535 + 1) mod 2 ^ 16) 0); dlia.
Qed.

Lemma message_id_inj (e j : nat) :
  Z.of_nat e <= Z.of_nat j <= Z.of_nat e + 49151 -> message_id j = message_id e -> j = e.
Proof. unfold message_id. intros. dlia. Qed.

(** What the acknowledgements of a header leave. *)
Definition acked {T : TimeLib} (h : ReliabilityHeader) (l : list UnackedLocalMessage) : list UnackedLocalMessage :=
  foldl (fun l a => erase_first a l) l (ztake (rh_ackCount h) (rh_acks h)).

Lemma set_local_id {T : TimeLib} (s : ReliableStore) : set_local (rs_nextLocalId s) (rs_localUnacked s) s = s.
Proof. by destruct s. Qed.

Lemma processAcks_loop_ok {T : TimeLib} n acks s :
  (n <= length acks)%nat ->
  processAcks_loop n acks s
  = Ok (set_local (rs_nextLocalId s) (foldl (fun l a => erase_first a l) (rs_localUnacked s) (take n acks)) s).
Proof.
  revert acks s. induction n as [|n IH]; intros acks s Hn; destruct acks as [|a acks]; cbn in *; try lia;
    [by rewrite set_local_id..|]. rewrite IH by lia. done.
Qed.

Lemma processAcks_ok {T : TimeLib} h s :
  rh_ackCount h <= len (rh_acks h) ->
  processAcks h s = Ok (set_local (rs_nextLocalId s) (acked h (rs_localUnacked s)) s).
Proof. intros. unfold processAcks, acked, ztake. apply processAcks_loop_ok. lia. Qed.

Lemma processAcks_loop_fault {T : TimeLib} n acks s :
  (length acks < n)%nat -> processAcks_loop n acks s = Fault OutOfBounds.
Proof.
  revert acks s. induction n as [|n IH]; intros acks s Hn; [lia|].
  destruct acks as [|a acks]; cbn in *; [done|]. apply IH. lia.
Qed.

Section Delivery.
Context {T : TimeLib}.
Variable msg : nat -> QunetMessageMeta.
(** The header of the [n]-th message; it may carry acknowledgements. *)
Variable header : nat -> ReliabilityHeader.
Hypothesis msg_header : forall n, mm_reliabilityHeader (msg n) = Some (header n).
Hypothesis header_id : forall n, rh_messageId (header n) = message_id n.
Hypothesis header_acks : forall n, length (rh_acks (header n)) = 8%nat /\ rh_ackCount (header n) <= 8.

(** [receiveMessage] of the transport returns a message that was accepted, and
    then the delayed ones, one per call. *)
Fixpoint drain (fuel : nat) (s : ReliableStore) : list QunetMessageMeta * ReliableStore :=
  match fuel with
  | O => ([], s)
  | S fuel =>
      match popDelayedMessage s with
      | (Some meta, s) => let '(ms, s) := drain fuel s in (meta :: ms, s)
      | (None, s) => ([], s)
      end
  end.

Definition receive (now : instant) (meta : QunetMessageMeta) (s : ReliableStore)
    : TransportResult (list QunetMessageMeta) * ReliableStore :=
  match handleIncoming now meta s with
  | (Ok accepted, s) =>
      let '(delayed, s) := drain (S (length (rs_remoteDelayedQueue s))) s in
      (Ok ((if accepted : bool then [meta] else []) ++ delayed), s)
  | (Err e, s) => (Err e, s)
  | (Fault f, s) => (Fault f, s)
  end.

(** The abstract receiver: [e] messages delivered, the messages [held] stored. *)
Record represents (e : nat) (held : list nat) (s : ReliableStore) : Prop := {
  r_next : rs_nextRemoteId s = message_id e;
  r_held : so_meta <$> rs_remoteOutOfOrder s = msg <$> held;
  r_delayed : rs_remoteDelayedQueue s = [];
  r_nodup : NoDup held;
  r_window : forall j, j ∈ held -> Z.of_nat e < Z.of_nat j <= Z.of_nat e + 49151;
  r_bound : (length held <= 32)%nat;
}.

(** The messages that may arrive when [e] have been delivered: a new one less
    than 49152 ahead, or an old one less than 16384 behind, the identifiers not
    having wrapped between the two. *)
Definition window (expected index : nat) : Prop :=
  let e := Z.of_nat expected in
  let i := Z.of_nat index in
  e <= i <= e + 49151 \/ (i < e /\ e - i < 16384 /\ i / 65535 = e / 65535).

Lemma is_duplicate_window e i : window e i -> is_duplicate (message_id e) (message_id i) = bool_decide (i < e)%nat.
Proof.
  intros Hw. unfold is_duplicate, message_id. destruct Hw as [Hw|(Hlt & Hd & Hdiv)].
  - rewrite bool_decide_eq_false_2 by lia.
    apply andb_false_iff. rewrite Z.ltb_ge, Z.ltb_ge. dlia.
  - rewrite bool_decide_eq_true_2 by lia. apply andb_true_iff. rewrite !Z.ltb_lt. dlia.
Qed.

Lemma meta_id_msg n : meta_id (msg n) = Some (message_id n).
Proof. unfold meta_id. rewrite msg_header. cbn. by rewrite header_id. Qed.

Lemma take_stored_spec e held l :
  so_meta <$> l = msg <$> held -> (forall j, j ∈ held -> Z.of_nat e <= Z.of_nat j <= Z.of_nat e + 49151) -> NoDup held ->
  match take_stored (message_id e) l with
  | Some (meta, rest) => e ∈ held /\ meta = msg e /\
      exists held', so_meta <$> rest = msg <$> held' /\ NoDup held' /\ S (length held') = length held /\
        forall j, j ∈ held' <-> j ∈ held /\ j <> e
  | None => e ∉ held
  end.
Proof.
  revert held. induction l as [|m l IH]; intros held Hl Hwin Hnd; destruct held as [|j held]; try discriminate Hl; cbn [take_stored].
  { apply not_elem_of_nil. }
  injection Hl as Hm Hl. apply NoDup_cons in Hnd as [Hj Hnd].
  assert (Hid : meta_id (so_meta m) = Some (message_id j)) by by rewrite Hm, meta_id_msg.
  case_bool_decide as Heq; rewrite Hid in Heq.
  - injection Heq as Heq. apply message_id_inj in Heq as ->; [|apply Hwin; by left].
    split; [by left|]. split; [done|]. exists held. split; [done|]. split; [done|]. split; [done|].
    intros k. rewrite elem_of_cons. naive_solver.
  - assert (j <> e) by (intros ->; congruence).
    specialize (IH held Hl ltac:(intros; apply Hwin; by right) Hnd).
    destruct (take_stored (message_id e) l) as [[meta rest]|].
    + destruct IH as (Hin & -> & held' & Hrest & Hnd' & Hlen & Hmem). split; [by right|]. split; [done|].
      exists (j :: held'). cbn. rewrite Hrest, Hm. split; [done|].
      split; [apply NoDup_cons; split; [rewrite Hmem; naive_solver|done]|]. split; [lia|].
      intros k. rewrite !elem_of_cons, Hmem. naive_solver.
    + rewrite elem_of_cons. naive_solver.
Qed.

(** What a restoration has done: the [k] messages from [e] on were held, and
    are now delayed and to be acknowledged. *)
Definition restored (e k : nat) (held : list nat) (s s' : ReliableStore) : Prop :=
  rs_nextRemoteId s' = message_id (e + k) /\
  rs_remoteDelayedQueue s' = rs_remoteDelayedQueue s ++ (msg <$> seq e k) /\
  (ur_messageId <$> rs_remoteUnacked s') = (ur_messageId <$> rs_remoteUnacked s) ++ (message_id <$> seq e k) /\
  rs_localUnacked s' = rs_localUnacked s /\ rs_nextLocalId s' = rs_nextLocalId s /\
  exists held', so_meta <$> rs_remoteOutOfOrder s' = msg <$> held' /\ NoDup held' /\
    (length held' + k = length held)%nat /\ (e + k)%nat ∉ held' /\
    (forall j, j ∈ held' <-> j ∈ held /\ (e + k <= j)%nat) /\
    (forall j, (e <= j < e + k)%nat -> j ∈ held).

Lemma restore_spec fuel now e held s :
  rs_nextRemoteId s = message_id e -> so_meta <$> rs_remoteOutOfOrder s = msg <$> held -> NoDup held ->
  (forall j, j ∈ held -> Z.of_nat e <= Z.of_nat j <= Z.of_nat e + 49151) -> (length held < fuel)%nat ->
  exists k s', maybeRestoreRemote fuel now s = Ok s' /\ restored e k held s s'.
Proof.
  revert e held s. induction fuel as [|fuel IH]; intros e held s Hnext Hheld Hnd Hwin Hfuel; [lia|].
  cbn [maybeRestoreRemote]. rewrite Hnext.
  pose proof (take_stored_spec e held (rs_remoteOutOfOrder s) Hheld Hwin Hnd) as Htake.
  destruct (take_stored (message_id e) (rs_remoteOutOfOrder s)) as [[meta rest]|].
  - destruct Htake as (Hin & -> & held' & Hrest & Hnd' & Hlen & Hmem).
    unfold pushRemoteUnacked, pushRemoteUnackedWithId. cbn.
    rewrite next_id_message_id.
    edestruct (IH (S e) held') as (k & s' & Hs' & Hr); [| | | | |]; cycle 5.
    + exists (S k), s'. split; [exact Hs'|]. destruct Hr as (H1 & H2 & H3 & H4 & H5 & held'' & H6 & H7 & H8 & H9 & H10 & H11).
      unfold restored. rewrite Nat.add_succ_r. cbn in *. split; [done|].
      split; [by rewrite H2, <- app_assoc|]. split; [by rewrite H3, fmap_app, <- app_assoc|].
      split; [done|]. split; [done|]. exists held''. split; [done|]. split; [done|]. split; [lia|].
      split; [done|]. split.
      * intros j. rewrite H10, Hmem. split; [naive_solver lia|]. intros [? ?]. split; [split; [done|lia]|lia].
      * intros j Hj. destruct (decide (j = e)) as [->|]; [done|]. apply Hmem, H11. lia.
    + done.
    + exact Hrest.
    + done.
    + intros j Hj. apply Hmem in Hj as [Hj Hne]. specialize (Hwin j Hj). lia.
    + lia.
  - exists 0%nat, s. split; [done|]. unfold restored. rewrite Nat.add_0_r. cbn. rewrite !app_nil_r.
    split_and!; try done. exists held. split_and!; try done; [|intros j Hj; lia].
    intros j. split; [|naive_solver]. intros Hj. split; [done|]. specialize (Hwin j Hj). lia.
Qed.

Lemma drain_all s fuel :
  (length (rs_remoteDelayedQueue s) < fuel)%nat ->
  drain fuel s = (rs_remoteDelayedQueue s,
    set_remote (rs_remoteUnacked s) (rs_remoteOutOfOrder s) [] (rs_nextRemoteId s) s).
Proof.
  revert s. induction fuel as [|fuel IH]; intros s Hfuel; [lia|]. cbn [drain]. unfold popDelayedMessage.
  destruct s as [unacked ooo [|meta q] next nl lu rtt]; cbn in *; [done|].
  rewrite IH by (cbn; lia). done.
Qed.

#[local] Arguments drain : simpl never.

Lemma stored_already i held l :
  so_meta <$> l = msg <$> held -> (forall j, j ∈ held -> message_id j = message_id i -> j = i) ->
  existsb (fun m => bool_decide (meta_id (so_meta m) = meta_id (msg i))) l = bool_decide (i ∈ held).
Proof.
  revert held. induction l as [|m l IH]; intros held Hl Hinj; destruct held as [|j held]; try discriminate Hl; [done|].
  injection Hl as Hm Hl. cbn. rewrite (IH held Hl) by (intros; apply Hinj; [by right|done]).
  rewrite Hm, !meta_id_msg. apply eq_true_iff_eq. rewrite orb_true_iff, !bool_decide_eq_true, elem_of_cons.
  split; [|naive_solver]. intros [[= E]|?]; [left|by right]. symmetry. apply Hinj; [by left|done].
Qed.

(** One more acknowledgement, and the restorations that follow. *)
Lemma push_restores fuel now id e held s :
  rs_nextRemoteId s = message_id e -> so_meta <$> rs_remoteOutOfOrder s = msg <$> held -> NoDup held ->
  (forall j, j ∈ held -> Z.of_nat e <= Z.of_nat j <= Z.of_nat e + 49151) ->
  (length (rs_remoteOutOfOrder s) < fuel)%nat ->
  exists k s', pushRemoteUnackedWithId (maybeRestoreRemote fuel now) now id false s = Ok s' /\
    restored e k held (set_remote (rs_remoteUnacked s ++ [{| ur_messageId := id; ur_receivedAt := now |}])
      (rs_remoteOutOfOrder s) (rs_remoteDelayedQueue s) (rs_nextRemoteId s) s) s'.
Proof.
  intros Hnext Hheld Hnd Hwin Hfuel. unfold pushRemoteUnackedWithId. cbn [andb].
  apply restore_spec; try done. by rewrite <- (length_fmap msg), <- Hheld, length_fmap.
Qed.

(** The abstract state once [i] has arrived, and [k] messages were delivered. *)
Lemma restored_represents e0 e k held s s' :
  restored e k held s s' -> rs_remoteDelayedQueue s = [] ->
  (forall j, j ∈ held -> Z.of_nat e0 < Z.of_nat j <= Z.of_nat e0 + 49151) -> (e0 <= e)%nat ->
  (length held <= 32)%nat ->
  let '(ms, s2) := drain (S (length (rs_remoteDelayedQueue s'))) s' in
  ms = msg <$> seq e k /\ rs_localUnacked s2 = rs_localUnacked s /\
  exists held', represents (e + k) held' s2 /\
    (forall j, ((j < e + k)%nat \/ j ∈ held') <-> ((j < e)%nat \/ j ∈ held)).
Proof.
  intros (R1 & R2 & R3 & R4 & R5 & held' & R6 & R7 & R8 & R9 & R10 & R11) Hdel Hwin He Hlen.
  rewrite drain_all by lia. split; [by rewrite R2, Hdel|]. split; [by rewrite <- R4|].
  exists held'. split.
  - constructor; cbn; try done; [|lia]. intros j Hj. pose proof Hj as Hj'. apply R10 in Hj' as [Hj' Hle].
    specialize (Hwin j Hj'). assert (j <> (e + k)%nat) by (by intros ->). lia.
  - intros j. split.
    + intros [Hj|Hj]; [|apply R10 in Hj as [? _]; by right].
      destruct (decide (j < e)%nat); [by left|right]. apply R11. lia.
    + intros [Hj|Hj]; [left; lia|]. destruct (decide (j < e + k)%nat); [by left|right]. apply R10. split; [done|lia].
Qed.

(** The abstract receiver after the arrival of [i]: the messages [ms] were
    delivered, in order from the expected one; each message that has arrived is
    delivered or held. *)
Definition received (e : nat) (held : list nat) (i : nat) (ms : list QunetMessageMeta) (s' : ReliableStore) : Prop :=
  exists e' held', represents e' held' s' /\ (e <= e')%nat /\ ms = msg <$> seq e (e' - e) /\
    (forall j, ((j < e')%nat \/ j ∈ held') <-> ((j < e)%nat \/ j ∈ held \/ j = i)).

(** A duplicate is acknowledged again, unless its acknowledgement still waits. *)
Lemma duplicate_received now e held s i :
  represents e held s -> (i < e)%nat ->
  exists s1, pushRemoteDuplicate now (message_id i) s = Ok s1 /\
    let '(ms, s') := drain (S (length (rs_remoteDelayedQueue s1))) s1 in
    received e held i ms s' /\ rs_localUnacked s' = rs_localUnacked s.
Proof.
  intros [Hnext Hheld Hdel Hnd Hwin Hbound] Hlt. unfold pushRemoteDuplicate.
  destruct (existsb (fun m => ur_messageId m =? message_id i) (rs_remoteUnacked s)) eqn:Hex.
  - exists s. unfold pushRemoteUnackedWithId. rewrite Hex. split; [done|]. rewrite drain_all, Hdel by lia.
    split; [|done]. exists e, held. rewrite Nat.sub_diag. split; [by constructor|]. split_and!; try done. naive_solver lia.
  - destruct (push_restores (restore_fuel s) now (message_id i) e held s) as (k & s1 & E & Hr);
      [done|done|done|intros j Hj; specialize (Hwin j Hj); lia|unfold restore_fuel; lia|].
    exists s1. split; [rewrite <- E; unfold pushRemoteUnackedWithId; by rewrite Hex|].
    assert (k = 0%nat) as ->.
    { destruct Hr as (_ & _ & _ & _ & _ & held2 & _ & _ & _ & _ & _ & R11). destruct k; [done|].
      specialize (Hwin e (R11 e ltac:(lia))). lia. }
    pose proof (restored_represents e e 0 held _ s1 Hr Hdel Hwin ltac:(lia) Hbound) as H.
    destruct (drain _ s1) as [ms s']. destruct H as (-> & HL & held' & H & Hmem). rewrite Nat.add_0_r in *.
    split; [|done]. exists e, held'. rewrite Nat.sub_diag. split; [done|]. split_and!; try done.
    intros j. rewrite Hmem. naive_solver lia.
Qed.

(** The expected message is accepted, with the held ones that follow it. *)
Lemma expected_received now e held s :
  represents e held s ->
  exists s1, pushRemoteUnacked (maybeRestoreRemote (restore_fuel s) now) now s = Ok s1 /\
    let '(ms, s') := drain (S (length (rs_remoteDelayedQueue s1))) s1 in
    received e held e (msg e :: ms) s' /\ rs_localUnacked s' = rs_localUnacked s.
Proof.
  intros [Hnext Hheld Hdel Hnd Hwin Hbound]. unfold pushRemoteUnacked.
  assert (Hlen : length (rs_remoteOutOfOrder s) = length held) by by rewrite <- (length_fmap so_meta), Hheld, length_fmap.
  rewrite Hnext, next_id_message_id. set (s1 := set_remote _ _ _ _ s).
  destruct (push_restores (restore_fuel s) now (message_id e) (S e) held s1) as (k & s2 & -> & Hr);
    [done|done|done|intros j Hj; specialize (Hwin j Hj); lia|unfold restore_fuel; cbn; lia|].
  exists s2. split; [done|].
  pose proof (restored_represents e (S e) k held _ s2 Hr Hdel Hwin ltac:(lia) Hbound) as H.
  destruct (drain _ s2) as [ms s3]. destruct H as (-> & HL & held' & H & Hmem). split; [|done].
  exists (S e + k)%nat, held'. split; [done|]. split; [lia|].
  replace (S e + k - e)%nat with (S k) by lia. split; [done|].
  intros j. rewrite Hmem. naive_solver lia.
Qed.

(** A later message is held, unless there are 32 already. *)
Lemma later_received now e held s i :
  represents e held s -> window e i -> (e < i)%nat ->
  match storeRemoteOutOfOrder now (msg i) s with
  | Ok s1 => let '(ms, s') := drain (S (length (rs_remoteDelayedQueue s1))) s1 in
             received e held i ms s' /\ rs_localUnacked s' = rs_localUnacked s
  | Err err => err = TE_Custom TooUnreliable /\ length held = 32%nat
  | Fault _ => False
  end.
Proof.
  intros [Hnext Hheld Hdel Hnd Hwin Hbound] Hw Hei. unfold storeRemoteOutOfOrder.
  assert (Hlen : length (rs_remoteOutOfOrder s) = length held) by by rewrite <- (length_fmap so_meta), Hheld, length_fmap.
  rewrite Hlen. destruct (Z.leb_spec 32 (len held)); [split; [done|lia]|].
  assert (Hinj : forall j, j ∈ held -> message_id j = message_id i -> j = i).
  { intros j Hj Heq. specialize (Hwin j Hj). destruct Hw as [Hw|]; [|lia].
    destruct (Z.le_gt_cases (Z.of_nat i) (Z.of_nat j)); [|symmetry];
      (apply message_id_inj; [lia|done]). }
  rewrite (stored_already i held) by done. case_bool_decide as Hin.
  - rewrite drain_all, Hdel by lia. split; [|done]. exists e, held. rewrite Nat.sub_diag. split; [by constructor|].
    split_and!; try done. naive_solver.
  - rewrite drain_all by lia. cbn. rewrite Hdel. split; [|done]. exists e, (held ++ [i]). rewrite Nat.sub_diag. split.
    { constructor; cbn; try done.
      - by rewrite !fmap_app, Hheld.
      - apply NoDup_app. split_and!; [done|set_solver|apply NoDup_singleton].
      - intros j Hj. apply elem_of_app in Hj as [Hj|Hj]; [by apply Hwin|].
        apply list_elem_of_singleton in Hj as ->. destruct Hw; lia.
      - rewrite length_app. cbn. lia. }
    split_and!; try done. intros j. rewrite elem_of_app, list_elem_of_singleton. naive_solver.
Qed.

(** The abstract receiver on one arrival. *)
Lemma receive_represents now e held s i :
  represents e held s -> window e i ->
  match receive now (msg i) s with
  | (Ok ms, s') => received e held i ms s' /\ rs_localUnacked s' = acked (header i) (rs_localUnacked s)
  | (Err err, s') => err = TE_Custom TooUnreliable /\ (e < i)%nat /\ length held = 32%nat
  | (Fault _, _) => False
  end.
Proof.
  intros HR Hw. unfold receive, handleIncoming.
  rewrite msg_header. destruct (header_acks i) as [Hslots Hcount].
  rewrite processAcks_ok by lia. set (s1 := set_local _ _ s).
  assert (HR1 : represents e held s1) by (destruct HR; by constructor).
  change (acked (header i) (rs_localUnacked s)) with (rs_localUnacked s1). clearbody s1. clear HR s.
  rewrite header_id, (r_next _ _ _ HR1), (is_duplicate_window e i Hw). pose proof (message_id_range i).
  destruct (Z.eqb_spec (message_id i) 0); [lia|]. case_bool_decide as Hlt; cbn [negb andb].
  - destruct (duplicate_received now e held s1 i HR1 Hlt) as (s2 & -> & H2). by destruct (drain _ s2).
  - destruct (Z.eqb_spec (message_id i) (message_id e)) as [Hie|Hie]; cbn [negb].
    + assert (i = e) as -> by (destruct Hw as [Hw|]; [by apply message_id_inj in Hie|lia]).
      destruct (expected_received now e held s1 HR1) as (s2 & -> & H2). by destruct (drain _ s2).
    + assert (e < i)%nat as Hei by (destruct (decide (i = e)) as [->|]; [done|lia]).
      pose proof (later_received now e held s1 i HR1 Hw Hei) as H2.
      destruct (storeRemoteOutOfOrder now (msg i) s1) as [s2| |]; [by destruct (drain _ s2)|naive_solver|done].
Qed.

(** A sequence of arrivals, up to the first error. *)
Fixpoint receive_all (arrivals : list (instant * nat)) (s : ReliableStore)
    : TransportResult (list QunetMessageMeta) :=
  match arrivals with
  | [] => Ok []
  | (now, i) :: arrivals =>
      match receive now (msg i) s with
      | (Ok ms, s) => match receive_all arrivals s with Ok ms' => Ok (ms ++ ms') | res => res end
      | (res, _) => res
      end
  end.

(** Each arrival is in the window of the number of messages delivered before. *)
Fixpoint in_window (e : nat) (arrivals : list (instant * nat)) (s : ReliableStore) : Prop :=
  match arrivals with
  | [] => True
  | (now, i) :: arrivals =>
      window e i /\
      match receive now (msg i) s with
      | (Ok ms, s) => in_window (e + length ms) arrivals s
      | _ => True
      end
  end.

#[export] Instance window_dec e i : Decision (window e i).
Proof. unfold window. apply _. Defined.

#[export] Instance in_window_dec e arrivals s : Decision (in_window e arrivals s).
Proof.
  revert e s. induction arrivals as [|[now i] arrivals IH]; intros e s; cbn [in_window]; [apply _|].
  apply and_dec; [apply _|]. destruct (receive now (msg i) s) as [[]]; apply _.
Defined.

Lemma receive_all_represents arrivals e held s :
  represents e held s -> in_window e arrivals s ->
  match receive_all arrivals s with
  | Ok ms => exists k, ms = msg <$> seq e k /\
      forall n, (forall j, (j < n)%nat -> (j < e)%nat \/ j ∈ held \/ j ∈ arrivals.*2) -> (n <= e + k)%nat
  | Err err => err = TE_Custom TooUnreliable
  | Fault _ => False
  end.
Proof.
  revert e held s. induction arrivals as [|[now i] arrivals IH]; intros e held s HR Hw; cbn [receive_all].
  - exists 0%nat. split; [done|]. intros n Hn. rewrite Nat.add_0_r.
    destruct (decide (n <= e)%nat); [done|]. destruct (Hn e ltac:(lia)) as [?|[Hin|Hin]]; [lia| |by apply not_elem_of_nil in Hin].
    pose proof (r_window _ _ _ HR e Hin). lia.
  - cbn [in_window] in Hw. destruct Hw as [Hwi Hw]. pose proof (receive_represents now e held s i HR Hwi) as H.
    destruct (receive now (msg i) s) as [[ms|err|f] s']; [|by destruct H|done].
    destruct H as [(e' & held' & HR' & He & -> & Hmem) _].
    rewrite length_fmap, length_seq in Hw. replace (e + (e' - e))%nat with e' in Hw by lia.
    specialize (IH e' held' s' HR' Hw). destruct (receive_all arrivals s') as [ms'|err|f]; [|done|done].
    destruct IH as (k & -> & Hall). exists (e' - e + k)%nat. split.
    + rewrite seq_app, fmap_app. by replace (e + (e' - e))%nat with e' by lia.
    + intros n Hn. replace (e + (e' - e + k))%nat with (e' + k)%nat by lia. apply Hall. intros j Hj.
      assert (((j < e)%nat \/ j ∈ held \/ j = i) \/ j ∈ arrivals.*2) as [Hd|?]; [|apply Hmem in Hd; tauto|tauto].
      specialize (Hn j Hj). cbn in Hn. rewrite elem_of_cons in Hn. tauto.
Qed.

(** C3. Reliable messages are delivered in order and exactly once.  Whatever
    the losses, the duplicates and the reordering of the arrivals, what the
    application receives is a prefix of what was sent; once every message up to
    the [n]-th has arrived, at least these have been delivered.  The only
    failure is the one of more than 32 messages held. *)
Theorem in_order_exactly_once arrivals :
  in_window 0 arrivals new_ReliableStore ->
  match receive_all arrivals new_ReliableStore with
  | Ok delivered => exists k, delivered = msg <$> seq 0 k /\
      forall n, (forall j, (j < n)%nat -> j ∈ arrivals.*2) -> (n <= k)%nat
  | Err err => err = TE_Custom TooUnreliable
  | Fault _ => False
  end.
Proof.
  intros Hw. assert (represents 0 [] new_ReliableStore) as HR.
  { constructor; try done; [apply NoDup_nil_2|intros j Hj; by apply not_elem_of_nil in Hj|cbn; lia]. }
  pose proof (receive_all_represents arrivals 0 [] _ HR Hw) as H.
  destruct (receive_all arrivals new_ReliableStore); [|done|done].
  destruct H as (k & -> & Hall). exists k. split; [done|]. intros n Hn. apply Hall. auto.
Qed.
End Delivery.

(** ** Beyond the window: a duplicate across the wrap of the identifiers *)
Section Wrap.
Context {T : TimeLib}.

Definition plain_header (id : Z) : ReliabilityHeader :=
  {| rh_messageId := id; rh_ackCount := 0; rh_acks := replicate 8 0 |}.

Lemma plain_acks id s : processAcks (plain_header id) s = Ok s.
Proof. reflexivity. Qed.

(** The window of [in_order_exactly_once] cannot be dropped.  Right after
    the identifiers have wrapped, a duplicate of the message 65535 is not seen
    as one: it is not acknowledged again but stored as a message to come, and
    when the identifiers have come round, it is delivered in the place of the
    new message 65535. *)
Theorem duplicate_across_wrap_delivered now now' old last s s' :
  mm_reliabilityHeader old = Some (plain_header 65535) ->
  mm_reliabilityHeader last = Some (plain_header 65534) ->
  rs_nextRemoteId s = 1 -> rs_remoteOutOfOrder s = [] ->
  rs_nextRemoteId s' = 65534 -> rs_remoteDelayedQueue s' = [] ->
  rs_remoteOutOfOrder s' = rs_remoteOutOfOrder (handleIncoming now old s).2 ->
  (handleIncoming now old s).1 = Ok false /\
  rs_remoteUnacked (handleIncoming now old s).2 = rs_remoteUnacked s /\
  (receive now' last s').1 = Ok [last; old].
Proof.
  intros Hold Hlast Hn Hooo Hn' Hdel.
  assert (E : handleIncoming now old s = (Ok false,
    set_remote (rs_remoteUnacked s) [{| so_meta := old; so_receivedAt := now |}] (rs_remoteDelayedQueue s) 1 s)).
  { unfold handleIncoming. rewrite Hold, plain_acks, Hn. cbn. unfold storeRemoteOutOfOrder. rewrite Hooo. cbn. by rewrite Hn. }
  rewrite E. cbn [fst snd set_remote rs_remoteOutOfOrder rs_remoteUnacked]. intros Hooo'.
  split; [done|]. split; [done|]. unfold receive, handleIncoming. rewrite Hlast, plain_acks, Hn'.
  cbn [plain_header rh_messageId is_duplicate Z.ltb Z.eqb]. unfold pushRemoteUnacked, pushRemoteUnackedWithId, restore_fuel.
  rewrite Hn', Hooo'. cbn. unfold meta_id. rewrite Hold. cbn. by rewrite Hdel.
Qed.
End Wrap.

(** ** Concrete arrivals *)
Definition example_msg (n : nat) : QunetMessageMeta :=
  {| mm_type := 128; mm_compressionHeader := None;
     mm_reliabilityHeader := Some (plain_header (message_id n));
     mm_fragmentationHeader := None; mm_data := [Z.of_nat n]; mm_dataOffset := 5 |}.

(** Out of order, with a duplicate. *)
Definition example_arrivals : list (Z * nat) := [(1, 0%nat); (2, 2%nat); (3, 0%nat); (4, 3%nat); (5, 1%nat)].

Example example_delivery :
  receive_all (T := nano_time) example_msg example_arrivals new_ReliableStore = Ok (example_msg <$> [0; 1; 2; 3]%nat).
Proof. vm_compute. reflexivity. Qed.

Lemma in_order_exactly_once_witness :
  match receive_all (T := nano_time) example_msg example_arrivals new_ReliableStore with
  | Ok delivered => exists k, delivered = example_msg <$> seq 0 k /\
      forall n, (forall j, (j < n)%nat -> j ∈ example_arrivals.*2) -> (n <= k)%nat
  | Err err => err = TE_Custom TooUnreliable
  | Fault _ => False
  end.
Proof.
  apply (in_order_exactly_once (T := nano_time) example_msg (fun n => plain_header (message_id n)));
    [reflexivity|reflexivity|intros n; split; [reflexivity|discriminate]|].
  apply (bool_decide_unpack _). vm_compute. exact I.
Defined.

Definition wrapped_store : @ReliableStore nano_time :=
  set_remote [] [] [] 1 new_ReliableStore.
Definition old_meta : QunetMessageMeta := example_msg 65534.

Lemma duplicate_across_wrap_delivered_witness :
  (handleIncoming (0 : @instant nano_time) old_meta wrapped_store).1 = Ok false /\
  rs_remoteUnacked (handleIncoming (0 : @instant nano_time) old_meta wrapped_store).2 = [] /\
  (receive (9 : @instant nano_time) (example_msg 65533)
    (set_remote [] [{| so_meta := old_meta; so_receivedAt := 0 : @instant nano_time |}] [] 65534 wrapped_store)).1
  = Ok [example_msg 65533; old_meta].
Proof.
  apply (duplicate_across_wrap_delivered (T := nano_time)); reflexivity.
Defined.
