(* ===== verification/ReliableLocal.v ===== *)
(** * ReliableStore: acknowledgements, retransmissions and the timer

    Which local messages an acknowledgement removes, what makes the handling of
    a header leave the bounds of its array, how often a message is sent again,
    and that the timer expires exactly when there is something to send. *)
From Stdlib Require Import SpecFloat.
From S2P Require Import Prelude Dbuf Time Messages Codec CodecSpec CodecSafety Errors Reliable ReliableSpec.

#[local] Arguments decodeMeta : simpl never.

(** ** Acknowledgements *)
Section Acks.
Context {T : TimeLib}.

Definition local_ids (s : ReliableStore) : list Z := ul_messageId <$> rs_localUnacked s.

Lemma erase_first_filter a l :
  NoDup (ul_messageId <$> l) -> erase_first a l = filter (fun m => ul_messageId m <> a) l.
Proof.
  induction l as [|m l IH]; intros Hnd; [done|]. apply NoDup_cons in Hnd as [Hm Hnd].
  cbn [erase_first]. destruct (Z.eqb_spec (ul_messageId m) a) as [<-|Hne].
  - rewrite filter_cons_False by naive_solver. symmetry. apply filter_all.
    intros x Hx Heq. apply Hm. rewrite <- Heq. by apply list_elem_of_fmap_2.
  - rewrite filter_cons_True by done. by rewrite IH.
Qed.

Lemma NoDup_filter_ids (P : UnackedLocalMessage -> Prop) `{forall x, Decision (P x)} l :
  NoDup (ul_messageId <$> l) -> NoDup (ul_messageId <$> filter P l).
Proof.
  induction l as [|m l IH]; intros Hnd; [constructor|]. cbn in Hnd. apply NoDup_cons in Hnd as [Hm Hnd].
  rewrite filter_cons. case_decide; [|by apply IH]. cbn. apply NoDup_cons. split; [|by apply IH].
  intros Hin. apply Hm. apply list_elem_of_fmap in Hin as (x & -> & Hx).
  apply list_elem_of_filter in Hx as [_ Hx]. by apply list_elem_of_fmap_2.
Qed.

Lemma acked_filter h l :
  NoDup (ul_messageId <$> l) ->
  acked h l = filter (fun m => ul_messageId m ∉ ztake (rh_ackCount h) (rh_acks h)) l.
Proof.
  unfold acked. generalize (ztake (rh_ackCount h) (rh_acks h)) as acks. intros acks. revert l.
  induction acks as [|a acks IH]; intros l Hnd; cbn [foldl].
  - symmetry. apply filter_all. intros. apply not_elem_of_nil.
  - rewrite erase_first_filter by done. rewrite IH by by apply NoDup_filter_ids.
    rewrite list_filter_filter. apply list_filter_iff. intros x. rewrite not_elem_of_cons. tauto.
Qed.

(** An acknowledgement removes what it names and nothing else.  A peer takes
    up to eight of the identifiers it has to acknowledge, oldest first, into the
    header of an outgoing message; when the header arrives here, the messages
    with these identifiers leave the list of unacknowledged ones, the others
    stay in order. *)
Theorem acks_remove_exactly slots s peer :
  NoDup (local_ids s) -> length slots = 8%nat ->
  let '(h, peer') := setOutgoingAcks {| rh_messageId := 0; rh_ackCount := 0; rh_acks := slots |} peer in
  let taken := ur_messageId <$> take 8 (rs_remoteUnacked peer) in
  rs_remoteUnacked peer = take 8 (rs_remoteUnacked peer) ++ rs_remoteUnacked peer' /\
  length (rh_acks h) = 8%nat /\ 0 <= rh_ackCount h <= 8 /\
  exists s', processAcks h s = Ok s' /\
    rs_localUnacked s' = filter (fun m => ul_messageId m ∉ taken) (rs_localUnacked s).
Proof.
  intros Hnd Hslots. cbn. set (taken := ur_messageId <$> take 8 (rs_remoteUnacked peer)).
  assert (Hlen : (length taken <= 8)%nat) by (unfold taken; rewrite length_fmap, length_take; lia).
  split; [by rewrite take_drop|]. split; [rewrite length_app, length_drop; lia|]. split; [lia|].
  eexists. split.
  { apply processAcks_ok. cbn. rewrite length_app, length_drop. lia. }
  cbn. rewrite acked_filter by done. cbn. by rewrite ztake_app.
Qed.

(** ** Headers that announce too many acknowledgements *)
Lemma restore_never_faults fuel now s :
  (length (rs_remoteOutOfOrder s) < fuel)%nat -> is_fault (maybeRestoreRemote fuel now s) = false.
Proof.
  revert s. induction fuel as [|fuel IH]; intros s Hfuel; [lia|]. cbn [maybeRestoreRemote].
  assert (Hshort : forall id l meta rest, take_stored id l = Some (meta, rest) -> (length rest < length l)%nat).
  { clear. intros id. induction l as [|m l IH]; cbn; intros meta rest H; [done|].
    case_bool_decide; [injection H as _ <-; lia|].
    destruct (take_stored id l) as [[meta' rest']|]; [|done]. injection H as _ <-.
    specialize (IH _ _ eq_refl). cbn. lia. }
  destruct (take_stored _ _) as [[meta rest]|] eqn:E; [|done]. apply Hshort in E.
  unfold pushRemoteUnacked, pushRemoteUnackedWithId. cbn [andb]. apply IH. cbn. lia.
Qed.

Lemma push_never_faults now id dupe s s0 :
  length (rs_remoteOutOfOrder s) = length (rs_remoteOutOfOrder s0) ->
  is_fault (pushRemoteUnackedWithId (maybeRestoreRemote (restore_fuel s0) now) now id dupe s) = false.
Proof.
  intros E. unfold pushRemoteUnackedWithId. destruct (_ && _); [done|].
  apply restore_never_faults. unfold restore_fuel. cbn. lia.
Qed.

(** C39. The handling of a reliability header reads past the array of its
    acknowledgements exactly when it announces more than the eight that fit,
    and [decodeMeta] lets such a header through; in every other case it
    returns, with or without an error. *)
Theorem handleIncoming_out_of_bounds data udp udpConnId meta h now s :
  bytes_ok data -> decodeMeta data udp udpConnId = Ok meta -> mm_reliabilityHeader meta = Some h ->
  is_fault (handleIncoming now meta s).1 = (8 <? rh_ackCount h).
Proof.
  intros Hb Hdec Hh. destruct (decodeMeta_header data udp udpConnId meta h Hb Hdec Hh) as [Hcount Hslots].
  unfold handleIncoming. rewrite Hh. destruct (Z.ltb_spec 8 (rh_ackCount h)) as [Hgt|Hle].
  { unfold processAcks. rewrite processAcks_loop_fault by lia. done. }
  rewrite processAcks_ok by lia. set (s1 := set_local _ _ s). destruct (_ =? 0); [done|].
  destruct (is_duplicate _ _); cbn [negb andb].
  - unfold pushRemoteDuplicate. pose proof (push_never_faults now (rh_messageId h) true s1 s1 eq_refl) as H.
    destruct (pushRemoteUnackedWithId _ _ _ _ _); [done|done|discriminate H].
  - destruct (negb _).
    + unfold storeRemoteOutOfOrder. destruct (_ <=? _); [done|]. by destruct (existsb _ _).
    + unfold pushRemoteUnacked. set (s2 := set_remote _ _ _ _ s1).
      pose proof (push_never_faults now (rs_nextRemoteId s1) false s2 s1 eq_refl) as H.
      destruct (pushRemoteUnackedWithId _ _ _ _ _); [done|done|discriminate H].
Qed.
End Acks.

(** ** Retransmission *)
Section Retransmission.
Context {T : TimeLib}.
Variable millis_float : duration -> spec_float.
Variable fromMillis_float : spec_float -> duration.

Abbreviation deadline := (calcRetransmissionDeadline millis_float fromMillis_float).
Abbreviation retransmit := (maybeRetransmit millis_float fromMillis_float).

(** The message has been waiting for its deadline. *)
Definition due (now : instant) (s : ReliableStore) (u : UnackedLocalMessage) : bool :=
  dleb (deadline (ul_retransmitAttempts u) s) (since now (ul_sentAt u)).

Definition sent_again (now : instant) (u : UnackedLocalMessage) : UnackedLocalMessage :=
  {| ul_messageId := ul_messageId u; ul_msg := ul_msg u; ul_sentAt := now;
     ul_retransmitAttempts := ul_retransmitAttempts u + 1 |}.

Definition local_inv (s : ReliableStore) : Prop :=
  len (rs_localUnacked s) <= 64 /\
  Forall (fun u => 0 <= ul_retransmitAttempts u <= 10) (rs_localUnacked s).

Lemma retransmit_loop_spec now s l :
  match retransmit_loop millis_float fromMillis_float now s l with
  | (Ok None, l') => l' = l /\ Forall (fun u => due now s u = false) l
  | (Ok (Some m), l') => exists l1 u l2, l = l1 ++ u :: l2 /\ l' = l1 ++ sent_again now u :: l2 /\
      Forall (fun u => due now s u = false) l1 /\ due now s u = true /\ m = ul_msg u /\
      ul_retransmitAttempts u < 10
  | (Err e, l') => e = TE_Custom TooUnreliable /\ exists l1 u l2, l = l1 ++ u :: l2 /\
      Forall (fun u => due now s u = false) l1 /\ due now s u = true /\ 10 <= ul_retransmitAttempts u
  | (Fault _, _) => False
  end.
Proof.
  induction l as [|u l IH]; cbn [retransmit_loop]; [done|]. fold (due now s u).
  destruct (due now s u) eqn:Hdue.
  - fold (sent_again now u). destruct (Z.leb_spec 10 (ul_retransmitAttempts u)).
    + split; [done|]. exists [], u, l. by repeat split.
    + exists [], u, l. repeat split; try done.
  - destruct (retransmit_loop _ _ now s l) as [[[m|]|e|f] l']; [| | |done].
    + destruct IH as (l1 & v & l2 & -> & -> & Hl1 & Hv & -> & Hlt).
      exists (u :: l1), v, l2. repeat split; try done. by constructor.
    + destruct IH as [-> Hl]. split; [done|]. by constructor.
    + destruct IH as (-> & l1 & v & l2 & -> & Hl1 & Hv & Hle). split; [done|].
      exists (u :: l1), v, l2. repeat split; try done. by constructor.
Qed.

(** The retransmission of unacknowledged messages: nothing happens when no
    message is due; otherwise the first one that is due, in the order they were
    sent, is returned, with a new time and one more attempt; and an eleventh
    attempt is an error.  No message is ever sent more than ten times more, and
    at most 64 wait. *)
Theorem maybeRetransmit_spec now s :
  local_inv s ->
  match retransmit now s with
  | (Ok None, s') => s' = s /\ Forall (fun u => due now s u = false) (rs_localUnacked s)
  | (Ok (Some m), s') => local_inv s' /\ exists l1 u l2, rs_localUnacked s = l1 ++ u :: l2 /\
      rs_localUnacked s' = l1 ++ sent_again now u :: l2 /\
      Forall (fun u => due now s u = false) l1 /\ due now s u = true /\ m = ul_msg u
  | (Err e, _) => e = TE_Custom TooUnreliable /\ exists u, u ∈ rs_localUnacked s /\
      ul_retransmitAttempts u = 10 /\ due now s u = true
  | (Fault _, _) => False
  end.
Proof.
  intros [Hlen Hatt]. unfold maybeRetransmit. pose proof (retransmit_loop_spec now s (rs_localUnacked s)) as H.
  destruct (retransmit_loop _ _ now s (rs_localUnacked s)) as [[[m|]|e|f] l']; [| | |done].
  - destruct H as (l1 & u & l2 & E & -> & Hl1 & Hu & -> & Hlt). rewrite E in *. split.
    + split; cbn; [rewrite length_app in *; cbn in *; lia|].
      apply Forall_app in Hatt as [? Hatt]. apply Forall_cons in Hatt as [? ?].
      apply Forall_app. split; [done|]. apply Forall_cons. split; [cbn; lia|done].
    + exists l1, u, l2. by repeat split.
  - destruct H as [-> H]. by rewrite set_local_id.
  - destruct H as (-> & l1 & u & l2 & E & Hl1 & Hu & Hle). split; [done|]. exists u. rewrite E in *.
    apply Forall_app in Hatt as [_ Hatt]. apply Forall_cons in Hatt as [? _].
    split; [set_solver|]. split; [lia|done].
Qed.

(** The other operations on the list of local messages keep its bounds. *)
Lemma pushLocalUnacked_inv now msg s s' :
  local_inv s -> pushLocalUnacked now msg s = Ok s' -> local_inv s'.
Proof.
  intros [Hlen Hatt] H. unfold pushLocalUnacked in H. destruct (Z.leb_spec 64 (len (rs_localUnacked s))); [done|].
  destruct msg; try done. destruct m as [? ? [h|]]; [|done]. injection H as <-.
  split; cbn; [rewrite length_app; cbn; lia|]. apply Forall_app. split; [done|]. repeat constructor; cbn; lia.
Qed.

Lemma erase_first_sub a l : (length (erase_first a l) <= length l)%nat /\ forall x, x ∈ erase_first a l -> x ∈ l.
Proof.
  induction l as [|m l [IH1 IH2]]; cbn; [done|]. destruct (_ =? a); cbn; [split; [lia|set_solver]|].
  split; [lia|]. set_solver.
Qed.

Lemma acked_inv h s : local_inv s -> local_inv (set_local (rs_nextLocalId s) (acked h (rs_localUnacked s)) s).
Proof.
  intros [Hlen Hatt]. unfold acked, local_inv. cbn. generalize (ztake (rh_ackCount h) (rh_acks h)) as acks.
  intros acks. revert Hlen Hatt. generalize (rs_localUnacked s) as l. induction acks as [|a acks IH]; intros l Hlen Hatt; [done|].
  cbn. destruct (erase_first_sub a l) as [H1 H2]. apply IH; [lia|].
  rewrite Forall_forall in *. auto.
Qed.

(** ** The timer *)
Context {TL : TimeLaws T}.

Lemma nanos_foldl_dmin {A} (f : A -> duration) l d :
  nanos (foldl (fun e x => dmin e (f x)) d l) = 0 <-> nanos d = 0 \/ exists x, x ∈ l /\ nanos (f x) = 0.
Proof.
  revert d. induction l as [|x l IH]; intros d; cbn [foldl].
  - split; [by left|]. intros [?|(x & Hx & _)]; [done|by apply not_elem_of_nil in Hx].
  - rewrite IH, nanos_dmin. pose proof (nanos_nonneg d). pose proof (nanos_nonneg (f x)).
    split.
    + intros [?|(y & ? & ?)]; [|right; exists y; split; [by right|done]].
      destruct (Z.eq_dec (nanos d) 0); [by left|right]. exists x. split; [by left|lia].
    + intros [?|(y & Hy & ?)]; [left; lia|]. apply elem_of_cons in Hy as [->|Hy]; [left; lia|].
      right. eauto.
Qed.

Lemma dsub_zero a b : nanos (dsub a b) = 0 <-> dleb a b = true.
Proof. rewrite dsub_law, dleb_law, Z.leb_le. lia. Qed.

(** The timer of the store has expired exactly when a message must be sent
    again (or has been sent too often), or an acknowledgement is overdue. *)
Theorem timer_expires_when_due now s :
  isZero (ReliableStore_untilTimerExpiry millis_float fromMillis_float now s) = true <->
  ((retransmit now s).1 <> Ok None \/ hasUrgentOutgoingAcks now s = true).
Proof.
  assert (Hret : (retransmit now s).1 <> Ok None <-> exists u, u ∈ rs_localUnacked s /\ due now s u = true).
  { unfold maybeRetransmit. pose proof (retransmit_loop_spec now s (rs_localUnacked s)) as H.
    destruct (retransmit_loop _ _ now s (rs_localUnacked s)) as [[[m|]|e|f] l']; cbn.
    - destruct H as (l1 & u & l2 & -> & _ & _ & Hu & _). split; [|done]. intros _. exists u. set_solver.
    - destruct H as [_ H]. split; [done|]. intros (u & Hin & Hu). rewrite Forall_forall in H.
      by rewrite (H u Hin) in Hu.
    - destruct H as (_ & l1 & u & l2 & -> & _ & Hu & _). split; [|done]. intros _. exists u. set_solver.
    - done. }
  assert (Hacks : hasUrgentOutgoingAcks now s = true <->
            exists u, u ∈ rs_remoteUnacked s /\ dleb calcAckDeadline (since now (ur_receivedAt u)) = true).
  { unfold hasUrgentOutgoingAcks. rewrite existsb_exists. setoid_rewrite list_elem_of_In. done. }
  rewrite Hret, Hacks, isZero_law, Z.eqb_eq. clear Hret Hacks.
  assert (Hinf : nanos infinite <> 0).
  { pose proof (nanos_infinite (fromSecs 1)). rewrite fromSecs_law in * by lia. lia. }
  assert (Hfold : nanos (ReliableStore_untilTimerExpiry millis_float fromMillis_float now s) = 0 <->
    nanos (foldl (fun e u => dmin e (dsub calcAckDeadline (since now (ur_receivedAt u))))
      (foldl (fun e u => dmin e (dsub (deadline (ul_retransmitAttempts u) s) (since now (ul_sentAt u))))
        infinite (rs_localUnacked s)) (rs_remoteUnacked s)) = 0).
  { unfold ReliableStore_untilTimerExpiry. by destruct (rs_localUnacked s), (rs_remoteUnacked s). }
  rewrite Hfold, !nanos_foldl_dmin. setoid_rewrite dsub_zero. unfold due. tauto.
Qed.
End Retransmission.

(** ** Concrete stores *)
Definition nano_millis (d : @duration nano_time) : spec_float := float_of_Z (nd_nanos (d : nano_duration) / 1000000).
Definition nano_fromMillis (f : spec_float) : @duration nano_time :=
  match f with
  | S754_finite false m e => of_nanos (Z.shiftl (Z.pos m * 1000000) e)
  | _ => of_nanos 0
  end.

(** With no estimate of the round trip, a message is sent again after 370 ms,
    and the n-th time after n times as long, up to six. *)
Example example_deadlines :
  (fun n => nd_nanos (calcRetransmissionDeadline nano_millis nano_fromMillis n new_ReliableStore : nano_duration) / 1000000)
    <$> [0; 1; 2; 6; 7]
  = [370; 370; 740; 2220; 2220].
Proof. vm_compute. reflexivity. Qed.

Definition example_local (id sentAt attempts : Z) : @UnackedLocalMessage nano_time :=
  {| ul_messageId := id;
     ul_msg := MData {| dm_data := [id]; dm_compHeader := None; dm_relHeader := Some (plain_header id) |};
     ul_sentAt := sentAt; ul_retransmitAttempts := attempts |}.
Definition example_store : @ReliableStore nano_time :=
  set_local 4 [example_local 1 0 2; example_local 2 0 0; example_local 3 0 10] new_ReliableStore.
Definition example_peer : @ReliableStore nano_time :=
  set_remote [{| ur_messageId := 2; ur_receivedAt := 0 : @instant nano_time |}] [] [] 3 new_ReliableStore.

Lemma acks_remove_exactly_witness :
  let '(h, peer') := setOutgoingAcks {| rh_messageId := 0; rh_ackCount := 0; rh_acks := replicate 8 0 |} example_peer in
  let taken := ur_messageId <$> take 8 (rs_remoteUnacked example_peer) in
  rs_remoteUnacked example_peer = take 8 (rs_remoteUnacked example_peer) ++ rs_remoteUnacked peer' /\
  length (rh_acks h) = 8%nat /\ 0 <= rh_ackCount h <= 8 /\
  exists s', processAcks h example_store = Ok s' /\
    rs_localUnacked s' = filter (fun m => ul_messageId m ∉ taken) (rs_localUnacked example_store).
Proof.
  apply (acks_remove_exactly (replicate 8 0) example_store example_peer); [|reflexivity].
  apply (bool_decide_unpack _). vm_compute. exact I.
Defined.

Lemma handleIncoming_out_of_bounds_witness :
  is_fault (handleIncoming (0 : @instant nano_time) nine_acks_meta example_store).1 = true.
Proof.
  apply (handleIncoming_out_of_bounds nine_acks true false nine_acks_meta
    {| rh_messageId := 5; rh_ackCount := 9; rh_acks := replicate 8 257 |} (0 : @instant nano_time) example_store);
    [|vm_compute; reflexivity|reflexivity].
  repeat constructor; unfold byte_ok; lia.
Defined.

Lemma maybeRetransmit_spec_witness :
  match maybeRetransmit nano_millis nano_fromMillis (400000000 : @instant nano_time) example_store with
  | (Ok None, s') => s' = example_store /\
      Forall (fun u => due nano_millis nano_fromMillis (400000000 : @instant nano_time) example_store u = false)
        (rs_localUnacked example_store)
  | (Ok (Some m), s') => local_inv s' /\ exists l1 u l2, rs_localUnacked example_store = l1 ++ u :: l2 /\
      rs_localUnacked s' = l1 ++ sent_again (400000000 : @instant nano_time) u :: l2 /\
      Forall (fun u => due nano_millis nano_fromMillis (400000000 : @instant nano_time) example_store u = false) l1 /\
      due nano_millis nano_fromMillis (400000000 : @instant nano_time) example_store u = true /\ m = ul_msg u
  | (Err e, _) => e = TE_Custom TooUnreliable /\ exists u, u ∈ rs_localUnacked example_store /\
      ul_retransmitAttempts u = 10 /\ due nano_millis nano_fromMillis (400000000 : @instant nano_time) example_store u = true
  | (Fault _, _) => False
  end.
Proof.
  apply (maybeRetransmit_spec nano_millis nano_fromMillis (400000000 : @instant nano_time) example_store).
  split; [discriminate|repeat constructor; discriminate].
Defined.

Example example_timer :
  isZero (ReliableStore_untilTimerExpiry nano_millis nano_fromMillis (400000000 : @instant nano_time) example_store) = true.
Proof. vm_compute. reflexivity. Qed.
