(* ===== verification/Stats.v ===== *)
(** * StatTracker: network statistics

    [include/qunet/util/StatTracker.hpp] and [src/util/StatTracker.cpp]: the
    log of packets and messages, and the snapshots computed from it.  Ratios
    are single-precision floats. *)
From Stdlib Require Import SpecFloat.
From S2P Require Import Prelude Time Messages.

Record Packet {T : TimeLib} := { p_timestamp : instant; p_bytes : Z; p_up : bool }.

(** The [type] of a message is always [Data]. *)
Record StatMessage {T : TimeLib} := {
  sm_timestamp : instant;
  sm_bytes : Z;
  sm_up : bool;
  sm_compressedBytes : option Z;
  sm_compressionTime : duration;
  sm_relHeader : option ReliabilityHeader;
}.

Record StatTracker {T : TimeLib} := {
  st_startedAt : instant;
  st_connectedAt : option instant;
  st_handshakeFinishedAt : option instant;
  st_packets : list Packet;
  st_messages : list StatMessage;
  st_enabled : bool;
}.

(** One direction of a snapshot. *)
Record StatSide := {
  ss_bytes : Z; ss_messages : Z; ss_packets : Z;
  ss_minPacketSize : Z; ss_maxPacketSize : Z;
  ss_compressed : Z; ss_compAvgRatio : spec_float; ss_compSavedBytes : Z;
  ss_compSavedPercent : spec_float; ss_reliable : Z;
}.

Record StatSnapshot {T : TimeLib} := {
  sn_period : duration;
  sn_up : StatSide;
  sn_down : StatSide;
  sn_upRetransmissions : Z;
  sn_upUnacked : Z;
  sn_downUnknownAcks : Z;
  sn_minAckDelay : duration;
  sn_maxAckDelay : duration;
  sn_avgAckDelay : duration;
}.

Record StatWholeSnapshot {T : TimeLib} := {
  sw_snapshot : StatSnapshot;
  sw_connectionLifetime : duration;
  sw_tookToConnect : duration;
  sw_tookToHandshake : duration;
}.

(** ** Single-precision arithmetic *)
Definition f32_of_Z (z : Z) : spec_float := binary_normalize 24 128 z 0 false.
Definition f32_add : spec_float -> spec_float -> spec_float := SFadd 24 128.
Definition f32_div : spec_float -> spec_float -> spec_float := SFdiv 24 128.

Section Tracker.
Context {T : TimeLib}.

(** ** Recording *)
Definition new_StatTracker (start : instant) : StatTracker :=
  {| st_startedAt := start; st_connectedAt := None; st_handshakeFinishedAt := None;
     st_packets := []; st_messages := []; st_enabled := true |}.

Definition setEnabled (enable : bool) (t : StatTracker) : StatTracker :=
  {| st_startedAt := st_startedAt t; st_connectedAt := st_connectedAt t;
     st_handshakeFinishedAt := st_handshakeFinishedAt t; st_packets := st_packets t;
     st_messages := st_messages t; st_enabled := enable |}.

Definition onStartedConnection (now : instant) (t : StatTracker) : StatTracker :=
  {| st_startedAt := now; st_connectedAt := st_connectedAt t;
     st_handshakeFinishedAt := st_handshakeFinishedAt t; st_packets := st_packets t;
     st_messages := st_messages t; st_enabled := st_enabled t |}.

Definition onConnected (now : instant) (t : StatTracker) : StatTracker :=
  {| st_startedAt := st_startedAt t; st_connectedAt := Some now;
     st_handshakeFinishedAt := st_handshakeFinishedAt t; st_packets := st_packets t;
     st_messages := st_messages t; st_enabled := st_enabled t |}.

Definition push_packet (now : instant) (bytes : Z) (up : bool) (t : StatTracker) : StatTracker :=
  if st_enabled t then
    {| st_startedAt := st_startedAt t; st_connectedAt := st_connectedAt t;
       st_handshakeFinishedAt := st_handshakeFinishedAt t;
       st_packets := st_packets t ++ [{| p_timestamp := now; p_bytes := bytes; p_up := up |}];
       st_messages := st_messages t; st_enabled := st_enabled t |}
  else t.

Definition onUpPacket (now : instant) (bytes : Z) : StatTracker -> StatTracker := push_packet now bytes true.
Definition onDownPacket (now : instant) (bytes : Z) : StatTracker -> StatTracker := push_packet now bytes false.

Definition onMessage (now : instant) (header : Z) (up : bool) (bytes : Z) (compressedBytes : option Z)
    (compressionTime : duration) (relHeader : option ReliabilityHeader) (t : StatTracker) : StatTracker :=
  if st_enabled t then
    {| st_startedAt := st_startedAt t; st_connectedAt := st_connectedAt t;
       st_handshakeFinishedAt := st_handshakeFinishedAt t; st_packets := st_packets t;
       st_messages := st_messages t ++
         [{| sm_timestamp := now; sm_bytes := bytes; sm_up := up; sm_compressedBytes := compressedBytes;
             sm_compressionTime := compressionTime; sm_relHeader := relHeader |}];
       st_enabled := st_enabled t |}
  else t.

Definition onUpMessage (now : instant) (header bytes : Z) (compressedBytes : option Z)
    (compressionTime : duration) (relHeader : option ReliabilityHeader) : StatTracker -> StatTracker :=
  onMessage now header true bytes compressedBytes compressionTime relHeader.
Definition onDownMessage (now : instant) (header bytes : Z) (compressedBytes : option Z)
    (compressionTime : duration) (relHeader : option ReliabilityHeader) : StatTracker -> StatTracker :=
  onMessage now header false bytes compressedBytes compressionTime relHeader.

(** ** Snapshots *)
Definition StatSide_zero : StatSide :=
  {| ss_bytes := 0; ss_messages := 0; ss_packets := 0; ss_minPacketSize := SIZE_MAX; ss_maxPacketSize := 0;
     ss_compressed := 0; ss_compAvgRatio := f32_of_Z 0; ss_compSavedBytes := 0;
     ss_compSavedPercent := f32_of_Z 0; ss_reliable := 0 |}.

(** The backward walk that finds where a period starts: the entries after the
    last one that is too old. *)
Fixpoint recent_rev {A} (too_old : A -> bool) (rev_entries : list A) : list A :=
  match rev_entries with
  | [] => []
  | x :: l => if too_old x then [] else x :: recent_rev too_old l
  end.

Definition in_period {A} (now : instant) (period : duration) (timestamp : A -> instant) (entries : list A) : list A :=
  if isZero period then entries
  else rev (recent_rev (fun x => dltb period (since now (timestamp x))) (rev entries)).

(** One message, in the direction it belongs to.  [saved] is an [int64_t] to
    which a [size_t] is added. *)
Definition count_message (m : StatMessage) (s : StatSide) : StatSide :=
  let compressed := match sm_compressedBytes m with Some c => if 0 <? sm_bytes m then Some c else None | None => None end in
  {| ss_bytes := ss_bytes s; ss_messages := u64 (ss_messages s + 1); ss_packets := ss_packets s;
     ss_minPacketSize := ss_minPacketSize s; ss_maxPacketSize := ss_maxPacketSize s;
     ss_compressed := match compressed with Some _ => u64 (ss_compressed s + 1) | None => ss_compressed s end;
     ss_compAvgRatio :=
       match compressed with
       | Some c => f32_add (ss_compAvgRatio s) (f32_div (f32_of_Z c) (f32_of_Z (sm_bytes m)))
       | None => ss_compAvgRatio s
       end;
     ss_compSavedBytes :=
       match compressed with
       | Some c => i64 (u64 (ss_compSavedBytes s) + u64 (sm_bytes m - c))
       | None => ss_compSavedBytes s
       end;
     ss_compSavedPercent := ss_compSavedPercent s;
     ss_reliable := match sm_relHeader m with Some _ => u64 (ss_reliable s + 1) | None => ss_reliable s end |}.

(** The maximum is looked at only when the packet is not a new minimum. *)
Definition count_packet (p : Packet) (s : StatSide) : StatSide :=
  {| ss_bytes := u64 (ss_bytes s + p_bytes p); ss_messages := ss_messages s; ss_packets := u64 (ss_packets s + 1);
     ss_minPacketSize := if p_bytes p <? ss_minPacketSize s then p_bytes p else ss_minPacketSize s;
     ss_maxPacketSize :=
       if p_bytes p <? ss_minPacketSize s then ss_maxPacketSize s
       else if ss_maxPacketSize s <? p_bytes p then p_bytes p else ss_maxPacketSize s;
     ss_compressed := ss_compressed s; ss_compAvgRatio := ss_compAvgRatio s;
     ss_compSavedBytes := ss_compSavedBytes s; ss_compSavedPercent := ss_compSavedPercent s;
     ss_reliable := ss_reliable s |}.

Definition finish_side (s : StatSide) : StatSide :=
  {| ss_bytes := ss_bytes s; ss_messages := ss_messages s; ss_packets := ss_packets s;
     ss_minPacketSize := if ss_minPacketSize s =? SIZE_MAX then 0 else ss_minPacketSize s;
     ss_maxPacketSize := ss_maxPacketSize s; ss_compressed := ss_compressed s;
     ss_compAvgRatio := f32_div (ss_compAvgRatio s) (f32_of_Z (ss_compressed s));
     ss_compSavedBytes := ss_compSavedBytes s;
     ss_compSavedPercent :=
       f32_div (f32_of_Z (ss_compSavedBytes s)) (f32_of_Z (u64 (ss_bytes s + u64 (ss_compSavedBytes s))));
     ss_reliable := ss_reliable s |}.

Definition side_messages (up : bool) (l : list StatMessage) : list StatMessage :=
  filter (fun m => sm_up m = up) l.
Definition side_packets (up : bool) (l : list Packet) : list Packet := filter (fun p => p_up p = up) l.

(** Both directions keep separate counters: the loops over the messages and
    over the packets, restricted to one direction. *)
Definition side (up : bool) (messages : list StatMessage) (packets : list Packet) : StatSide :=
  finish_side
    (foldl (fun s p => count_packet p s)
       (foldl (fun s m => count_message m s) StatSide_zero (side_messages up messages))
       (side_packets up packets)).

(** ** Reliability *)
Record RelStats := {
  rl_outIds : gset Z;
  rl_acks : gmap Z (option instant * option instant);
  rl_upRetransmissions : Z;
}.

Definition ack_entry (acks : gmap Z (option instant * option instant)) (id : Z) : option instant * option instant :=
  default (None, None) (acks !! id).

(** The acknowledgements of a message, in slots [slots]; [n] are left to read. *)
Fixpoint record_acks {E} (n : nat) (slots : list Z) (at_ : instant)
    (acks : gmap Z (option instant * option instant)) : result E (gmap Z (option instant * option instant)) :=
  match n, slots with
  | O, _ => Ok acks
  | S n, id :: slots =>
      let '(msgAt, ackAt) := ack_entry acks id in
      let ackAt := match ackAt with Some t => t | None => at_ end in
      record_acks n slots at_ (<[id := (msgAt, Some ackAt)]> acks)
  | S _, [] => Fault OutOfBounds
  end.

Definition record_message {E} (m : StatMessage) (st : RelStats) : result E RelStats :=
  match sm_relHeader m with
  | None => Ok st
  | Some hdr =>
      let st :=
        if sm_up m && negb (rh_messageId hdr =? 0) then
          if bool_decide (rh_messageId hdr ∈ rl_outIds st) then
            {| rl_outIds := rl_outIds st; rl_acks := rl_acks st;
               rl_upRetransmissions := u64 (rl_upRetransmissions st + 1) |}
          else
            {| rl_outIds := {[rh_messageId hdr]} ∪ rl_outIds st;
               rl_acks := <[rh_messageId hdr := (Some (sm_timestamp m), (ack_entry (rl_acks st) (rh_messageId hdr)).2)]> (rl_acks st);
               rl_upRetransmissions := rl_upRetransmissions st |}
        else st in
      if negb (sm_up m) && (0 <? rh_ackCount hdr) then
        acks ← record_acks (Z.to_nat (rh_ackCount hdr)) (rh_acks hdr) (sm_timestamp m) (rl_acks st);
        Ok {| rl_outIds := rl_outIds st; rl_acks := acks; rl_upRetransmissions := rl_upRetransmissions st |}
      else Ok st
  end.

Fixpoint record_messages {E} (l : list StatMessage) (st : RelStats) : result E RelStats :=
  match l with
  | [] => Ok st
  | m :: l => st ← record_message m st; record_messages l st
  end.

Record AckDelays := {
  ad_unknown : Z; ad_unacked : Z; ad_min : duration; ad_max : duration; ad_sum : duration; ad_count : Z;
}.

Definition count_ack (pair : option instant * option instant) (d : AckDelays) : AckDelays :=
  match pair with
  | (None, _) =>
      {| ad_unknown := u64 (ad_unknown d + 1); ad_unacked := ad_unacked d; ad_min := ad_min d;
         ad_max := ad_max d; ad_sum := ad_sum d; ad_count := ad_count d |}
  | (Some _, None) =>
      {| ad_unknown := ad_unknown d; ad_unacked := u64 (ad_unacked d + 1); ad_min := ad_min d;
         ad_max := ad_max d; ad_sum := ad_sum d; ad_count := ad_count d |}
  | (Some msgAt, Some ackAt) =>
      let delay := since ackAt msgAt in
      {| ad_unknown := ad_unknown d; ad_unacked := ad_unacked d;
         ad_min := if dltb delay (ad_min d) then delay else ad_min d;
         ad_max := if dltb (ad_max d) delay then delay else ad_max d;
         ad_sum := dadd (ad_sum d) delay; ad_count := u64 (ad_count d + 1) |}
  end.

(** The walk over the hash map; its order is unspecified, any order of the
    entries may be given. *)
Definition countRelStats {E} (walk : gmap Z (option instant * option instant) -> list (option instant * option instant))
    (messages : list StatMessage) : result E (RelStats * AckDelays) :=
  st ← record_messages messages {| rl_outIds := ∅; rl_acks := ∅; rl_upRetransmissions := 0 |};
  let d := foldl (fun d pair => count_ack pair d)
    {| ad_unknown := 0; ad_unacked := 0; ad_min := infinite; ad_max := zero; ad_sum := zero; ad_count := 0 |}
    (walk (rl_acks st)) in
  Ok (st, if ad_count d =? 0
          then {| ad_unknown := ad_unknown d; ad_unacked := ad_unacked d; ad_min := zero; ad_max := ad_max d;
                  ad_sum := zero; ad_count := ad_count d |}
          else {| ad_unknown := ad_unknown d; ad_unacked := ad_unacked d; ad_min := ad_min d; ad_max := ad_max d;
                  ad_sum := ddiv (ad_sum d) (ad_count d); ad_count := ad_count d |}).

Definition snapshot {E} (walk : gmap Z (option instant * option instant) -> list (option instant * option instant))
    (now : instant) (period : duration) (t : StatTracker) : result E StatSnapshot :=
  let packets := in_period now period p_timestamp (st_packets t) in
  let messages := in_period now period sm_timestamp (st_messages t) in
  '(st, d) ← countRelStats walk messages;
  Ok {| sn_period := if isZero period then since now (st_startedAt t) else period;
        sn_up := side true messages packets;
        sn_down := side false messages packets;
        sn_upRetransmissions := rl_upRetransmissions st;
        sn_upUnacked := ad_unacked d; sn_downUnknownAcks := ad_unknown d;
        sn_minAckDelay := ad_min d; sn_maxAckDelay := ad_max d; sn_avgAckDelay := ad_sum d |}.

Definition snapshotFull {E} (walk : gmap Z (option instant * option instant) -> list (option instant * option instant))
    (now : instant) (t : StatTracker) : result E StatWholeSnapshot :=
  snap ← snapshot walk now zero t;
  Ok {| sw_snapshot := snap;
        sw_connectionLifetime := since now (st_startedAt t);
        sw_tookToConnect :=
          match st_connectedAt t with Some c => since c (st_startedAt t) | None => zero end;
        sw_tookToHandshake :=
          match st_connectedAt t, st_handshakeFinishedAt t with
          | Some c, Some h => since h c
          | _, _ => zero
          end |}.

(** [bytesUp / packetsUp]; a division by zero is undefined behaviour. *)
Definition avgPacketSize {E} (s : StatSide) : result E Z :=
  if ss_packets s =? 0 then Fault OutOfBounds else Ok (ss_bytes s / ss_packets s).
Definition avgUpPacketSize {E} (s : StatSnapshot) : result E Z := avgPacketSize (sn_up s).
Definition avgDownPacketSize {E} (s : StatSnapshot) : result E Z := avgPacketSize (sn_down s).
End Tracker.

(** ** What a snapshot reports *)
Section Snapshot.
Context {T : TimeLib}.

Abbreviation count_packets := (foldl (fun s p => count_packet p s)).
Definition sizes (l : list Packet) : list Z := p_bytes <$> l.
Definition packet_ok (p : Packet) : Prop := 0 <= p_bytes p < SIZE_MAX.
Definition list_min (l : list Z) : Z := foldr Z.min SIZE_MAX l.
Definition list_max (l : list Z) : Z := foldr Z.max 0 l.
Definition list_sum (l : list Z) : Z := foldr Z.add 0 l.

Lemma count_messages_packets l s :
  let s' := foldl (fun s m => count_message m s) s l in
  ss_packets s = 0 -> ss_bytes s = 0 -> ss_minPacketSize s = SIZE_MAX -> ss_maxPacketSize s = 0 ->
  ss_packets s' = 0 /\ ss_bytes s' = 0 /\ ss_minPacketSize s' = SIZE_MAX /\ ss_maxPacketSize s' = 0.
Proof. revert s. induction l as [|m l IH]; intros s; cbn; [done|]. intros. apply IH; done. Qed.

Lemma count_packets_counters l s :
  0 <= ss_packets s < 2 ^ 64 -> 0 <= ss_bytes s < 2 ^ 64 ->
  ss_packets (count_packets s l) = u64 (ss_packets s + len l) /\
  ss_bytes (count_packets s l) = u64 (ss_bytes s + list_sum (sizes l)).
Proof.
  revert s. induction l as [|p l IH]; intros s Hp Hb; cbn [foldl].
  - cbn. rewrite !Z.add_0_r, !u_small by lia. done.
  - destruct (IH (count_packet p s)) as [-> ->]; [apply u_range; lia|apply u_range; lia|].
    cbn [count_packet ss_packets ss_bytes sizes fmap list_fmap list_sum foldr length]. unfold u.
    rewrite !Zplus_mod_idemp_l. split; f_equal; [lia|]. unfold sizes, list_sum. lia.
Qed.

Lemma count_packets_min l s :
  ss_minPacketSize (count_packets s l) = foldr Z.min (ss_minPacketSize s) (sizes l).
Proof.
  revert s. induction l as [|p l IH]; intros s; [done|]. cbn [foldl sizes fmap list_fmap foldr]. rewrite IH.
  cbn [count_packet ss_minPacketSize]. fold (sizes l).
  assert (H : forall a, foldr Z.min (if p_bytes p <? a then p_bytes p else a) (sizes l)
                        = Z.min (p_bytes p) (foldr Z.min a (sizes l))).
  { intros a. clear IH. induction (sizes l) as [|x m IHm]; cbn; [destruct (Z.ltb_spec (p_bytes p) a); lia|]. rewrite IHm. lia. }
  apply H.
Qed.

Lemma count_packets_max_grows l s : ss_maxPacketSize s <= ss_maxPacketSize (count_packets s l).
Proof.
  revert s. induction l as [|p l IH]; intros s; [cbn; lia|]. cbn [foldl]. etransitivity; [|apply IH]. cbn.
  destruct (_ <? ss_minPacketSize s); [lia|]. destruct (Z.ltb_spec (ss_maxPacketSize s) (p_bytes p)); lia.
Qed.

Lemma count_packets_max_le l s b :
  ss_maxPacketSize s <= b -> (forall p, p ∈ l -> p_bytes p <= b) -> ss_maxPacketSize (count_packets s l) <= b.
Proof.
  revert s. induction l as [|p l IH]; intros s Hs Hl; [done|]. cbn [foldl]. apply IH; [|intros; apply Hl; by right].
  pose proof (Hl p ltac:(by left)). cbn. repeat case_match; lia.
Qed.

Lemma count_packets_max_ge l s p :
  p ∈ l -> ss_minPacketSize s <= p_bytes p -> p_bytes p <= ss_maxPacketSize (count_packets s l).
Proof.
  revert s. induction l as [|q l IH]; intros s Hin Hmin; [by apply not_elem_of_nil in Hin|].
  cbn [foldl]. apply elem_of_cons in Hin as [<-|Hin].
  - etransitivity; [|apply count_packets_max_grows]. cbn.
    rewrite (proj2 (Z.ltb_ge _ _)) by done. destruct (Z.ltb_spec (ss_maxPacketSize s) (p_bytes p)); lia.
  - apply IH; [done|]. cbn. destruct (Z.ltb_spec (p_bytes q) (ss_minPacketSize s)); lia.
Qed.

Lemma list_max_bounds l : (forall x, x ∈ l -> 0 <= x) ->
  (forall x, x ∈ l -> x <= list_max l) /\ (l <> [] -> list_max l ∈ l).
Proof.
  induction l as [|x l IH]; intros Hl; [split; [set_solver|done]|].
  destruct IH as [IH1 IH2]; [intros; apply Hl; by right|]. pose proof (Hl x ltac:(by left)). cbn. split.
  - intros y Hy. apply elem_of_cons in Hy as [->|Hy]; [lia|]. specialize (IH1 y Hy). unfold list_max in IH1. lia.
  - intros _. destruct (decide (l = [])) as [->|Hne]; [cbn; rewrite Z.max_l by lia; by left|].
    specialize (IH2 Hne). unfold list_max in IH2. destruct (Z.max_spec x (foldr Z.max 0 l)) as [[_ ->]|[_ ->]];
      [by right|by left].
Qed.

(** The packet counters of a snapshot: the number of packets, the bytes and
    the smallest packet are those of the log.  The largest packet is, unless
    only the first packet of the log has that size: a packet that is a new
    minimum is not compared with the maximum, and the first always is one. *)
Theorem snapshot_packets up messages packets :
  Forall packet_ok packets -> len packets < 2 ^ 64 -> list_sum (sizes (side_packets up packets)) < 2 ^ 64 ->
  let l := side_packets up packets in
  let s := side up messages packets in
  ss_packets s = len l /\ ss_bytes s = list_sum (sizes l) /\
  ss_minPacketSize s = match l with [] => 0 | _ => list_min (sizes l) end /\
  ss_maxPacketSize s <= list_max (sizes l) /\
  (list_max (sizes l) ∈ sizes (tail l) -> ss_maxPacketSize s = list_max (sizes l)).
Proof.
  intros Hok Hlen Hsum l s. set (s0 := foldl (fun s m => count_message m s) StatSide_zero (side_messages up messages)).
  assert (Hs0 : ss_packets s0 = 0 /\ ss_bytes s0 = 0 /\ ss_minPacketSize s0 = SIZE_MAX /\ ss_maxPacketSize s0 = 0)
    by (apply count_messages_packets; done).
  destruct Hs0 as (E1 & E2 & E3 & E4).
  assert (Hl : Forall packet_ok l) by (apply Forall_forall; intros p Hp;
    apply list_elem_of_filter in Hp as [_ Hp]; rewrite Forall_forall in Hok; by apply Hok).
  assert (Hlenl : len l <= len packets) by (unfold l, side_packets; pose proof (length_filter (fun p => p_up p = up) packets); lia).
  assert (Hpos : forall x, x ∈ sizes l -> 0 <= x).
  { intros x Hx. apply list_elem_of_fmap in Hx as (p & -> & Hp). rewrite Forall_forall in Hl. apply (Hl p Hp). }
  destruct (list_max_bounds (sizes l) Hpos) as [Hmax _].
  assert (0 <= list_sum (sizes l)) by (clear -Hpos; induction (sizes l) as [|x m IH]; cbn; [lia|];
    pose proof (Hpos x ltac:(by left)); enough (0 <= list_sum m) by (unfold list_sum in *; lia);
    apply IH; intros; apply Hpos; by right).
  destruct (count_packets_counters l s0) as [C1 C2]; [lia|lia|].
  unfold s, side. fold s0 l. cbn [finish_side ss_packets ss_bytes ss_minPacketSize ss_maxPacketSize].
  split; [rewrite C1, E1; apply u_small; lia|]. split; [rewrite C2, E2; apply u_small; unfold l in *; lia|].
  split.
  { rewrite count_packets_min, E3. fold (list_min (sizes l)). destruct l as [|p l']; [done|].
    assert (list_min (sizes (p :: l')) <> SIZE_MAX); [|by destruct (Z.eqb_spec (list_min (sizes (p :: l'))) SIZE_MAX)].
    cbn. apply Forall_cons in Hl as [[_ Hp] _]. lia. }
  split.
  { apply count_packets_max_le.
    - rewrite E4. clear. induction (sizes l); cbn; [done|]. unfold list_max in *. lia.
    - intros p Hp. apply Hmax. by apply list_elem_of_fmap_2. }
  intros Hin. apply Z.le_antisymm.
  { apply count_packets_max_le.
    - rewrite E4. clear. induction (sizes l); cbn; [done|]. unfold list_max in *. lia.
    - intros p Hp. apply Hmax. by apply list_elem_of_fmap_2. }
  clear C1 C2. clearbody l. destruct l as [|p l']; [by apply not_elem_of_nil in Hin|]. cbn [tail] in Hin.
  pose proof (Hmax (p_bytes p) ltac:(by left)) as Hpm.
  apply list_elem_of_fmap in Hin as (q & Hqm & Hq). rewrite Hqm in *. cbn [foldl].
  apply count_packets_max_ge; [done|]. cbn [count_packet ss_minPacketSize]. rewrite E3.
  apply Forall_cons in Hl as [[_ Hp] _]. by rewrite (proj2 (Z.ltb_lt _ _)) by done.
Qed.
End Snapshot.

(** ** Concrete logs *)
Definition example_packets : list (@Packet nano_time) :=
  [{| p_timestamp := 0 : @instant nano_time; p_bytes := 40; p_up := true |};
   {| p_timestamp := 1 : @instant nano_time; p_bytes := 7; p_up := false |};
   {| p_timestamp := 2 : @instant nano_time; p_bytes := 90; p_up := true |}].

Lemma snapshot_packets_witness :
  let l := side_packets true example_packets in
  let s := side true [] example_packets in
  ss_packets s = len l /\ ss_bytes s = list_sum (sizes l) /\
  ss_minPacketSize s = match l with [] => 0 | _ => list_min (sizes l) end /\
  ss_maxPacketSize s <= list_max (sizes l) /\
  (list_max (sizes l) ∈ sizes (tail l) -> ss_maxPacketSize s = list_max (sizes l)).
Proof.
  apply (snapshot_packets true [] example_packets); [|reflexivity|reflexivity].
  repeat constructor; discriminate.
Defined.

(** Two packets of 100 and 50 bytes: the largest one is reported as 0. *)
Example snapshot_max_missed :
  ss_maxPacketSize (side (T := nano_time) true []
    [{| p_timestamp := 0 : @instant nano_time; p_bytes := 100; p_up := true |};
     {| p_timestamp := 1 : @instant nano_time; p_bytes := 50; p_up := true |}]) = 0.
Proof. reflexivity. Qed.
