(* ===== verification/Compress.v ===== *)
(** * Compression

    [src/compression/*.cpp] and the part of [src/socket/Socket.cpp] that
    compresses outgoing messages.  zstd and lz4 are libraries: their functions
    are the operations of a class, and what the source relies on is a second
    class, that decompressing what was compressed gives it back.  A result of
    [None] is an error code.  Sizes of 2 GiB and more, which do not fit the
    [int]s of lz4, are outside the laws. *)
From S2P Require Import Prelude Messages Errors.

Class CompressionLib := {
  cdict : Type;
  ddict : Type;
  ZSTD_createCCtx : bool;
  ZSTD_createDCtx : bool;
  ZSTD_createCDict : list Z -> Z -> option cdict;
  ZSTD_createDDict : list Z -> option ddict;
  (** source, capacity of the destination *)
  ZSTD_compress_usingCDict : cdict -> list Z -> Z -> option (list Z);
  (** level, source, capacity *)
  ZSTD_compressCCtx : Z -> list Z -> Z -> option (list Z);
  ZSTD_decompress_usingDDict : ddict -> list Z -> Z -> option (list Z);
  ZSTD_decompressDCtx : list Z -> Z -> option (list Z);
  ZSTD_compressBound : Z -> Z;
  LZ4_compress_default : list Z -> Z -> option (list Z);
  LZ4_decompress_safe : list Z -> Z -> option (list Z);
  LZ4_compressBound : Z -> Z;
}.

Class CompressionLaws (C : CompressionLib) := {
  zstd_dict_roundtrip dict level c d src cap out :
    ZSTD_createCDict dict level = Some c -> ZSTD_createDDict dict = Some d ->
    ZSTD_compress_usingCDict c src cap = Some out ->
    ZSTD_decompress_usingDDict d out (len src) = Some src;
  zstd_roundtrip level src cap out :
    ZSTD_compressCCtx level src cap = Some out -> ZSTD_decompressDCtx out (len src) = Some src;
  lz4_roundtrip src cap out :
    LZ4_compress_default src cap = Some out -> LZ4_decompress_safe out (len src) = Some src;
  lz4_bound src : 0 < len src < 2 ^ 30 ->
    exists out, LZ4_compress_default src (LZ4_compressBound (len src)) = Some out /\ out <> [];
}.

Section Wrappers.
Context {CL : CompressionLib}.

(** ** The contexts *)
Record ZstdCompressor := { zc_ctx : bool; zc_dict : option cdict; zc_level : Z }.
Record ZstdDecompressor := { zd_ctx : bool; zd_dict : option ddict }.

Definition new_ZstdCompressor : ZstdCompressor := {| zc_ctx := false; zc_dict := None; zc_level := 0 |}.
Definition new_ZstdDecompressor : ZstdDecompressor := {| zd_ctx := false; zd_dict := None |}.

Definition ZstdCompressor_init (level : Z) (c : ZstdCompressor) : result CompressorError ZstdCompressor :=
  if zc_ctx c then Err C_AlreadyInitialized
  else
    _ ← qn_assert ZSTD_createCCtx;
    Ok {| zc_ctx := true; zc_dict := zc_dict c; zc_level := level |}.

(** On an error the object is left as the first component: with an invalid
    dictionary the context stays initialised, without dictionary. *)
Definition ZstdCompressor_initWithDictionary (data : list Z) (level : Z) (c : ZstdCompressor)
    : ZstdCompressor * result CompressorError unit :=
  match ZstdCompressor_init level c with
  | Ok c =>
      match ZSTD_createCDict data level with
      | None => ({| zc_ctx := zc_ctx c; zc_dict := None; zc_level := zc_level c |}, Err C_InvalidDictionary)
      | Some d => ({| zc_ctx := zc_ctx c; zc_dict := Some d; zc_level := zc_level c |}, Ok tt)
      end
  | Err e => (c, Err e)
  | Fault f => (c, Fault f)
  end.

(** Move assignment; [self] is [this == &other].  The first component is the
    assigned object, the second the one moved from. *)
Definition ZstdCompressor_assign (self : bool) (this other : ZstdCompressor) : ZstdCompressor * ZstdCompressor :=
  if self then (this, other)
  else ({| zc_ctx := zc_ctx other; zc_dict := zc_dict other; zc_level := zc_level other |},
        {| zc_ctx := false; zc_dict := None; zc_level := zc_level other |}).

Definition ZstdCompressor_compress (src : list Z) (dstSize : Z) (noDict : bool) (c : ZstdCompressor)
    : result CompressorError (list Z) :=
  if zc_ctx c then
    let res :=
      match zc_dict c with
      | Some d => if noDict then ZSTD_compressCCtx (zc_level c) src dstSize
                  else ZSTD_compress_usingCDict d src dstSize
      | None => ZSTD_compressCCtx (zc_level c) src dstSize
      end in
    match res with Some out => Ok out | None => Err C_CompressionFailed end
  else Err C_NotInitialized.

(** The free function. *)
Definition compressZstd (ZSTD_compress : list Z -> Z -> Z -> option (list Z)) (src : list Z) (dstSize level : Z)
    : result CompressorError (list Z) :=
  match ZSTD_compress src dstSize level with Some out => Ok out | None => Err C_CompressionFailed end.

Definition ZstdDecompressor_init (d : ZstdDecompressor) : result DecompressorError ZstdDecompressor :=
  if zd_ctx d then Err D_AlreadyInitialized
  else
    _ ← qn_assert ZSTD_createDCtx;
    Ok {| zd_ctx := true; zd_dict := zd_dict d |}.

Definition ZstdDecompressor_initWithDictionary (data : list Z) (d : ZstdDecompressor)
    : ZstdDecompressor * result DecompressorError unit :=
  match ZstdDecompressor_init d with
  | Ok d =>
      match ZSTD_createDDict data with
      | None => ({| zd_ctx := zd_ctx d; zd_dict := None |}, Err D_InvalidDictionary)
      | Some dict => ({| zd_ctx := zd_ctx d; zd_dict := Some dict |}, Ok tt)
      end
  | Err e => (d, Err e)
  | Fault f => (d, Fault f)
  end.

Definition ZstdDecompressor_assign (self : bool) (this other : ZstdDecompressor) : ZstdDecompressor * ZstdDecompressor :=
  if self then (this, other)
  else ({| zd_ctx := zd_ctx other; zd_dict := zd_dict other |}, {| zd_ctx := false; zd_dict := None |}).

Definition ZstdDecompressor_decompress (src : list Z) (dstSize : Z) (noDict : bool) (d : ZstdDecompressor)
    : result DecompressorError (list Z) :=
  if zd_ctx d then
    let res :=
      match zd_dict d with
      | Some dict => if noDict then ZSTD_decompressDCtx src dstSize
                     else ZSTD_decompress_usingDDict dict src dstSize
      | None => ZSTD_decompressDCtx src dstSize
      end in
    match res with
    | Some out => if dstSize =? len out then Ok out else Err D_SizeMismatch
    | None => Err D_DecompressionFailed
    end
  else Err D_NotInitialized.

Definition ZstdCompressor_compressBound (srcSize : Z) : Z := ZSTD_compressBound srcSize.
Definition Lz4Compressor_compressBound (srcSize : Z) : Z := LZ4_compressBound srcSize.

(** A size of 0 is a failure. *)
Definition Lz4Compressor_compress (src : list Z) (dstSize : Z) : result CompressorError (list Z) :=
  match LZ4_compress_default src dstSize with
  | Some out => if len out <=? 0 then Err C_CompressionFailed else Ok out
  | None => Err C_CompressionFailed
  end.

Definition Lz4Decompressor_decompress (src : list Z) (dstSize : Z) : result DecompressorError (list Z) :=
  match LZ4_decompress_safe src dstSize with
  | Some out => if len out =? dstSize then Ok out else Err D_SizeMismatch
  | None => Err D_DecompressionFailed
  end.

(** The free functions; [decompressZstd] does not compare sizes. *)
Definition decompressZstd (ZSTD_decompress : list Z -> Z -> option (list Z)) (src : list Z) (dstSize : Z)
    : result DecompressorError (list Z) :=
  match ZSTD_decompress src dstSize with Some out => Ok out | None => Err D_DecompressionFailed end.
Definition compressLz4 (src : list Z) (dstSize : Z) : result CompressorError (list Z) :=
  Lz4Compressor_compress src dstSize.
Definition decompressLz4 (src : list Z) (dstSize : Z) : result DecompressorError (list Z) :=
  Lz4Decompressor_decompress src dstSize.

(** ** Compression of outgoing messages ([Socket.cpp]) *)
(** [doCompress], with the compressor's [compressBound] and [compress]. *)
Definition doCompress (bound : Z -> Z) (compress : list Z -> Z -> result CompressorError (list Z))
    (type : CompressionType) (message : DataMessage) : result CompressorError DataMessage :=
  let uncSize := u32 (len (dm_data message)) in
  let outSize := bound uncSize in
  out ← compress (ztake uncSize (dm_data message)) outSize;
  if uncSize <=? len out then Ok message
  else Ok {| dm_data := out;
             dm_compHeader := Some {| ch_type := type; ch_uncompressedSize := uncSize |};
             dm_relHeader := dm_relHeader message |}.

Definition doCompressZstd (c : ZstdCompressor) (useDict : bool) (message : DataMessage)
    : result CompressorError DataMessage :=
  let type := if useDict then Zstd else ZstdNoDict in
  doCompress ZstdCompressor_compressBound
    (fun src cap => ZstdCompressor_compress src cap (bool_decide (type = ZstdNoDict)) c) type message.

Definition doCompressLz4 (message : DataMessage) : result CompressorError DataMessage :=
  doCompress Lz4Compressor_compressBound Lz4Compressor_compress Lz4 message.

Definition shouldCompress {E} (data : list Z) : result E CompressionType :=
  if len data <? 128 then Ok CompNone
  else
    let destCap := Lz4Compressor_compressBound (len data) in
    out ← unwrap (Lz4Compressor_compress data destCap);
    let compSize := len out in
    if (len data <=? compSize) && (len data <? 1024) then Ok CompNone
    else if 512 <=? len data then Ok Zstd
    else if compSize + compSize / 16 <? len data then Ok Zstd
    else Ok Lz4.

(** The [switch] of [Socket::sendMessage]. *)
Definition compress_outgoing (c : ZstdCompressor) (uncompressed : bool) (msg : DataMessage)
    : TransportResult (CompressionType * DataMessage) :=
  ctype ← (if uncompressed then Ok CompNone else shouldCompress (dm_data msg));
  msg ← map_err TE_Compressor
    match ctype with
    | Zstd => doCompressZstd c true msg
    | ZstdNoDict => doCompressZstd c false msg
    | Lz4 => doCompressLz4 msg
    | CompNone => Ok msg
    end;
  Ok (ctype, msg).

(** The decompression of an incoming message ([BaseTransport.cpp],
    [decodePreFinalDataMessage]). *)
Definition decompress_message (d : ZstdDecompressor) (messageSizeLimit : Z) (meta : QunetMessageMeta)
    : TransportResult (list Z) :=
  match mm_compressionHeader meta with
  | None => Ok (mm_data meta)
  | Some h =>
      let uncSize := ch_uncompressedSize h in
      if messageSizeLimit <? uncSize then Err (TE_Custom MessageTooLong)
      else
        match ch_type h with
        | Zstd | ZstdNoDict =>
            map_err TE_Decompressor
              (ZstdDecompressor_decompress (mm_data meta) uncSize (bool_decide (ch_type h = ZstdNoDict)) d)
        | Lz4 => map_err TE_Decompressor (Lz4Decompressor_decompress (mm_data meta) uncSize)
        | CompNone => Fault AssertionFailed
        end
  end.
End Wrappers.

(** ** Decompression undoes compression *)
Section RoundTrip.
Context {CL : CompressionLib} {LL : CompressionLaws CL}.

(** A compressor and a decompressor initialised alike. *)
Inductive paired : ZstdCompressor -> ZstdDecompressor -> Prop :=
  | paired_plain level :
      paired {| zc_ctx := true; zc_dict := None; zc_level := level |} {| zd_ctx := true; zd_dict := None |}
  | paired_dict dict dlevel level c d :
      ZSTD_createCDict dict dlevel = Some c -> ZSTD_createDDict dict = Some d ->
      paired {| zc_ctx := true; zc_dict := Some c; zc_level := level |} {| zd_ctx := true; zd_dict := Some d |}.

Definition meta_of (m : DataMessage) (offset : Z) : QunetMessageMeta :=
  {| mm_type := MSG_DATA; mm_compressionHeader := dm_compHeader m; mm_reliabilityHeader := dm_relHeader m;
     mm_fragmentationHeader := None; mm_data := dm_data m; mm_dataOffset := offset |}.

Lemma zstd_paired_roundtrip c d src cap out noDict :
  paired c d -> ZstdCompressor_compress src cap noDict c = Ok out ->
  ZstdDecompressor_decompress out (len src) noDict d = Ok src.
Proof.
  intros Hp H. unfold ZstdCompressor_compress, ZstdDecompressor_decompress in *.
  destruct Hp as [level|dict dlevel level cd dd Hc Hd]; cbn in *.
  - destruct (ZSTD_compressCCtx level src cap) as [o|] eqn:E; [|done]. injection H as <-.
    by rewrite (zstd_roundtrip _ _ _ _ E), Z.eqb_refl.
  - destruct noDict.
    + destruct (ZSTD_compressCCtx level src cap) as [o|] eqn:E; [|done]. injection H as <-.
      by rewrite (zstd_roundtrip _ _ _ _ E), Z.eqb_refl.
    + destruct (ZSTD_compress_usingCDict cd src cap) as [o|] eqn:E; [|done]. injection H as <-.
      by rewrite (zstd_dict_roundtrip _ _ _ _ _ _ _ Hc Hd E), Z.eqb_refl.
Qed.

Lemma lz4_paired_roundtrip src cap out :
  Lz4Compressor_compress src cap = Ok out -> Lz4Decompressor_decompress out (len src) = Ok src.
Proof.
  unfold Lz4Compressor_compress, Lz4Decompressor_decompress. intros H.
  destruct (LZ4_compress_default src cap) as [o|] eqn:E; [|done]. destruct (_ <=? 0); [done|]. injection H as <-.
  by rewrite (lz4_roundtrip _ _ _ E), Z.eqb_refl.
Qed.

Lemma doCompress_roundtrip bound compress type d limit m m' offset :
  len (dm_data m) < 2 ^ 32 -> len (dm_data m) <= limit -> dm_compHeader m = None -> type <> CompNone ->
  (forall src cap out, compress src cap = Ok out ->
    decompress_message d limit (meta_of {| dm_data := out;
      dm_compHeader := Some {| ch_type := type; ch_uncompressedSize := len src |};
      dm_relHeader := dm_relHeader m |} offset) = Ok src \/ limit < len src) ->
  doCompress bound compress type m = Ok m' ->
  decompress_message d limit (meta_of m' offset) = Ok (dm_data m) /\ dm_relHeader m' = dm_relHeader m.
Proof.
  intros Hlen Hlimit Hnone Hty Hrt H. unfold doCompress in H. rewrite u_small in H by lia.
  apply bind_ok in H as (out & Hc & H). rewrite ztake_ge in Hc by lia.
  destruct (_ <=? len out); injection H as <-.
  - split; [|done]. unfold decompress_message. cbn. by rewrite Hnone.
  - split; [|done]. destruct (Hrt _ _ _ Hc) as [Hd|]; [exact Hd|lia].
Qed.

Lemma shouldCompress_ok {E} data : len data < 2 ^ 30 -> exists t, shouldCompress (E := E) data = Ok t.
Proof.
  intros Hlen. unfold shouldCompress, Lz4Compressor_compress, Lz4Compressor_compressBound.
  destruct (Z.ltb_spec (len data) 128); [by eauto|].
  destruct (lz4_bound data) as (out & -> & Hne); [lia|].
  destruct (Z.leb_spec (len out) 0); [destruct out; [done|cbn in *; lia]|]. cbn. repeat case_match; eauto.
Qed.

Lemma doCompress_error bound compress type m :
  (forall src cap, is_fault (compress src cap) = false) ->
  is_fault (doCompress bound compress type m) = false.
Proof.
  intros Hf. unfold doCompress. apply bind_not_fault; [done|]. intros out _. by destruct (_ <=? _).
Qed.

Lemma zstd_compress_error c noDict src cap : is_fault (ZstdCompressor_compress src cap noDict c) = false.
Proof. unfold ZstdCompressor_compress. by repeat case_match. Qed.

Lemma lz4_compress_error src cap : is_fault (Lz4Compressor_compress src cap) = false.
Proof. unfold Lz4Compressor_compress. by repeat case_match. Qed.

(** What the receiver decompresses is what the application sent, whatever the
    compression chosen.  Compression never throws; its only failure is an error
    of a compressor. *)
Lemma compress_then_decompress c d limit uncompressed m offset :
  paired c d -> len (dm_data m) < 2 ^ 30 -> len (dm_data m) <= limit -> dm_compHeader m = None ->
  match compress_outgoing c uncompressed m with
  | Ok (_, m') => decompress_message d limit (meta_of m' offset) = Ok (dm_data m) /\
                  dm_relHeader m' = dm_relHeader m
  | Err e => exists ce, e = TE_Compressor ce
  | Fault _ => False
  end.
Proof.
  intros Hp Hlen Hlimit Hnone. unfold compress_outgoing.
  assert (exists ctype, (if uncompressed then Ok CompNone else shouldCompress (dm_data m)) = Ok (E := TransportError) ctype)
    as (ctype & ->) by (destruct uncompressed; [by eauto|by apply shouldCompress_ok]).
  assert (forall type bound compress, type <> CompNone -> (forall src cap, is_fault (compress src cap) = false) ->
    (forall src cap out, compress src cap = Ok out -> len src <= limit ->
      decompress_message d limit (meta_of {| dm_data := out;
        dm_compHeader := Some {| ch_type := type; ch_uncompressedSize := len src |};
        dm_relHeader := dm_relHeader m |} offset) = Ok src) ->
    match map_err TE_Compressor (doCompress bound compress type m) with
    | Ok m' => decompress_message d limit (meta_of m' offset) = Ok (dm_data m) /\ dm_relHeader m' = dm_relHeader m
    | Err e => exists ce, e = TE_Compressor ce
    | Fault _ => False
    end) as G.
  { intros type bound compress Hty Hf Hrt. pose proof (doCompress_error bound compress type m Hf) as Hnf.
    destruct (doCompress bound compress type m) as [m'|e|f] eqn:E; cbn; [|by eauto|done].
    eapply doCompress_roundtrip; [lia|exact Hlimit|done|exact Hty| |exact E]. intros src cap out Hc.
    destruct (Z.le_gt_cases (len src) limit); [left; by eapply Hrt|by right]. }
  assert (H : match map_err TE_Compressor match ctype with
      | Zstd => doCompressZstd c true m | ZstdNoDict => doCompressZstd c false m
      | Lz4 => doCompressLz4 m | CompNone => Ok m end with
    | Ok m' => decompress_message d limit (meta_of m' offset) = Ok (dm_data m) /\ dm_relHeader m' = dm_relHeader m
    | Err e => exists ce, e = TE_Compressor ce
    | Fault _ => False
    end).
  { destruct ctype.
    - cbn. split; [|done]. unfold decompress_message. cbn. by rewrite Hnone.
    - apply G; [done|intros; apply zstd_compress_error|]. intros src cap out Hc Hle. unfold decompress_message. cbn.
      rewrite (proj2 (Z.ltb_ge _ _)) by done. by rewrite (zstd_paired_roundtrip c d src cap out _ Hp Hc).
    - apply G; [done|intros; apply zstd_compress_error|]. intros src cap out Hc Hle. unfold decompress_message. cbn.
      rewrite (proj2 (Z.ltb_ge _ _)) by done. by rewrite (zstd_paired_roundtrip c d src cap out _ Hp Hc).
    - apply G; [done|apply lz4_compress_error|]. intros src cap out Hc Hle. unfold decompress_message. cbn.
      rewrite (proj2 (Z.ltb_ge _ _)) by done. by rewrite (lz4_paired_roundtrip src cap out Hc). }
  cbn. destruct (map_err TE_Compressor _); exact H.
Qed.
End RoundTrip.

(** ** A run-length compressor, to run the model *)
Fixpoint rle (l : list Z) : list (Z * Z) :=
  match l with
  | [] => []
  | x :: l =>
      match rle l with
      | (y, n) :: r => if x =? y then (y, n + 1) :: r else (x, 1) :: (y, n) :: r
      | [] => [(x, 1)]
      end
  end.
Fixpoint unrle (r : list (Z * Z)) : list Z :=
  match r with [] => [] | (x, n) :: r => replicate (Z.to_nat n) x ++ unrle r end.
Definition flatten (r : list (Z * Z)) : list Z := concat ((fun p => [p.1; p.2]) <$> r).
Fixpoint unflatten (l : list Z) : list (Z * Z) :=
  match l with x :: n :: l => (x, n) :: unflatten l | _ => [] end.

Lemma rle_positive l : Forall (fun p => 0 < p.2) (rle l).
Proof.
  induction l as [|x l IH]; cbn; [done|]. destruct (rle l) as [|[y n] r]; [by repeat constructor|].
  apply Forall_cons in IH as [Hn Hr]. destruct (x =? y); repeat constructor; cbn in *; try lia; done.
Qed.

Lemma unrle_rle l : unrle (rle l) = l.
Proof.
  induction l as [|x l IH]; cbn; [done|]. pose proof (rle_positive l) as Hp.
  destruct (rle l) as [|[y n] r]; cbn in *; [by rewrite <- IH|].
  apply Forall_cons in Hp as [Hn _]. cbn in Hn.
  destruct (Z.eqb_spec x y) as [->|]; cbn.
  - rewrite <- IH. by replace (Z.to_nat (n + 1)) with (S (Z.to_nat n)) by lia.
  - by rewrite <- IH.
Qed.

Lemma unflatten_flatten r : unflatten (flatten r) = r.
Proof. induction r as [|[x n] r IH]; cbn; [done|]. unfold flatten in IH. by rewrite IH. Qed.

#[export] Instance rle_lib : CompressionLib := {|
  cdict := unit; ddict := unit; ZSTD_createCCtx := true; ZSTD_createDCtx := true;
  ZSTD_createCDict _ _ := Some tt; ZSTD_createDDict _ := Some tt;
  ZSTD_compress_usingCDict _ src _ := Some (flatten (rle src));
  ZSTD_compressCCtx _ src _ := Some (flatten (rle src));
  ZSTD_decompress_usingDDict _ src _ := Some (unrle (unflatten src));
  ZSTD_decompressDCtx src _ := Some (unrle (unflatten src));
  ZSTD_compressBound n := 2 * n;
  LZ4_compress_default src _ := Some (flatten (rle src));
  LZ4_decompress_safe src _ := Some (unrle (unflatten src));
  LZ4_compressBound n := 2 * n;
|}.

#[export] Instance rle_laws : CompressionLaws rle_lib.
Proof.
  constructor; cbn; intros; simplify_eq; rewrite ?unflatten_flatten, ?unrle_rle; try done.
  eexists. split; [done|]. destruct src as [|x src]; cbn in *; [lia|].
  destruct (rle src) as [|[y n] r]; [done|]. by destruct (x =? y).
Qed.

Definition example_message : DataMessage :=
  {| dm_data := replicate 200 7; dm_compHeader := None; dm_relHeader := None |}.
