(* ===== verification/Database.v ===== *)
(** * QunetDatabase: the database of a server

    [include/qunet/database/QunetDatabase.hpp], [src/database/QunetDatabase.cpp]
    and [hexEncode] of [src/util/hash.cpp]: a header, a table of sections and
    the sections, of which the zstd dictionary is the one that is used.  The
    blake3 function is a parameter. *)
From S2P Require Import Prelude Dbuf Messages.

Inductive DatabaseDecodeError :=
  | DE_Read (e : read_error)
  | UnsupportedVersion
  | InvalidHeader
  | SectionSizeInvalid
  | ZstdDictTooLarge.

Definition DatabaseDecodeError_message (e : DatabaseDecodeError) (read_text : list Z) : list Z :=
  match e with
  | DE_Read _ => read_text
  | UnsupportedVersion => str "Unsupported Qunet database version"
  | InvalidHeader => str "Invalid Qunet database header"
  | SectionSizeInvalid => str "Section size is invalid"
  | ZstdDictTooLarge => str "Zstd dictionary section is too large"
  end.

Definition QUNET_DATABASE_VERSION := 1.

Record QunetDatabase := { db_zstdDict : option (list Z); db_zstdLevel : Z; db_hash : list Z }.

Record SectionHeader := { sh_type : Z; sh_options : Z; sh_offset : Z; sh_size : Z }.

(** [(value + 15) & ~15] on a [size_t]. *)
Definition roundUpTo16 (value : Z) : Z := Z.land (u64 (value + 15)) (u64 (Z.lnot 15)).

(** [std::vector::resize]: more than [max_size()] elements throw. *)
Definition resize_ok (n : Z) : bool := n <? 2 ^ 63.

(** [span.subspan(offset, count)] is undefined out of range. *)
Definition subspan {E} (offset count : Z) (l : list Z) : result E (list Z) :=
  if (offset <=? len l) && (count <=? len l - offset) then Ok (ztake count (zdrop offset l))
  else Fault OutOfBounds.

Definition MAGIC : list Z := [163; 219; 219; 17].

Section Decode.
Context `{R : ByteReader}.
Abbreviation decoded A := (result DatabaseDecodeError A).
Abbreviation rd := (map_err DE_Read).

Definition decode_section_header (r : reader) : decoded (SectionHeader * reader) :=
  '(type, r) ← rd (readU16 r);
  '(options, r) ← rd (readU16 r);
  '(offset, r) ← rd (readU32 r);
  '(size, r) ← rd (readU32 r);
  if (size =? 0) || (offset =? 0) then Err SectionSizeInvalid
  else Ok ({| sh_type := type; sh_options := options; sh_offset := offset; sh_size := size |}, r).

Fixpoint decode_section_headers (n : nat) (r : reader) : decoded (list SectionHeader * reader) :=
  match n with
  | O => Ok ([], r)
  | S n =>
      '(h, r) ← decode_section_header r;
      '(hs, r) ← decode_section_headers n r;
      Ok (h :: hs, r)
  end.

(** [section.offset + section.size] is a sum of 32-bit integers, the rest is
    64 bits wide. *)
Definition section_end (sectionsBegin : Z) (h : SectionHeader) : Z :=
  u64 (u32 (sh_offset h + sh_size h) - sectionsBegin).

Definition buffer_size (sectionsBegin : Z) (headers : list SectionHeader) : Z :=
  foldl (fun n h => if n <? section_end sectionsBegin h then section_end sectionsBegin h else n) 0 headers.

Definition decodeZstdDictSection (size : Z) (r : reader) (db : QunetDatabase) : decoded QunetDatabase :=
  if 1024 * 1024 <? size then Err ZstdDictTooLarge
  else
    '(level, r) ← rd (readI32 r);
    Ok {| db_zstdDict := Some (readToEnd r); db_zstdLevel := level; db_hash := db_hash db |}.

Definition decodeSection (type size : Z) (r : reader) (db : QunetDatabase) : decoded QunetDatabase :=
  match type with
  | 3 => decodeZstdDictSection size r db
  | _ => Ok db
  end.

Fixpoint decode_sections (sectionsBegin : Z) (dataBuffer : list Z) (headers : list SectionHeader)
    (db : QunetDatabase) : decoded QunetDatabase :=
  match headers with
  | [] => Ok db
  | h :: headers =>
      let begin := u64 (sh_offset h - sectionsBegin) in
      let end_ := u64 (begin + sh_size h) in
      sectionData ← subspan begin (u64 (end_ - begin)) dataBuffer;
      db ← decodeSection (sh_type h) (sh_size h) (reader_of sectionData) db;
      decode_sections sectionsBegin dataBuffer headers db
  end.

(** The private [decode(ByteReader&)]; the hash is set by the caller. *)
Definition QunetDatabase_decode_reader (r : reader) : decoded QunetDatabase :=
  '(magic, r) ← rd (readBytes 4 r);
  if bool_decide (magic <> MAGIC) then Err InvalidHeader
  else
    '(version, r) ← rd (readU16 r);
    if negb (version =? QUNET_DATABASE_VERSION) then Err UnsupportedVersion
    else
      '(sectionCount, r) ← rd (readU16 r);
      '(headers, r) ← decode_section_headers (Z.to_nat sectionCount) r;
      let headerSize := 4 + 2 + 2 + sectionCount * 12 in
      let padding := u64 (roundUpTo16 headerSize - headerSize) in
      '(_, r) ← rd (skip padding r);
      let sectionsBegin := headerSize + padding in
      let size := buffer_size sectionsBegin headers in
      if resize_ok size then
        '(dataBuffer, r) ← rd (readBytes size r);
        decode_sections sectionsBegin dataBuffer headers
          {| db_zstdDict := None; db_zstdLevel := 0; db_hash := [] |}
      else Fault AllocationFailed.

Variable blake3Hash : list Z -> list Z.

Definition QunetDatabase_decode (data : list Z) : decoded QunetDatabase :=
  db ← QunetDatabase_decode_reader (reader_of data);
  Ok {| db_zstdDict := db_zstdDict db; db_zstdLevel := db_zstdLevel db;
        db_hash := ztake 16 (blake3Hash data) |}.

Definition getHash (db : QunetDatabase) : list Z := db_hash db.

(** ** Files *)
(** [hexEncode]: two digits per byte. *)
Definition hex_char (n : Z) : Z := if n <? 10 then 48 + n else 97 + (n - 10).
Definition hexEncode (data : list Z) : list Z :=
  concat ((fun b => [hex_char (Z.land (Z.shiftr b 4) 15); hex_char (Z.land b 15)]) <$> data).

Variable path_join : list Z -> list Z -> list Z.

Definition pathForQdb (folder address : list Z) : list Z :=
  path_join folder (ztake 32 (hexEncode (blake3Hash address)) ++ str ".qdb").

(** [asp::fs] is a library: whether a path exists and what reading it returns
    are parameters; [saveQdb] is the sequence of the operations it performs. *)
Definition tryFindQdb {E} (fs_exists : list Z -> bool) (fs_read : list Z -> option (list Z))
    (folder address : list Z) : result E (option QunetDatabase) :=
  let qdbPath := pathForQdb folder address in
  if fs_exists qdbPath then
    match fs_read qdbPath with
    | None => Ok None
    | Some data =>
        match QunetDatabase_decode data with
        | Ok db => Ok (Some db)
        | Err _ => Ok None
        | Fault f => Fault f
        end
    end
  else Ok None.

Inductive fs_operation := CreateDirAll (path : list Z) | WriteFile (path data : list Z).

Definition saveQdb (fs_exists : list Z -> bool) (data folder address : list Z) : list fs_operation :=
  (if fs_exists folder then [] else [CreateDirAll folder]) ++ [WriteFile (pathForQdb folder address) data].
End Decode.

(** ** Databases as the server writes them *)
Record Section_ := { s_type : Z; s_options : Z; s_data : list Z }.

Definition header_bytes (offset : Z) (s : Section_) : list Z :=
  le_split 2 (s_type s) ++ le_split 2 (s_options s) ++ le_split 4 offset ++ le_split 4 (len (s_data s)).

Fixpoint table_bytes (offset : Z) (l : list Section_) : list Z :=
  match l with
  | [] => []
  | s :: l => header_bytes offset s ++ table_bytes (offset + len (s_data s)) l
  end.

Definition section_headers_size (n : Z) : Z := 8 + n * 12.
Definition sections_begin (n : Z) : Z := 16 * ((section_headers_size n + 15) / 16).
Definition all_data (l : list Section_) : list Z := concat (s_data <$> l).

Definition database_bytes (l : list Section_) (padding : list Z) (tail : list Z) : list Z :=
  MAGIC ++ le_split 2 QUNET_DATABASE_VERSION ++ le_split 2 (len l) ++
  table_bytes (sections_begin (len l)) l ++ padding ++ all_data l ++ tail.

(** What a section contributes. *)
Definition apply_section (s : Section_) (db : QunetDatabase) : QunetDatabase :=
  if s_type s =? 3 then
    {| db_zstdDict := Some (zdrop 4 (s_data s)); db_zstdLevel := i32_of (ztake 4 (s_data s)); db_hash := db_hash db |}
  else db.

Definition section_ok (s : Section_) : Prop :=
  u16_ok (s_type s) /\ u16_ok (s_options s) /\ s_data s <> [] /\
  (s_type s = 3 -> 4 <= len (s_data s) <= 1024 * 1024).

Section RoundTrip.
Context `{RL : ByteReaderLaws}.
Variable blake3Hash : list Z -> list Z.

(** The headers that the table decodes to. *)
Fixpoint headers_of (offset : Z) (l : list Section_) : list SectionHeader :=
  match l with
  | [] => []
  | s :: l => {| sh_type := s_type s; sh_options := s_options s; sh_offset := offset; sh_size := len (s_data s) |}
              :: headers_of (offset + len (s_data s)) l
  end.

Lemma len_all_data_cons s l : len (all_data (s :: l)) = len (s_data s) + len (all_data l).
Proof. unfold all_data. cbn. rewrite length_app. lia. Qed.

Lemma parses_headers offset l :
  Forall section_ok l -> 0 < offset -> offset + len (all_data l) < 2 ^ 32 ->
  parses (decode_section_headers (length l)) (table_bytes offset l) (headers_of offset l).
Proof.
  intros Hl. revert offset. induction Hl as [|s l (Ht & Ho & Hne & _) Hl IH]; intros offset Hoff Hsum.
  { apply parses_ret. }
  rewrite len_all_data_cons in Hsum. assert (0 < len (s_data s)) by (destruct (s_data s); cbn in *; [done|lia]).
  cbn [length decode_section_headers table_bytes headers_of]. eapply parses_bind.
  - unfold header_bytes, decode_section_header.
    eapply parses_bind; [by eapply parses_map_err, parses_u16|].
    eapply parses_bind; [by eapply parses_map_err, parses_u16|].
    eapply parses_bind; [eapply parses_map_err, parses_u32; lia|].
    rewrite <- (app_nil_r (le_split 4 (len (s_data s)))).
    eapply parses_bind; [eapply parses_map_err, parses_u32; lia|].
    rewrite (proj2 (Z.eqb_neq (len (s_data s)) 0)), (proj2 (Z.eqb_neq offset 0)) by lia. apply parses_ret.
  - rewrite <- (app_nil_r (table_bytes _ l)). eapply parses_bind; [apply IH; lia|apply parses_ret].
Qed.

Lemma section_end_of begin h :
  0 < begin <= sh_offset h -> 0 <= sh_size h -> sh_offset h + sh_size h < 2 ^ 32 ->
  section_end begin h = sh_offset h - begin + sh_size h.
Proof. intros. unfold section_end. rewrite (u_small 32) by lia. rewrite u_small by lia. lia. Qed.

Lemma buffer_size_of begin offset l n :
  0 < begin <= offset -> offset + len (all_data l) < 2 ^ 32 -> n = offset - begin ->
  foldl (fun n h => if n <? section_end begin h then section_end begin h else n) n (headers_of offset l)
  = offset - begin + len (all_data l).
Proof.
  revert offset n. induction l as [|s l IH]; intros offset n Hb Hsum ->; cbn [headers_of foldl]; [cbn; lia|].
  rewrite len_all_data_cons in *. rewrite section_end_of by (cbn; lia). cbn [sh_offset sh_size].
  rewrite (IH (offset + len (s_data s))); [lia|lia|lia|].
  destruct (Z.ltb_spec (offset - begin) (offset - begin + len (s_data s))); lia.
Qed.

Lemma decode_sections_of begin offset l before db :
  Forall section_ok l -> 0 < begin -> offset = begin + len before -> offset + len (all_data l) < 2 ^ 32 ->
  decode_sections begin (before ++ all_data l) (headers_of offset l) db = Ok (foldl (fun db s => apply_section s db) db l).
Proof.
  intros Hl. revert offset before db. induction Hl as [|s l (Ht & Ho & Hne & H3) Hl IH];
    intros offset before db Hb -> Hsum; [done|].
  rewrite len_all_data_cons in Hsum. cbn [headers_of decode_sections sh_offset sh_size sh_type].
  rewrite (u_small 64 (begin + len before - begin)) by lia. rewrite !u_small by (rewrite ?u_small; lia).
  unfold subspan. replace (begin + len before - begin) with (len before) by lia.
  replace (len before + len (s_data s) - len before) with (len (s_data s)) by lia.
  assert (Hall : all_data (s :: l) = s_data s ++ all_data l) by done. rewrite Hall.
  rewrite (proj2 (Z.leb_le _ _)) by len_lia. rewrite (proj2 (Z.leb_le _ _)) by len_lia. cbn [andb mbind result_bind].
  rewrite zdrop_app, ztake_app.
  assert (Hsec : decodeSection (s_type s) (len (s_data s)) (reader_of (s_data s)) db = Ok (apply_section s db)).
  { unfold decodeSection, apply_section. destruct (Z.eqb_spec (s_type s) 3) as [E|NE].
    - rewrite E. specialize (H3 E). unfold decodeZstdDictSection. rewrite (proj2 (Z.ltb_ge _ _)) by lia.
      rewrite readI32_law, (proj2 (reads_ok 4 i32_of _ _ _)) by (split; [rewrite unread_of; lia|by split]).
      cbn. by rewrite readToEnd_law, unread_advance, unread_of.
    - destruct (s_type s) as [|p|p]; try done. destruct p as [p|p|]; try done. by destruct p. }
  rewrite Hsec. cbn [mbind result_bind foldl].
  rewrite app_assoc. apply IH; [done|rewrite length_app; lia|lia].
Qed.

Lemma roundUpTo16_begin n : 0 <= n < 2 ^ 16 -> roundUpTo16 (section_headers_size n) = sections_begin n.
Proof.
  intros Hn. unfold roundUpTo16, sections_begin. rewrite (u_small 64 (_ + 15)) by (unfold section_headers_size; lia).
  set (x := section_headers_size n + 15). assert (0 <= x < 2 ^ 32) by (unfold x, section_headers_size; lia).
  replace (u64 (Z.lnot 15)) with (Z.land (Z.lnot (Z.ones 4)) (Z.ones 64)) by done.
  rewrite Z.land_assoc, <- Z.ldiff_land, Z.ldiff_ones_r, Z.shiftl_mul_pow2, Z.shiftr_div_pow2 by lia.
  rewrite Z.land_ones by lia. rewrite Z.mod_small by (change (2 ^ 4) with 16; dlia).
  change (2 ^ 4) with 16. lia.
Qed.

Lemma length_table_bytes offset l : len (table_bytes offset l) = 12 * len l.
Proof.
  revert offset. induction l as [|s l IH]; intros offset; cbn [table_bytes length]; [done|].
  unfold header_bytes. rewrite !length_app, !length_le_split. specialize (IH (offset + len (s_data s))). lia.
Qed.

(** Runs the next reader of the goal on the bytes it parses. *)
Ltac parse_next d v H :=
  match type of H with unread ?r = _ =>
    let r' := fresh "r" in let E := fresh "E" in let H' := fresh "H" in
    edestruct (fun D : parses d _ v => D r _ H) as (r' & E & H');
    [solve [eauto with parses | apply parses_u16; unfold QUNET_DATABASE_VERSION; lia]
    |rewrite E; clear H E; rename H' into H]
  end.

(** C36. Decoding the file of a database, as the header comment of the format
    lays it out (magic, version, number of sections, table of sections,
    padding to 16 bytes, sections in the order of the table, anything after),
    succeeds and gives what its sections say, the last dictionary section
    winning, with the first 16 bytes of the hash of the whole file. *)
Theorem database_roundtrip l padding tail :
  Forall section_ok l -> len l < 2 ^ 16 ->
  len padding = sections_begin (len l) - section_headers_size (len l) ->
  sections_begin (len l) + len (all_data l) < 2 ^ 32 ->
  QunetDatabase_decode blake3Hash (database_bytes l padding tail) =
  Ok (let db := foldl (fun db s => apply_section s db)
                  {| db_zstdDict := None; db_zstdLevel := 0; db_hash := [] |} l in
      {| db_zstdDict := db_zstdDict db; db_zstdLevel := db_zstdLevel db;
         db_hash := ztake 16 (blake3Hash (database_bytes l padding tail)) |}).
Proof.
  intros Hl Hn Hpad Hsum. unfold QunetDatabase_decode.
  enough (Hread : QunetDatabase_decode_reader (reader_of (database_bytes l padding tail)) =
    Ok (foldl (fun db s => apply_section s db) {| db_zstdDict := None; db_zstdLevel := 0; db_hash := [] |} l))
    by by rewrite Hread.
  pose proof (roundUpTo16_begin (len l) ltac:(lia)) as Hround.
  assert (Hbegin : 0 < section_headers_size (len l) <= sections_begin (len l))
    by (unfold sections_begin, section_headers_size; dlia).
  unfold QunetDatabase_decode_reader.
  assert (Hr : unread (reader_of (database_bytes l padding tail)) = database_bytes l padding tail) by apply unread_of.
  unfold database_bytes in Hr at 2.
  parse_next (readBytes 4) MAGIC Hr. cbn [map_err mbind result_bind].
  rewrite bool_decide_eq_false_2 by tauto.
  parse_next readU16 QUNET_DATABASE_VERSION Hr. cbn -[Z.of_nat].
  parse_next readU16 (len l) Hr. cbn [map_err mbind result_bind]. rewrite Nat2Z.id.
  destruct (parses_headers (sections_begin (len l)) l Hl ltac:(unfold sections_begin, section_headers_size in *; dlia) Hsum _ _ Hr)
    as (r' & -> & Hr'). clear Hr. cbn [mbind result_bind].
  replace (4 + 2 + 2 + len l * 12) with (section_headers_size (len l)) by (unfold section_headers_size; lia).
  rewrite Hround, (u_small 64 (sections_begin _ - _)) by (unfold sections_begin, section_headers_size in *; dlia).
  rewrite <- Hpad. parse_next (skip (len padding)) tt Hr'. cbn [map_err mbind result_bind].
  rewrite Hpad, Zplus_minus. unfold buffer_size.
  destruct l as [|s l'] eqn:El.
  { cbn. rewrite readBytes_law. unfold reads. by rewrite (proj2 (Z.leb_le _ _)) by lia. }
  rewrite (buffer_size_of _ _ (s :: l') 0) by lia. unfold resize_ok. rewrite (proj2 (Z.ltb_lt _ _)) by lia.
  replace (sections_begin _ - sections_begin _ + _) with (len (all_data (s :: l'))) by lia.
  parse_next (readBytes (len (all_data (s :: l')))) (all_data (s :: l')) Hr'. cbn [map_err mbind result_bind].
  apply (decode_sections_of _ _ _ []); [done| |cbn; lia|lia].
  unfold sections_begin, section_headers_size in *; dlia.
Qed.
End RoundTrip.

(** A dictionary section of six bytes (level 3) after an unknown one. *)
Definition sample_sections : list Section_ :=
  [{| s_type := 9; s_options := 0; s_data := [1; 2; 3] |};
   {| s_type := 3; s_options := 0; s_data := [3; 0; 0; 0; 65; 66] |}].

Lemma database_roundtrip_witness :
  QunetDatabase_decode id (database_bytes sample_sections [] [7]) =
  Ok {| db_zstdDict := Some [65; 66]; db_zstdLevel := 3;
        db_hash := [163; 219; 219; 17; 1; 0; 2; 0; 9; 0; 0; 0; 32; 0; 0; 0] |}.
Proof.
  rewrite (database_roundtrip id sample_sections [] [7]);
    [reflexivity| |vm_compute; done|vm_compute; done|vm_compute; done].
  repeat constructor; cbn; (done || lia).
Defined.

(** ** Sections that begin inside the headers

    A section whose offset lies before the end of the headers is not refused:
    the subtraction wraps, and the decoder asks for a buffer of about 2^64
    bytes, or, when the section ends after the headers, takes a subspan that
    begins outside the buffer. *)
Definition bad_database (offset size : Z) : list Z :=
  MAGIC ++ le_split 2 1 ++ le_split 2 1 ++ le_split 2 3 ++ le_split 2 0 ++ le_split 4 offset ++ le_split 4 size ++
  replicate 12 0 ++ replicate 64 0.

Example offset_in_headers_allocation : QunetDatabase_decode id (bad_database 1 1) = Fault AllocationFailed.
Proof. reflexivity. Qed.

Example offset_in_headers_subspan : QunetDatabase_decode id (bad_database 1 40) = Fault OutOfBounds.
Proof. reflexivity. Qed.
