(* ===== verification/Padding.v ===== *)
(** * Padding of control datagrams

    [src/socket/transport/udp/Padding.hpp]: the generator of padding bytes, and
    the padding message that brings a control datagram to 22 bytes. *)
From S2P Require Import Prelude Dbuf Messages Codec CodecSpec.

(** The three words of the generator, which [std::random_device] fills. *)
Record QunetPadRNG := { m_x : Z; m_y : Z; m_z : Z }.

Definition rotl (x k : Z) : Z := Z.lor (u64 (Z.shiftl x k)) (Z.shiftr x (64 - k)).

Definition QunetPadRNG_next (g : QunetPadRNG) : Z * QunetPadRNG :=
  let xp := m_x g in
  let yp := m_y g in
  let zp := m_z g in
  (xp, {| m_x := u64 (15241094284759029579 * zp);
          m_y := rotl (u64 (yp - xp)) 12;
          m_z := rotl (u64 (zp - yp)) 44 |}).

Definition MINIMUM_UDP_PAYLOAD := 22.

Section Padding.
Context `{W : ByteWriter}.

(** The loop: [bytes] are left.  The [thread_local] generator is passed. *)
Fixpoint writePaddingBytes (fuel : nat) (bytes : Z) (g : QunetPadRNG) (w : writer) : option (writer * QunetPadRNG) :=
  match fuel with
  | O => None
  | S fuel =>
      if 0 <? bytes then
        let '(rand, g) := QunetPadRNG_next g in
        let toWrite := Z.min 8 bytes in
        writePaddingBytes fuel (bytes - toWrite) g (writeBytes (ztake toWrite (le_split 8 rand)) w)
      else Some (w, g)
  end.

(** One turn of the loop writes at least one byte. *)
Definition padding_fuel (bytes : Z) : nat := S (Z.to_nat bytes).

Definition writePadMessage {E} (bytes : Z) (g : QunetPadRNG) (w : writer) : result E (writer * QunetPadRNG) :=
  _ ← qn_assert (0 <? bytes);
  let w := writeU8 MSG_PADDING w in
  let bytes := bytes - 1 in
  match writePaddingBytes (padding_fuel bytes) bytes g w with
  | Some r => Ok r
  | None => Fault OutOfFuel
  end.

Definition padMessageToMinimum {E} (g : QunetPadRNG) (w : writer) : result E (writer * QunetPadRNG) :=
  let w := setPosition (len (written w)) w in
  let pos := position w in
  if pos <? MINIMUM_UDP_PAYLOAD then writePadMessage (MINIMUM_UDP_PAYLOAD - pos) g w
  else Ok (w, g).
End Padding.

(** ** What the padding is *)
Section Spec.
Context `{WL : ByteWriterLaws, RL : ByteReaderLaws}.

Lemma writePaddingBytes_spec fuel bytes g w :
  0 <= bytes -> (Z.to_nat bytes < fuel)%nat ->
  exists w' g' bs, writePaddingBytes fuel bytes g w = Some (w', g') /\
    written w' = written w ++ bs /\ len bs = bytes.
Proof.
  revert bytes g w. induction fuel as [|fuel IH]; intros bytes g w Hb Hf; [lia|]. cbn [writePaddingBytes].
  destruct (Z.ltb_spec 0 bytes) as [Hpos|].
  - destruct (QunetPadRNG_next g) as [rand g1].
    destruct (IH (bytes - Z.min 8 bytes) g1 (writeBytes (ztake (Z.min 8 bytes) (le_split 8 rand)) w))
      as (w' & g' & bs & -> & Hw & Hl); [lia..|].
    exists w', g', (ztake (Z.min 8 bytes) (le_split 8 rand) ++ bs). split; [done|].
    rewrite Hw, writeBytes_law, <- app_assoc. split; [done|].
    rewrite length_app, Nat2Z.inj_add, len_ztake_max, length_le_split. lia.
  - exists w, g, []. rewrite app_nil_r. repeat split; cbn; lia.
Qed.

Lemma pad_spec {E} g w :
  exists w' g' bs, padMessageToMinimum (E := E) g w = Ok (w', g') /\
    written w' = written w ++ bs /\
    (bs = [] /\ MINIMUM_UDP_PAYLOAD <= len (written w) \/
     exists pad, bs = MSG_PADDING :: pad /\ len (written w') = MINIMUM_UDP_PAYLOAD).
Proof.
  unfold padMessageToMinimum. cbn zeta. rewrite position_law, setPosition_end.
  destruct (Z.ltb_spec (len (written w)) MINIMUM_UDP_PAYLOAD) as [Hlt|Hge].
  - unfold writePadMessage. set (w1 := writeU8 _ _). set (n := MINIMUM_UDP_PAYLOAD - _ ) in *.
    destruct (writePaddingBytes_spec (padding_fuel (n - 1)) (n - 1) g w1) as (w' & g' & bs & Hpad & Hw & Hl);
      [unfold n; lia|unfold padding_fuel; lia|].
    rewrite (proj2 (Z.ltb_lt 0 n)) by (unfold n; lia). cbn [qn_assert mbind result_bind]. rewrite Hpad.
    unfold w1 in Hw. rewrite writeU8_law, setPosition_end, le_split_1, <- app_assoc in Hw by done.
    exists w', g', (MSG_PADDING :: bs). split; [done|]. split; [done|]. right. exists bs. split; [done|].
    rewrite Hw, !length_app. cbn [length]. unfold n in Hl. lia.
  - exists (setPosition (len (written w)) w), g, []. rewrite app_nil_r. split; [done|].
    split; [apply setPosition_end|by left].
Qed.

(** A padding message is delimited by the end of the datagram. *)
Lemma decodeMeta_padding pad udp :
  decodeMeta (MSG_PADDING :: pad) udp false =
  Ok {| mm_type := MSG_PADDING; mm_compressionHeader := None; mm_reliabilityHeader := None;
        mm_fragmentationHeader := None; mm_data := pad; mm_dataOffset := 1 |}.
Proof.
  pose proof (decodeMeta_control MSG_PADDING [] pad udp false eq_refl eq_refl) as H. cbn [app] in H. rewrite H.
  change (lengthForNonDataMessage (reader_of pad) MSG_PADDING) with (@Ok MessageDecodeError _ (remainingSize (reader_of pad))).
  rewrite remainingSize_law, unread_of. cbn. by rewrite (proj2 (Z.ltb_ge _ _)), ztake_ge by lia.
Qed.

Definition padding_meta (pad : list Z) : QunetMessageMeta :=
  {| mm_type := MSG_PADDING; mm_compressionHeader := None; mm_reliabilityHeader := None;
     mm_fragmentationHeader := None; mm_data := pad; mm_dataOffset := 1 |}.

(** The datagram of a control message is at least 22 bytes long and the
    padding does not change what is read: a receiver finds the message, whole
    and under its type, followed by one padding message at most. *)
Theorem padded_control_datagram msg connectionId g :
  wf_control msg ->
  exists w w' g' meta rest, encodeControlMsg msg connectionId new_writer = Ok w /\
    padMessageToMinimum (E := string) g w = Ok (w', g') /\
    len (written w') = Z.max MINIMUM_UDP_PAYLOAD (len (written w)) /\
    iter_collect 3 (new_iter (written w') (negb (connectionId =? 0))) = Some (Ok (meta :: rest)) /\
    headerByte (E := string) msg = Ok (mm_type meta) /\ mm_data meta = control_body msg /\
    (rest = [] \/ exists pad, rest = [padding_meta pad]).
Proof.
  intros Hwf. destruct (headerByte (E := string) msg) as [t| |] eqn:Ht; [|by destruct msg..].
  destruct (encodeControlMsg_written msg t connectionId new_writer Hwf Ht) as (w & Hw & Hwr).
  rewrite written_new in Hwr. cbn [app] in Hwr.
  destruct (pad_spec (E := string) g w) as (w' & g' & bs & Hpad & Hw' & Hbs).
  set (meta := {| mm_type := t; mm_compressionHeader := None; mm_reliabilityHeader := None;
    mm_fragmentationHeader := None; mm_data := control_body msg;
    mm_dataOffset := if negb (connectionId =? 0) then 9 else 1 |}).
  assert (Hlen : len (written w) = mm_dataOffset meta + len (control_body msg)).
  { rewrite Hwr. cbn [length]. rewrite length_app, conn_bytes_length. cbn. destruct (connectionId =? 0); cbn; lia. }
  assert (Hdec : decodeMeta (written w') true (negb (connectionId =? 0)) = Ok meta).
  { rewrite Hw', Hwr. cbn [app]. rewrite <- app_assoc.
    destruct (control_length (reader_of (control_body msg ++ bs)) msg t Hwf Ht) as [Hl Hmask].
    rewrite decodeMeta_control by (done || apply conn_bytes_length).
    rewrite Hl. cbn. rewrite (proj2 (Z.ltb_ge _ _)) by len_lia. by rewrite ztake_app. }
  exists w, w', g', meta, (match bs with [] => [] | _ :: pad => [padding_meta pad] end).
  split; [done|]. split; [done|].
  assert (Hpos : 1 <= len (written w)) by (rewrite Hlen; unfold meta; cbn [mm_dataOffset]; destruct (negb _); lia).
  split.
  { destruct Hbs as [[-> ?]|(pad & -> & Hl)]; [rewrite Hw', app_nil_r; lia|rewrite Hl; rewrite Hw', length_app in Hl; lia]. }
  split; [|split; [done|]; split; [done|]; destruct bs; eauto].
  cbn [iter_collect]. rewrite iter_next_slices. cbn [new_iter it_data it_pos it_eof it_server].
  rewrite orb_false_l, (proj2 (Z.leb_gt _ _)) by (rewrite Hw'; len_lia).
  rewrite zdrop_0, Z.eqb_refl, andb_true_l, Hdec by lia.
  change (mm_data meta) with (control_body msg). rewrite <- Hlen.
  rewrite iter_next_slices. cbn [it_data it_pos it_eof it_server]. rewrite Hw'.
  destruct Hbs as [[-> ?]|(pad & -> & Hl)].
  - rewrite app_nil_r, orb_false_l, (proj2 (Z.leb_le _ _)) by lia. done.
  - rewrite orb_false_l, Z.add_0_l, (proj2 (Z.leb_gt _ _)) by len_lia. rewrite zdrop_app.
    rewrite (proj2 (Z.eqb_neq _ 0)), andb_false_l, decodeMeta_padding by lia. cbn.
    rewrite iter_next_slices. cbn [it_data it_pos it_eof it_server orb].
    rewrite (proj2 (Z.leb_le _ _)) by len_lia. done.
Qed.
End Spec.

Definition example_rng : QunetPadRNG := {| m_x := 1; m_y := 2; m_z := 3 |}.

Lemma padded_control_datagram_witness :
  exists w w' g' meta rest,
    encodeControlMsg (MKeepalive {| ka_timestamp := 7 |}) 5 new_writer = Ok w /\
    padMessageToMinimum (E := string) example_rng w = Ok (w', g') /\
    len (written w') = Z.max MINIMUM_UDP_PAYLOAD (len (written w)) /\
    iter_collect 3 (new_iter (written w') true) = Some (Ok (meta :: rest)) /\
    headerByte (E := string) (MKeepalive {| ka_timestamp := 7 |}) = Ok (mm_type meta) /\
    mm_data meta = control_body (MKeepalive {| ka_timestamp := 7 |}) /\
    (rest = [] \/ exists pad, rest = [padding_meta pad]).
Proof. apply (padded_control_datagram (MKeepalive {| ka_timestamp := 7 |}) 5 example_rng). cbn. lia. Defined.
