(* ===== verification/Transport.v ===== *)
(** * BaseTransport: what all the transports share

    [include/qunet/socket/transport/BaseTransport.hpp] and
    [src/socket/transport/BaseTransport.cpp]: the compressors, the estimates of
    latency and jitter, the keepalives, and the last step of the decoding of a
    data message. *)
From Stdlib Require Import SpecFloat.
From S2P Require Import Prelude Time Messages Codec CodecSafety Errors Effects Stats Compress Database.

(** ** Double-precision arithmetic *)
Definition f64_of_Z (z : Z) : spec_float := binary_normalize 53 1024 z 0 false.
Definition f64_mul : spec_float -> spec_float -> spec_float := SFmul 53 1024.
Definition f64_add : spec_float -> spec_float -> spec_float := SFadd 53 1024.
Definition f64_sub : spec_float -> spec_float -> spec_float := SFsub 53 1024.

(** The conversion to an unsigned integer truncates; out of range it is
    undefined, and 0 here. *)
Definition Z_of_f64 (f : spec_float) : Z :=
  match f with
  | S754_finite s m e =>
      let z := if 0 <=? e then Zpos m * 2 ^ e else Zpos m / 2 ^ (- e) in
      if s then - z else z
  | _ => 0
  end.

(** [0.25] and [0.08]. *)
Definition d_0_25 : spec_float := S754_finite false 4503599627370496 (-54).
Definition d_0_08 : spec_float := S754_finite false 5764607523034235 (-56).

Definition exponentialMovingAverage (prev newv : Z) (alpha : spec_float) : Z :=
  Z_of_f64 (f64_add (f64_mul alpha (f64_of_Z newv))
                    (f64_mul (f64_sub (f64_of_Z 1) alpha) (f64_of_Z prev))).

(** The errors that become transport errors: the one of an encoder is a string. *)
Definition encode_error {A} (m : result string A) : TransportResult A := map_err (fun s => TE_String (str s)) m.
Definition decode_error {A} (m : result MessageDecodeError A) : TransportResult A := map_err TE_Decode m.

Record SentMessageContext := {
  ctx_reliable : bool;
  ctx_relHeader : option ReliabilityHeader;
  ctx_originalSize : Z;
  ctx_compressedSize : option Z;
  ctx_tag : list Z;
}.
Definition new_context (reliable : bool) : SentMessageContext :=
  {| ctx_reliable := reliable; ctx_relHeader := None; ctx_originalSize := 0; ctx_compressedSize := None; ctx_tag := [] |}.

Record BaseTransport {T : TimeLib} {CL : CompressionLib} := {
  bt_tracker : StatTracker;
  bt_connectionId : Z;
  bt_messageSizeLimit : Z;
  bt_zstdCompressor : ZstdCompressor;
  bt_zstdDecompressor : ZstdDecompressor;
  bt_pingMicros : Z;
  bt_latestRttMicros : Z;
  bt_jitterMicros : Z;
  bt_lastActivity : option instant;
  bt_lastKeepalive : option instant;
  bt_totalKeepalives : Z;
  bt_totalRttEstimates : Z;
  bt_unackedKeepalives : Z;
}.

Section Base.
Context {T : TimeLib} {CL : CompressionLib}.

Definition new_BaseTransport (start : instant) : BaseTransport :=
  {| bt_tracker := new_StatTracker start; bt_connectionId := 0; bt_messageSizeLimit := SIZE_MAX;
     bt_zstdCompressor := new_ZstdCompressor; bt_zstdDecompressor := new_ZstdDecompressor;
     bt_pingMicros := 0; bt_latestRttMicros := 0; bt_jitterMicros := 0;
     bt_lastActivity := None; bt_lastKeepalive := None;
     bt_totalKeepalives := 0; bt_totalRttEstimates := 0; bt_unackedKeepalives := 0 |}.

(** ** Assignments to members *)
Definition set_tracker (f : StatTracker -> StatTracker) (b : BaseTransport) : BaseTransport :=
  {| bt_tracker := f (bt_tracker b); bt_connectionId := bt_connectionId b;
     bt_messageSizeLimit := bt_messageSizeLimit b; bt_zstdCompressor := bt_zstdCompressor b;
     bt_zstdDecompressor := bt_zstdDecompressor b; bt_pingMicros := bt_pingMicros b;
     bt_latestRttMicros := bt_latestRttMicros b; bt_jitterMicros := bt_jitterMicros b;
     bt_lastActivity := bt_lastActivity b; bt_lastKeepalive := bt_lastKeepalive b;
     bt_totalKeepalives := bt_totalKeepalives b; bt_totalRttEstimates := bt_totalRttEstimates b;
     bt_unackedKeepalives := bt_unackedKeepalives b |}.

Definition set_options (id limit : Z) (b : BaseTransport) : BaseTransport :=
  {| bt_tracker := bt_tracker b; bt_connectionId := id;
     bt_messageSizeLimit := limit; bt_zstdCompressor := bt_zstdCompressor b;
     bt_zstdDecompressor := bt_zstdDecompressor b; bt_pingMicros := bt_pingMicros b;
     bt_latestRttMicros := bt_latestRttMicros b; bt_jitterMicros := bt_jitterMicros b;
     bt_lastActivity := bt_lastActivity b; bt_lastKeepalive := bt_lastKeepalive b;
     bt_totalKeepalives := bt_totalKeepalives b; bt_totalRttEstimates := bt_totalRttEstimates b;
     bt_unackedKeepalives := bt_unackedKeepalives b |}.

Definition set_zstd (c : ZstdCompressor) (d : ZstdDecompressor) (b : BaseTransport) : BaseTransport :=
  {| bt_tracker := bt_tracker b; bt_connectionId := bt_connectionId b;
     bt_messageSizeLimit := bt_messageSizeLimit b; bt_zstdCompressor := c;
     bt_zstdDecompressor := d; bt_pingMicros := bt_pingMicros b;
     bt_latestRttMicros := bt_latestRttMicros b; bt_jitterMicros := bt_jitterMicros b;
     bt_lastActivity := bt_lastActivity b; bt_lastKeepalive := bt_lastKeepalive b;
     bt_totalKeepalives := bt_totalKeepalives b; bt_totalRttEstimates := bt_totalRttEstimates b;
     bt_unackedKeepalives := bt_unackedKeepalives b |}.

Definition set_rtt (ping latest jitter estimates : Z) (b : BaseTransport) : BaseTransport :=
  {| bt_tracker := bt_tracker b; bt_connectionId := bt_connectionId b;
     bt_messageSizeLimit := bt_messageSizeLimit b; bt_zstdCompressor := bt_zstdCompressor b;
     bt_zstdDecompressor := bt_zstdDecompressor b; bt_pingMicros := ping;
     bt_latestRttMicros := latest; bt_jitterMicros := jitter;
     bt_lastActivity := bt_lastActivity b; bt_lastKeepalive := bt_lastKeepalive b;
     bt_totalKeepalives := bt_totalKeepalives b; bt_totalRttEstimates := estimates;
     bt_unackedKeepalives := bt_unackedKeepalives b |}.

Definition set_times (activity keepalive : option instant) (total unacked : Z) (b : BaseTransport) : BaseTransport :=
  {| bt_tracker := bt_tracker b; bt_connectionId := bt_connectionId b;
     bt_messageSizeLimit := bt_messageSizeLimit b; bt_zstdCompressor := bt_zstdCompressor b;
     bt_zstdDecompressor := bt_zstdDecompressor b; bt_pingMicros := bt_pingMicros b;
     bt_latestRttMicros := bt_latestRttMicros b; bt_jitterMicros := bt_jitterMicros b;
     bt_lastActivity := activity; bt_lastKeepalive := keepalive;
     bt_totalKeepalives := total; bt_totalRttEstimates := bt_totalRttEstimates b;
     bt_unackedKeepalives := unacked |}.

(** ** Methods *)
Definition setConnectionId (connectionId : Z) (b : BaseTransport) : BaseTransport :=
  set_options connectionId (bt_messageSizeLimit b) b.
Definition setMessageSizeLimit (limit : Z) (b : BaseTransport) : BaseTransport :=
  set_options (bt_connectionId b) limit b.

(** The compressor, then the decompressor; an error leaves what was
    initialised before. *)
Definition init_with (compressor : ZstdCompressor -> ZstdCompressor * result CompressorError unit)
    (decompressor : ZstdDecompressor -> ZstdDecompressor * result DecompressorError unit) : ST BaseTransport unit :=
  fun b =>
  match compressor (bt_zstdCompressor b) with
  | (c, Ok _) =>
      let '(d, res) := decompressor (bt_zstdDecompressor b) in
      (map_err TE_Decompressor res, set_zstd c d b)
  | (c, Err e) => (Err (TE_Compressor e), set_zstd c (bt_zstdDecompressor b) b)
  | (c, Fault f) => (Fault f, set_zstd c (bt_zstdDecompressor b) b)
  end.

(** An [init] that fails leaves the object unchanged. *)
Definition in_place {E A} (f : A -> result E A) (a : A) : A * result E unit :=
  match f a with Ok a => (a, Ok tt) | Err e => (a, Err e) | Fault x => (a, Fault x) end.

Definition initCompressors (qdb : option QunetDatabase) : ST BaseTransport unit :=
  match qdb with
  | Some {| db_zstdDict := Some dict; db_zstdLevel := level |} =>
      init_with (ZstdCompressor_initWithDictionary dict level) (ZstdDecompressor_initWithDictionary dict)
  | _ =>
      init_with (in_place (ZstdCompressor_init MSG_ZSTD_COMPRESSION_LEVEL)) (in_place ZstdDecompressor_init)
  end.

Definition BaseTransport_untilTimerExpiry : duration := infinite.

Definition BaseTransport_handleTimerExpiry : ST BaseTransport unit :=
  n ← get bt_unackedKeepalives;
  if 5 <? n then custom TimedOut else mret tt.

Definition decodePreFinalDataMessage (now : instant) (meta : QunetMessageMeta) : ST BaseTransport QunetMessage :=
  _ ← modify (set_tracker
         match mm_compressionHeader meta with
         | None => onDownMessage now MSG_DATA (len (mm_data meta)) None zero (mm_reliabilityHeader meta)
         | Some h => onDownMessage now MSG_DATA (ch_uncompressedSize h) (Some (len (mm_data meta))) zero
                       (mm_reliabilityHeader meta)
         end);
  d ← get bt_zstdDecompressor;
  limit ← get bt_messageSizeLimit;
  data ← lift (decompress_message d limit meta);
  mret (MData {| dm_data := data; dm_compHeader := None; dm_relHeader := None |}).

Definition getLatency (b : BaseTransport) : duration := fromMicros (bt_pingMicros b).
Definition getJitter (b : BaseTransport) : duration := fromMicros (bt_jitterMicros b).

Definition BaseTransport_updateLatency (rtt : duration) (b : BaseTransport) : BaseTransport :=
  let delta := u64 (Z.abs (i64 (i64 (micros rtt) - i64 (bt_latestRttMicros b)))) in
  let n := u64 (bt_totalRttEstimates b + 1) in
  if bt_totalRttEstimates b =? 0 then set_rtt (micros rtt) (micros rtt) 0 n b
  else set_rtt (exponentialMovingAverage (bt_pingMicros b) (micros rtt) d_0_25) (micros rtt)
               (exponentialMovingAverage (bt_jitterMicros b) delta d_0_08) n b.

(** [updateLatency] is virtual: [X] is the type of the object, [base] and
    [set_base] its part of the base class; [now_ns] is the reading of the
    steady clock. *)
Definition onIncomingMessage {X} (base : X -> BaseTransport) (set_base : BaseTransport -> X -> X)
    (updateLatency : duration -> X -> X) (now_ns : Z) (msg : QunetMessage) (x : X) : X :=
  match msg with
  | MKeepaliveResponse m =>
      let ts := kr_timestamp m in
      let x := if ts <? now_ns then updateLatency (fromNanos (now_ns - ts)) x else x in
      let b := base x in
      set_base (set_times (bt_lastActivity b) (bt_lastKeepalive b) (bt_totalKeepalives b) 0 b) x
  | _ => x
  end.

Definition updateLastActivity (now : instant) (b : BaseTransport) : BaseTransport :=
  set_times (Some now) (bt_lastKeepalive b) (bt_totalKeepalives b) (bt_unackedKeepalives b) b.
Definition updateLastSentKeepalive (now : instant) (b : BaseTransport) : BaseTransport :=
  set_times (bt_lastActivity b) (Some now) (u64 (bt_totalKeepalives b + 1)) (u64 (bt_unackedKeepalives b + 1)) b.
Definition sinceLastActivity (now : instant) (b : BaseTransport) : duration :=
  match bt_lastActivity b with None => infinite | Some t => since now t end.
Definition sinceLastKeepalive (now : instant) (b : BaseTransport) : duration :=
  match bt_lastKeepalive b with None => infinite | Some t => since now t end.

Definition logOutgoingMessage (now : instant) (hbyte : Z) (ctx : SentMessageContext) (b : BaseTransport) : BaseTransport :=
  set_tracker (onUpMessage now hbyte (ctx_originalSize ctx) (ctx_compressedSize ctx) zero (ctx_relHeader ctx)) b.
End Base.

(** ** Compression between two transports *)
Section Delivery.
Context {T : TimeLib} {CL : CompressionLib} {LL : CompressionLaws CL}.

Lemma init_with_ok comp decomp b b' :
  init_with comp decomp b = (Ok tt, b') ->
  exists c d, comp (bt_zstdCompressor b) = (c, Ok tt) /\ decomp (bt_zstdDecompressor b) = (d, Ok tt) /\
    b' = set_zstd c d b.
Proof.
  unfold init_with. destruct (comp _) as [c [[]| |]]; [|done|done].
  destruct (decomp _) as [d [[]| |]]; cbn; [|done|done]. intros [= <-]. eauto.
Qed.

Lemma in_place_ok {E A} (f : A -> result E A) a a' : in_place f a = (a', Ok tt) -> f a = Ok a'.
Proof. unfold in_place. destruct (f a); congruence. Qed.

Lemma zstd_init_ok level c : ZstdCompressor_init level new_ZstdCompressor = Ok c ->
  c = {| zc_ctx := true; zc_dict := None; zc_level := level |}.
Proof. unfold ZstdCompressor_init, qn_assert. cbn. destruct ZSTD_createCCtx; cbn; congruence. Qed.

Lemma zstd_decompressor_init_ok d : ZstdDecompressor_init new_ZstdDecompressor = Ok d ->
  d = {| zd_ctx := true; zd_dict := None |}.
Proof. unfold ZstdDecompressor_init, qn_assert. cbn. destruct ZSTD_createDCtx; cbn; congruence. Qed.

Lemma initCompressors_paired qdb b1 b2 b1' b2' :
  bt_zstdCompressor b1 = new_ZstdCompressor -> bt_zstdDecompressor b2 = new_ZstdDecompressor ->
  initCompressors qdb b1 = (Ok tt, b1') -> initCompressors qdb b2 = (Ok tt, b2') ->
  paired (bt_zstdCompressor b1') (bt_zstdDecompressor b2') /\ bt_messageSizeLimit b2' = bt_messageSizeLimit b2.
Proof.
  intros E1 E2. assert (Hplain : forall level,
    init_with (in_place (ZstdCompressor_init level)) (in_place ZstdDecompressor_init) b1 = (Ok tt, b1') ->
    init_with (in_place (ZstdCompressor_init level)) (in_place ZstdDecompressor_init) b2 = (Ok tt, b2') ->
    paired (bt_zstdCompressor b1') (bt_zstdDecompressor b2') /\ bt_messageSizeLimit b2' = bt_messageSizeLimit b2).
  { intros level (c & d & Hc & _ & ->)%init_with_ok (c' & d' & _ & Hd & ->)%init_with_ok.
    rewrite E1 in Hc. rewrite E2 in Hd. apply in_place_ok, zstd_init_ok in Hc as ->.
    apply in_place_ok, zstd_decompressor_init_ok in Hd as ->. split; [apply paired_plain|done]. }
  destruct qdb as [[[dict|] level hash]|]; cbn [initCompressors]; [|apply Hplain..].
  intros (c & d & Hc & _ & ->)%init_with_ok (c' & d' & _ & Hd & ->)%init_with_ok.
  rewrite E1 in Hc. rewrite E2 in Hd. split; [|done]. cbn.
  unfold ZstdCompressor_initWithDictionary in Hc. unfold ZstdDecompressor_initWithDictionary in Hd.
  destruct (ZstdCompressor_init level _) as [c0| |] eqn:E; [|done|done]. apply zstd_init_ok in E as ->.
  destruct (ZstdDecompressor_init _) as [d0| |] eqn:E; [|done|done]. apply zstd_decompressor_init_ok in E as ->.
  destruct (ZSTD_createCDict dict level) eqn:Hcd; [|done]. destruct (ZSTD_createDDict dict) eqn:Hdd; [|done].
  simplify_eq/=. by eapply paired_dict.
Qed.

Lemma decompress_total d limit meta :
  comp_ok (mm_compressionHeader meta) -> is_fault (decompress_message d limit meta) = false.
Proof.
  intros Hc. unfold decompress_message. destruct (mm_compressionHeader meta) as [h|]; [|done].
  specialize (Hc _ eq_refl). destruct (_ <? _); [done|].
  unfold ZstdDecompressor_decompress, Lz4Decompressor_decompress.
  destruct (ch_type h); [done|..]; rewrite map_err_fault; repeat case_match; done.
Qed.

Lemma decodePreFinal_total now meta b :
  comp_ok (mm_compressionHeader meta) -> is_fault (decodePreFinalDataMessage now meta b).1 = false.
Proof.
  intros Hc. unfold decodePreFinalDataMessage. do 3 (erewrite bind_run by reflexivity).
  unfold lift, mbind, ST_bind. destruct (decompress_message _ _ _) eqn:E; [done|done|].
  apply (f_equal is_fault) in E. by rewrite decompress_total in E.
Qed.

Lemma decodePreFinal_ok now meta b data :
  decompress_message (bt_zstdDecompressor b) (bt_messageSizeLimit b) meta = Ok data ->
  exists tracker, decodePreFinalDataMessage now meta b =
    (Ok (MData {| dm_data := data; dm_compHeader := None; dm_relHeader := None |}), set_tracker tracker b).
Proof.
  intros Hd. eexists. unfold decodePreFinalDataMessage. run_step. run_step. run_step.
  change (bt_zstdDecompressor (set_tracker _ b)) with (bt_zstdDecompressor b).
  change (bt_messageSizeLimit (set_tracker _ b)) with (bt_messageSizeLimit b).
  rewrite Hd. reflexivity.
Qed.

(** C15. Two transports that were initialised with the same database understand
    each other: whatever the compression that the sender chose for a message
    (none, lz4, zstd with or without the dictionary), the receiver gives the
    application the data that was sent.  Compression never throws; its only
    failure is an error of a compressor. *)
Theorem compressed_delivery now qdb b1 b2 b1' b2' uncompressed m offset :
  bt_zstdCompressor b1 = new_ZstdCompressor -> bt_zstdDecompressor b2 = new_ZstdDecompressor ->
  initCompressors qdb b1 = (Ok tt, b1') -> initCompressors qdb b2 = (Ok tt, b2') ->
  len (dm_data m) < 2 ^ 30 -> len (dm_data m) <= bt_messageSizeLimit b2 -> dm_compHeader m = None ->
  match compress_outgoing (bt_zstdCompressor b1') uncompressed m with
  | Ok (_, m') => (decodePreFinalDataMessage now (meta_of m' offset) b2').1 =
      Ok (MData {| dm_data := dm_data m; dm_compHeader := None; dm_relHeader := None |})
  | Err e => exists ce, e = TE_Compressor ce
  | Fault _ => False
  end.
Proof.
  intros E1 E2 H1 H2 Hlen Hlimit Hnone.
  destruct (initCompressors_paired qdb b1 b2 b1' b2' E1 E2 H1 H2) as [Hp Hl]. rewrite <- Hl in Hlimit.
  pose proof (compress_then_decompress _ _ _ uncompressed m offset Hp Hlen Hlimit Hnone) as H.
  destruct (compress_outgoing _ uncompressed m) as [[t m']|e|f]; [|done|done]. destruct H as [H _].
  destruct (decodePreFinal_ok now _ b2' _ H) as (t' & ->). done.
Qed.
End Delivery.

(** ** Runs *)
Definition example_base : @BaseTransport nano_time rle_lib := new_BaseTransport (0 : @instant nano_time).
Definition example_qdb : QunetDatabase := {| db_zstdDict := Some [1; 2; 3]; db_zstdLevel := 4; db_hash := [] |}.
Definition initialised_base : @BaseTransport nano_time rle_lib := (initCompressors (Some example_qdb) example_base).2.

Lemma compressed_delivery_witness :
  match compress_outgoing (bt_zstdCompressor initialised_base) false example_message with
  | Ok (_, m') => (decodePreFinalDataMessage (9 : @instant nano_time) (meta_of m' 1) initialised_base).1 =
      Ok (MData {| dm_data := replicate 200 7; dm_compHeader := None; dm_relHeader := None |})
  | Err e => exists ce, e = TE_Compressor ce
  | Fault _ => False
  end.
Proof.
  apply (compressed_delivery (9 : @instant nano_time) (Some example_qdb) example_base example_base
    initialised_base initialised_base false example_message 1); (reflexivity || discriminate).
Defined.

(** The estimates after round trips of 100, 200 and 60 milliseconds: the
    first is taken as it is, the others with a weight of a quarter. *)
Example latency_estimates :
  let after (l : list Z) := foldl (fun b ms => BaseTransport_updateLatency (fromMillis ms) b) example_base l in
  (bt_pingMicros (after [100]), bt_jitterMicros (after [100])) = (100000, 0) /\
  (bt_pingMicros (after [100; 200]), bt_jitterMicros (after [100; 200])) = (125000, 8000) /\
  (bt_pingMicros (after [100; 200; 60]), bt_jitterMicros (after [100; 200; 60])) = (108750, 18560).
Proof. vm_compute. auto. Qed.
