(* ===== verification/Udp.v ===== *)
(** * UdpTransport

    [include/qunet/socket/transport/UdpTransport.hpp] and
    [src/socket/transport/UdpTransport.cpp]: messages are given acknowledgements
    and an identifier, cut in datagrams and sent; datagrams are taken apart,
    reassembled and ordered; the handshake is sent again until all the chunks
    of the answer are there; a timer sends again, acknowledges and keeps alive.

    The two functions between durations and floats are those of [Reliable].
    [now] is the reading of the clock during an operation, and [order] the
    order in which the hash map of the fragment store is walked. *)
From Stdlib Require Import SpecFloat.
From S2P Require Import Prelude Dbuf Messages Codec Time Errors Effects Fragment Reliable Stats Compress Padding Transport.

Record UdpTransport {T : TimeLib} {CL : CompressionLib} := {
  ut_base : BaseTransport;
  ut_relStore : ReliableStore;
  ut_fragStore : FragmentStore;
  ut_net : Net;
  ut_mtu : Z;
  ut_closed : bool;
  ut_activeKeepaliveInterval : option duration;
  ut_pendingMessages : list QunetMessage;
  ut_rng : QunetPadRNG;
}.

Section Udp.
Context {T : TimeLib} {CL : CompressionLib} `{W : ByteWriter} `{R : ByteReader}.
Variable millis_float : duration -> spec_float.
Variable fromMillis_float : spec_float -> duration.

(** [connect]: the constructor. *)
Definition new_UdpTransport (start : instant) (activeKeepaliveInterval : option duration) (net : Net)
    (rng : QunetPadRNG) : UdpTransport :=
  {| ut_base := new_BaseTransport start; ut_relStore := new_ReliableStore; ut_fragStore := new_FragmentStore;
     ut_net := net; ut_mtu := UDP_SAFE_MTU; ut_closed := false;
     ut_activeKeepaliveInterval := activeKeepaliveInterval; ut_pendingMessages := []; ut_rng := rng |}.

(** ** Members *)
Definition set_base (b : BaseTransport) (u : UdpTransport) : UdpTransport :=
  {| ut_base := b; ut_relStore := ut_relStore u; ut_fragStore := ut_fragStore u; ut_net := ut_net u;
     ut_mtu := ut_mtu u; ut_closed := ut_closed u; ut_activeKeepaliveInterval := ut_activeKeepaliveInterval u;
     ut_pendingMessages := ut_pendingMessages u; ut_rng := ut_rng u |}.
Definition set_rel (r : ReliableStore) (u : UdpTransport) : UdpTransport :=
  {| ut_base := ut_base u; ut_relStore := r; ut_fragStore := ut_fragStore u; ut_net := ut_net u;
     ut_mtu := ut_mtu u; ut_closed := ut_closed u; ut_activeKeepaliveInterval := ut_activeKeepaliveInterval u;
     ut_pendingMessages := ut_pendingMessages u; ut_rng := ut_rng u |}.
Definition set_frag (f : FragmentStore) (u : UdpTransport) : UdpTransport :=
  {| ut_base := ut_base u; ut_relStore := ut_relStore u; ut_fragStore := f; ut_net := ut_net u;
     ut_mtu := ut_mtu u; ut_closed := ut_closed u; ut_activeKeepaliveInterval := ut_activeKeepaliveInterval u;
     ut_pendingMessages := ut_pendingMessages u; ut_rng := ut_rng u |}.
Definition set_net (n : Net) (u : UdpTransport) : UdpTransport :=
  {| ut_base := ut_base u; ut_relStore := ut_relStore u; ut_fragStore := ut_fragStore u; ut_net := n;
     ut_mtu := ut_mtu u; ut_closed := ut_closed u; ut_activeKeepaliveInterval := ut_activeKeepaliveInterval u;
     ut_pendingMessages := ut_pendingMessages u; ut_rng := ut_rng u |}.
Definition set_pending (l : list QunetMessage) (u : UdpTransport) : UdpTransport :=
  {| ut_base := ut_base u; ut_relStore := ut_relStore u; ut_fragStore := ut_fragStore u; ut_net := ut_net u;
     ut_mtu := ut_mtu u; ut_closed := ut_closed u; ut_activeKeepaliveInterval := ut_activeKeepaliveInterval u;
     ut_pendingMessages := l; ut_rng := ut_rng u |}.
Definition set_rng (g : QunetPadRNG) (u : UdpTransport) : UdpTransport :=
  {| ut_base := ut_base u; ut_relStore := ut_relStore u; ut_fragStore := ut_fragStore u; ut_net := ut_net u;
     ut_mtu := ut_mtu u; ut_closed := ut_closed u; ut_activeKeepaliveInterval := ut_activeKeepaliveInterval u;
     ut_pendingMessages := ut_pendingMessages u; ut_rng := g |}.
Definition set_closed (b : bool) (u : UdpTransport) : UdpTransport :=
  {| ut_base := ut_base u; ut_relStore := ut_relStore u; ut_fragStore := ut_fragStore u; ut_net := ut_net u;
     ut_mtu := ut_mtu u; ut_closed := b; ut_activeKeepaliveInterval := ut_activeKeepaliveInterval u;
     ut_pendingMessages := ut_pendingMessages u; ut_rng := ut_rng u |}.

Abbreviation U := (ST UdpTransport).
Definition in_base {A} : ST BaseTransport A -> U A := focus ut_base set_base.
Definition in_net {A} : ST Net A -> U A := focus ut_net set_net.
Definition in_rel {A} : ST ReliableStore A -> U A := focus ut_relStore set_rel.
Definition in_frag {A} : ST FragmentStore A -> U A := focus ut_fragStore set_frag.

Definition closeSync : U unit := modify (set_closed true).
Definition isClosed (u : UdpTransport) : bool := ut_closed u.

(** ** Sending *)
Definition shouldLosePacket : U bool :=
  in_net (state (fun n => randomChance (fclamp (net_lossSim n) (S754_zero false) (f32_of_Z 1)) n)).

Lemma shouldLosePacket_lossless u : lossless (ut_net u) -> shouldLosePacket u = (Ok false, u).
Proof.
  destruct u as [??? [?????] ?????]. intros (?&?&?). unfold shouldLosePacket, in_net, focus, state, set_net.
  cbn in *. by subst.
Qed.

(** [if (!shouldLosePacket()) m_socket.send(...)] *)
Definition send_unless_lost (data : list Z) : U unit :=
  lost ← shouldLosePacket;
  if (lost : bool) then mret tt else in_net (socket_send data).

Definition set_context (reliable : bool) (rel : option ReliabilityHeader) (ctx : SentMessageContext) : SentMessageContext :=
  {| ctx_reliable := reliable; ctx_relHeader := rel; ctx_originalSize := ctx_originalSize ctx;
     ctx_compressedSize := ctx_compressedSize ctx; ctx_tag := ctx_tag ctx |}.

Definition commonHdrSize := 9.
Definition fragHdrSize := 4.
Definition relHdrSize (msg : DataMessage) : Z :=
  match dm_relHeader msg with Some h => 4 + rh_ackCount h * 2 | None => 0 end.
Definition compHdrSize (msg : DataMessage) : Z :=
  match dm_compHeader msg with Some _ => 4 | None => 0 end.

(** The datagram of one fragment. *)
Definition fragment_datagram (msg : DataMessage) (connectionId fragMessageId fragmentIndex : Z) (isLast : bool)
    (chunk : list Z) : TransportResult writer :=
  let isFirst := fragmentIndex =? 0 in
  fwriter ← unwrap (encodeDataHeader (MData msg) connectionId (negb isFirst) new_writer);
  hdrbyte ← match written fwriter with
            | b :: _ => Ok (Z.lor b MSG_DATA_FRAGMENTATION_MASK)
            | [] => Fault OutOfBounds
            end;
  fwriter ← unwrap (performAtU8 0 hdrbyte fwriter);
  let fwriter := writeU16 fragMessageId fwriter in
  let fwriter := writeU16 (u16 (Z.lor fragmentIndex (if isLast then MSG_DATA_LAST_FRAGMENT_MASK else 0))) fwriter in
  Ok (writeBytes chunk fwriter).

(** The [while] loop over the data: [rest] is what follows [offset].  Every
    turn sends a byte at least, when there is room for it in a datagram. *)
Fixpoint send_fragments (fuel : nat) (now : instant) (msg : DataMessage) (fragMessageId fragmentIndex : Z)
    (rest : list Z) : U unit :=
  match fuel with
  | O => lift (Fault OutOfFuel)
  | S fuel =>
      match rest with
      | [] => mret tt
      | _ =>
          mtu ← get ut_mtu;
          connectionId ← get (fun u => bt_connectionId (ut_base u));
          let firstPayloadSize := u64 (mtu - relHdrSize msg - compHdrSize msg - fragHdrSize - commonHdrSize) in
          let restPayloadSize := u64 (mtu - fragHdrSize - commonHdrSize) in
          let payloadSize := if fragmentIndex =? 0 then firstPayloadSize else restPayloadSize in
          let isLast := len rest <=? payloadSize in
          let chunk := ztake (Z.min payloadSize (len rest)) rest in
          fwriter ← lift (fragment_datagram msg connectionId fragMessageId fragmentIndex isLast chunk);
          let data := written fwriter in
          _ ← send_unless_lost data;
          _ ← in_base (modify (set_tracker (Stats.onUpPacket now (len data))));
          send_fragments fuel now msg fragMessageId (fragmentIndex + 1) (zdrop (len chunk) rest)
      end
  end.

(** [ctx] is an in-out parameter: the result is its final value. *)
Definition doSendUnfragmentedData (now : instant) (msg : DataMessage) (ctx : SentMessageContext)
    (retransmission : bool) : U SentMessageContext :=
  let isReliable :=
    match dm_relHeader msg with Some h => negb (rh_messageId h =? 0) && negb retransmission | None => false end in
  let ctx := set_context isReliable (dm_relHeader msg) ctx in
  let unfragTotalSize := commonHdrSize + relHdrSize msg + compHdrSize msg + len (dm_data msg) in
  mtu ← get ut_mtu;
  if unfragTotalSize <=? mtu then
    connectionId ← get (fun u => bt_connectionId (ut_base u));
    w ← lift (unwrap (encodeDataHeader (MData msg) connectionId false new_writer));
    let data := written (writeBytes (dm_data msg) w) in
    _ ← send_unless_lost data;
    _ ← when isReliable (in_rel (update (pushLocalUnacked now (MData msg))));
    _ ← in_base (modify (updateLastActivity now));
    _ ← in_base (modify (set_tracker (Stats.onUpPacket now (len data))));
    mret ctx
  else
    fragMessageId ← in_frag (state FragmentStore_nextMessageId);
    _ ← send_fragments (S (length (dm_data msg))) now msg fragMessageId 0 (dm_data msg);
    _ ← when isReliable (in_rel (update (pushLocalUnacked now (MData msg))));
    _ ← in_base (modify (updateLastActivity now));
    mret ctx.

(** The acknowledgements and the identifier of an outgoing message. *)
Definition assign_reliability (reliable : bool) : U (option ReliabilityHeader) :=
  relHdr ← in_rel (state (setOutgoingAcks ReliabilityHeader_zero));
  id ← (if reliable then in_rel (state ReliableStore_nextMessageId) else mret 0);
  if negb (id =? 0) || (0 <? rh_ackCount relHdr) then
    mret (Some {| rh_messageId := id; rh_ackCount := rh_ackCount relHdr; rh_acks := rh_acks relHdr |})
  else mret None.

Definition with_relHeader (rel : option ReliabilityHeader) (msg : DataMessage) : DataMessage :=
  {| dm_data := dm_data msg; dm_compHeader := dm_compHeader msg; dm_relHeader := rel |}.

(** [now_ns] is the reading of the steady clock. *)
Definition sendMessage (now : instant) (now_ns : Z) (message : QunetMessage) (ctx : SentMessageContext) : U SentMessageContext :=
  match message with
  | MData msg =>
      rel ← assign_reliability (ctx_reliable ctx);
      doSendUnfragmentedData now (with_relHeader rel msg) ctx false
  | _ =>
      message ← match message with
                | MKeepalive _ =>
                    _ ← in_base (modify (updateLastSentKeepalive now));
                    mret (MKeepalive {| ka_timestamp := now_ns |})
                | _ => mret message
                end;
      connectionId ← get (fun u => bt_connectionId (ut_base u));
      w ← lift (encode_error (encodeControlMsg message connectionId new_writer));
      g ← get ut_rng;
      '(w, g) ← lift (padMessageToMinimum g w);
      _ ← modify (set_rng g);
      let data := written w in
      _ ← send_unless_lost data;
      _ ← in_base (modify (updateLastActivity now));
      _ ← in_base (modify (set_tracker (Stats.onUpPacket now (len data))));
      mret ctx
  end.

(** [BaseTransport::sendMessage(message, reliable)] *)
Definition send (now : instant) (now_ns : Z) (message : QunetMessage) (reliable : bool) : U unit :=
  ctx ← sendMessage now now_ns message (new_context reliable);
  hbyte ← lift (headerByte message);
  in_base (modify (logOutgoingMessage now hbyte ctx)).

(** ** Receiving *)
(** The end of [processOne], from a message that is whole. *)
Definition accept_whole (now : instant) (meta : QunetMessageMeta) : U (option QunetMessage) :=
  accepted ← match mm_reliabilityHeader meta with
             | Some _ => in_rel (handleIncoming now meta)
             | None => mret true
             end;
  if (accepted : bool) then
    msg ← in_base (decodePreFinalDataMessage now meta);
    mret (Some msg)
  else mret None.

Definition processOne (now : instant) (order : list Z) (meta : QunetMessageMeta) : U (option QunetMessage) :=
  if negb (mm_type meta =? MSG_DATA) then
    _ ← in_base (modify (set_tracker (Stats.onDownMessage now (mm_type meta) (len (mm_data meta)) None zero None)));
    msg ← lift (decode_error (decodeWithMeta meta));
    _ ← match msg with
        | MKeepaliveResponse _ => in_base (modify (fun b =>
            set_times (bt_lastActivity b) (bt_lastKeepalive b) (bt_totalKeepalives b) 0 b))
        | _ => mret tt
        end;
    mret (Some msg)
  else
    match mm_fragmentationHeader meta with
    | Some _ =>
        recvf ← in_frag (processFragment now order meta);
        match recvf with
        | None => mret None
        | Some meta => accept_whole now meta
        end
    | None => accept_whole now meta
    end.

(** The loop over the messages of a datagram: the first result is returned,
    the others are queued. *)
Fixpoint process_datagram (fuel : nat) (now : instant) (order : list Z) (it : QunetUdpMessageIter)
    (toReturn : option QunetMessage) : U (option QunetMessage) :=
  match fuel with
  | O => lift (Fault OutOfFuel)
  | S fuel =>
      match iter_next it with
      | (None, _) => mret toReturn
      | (Some item, it) =>
          meta ← lift (decode_error item);
          if mm_type meta =? MSG_PADDING then process_datagram fuel now order it toReturn
          else
            msg ← processOne now order meta;
            match msg, toReturn with
            | None, _ => process_datagram fuel now order it toReturn
            | Some m, None => process_datagram fuel now order it (Some m)
            | Some m, Some _ =>
                _ ← modify (fun u => set_pending (ut_pendingMessages u ++ [m]) u);
                process_datagram fuel now order it toReturn
            end
      end
  end.

(** [CodecIter.iter_terminates]: a datagram has at most one message per byte. *)
Definition datagram_fuel (data : list Z) : nat := S (length data).

Definition receiveMessageInner (now : instant) (order : list Z) : U (option QunetMessage) :=
  pending ← get ut_pendingMessages;
  match pending with
  | m :: ms =>
      _ ← modify (set_pending ms);
      mret (Some m)
  | [] =>
      delayed ← in_rel (state popDelayedMessage);
      match delayed with
      | Some meta =>
          msg ← in_base (decodePreFinalDataMessage now meta);
          mret (Some msg)
      | None =>
          data ← in_net (socket_recv UDP_MAX_ALLOWED_MTU);
          if len data =? 0 then custom ZeroLengthMessage
          else
            _ ← in_base (modify (set_tracker (Stats.onDownPacket now (len data))));
            process_datagram (datagram_fuel data) now order (new_iter data false) None
      end
  end.

(** A turn of the loop that returns nothing has taken a datagram. *)
Fixpoint receive_loop (fuel : nat) (now : instant) (order : list Z) : U QunetMessage :=
  match fuel with
  | O => lift (Fault OutOfFuel)
  | S fuel =>
      msg ← receiveMessageInner now order;
      match msg with
      | Some m => mret m
      | None => receive_loop fuel now order
      end
  end.

Definition receiveMessage (now : instant) (order : list Z) : U QunetMessage := fun u =>
  receive_loop (S (length (net_incoming (ut_net u)))) now order u.

(** ** The timer *)
Definition untilKeepalive (now : instant) (u : UdpTransport) : duration :=
  let b := ut_base u in
  if 0 <? bt_unackedKeepalives b then dsub (fromSecs 2) (sinceLastActivity now b)
  else
    let orActive dur :=
      match ut_activeKeepaliveInterval u with
      | Some interval => dsub (dmin dur interval) (sinceLastKeepalive now b)
      | None => dsub dur (sinceLastKeepalive now b)
      end in
    match bt_totalRttEstimates b with
    | 0 | 1 => orActive (fromSecs 3)
    | 2 => orActive (fromSecs 8)
    | 3 => orActive (fromSecs 12)
    | 4 => orActive (fromSecs 20)
    | _ =>
        match ut_activeKeepaliveInterval u with
        | Some interval =>
            dmin (dsub (fromSecs 30) (sinceLastActivity now b)) (dsub interval (sinceLastKeepalive now b))
        | None => dsub (fromSecs 30) (sinceLastActivity now b)
        end
    end.

Definition untilTimerExpiry (now : instant) (u : UdpTransport) : duration :=
  dmin (ReliableStore_untilTimerExpiry millis_float fromMillis_float now (ut_relStore u)) (untilKeepalive now u).

Definition resend (now : instant) (message : QunetMessage) (retransmission : bool) : U unit :=
  match message with
  | MData msg =>
      ctx ← doSendUnfragmentedData now msg (new_context false) retransmission;
      in_base (modify (logOutgoingMessage now MSG_DATA ctx))
  | _ => lift (Fault AssertionFailed)
  end.

Fixpoint retransmit_due (fuel : nat) (now : instant) : U unit :=
  match fuel with
  | O => lift (Fault OutOfFuel)
  | S fuel =>
      msg ← in_rel (maybeRetransmit millis_float fromMillis_float now);
      match msg with
      | None => mret tt
      | Some m =>
          _ ← resend now m true;
          retransmit_due fuel now
      end
  end.

(** A message that is sent again is not due any more. *)
Definition retransmit_fuel (u : UdpTransport) : nat := S (length (rs_localUnacked (ut_relStore u))).

Definition send_urgent_acks (now : instant) : U unit :=
  urgent ← get (fun u => hasUrgentOutgoingAcks now (ut_relStore u));
  when urgent
    (relHdr ← in_rel (state (setOutgoingAcks ReliabilityHeader_zero));
     resend now (MData {| dm_data := []; dm_compHeader := None; dm_relHeader := Some relHdr |}) false).

Definition handleTimerExpiry (now : instant) (now_ns : Z) : U unit :=
  _ ← in_base BaseTransport_handleTimerExpiry;
  fuel ← get retransmit_fuel;
  _ ← retransmit_due fuel now;
  _ ← send_urgent_acks now;
  due ← get (fun u => isZero (untilKeepalive now u));
  when due (send now now_ns (MKeepalive {| ka_timestamp := 0 |}) false).

Definition updateLatency (rtt : duration) (u : UdpTransport) : UdpTransport :=
  let u := set_base (BaseTransport_updateLatency rtt (ut_base u)) u in
  set_rel (updateRtt (bt_latestRttMicros (ut_base u)) (ut_relStore u)) u.

(** ** The handshake *)
Record handshake := {
  hk_lastSent : instant;
  hk_sentAttempts : Z;
  hk_chunks : list (HandshakeFinishMessage * QdbData);
  hk_unexpected : list QunetMessage;
  hk_out : HandshakeFinishMessage;
}.

Definition failure {A} (reason : string) : TransportResult A := Err (TE_HandshakeFailure (str reason)).

(** [memcpy] of a chunk that is in bounds. *)
Definition write_at (offset : Z) (bs l : list Z) : list Z :=
  ztake offset l ++ bs ++ zdrop (offset + len bs) l.

Fixpoint combine_chunks (compressedSize : Z) (chunks : list QdbData) (combinedData : list Z) : TransportResult (list Z) :=
  match chunks with
  | [] => Ok combinedData
  | c :: chunks =>
      _ ← qn_assert (len (qd_chunkData c) =? qd_chunkSize c);
      if (compressedSize <? qd_chunkOffset c) || (compressedSize <? u32 (qd_chunkOffset c + qd_chunkSize c))
      then failure "Qdb chunk data out of bounds"
      else combine_chunks compressedSize chunks (write_at (qd_chunkOffset c) (qd_chunkData c) combinedData)
  end.

Definition first_chunk (msg : HandshakeFinishMessage) (q : QdbData) : HandshakeFinishMessage :=
  {| hf_connectionId := hf_connectionId msg;
     hf_qdbData := Some {| qd_uncompressedSize := qd_uncompressedSize q; qd_compressedSize := qd_compressedSize q;
                           qd_chunkOffset := 0; qd_chunkSize := 0; qd_chunkData := [] |} |}.

Definition set_chunks (chunks : list (HandshakeFinishMessage * QdbData)) (out : HandshakeFinishMessage) (h : handshake) : handshake :=
  {| hk_lastSent := hk_lastSent h; hk_sentAttempts := hk_sentAttempts h; hk_chunks := chunks;
     hk_unexpected := hk_unexpected h; hk_out := out |}.

(** The sizes of the chunks add up: put them together. *)
Definition finish_chunks (h : handshake) : TransportResult (handshake + HandshakeFinishMessage) :=
  match hf_qdbData (hk_out h) with
  | None => Fault UnwrapFailed
  | Some out =>
      let sizeSum := foldl (fun n c => u64 (n + qd_chunkSize c.2)) 0 (hk_chunks h) in
      if negb (sizeSum =? qd_compressedSize out) then Ok (inl h)
      else
        combinedData ← combine_chunks (qd_compressedSize out) ((hk_chunks h).*2)
                         (replicate (Z.to_nat (qd_compressedSize out)) 0);
        Ok (inr {| hf_connectionId := hf_connectionId (hk_out h);
                   hf_qdbData := Some {| qd_uncompressedSize := qd_uncompressedSize out;
                                         qd_compressedSize := qd_compressedSize out;
                                         qd_chunkOffset := 0; qd_chunkSize := qd_compressedSize out;
                                         qd_chunkData := combinedData |} |})
  end.

(** A [HandshakeFinishMessage]: [inl] to go on, [inr] at the end. *)
Definition accept_finish (msg : HandshakeFinishMessage) (h : handshake) : TransportResult (handshake + HandshakeFinishMessage) :=
  match hf_qdbData msg with
  | None => Ok (inr msg)
  | Some q =>
      match hk_chunks h with
      | [] =>
          let h := set_chunks [(msg, q)] (first_chunk msg q) h in
          if 1024 * 1024 <? qd_compressedSize q then failure "Qdb data is too large" else finish_chunks h
      | chunks =>
          if negb (hf_connectionId msg =? hf_connectionId (hk_out h))
          then failure "Mismatch between connection IDs in handshake chunks"
          else if existsb (fun c => qd_chunkOffset c.2 =? qd_chunkOffset q) chunks then Ok (inl h)
          else finish_chunks (set_chunks (chunks ++ [(msg, q)]) (hk_out h) h)
      end
  end.

Definition push_unexpected (m : QunetMessage) (h : handshake) : handshake :=
  {| hk_lastSent := hk_lastSent h; hk_sentAttempts := hk_sentAttempts h; hk_chunks := hk_chunks h;
     hk_unexpected := hk_unexpected h ++ [m]; hk_out := hk_out h |}.

(** A turn of the loop of [performHandshake] at a reading of the clock, with
    the result of [pollTimeout]. *)
Inductive poll_result := PollNothing | PollData | PollError (e : SocketError).

Fixpoint handshake_loop (turns : list (instant * poll_result)) (now_ns : Z) (order : list Z)
    (handshakeStart : HandshakeStartMessage) (h : handshake) : U QunetMessage :=
  match turns with
  | [] => lift (Fault WouldBlock)
  | (now, poll) :: turns =>
      let remTimeout := dsub (fromMillis 750) (since now (hk_lastSent h)) in
      if isZero remTimeout then
        _ ← send now now_ns (MHandshakeStart handshakeStart) false;
        handshake_loop turns now_ns order handshakeStart
          {| hk_lastSent := now; hk_sentAttempts := hk_sentAttempts h + 1; hk_chunks := hk_chunks h;
             hk_unexpected := hk_unexpected h; hk_out := hk_out h |}
      else
        match poll with
        | PollError e => throw (TE_Socket e)
        | PollNothing => handshake_loop turns now_ns order handshakeStart h
        | PollData =>
            chunkmsg ← receiveMessage now order;
            match chunkmsg with
            | MHandshakeFailure _ => mret chunkmsg
            | MHandshakeFinish msg =>
                res ← lift (accept_finish msg h);
                match res with
                | inl h => handshake_loop turns now_ns order handshakeStart h
                | inr out =>
                    _ ← modify (set_pending (hk_unexpected h));
                    mret (MHandshakeFinish out)
                end
            | _ => handshake_loop turns now_ns order handshakeStart (push_unexpected chunkmsg h)
            end
        end
  end.

Definition performHandshake (now : instant) (turns : list (instant * poll_result)) (now_ns : Z) (order : list Z)
    (handshakeStart : HandshakeStartMessage) : U QunetMessage :=
  _ ← send now now_ns (MHandshakeStart handshakeStart) false;
  handshake_loop turns now_ns order handshakeStart
    {| hk_lastSent := now; hk_sentAttempts := 1; hk_chunks := []; hk_unexpected := [];
       hk_out := {| hf_connectionId := 0; hf_qdbData := None |} |}.
End Udp.
