(* ===== verification/UdpSend.v ===== *)
(** * UdpTransport: from a message to datagrams and back

    What [doSendUnfragmentedData] puts on the network: datagrams of at most the
    MTU, whose payloads are the data of the message, cut in order; and that the
    receiver's [decodeMeta] and fragment store turn them, in whatever order they
    arrive, into the message. *)
From Stdlib Require Import SpecFloat.
From S2P Require Import Prelude Dbuf Messages Codec CodecSpec Time Errors.
From S2P Require Import Effects Fragment Reliable Compress Padding Transport Udp.

#[local] Arguments decodeMeta : simpl never.
#[local] Arguments Z.land : simpl never.
#[local] Arguments Z.lor : simpl never.

(** ** Cutting *)
Fixpoint pieces (fuel : nat) (size : Z) (l : list Z) : list (list Z) :=
  match fuel, l with
  | O, _ | _, [] => []
  | S fuel, _ => ztake size l :: pieces fuel size (zdrop size l)
  end.

Lemma pieces_nil fuel size : pieces fuel size [] = [].
Proof. by destruct fuel. Qed.

Lemma concat_pieces fuel size l : 0 < size -> (length l <= fuel)%nat -> concat (pieces fuel size l) = l.
Proof.
  intros Hs. revert l. induction fuel as [|fuel IH]; intros l Hl; [by destruct l; [|cbn in Hl; lia]|].
  destruct l as [|x l]; [done|]. cbn [pieces concat]. rewrite IH; [apply ztake_zdrop|].
  unfold zdrop. rewrite length_drop. cbn [length] in *. lia.
Qed.

Lemma pieces_bound fuel size l : 0 < size -> Forall (fun c => 1 <= len c <= size) (pieces fuel size l).
Proof.
  intros Hs. revert l. induction fuel as [|fuel IH]; intros l; [constructor|].
  destruct l as [|x l]; [constructor|]. constructor; [|apply IH]. rewrite len_ztake_max. cbn [length]. lia.
Qed.

Lemma length_pieces fuel size l : 0 < size -> len (pieces fuel size l) * size < len l + size.
Proof.
  intros Hs. revert l. induction fuel as [|fuel IH]; intros l; [cbn; lia|].
  destruct l as [|x l]; [cbn; lia|]. cbn [pieces]. rewrite length_cons. specialize (IH (zdrop size (x :: l))).
  rewrite len_zdrop_max in IH. rewrite Nat2Z.inj_succ. destruct (Z.le_gt_cases size (len (x :: l))).
  - nia.
  - rewrite zdrop_ge, pieces_nil by lia. cbn [length]. lia.
Qed.

Section Send.
Context {T : TimeLib} {CL : CompressionLib} `{WL : ByteWriterLaws, RL : ByteReaderLaws}.

(** ** One fragment *)
Definition fragment_header_byte (msg : DataMessage) (isFirst : bool) : Z :=
  Z.lor (data_header_byte msg (negb isFirst)) MSG_DATA_FRAGMENTATION_MASK.

Definition fragment_bytes (msg : DataMessage) (connectionId id index : Z) (isLast : bool) (chunk : list Z) : list Z :=
  let isFirst := index =? 0 in
  fragment_header_byte msg isFirst ::
  (if isFirst then comp_bytes (dm_compHeader msg) ++ conn_bytes connectionId ++ rel_bytes (dm_relHeader msg)
   else conn_bytes connectionId) ++
  frag_bytes (Some {| fh_messageId := id; fh_fragmentIndex := index; fh_lastFragment := isLast |}) ++ chunk.

Lemma data_header_byte_range msg omit : 0 <= Z.lor (data_header_byte msg omit) MSG_DATA_FRAGMENTATION_MASK < 256.
Proof.
  unfold data_header_byte. destruct omit; [by vm_compute|].
  destruct (dm_compHeader msg) as [[[] n]|], (dm_relHeader msg); by vm_compute.
Qed.

Lemma fragment_datagram_spec msg connectionId id index isLast chunk :
  0 <= index < 2 ^ 15 ->
  exists w, fragment_datagram msg connectionId id index isLast chunk = Ok w /\
    written w = fragment_bytes msg connectionId id index isLast chunk.
Proof.
  intros Hindex. unfold fragment_datagram.
  destruct (encodeDataHeader_written msg connectionId (negb (index =? 0)) new_writer) as (w & -> & Hw).
  rewrite written_new in Hw. cbn [unwrap mbind result_bind]. rewrite Hw. cbn [app data_header_bytes].
  assert (Hlen : 0 + 1 <= len (written w)) by (rewrite Hw; unfold data_header_bytes; cbn [length app]; lia).
  unfold data_header_bytes. cbn [mbind result_bind].
  set (b := Z.lor (data_header_byte msg _) _).
  destruct (performAtU8_law 0 b w ltac:(lia) Hlen) as (w' & -> & Hw').
  eexists. split; [reflexivity|]. rewrite writeBytes_law, !writeU16_law, Hw', Hw.
  unfold patch, data_header_bytes. rewrite le_split_1 by apply data_header_byte_range.
  rewrite ztake_0 by lia. unfold zdrop. cbn [app length Z.of_nat Z.add Z.to_nat Pos.to_nat Pos.iter_op drop].
  unfold fragment_bytes, fragment_header_byte, frag_bytes. cbn [fh_messageId fh_fragmentIndex fh_lastFragment].
  rewrite <- !app_assoc. rewrite u_small.
  2: { change MSG_DATA_LAST_FRAGMENT_MASK with (2 ^ 15).
       destruct (flag_split index 15 isLast Hindex) as (? & _). change (15 + 1) with 16 in *. lia. }
  change (drop (Pos.to_nat 1)) with (@drop Z 1). cbn [drop].
  by destruct (index =? 0).
Qed.

(** Fragments are decoded to their place and their part of the data. *)
Definition fragment_offset (msg : DataMessage) (connectionId : Z) (i : nat) : Z :=
  (if negb (connectionId =? 0) then 9 else 1) + (if bool_decide (i = 0%nat) then compHdrSize msg + relHdrSize msg else 0) + 4.

Lemma fragment_decoded msg connectionId id (i : nat) isLast chunk udp :
  wf_data msg -> (connectionId <> 0 -> dm_compHeader msg = None) -> u16_ok id -> Z.of_nat i < 2 ^ 15 ->
  decodeMeta (fragment_bytes msg connectionId id (Z.of_nat i) isLast chunk) udp (negb (connectionId =? 0)) =
  Ok {| mm_type := MSG_DATA;
        mm_compressionHeader := if bool_decide (i = 0%nat) then dm_compHeader msg else None;
        mm_reliabilityHeader := if bool_decide (i = 0%nat) then dm_relHeader msg else None;
        mm_fragmentationHeader :=
          Some {| fh_messageId := id; fh_fragmentIndex := Z.of_nat i; fh_lastFragment := isLast |};
        mm_data := chunk; mm_dataOffset := fragment_offset msg connectionId i |}.
Proof.
  intros [Hc Hr] Hconn Hid Hi. set (fh := {| fh_messageId := id |}).
  pose proof (conn_bytes_length connectionId) as Hlen.
  assert (Hg : wf_frag (Some fh)) by (split; [done|]; cbn; lia).
  unfold fragment_bytes, fragment_offset, fragment_header_byte. fold fh.
  rewrite <- (app_nil_r chunk) at 1. destruct i as [|i].
  - rewrite bool_decide_eq_true_2 by done. change (Z.of_nat 0) with 0. rewrite Z.eqb_refl. cbn [negb].
    assert (Hb : comp_bytes (dm_compHeader msg) ++ conn_bytes connectionId ++ rel_bytes (dm_relHeader msg) =
      conn_bytes connectionId ++ comp_bytes (dm_compHeader msg) ++ rel_bytes (dm_relHeader msg)).
    { unfold conn_bytes. destruct (Z.eqb_spec connectionId 0) as [|Hne]; [done|]. by rewrite (Hconn Hne). }
    rewrite Hb, <- !app_assoc.
    rewrite (decodeMeta_build _ _ (dm_compHeader msg) (dm_relHeader msg) (Some fh) false chunk [] udp) by
      first [done | apply (data_header_flags msg (Some fh) Hc)].
    do 2 f_equal. unfold relHdrSize, compHdrSize, rel_size, if_present.
    destruct (dm_compHeader msg), (dm_relHeader msg); lia.
  - rewrite bool_decide_eq_false_2 by done. rewrite (proj2 (Z.eqb_neq _ 0)) by lia. cbn [negb].
    pose proof (data_header_flags {| dm_data := []; dm_compHeader := None; dm_relHeader := None |} (Some fh) I) as Hf.
    cbn [dm_compHeader dm_relHeader] in Hf.
    pose proof (decodeMeta_build _ (conn_bytes connectionId) None None (Some fh) false chunk [] udp
      (negb (connectionId =? 0)) Hf I I Hg Hlen eq_refl) as H.
    cbn [comp_bytes rel_bytes app] in H. etransitivity; [exact H|].
    do 2 f_equal. cbn. lia.
Qed.

(** ** The loop *)
Lemma send_unless_lost_lossless data u :
  lossless (ut_net u) -> send_unless_lost data u = (Ok tt, set_net (sending [data] (ut_net u)) u).
Proof.
  intros Hl. unfold send_unless_lost. erewrite bind_run by (by apply shouldLosePacket_lossless).
  unfold in_net, focus. rewrite socket_send_lossless by done. by destruct u.
Qed.

(** [sent ds u u']: the datagrams [ds] have been handed to the network, and
    nothing else has changed but the statistics. *)
Definition sent (ds : list (list Z)) (u u' : UdpTransport) : Prop :=
  exists f, u' = set_base (set_tracker f (ut_base u)) (set_net (sending ds (ut_net u)) u).

Lemma sent_nil u : sent [] u u.
Proof. exists id. rewrite sending_nil. by destruct u as [[]]. Qed.

Lemma sent_trans ds ds' u u1 u2 : sent ds u u1 -> sent ds' u1 u2 -> sent (ds ++ ds') u u2.
Proof. intros [f ->] [g ->]. exists (fun t => g (f t)). by rewrite <- sending_app. Qed.

Lemma sent_lossless ds u u' : sent ds u u' -> lossless (ut_net u) -> lossless (ut_net u').
Proof. intros [f ->] H. exact H. Qed.

Lemma sent_mtu ds u u' : sent ds u u' -> ut_mtu u' = ut_mtu u.
Proof. by intros [f ->]. Qed.

Lemma sent_connection ds u u' : sent ds u u' -> bt_connectionId (ut_base u') = bt_connectionId (ut_base u).
Proof. by intros [f ->]. Qed.

Fixpoint datagrams (msg : DataMessage) (connectionId id index : Z) (chunks : list (list Z)) : list (list Z) :=
  match chunks with
  | [] => []
  | c :: cs =>
      fragment_bytes msg connectionId id index (match cs with [] => true | _ => false end) c
      :: datagrams msg connectionId id (index + 1) cs
  end.

Definition restPayload := UDP_SAFE_MTU - fragHdrSize - commonHdrSize.
Definition firstPayload (msg : DataMessage) := restPayload - relHdrSize msg - compHdrSize msg.

Lemma relHdrSize_bound msg : wf_data msg -> 0 <= relHdrSize msg <= 20.
Proof.
  intros [_ Hr]. unfold relHdrSize. destruct (dm_relHeader msg) as [h|]; [|lia].
  destruct Hr as (_ & acks & ? & _ & -> & _). lia.
Qed.

Lemma compHdrSize_bound msg : 0 <= compHdrSize msg <= 4.
Proof. unfold compHdrSize. destruct (dm_compHeader msg); lia. Qed.

Lemma firstPayload_bound msg : wf_data msg -> 1163 <= firstPayload msg <= restPayload.
Proof.
  intros Hwf. pose proof (relHdrSize_bound msg Hwf). pose proof (compHdrSize_bound msg).
  unfold firstPayload, restPayload, UDP_SAFE_MTU, fragHdrSize, commonHdrSize. lia.
Qed.

Definition payload_at (msg : DataMessage) (index : Z) : Z := if index =? 0 then firstPayload msg else restPayload.

Lemma payload_at_bound msg index : wf_data msg -> 0 < payload_at msg index <= restPayload.
Proof.
  intros Hwf. pose proof (firstPayload_bound msg Hwf). unfold payload_at. destruct (_ =? _); [lia|].
  unfold restPayload, UDP_SAFE_MTU, fragHdrSize, commonHdrSize. lia.
Qed.

(** One turn. *)
Lemma send_fragment_step fuel now msg id index rest u :
  wf_data msg -> ut_mtu u = UDP_SAFE_MTU -> lossless (ut_net u) -> rest <> [] -> 0 <= index < 2 ^ 15 ->
  let size := payload_at msg index in
  exists u', sent [fragment_bytes msg (bt_connectionId (ut_base u)) id index (len rest <=? size) (ztake size rest)] u u' /\
    send_fragments (S fuel) now msg id index rest u =
    send_fragments fuel now msg id (index + 1) (zdrop size rest) u'.
Proof.
  intros Hwf Hmtu Hl Hne Hindex size.
  pose proof (payload_at_bound msg index Hwf) as Hsize. fold size in Hsize.
  assert (Hpay : (if index =? 0 then u64 (UDP_SAFE_MTU - relHdrSize msg - compHdrSize msg - fragHdrSize - commonHdrSize)
                  else u64 (UDP_SAFE_MTU - fragHdrSize - commonHdrSize)) = size).
  { unfold size, payload_at, firstPayload, restPayload, UDP_SAFE_MTU, fragHdrSize, commonHdrSize in *.
    pose proof (relHdrSize_bound msg Hwf). pose proof (compHdrSize_bound msg).
    destruct (index =? 0); rewrite u_small by lia; lia. }
  assert (Htake : ztake (Z.min size (len rest)) rest = ztake size rest).
  { destruct (Z.le_gt_cases size (len rest)); [by rewrite Z.min_l by lia|]. by rewrite Z.min_r, !ztake_ge by lia. }
  assert (Hdrop : zdrop (len (ztake size rest)) rest = zdrop size rest).
  { rewrite len_ztake_max. destruct (Z.le_gt_cases size (len rest)); [by rewrite Z.max_r, Z.min_l by lia|].
    by rewrite !zdrop_ge by lia. }
  destruct (fragment_datagram_spec msg (bt_connectionId (ut_base u)) id index (len rest <=? size) (ztake size rest) Hindex)
    as (w & Hw & Hwr).
  eexists. split; [|cbn [send_fragments]; destruct rest as [|x rest0] eqn:E; [done|]; rewrite <- E in *].
  2: { run_step. run_step. rewrite Hmtu, Hpay, Htake, Hdrop. erewrite bind_run by (unfold lift; by rewrite Hw).
       erewrite bind_run by (by apply send_unless_lost_lossless).
       unfold in_base. erewrite bind_run by reflexivity. cbn [focus modify]. rewrite Hwr. reflexivity. }
  eexists. by destruct u.
Qed.

(** The last fragment is the one after which no piece is left. *)
Lemma last_piece fuel size rest :
  0 < size -> (length (zdrop size rest) <= fuel)%nat ->
  (len rest <=? size) = match pieces fuel restPayload (zdrop size rest) with [] => true | _ => false end.
Proof.
  intros Hs Hfuel. destruct (Z.leb_spec (len rest) size) as [Hle|Hgt].
  - by rewrite zdrop_ge, pieces_nil by done.
  - assert (Hlen : 0 < len (zdrop size rest)) by (rewrite len_zdrop_max; lia).
    destruct fuel; [lia|]. by destruct (zdrop size rest).
Qed.

Lemma send_fragments_spec fuel now msg id index rest u :
  wf_data msg -> ut_mtu u = UDP_SAFE_MTU -> lossless (ut_net u) ->
  (length rest < fuel)%nat -> 1 <= index -> index + len (pieces fuel restPayload rest) <= 2 ^ 15 ->
  exists u', send_fragments fuel now msg id index rest u = (Ok tt, u') /\
    sent (datagrams msg (bt_connectionId (ut_base u)) id index (pieces fuel restPayload rest)) u u'.
Proof.
  intros Hwf Hmtu Hl. revert index rest u Hmtu Hl.
  induction fuel as [|fuel IH]; intros index rest u Hmtu Hl Hfuel H1 Hindex; [lia|].
  destruct rest as [|x rest0] eqn:E; [exists u; split; [done|apply sent_nil]|]. rewrite <- E in *.
  assert (Hpos : 0 < len rest) by (subst; cbn [length]; lia).
  assert (Hpieces : pieces (S fuel) restPayload rest = ztake restPayload rest :: pieces fuel restPayload (zdrop restPayload rest))
    by by rewrite E.
  rewrite Hpieces in *. cbn [length] in Hindex.
  destruct (send_fragment_step fuel now msg id index rest u Hwf Hmtu Hl ltac:(by subst) ltac:(lia)) as (u1 & Hs1 & ->).
  unfold payload_at in *. rewrite (proj2 (Z.eqb_neq index 0)) in * by lia.
  assert (Hlen : (length (zdrop restPayload rest) < fuel)%nat).
  { enough (len (zdrop restPayload rest) < len rest) by lia. rewrite len_zdrop_max.
    unfold restPayload, UDP_SAFE_MTU, fragHdrSize, commonHdrSize. lia. }
  destruct (IH (index + 1) (zdrop restPayload rest) u1) as (u' & -> & Hs); [by rewrite (sent_mtu _ _ _ Hs1)|
    by eapply sent_lossless|done|lia|lia|].
  exists u'. split; [done|]. rewrite (sent_connection _ _ _ Hs1) in Hs.
  cbn [datagrams]. rewrite <- (last_piece fuel restPayload rest) by (done || lia).
  by apply (sent_trans [_] _ u u1 u').
Qed.

(** ** The whole message *)
Definition chunks_of (msg : DataMessage) : list (list Z) :=
  let data := dm_data msg in
  ztake (firstPayload msg) data :: pieces (length data) restPayload (zdrop (firstPayload msg) data).

Definition fits (msg : DataMessage) : bool :=
  commonHdrSize + relHdrSize msg + compHdrSize msg + len (dm_data msg) <=? UDP_SAFE_MTU.

Lemma concat_chunks_of msg : wf_data msg -> concat (chunks_of msg) = dm_data msg.
Proof.
  intros Hwf. unfold chunks_of. cbn [concat]. rewrite concat_pieces; [apply ztake_zdrop|done|].
  unfold zdrop. rewrite length_drop. lia.
Qed.

Lemma length_chunks_of msg : wf_data msg -> len (dm_data msg) <= 2 ^ 25 -> len (chunks_of msg) <= 2 ^ 15.
Proof.
  intros Hwf Hlen. unfold chunks_of. cbn [length].
  pose proof (length_pieces (length (dm_data msg)) restPayload (zdrop (firstPayload msg) (dm_data msg)) ltac:(done)) as H.
  rewrite len_zdrop_max in H. pose proof (firstPayload_bound msg Hwf).
  unfold restPayload, UDP_SAFE_MTU, fragHdrSize, commonHdrSize in *. lia.
Qed.

Lemma send_all_fragments now msg id u :
  wf_data msg -> ut_mtu u = UDP_SAFE_MTU -> lossless (ut_net u) -> fits msg = false -> len (dm_data msg) <= 2 ^ 25 ->
  exists u', send_fragments (S (length (dm_data msg))) now msg id 0 (dm_data msg) u = (Ok tt, u') /\
    sent (datagrams msg (bt_connectionId (ut_base u)) id 0 (chunks_of msg)) u u'.
Proof.
  intros Hwf Hmtu Hl Hfits Hlen. apply Z.leb_gt in Hfits.
  pose proof (relHdrSize_bound msg Hwf). pose proof (compHdrSize_bound msg).
  pose proof (firstPayload_bound msg Hwf) as Hfirst. pose proof (length_chunks_of msg Hwf Hlen) as Hn.
  unfold commonHdrSize, UDP_SAFE_MTU in Hfits.
  assert (Hne : dm_data msg <> []) by (intros E; rewrite E in Hfits; cbn in Hfits; lia).
  destruct (send_fragment_step (length (dm_data msg)) now msg id 0 (dm_data msg) u Hwf Hmtu Hl Hne ltac:(lia)) as (u1 & Hs1 & ->).
  unfold payload_at in *. cbn [Z.eqb] in *. unfold chunks_of in Hn. cbn [length] in Hn.
  assert (Hdrop : (length (zdrop (firstPayload msg) (dm_data msg)) < length (dm_data msg))%nat).
  { enough (len (zdrop (firstPayload msg) (dm_data msg)) < len (dm_data msg)) by lia. rewrite len_zdrop_max. lia. }
  destruct (send_fragments_spec (length (dm_data msg)) now msg id (0 + 1) (zdrop (firstPayload msg) (dm_data msg)) u1 Hwf)
    as (u' & -> & Hs); [by rewrite (sent_mtu _ _ _ Hs1)|by eapply sent_lossless|done|lia|lia|].
  exists u'. split; [done|]. rewrite (sent_connection _ _ _ Hs1) in Hs.
  cbn [datagrams chunks_of]. rewrite <- (last_piece (length (dm_data msg)) (firstPayload msg)) by lia.
  by apply (sent_trans [_] _ u u1 u').
Qed.

Lemma datagrams_lookup msg connectionId id index cs i :
  datagrams msg connectionId id index cs !! i =
  (fun c => fragment_bytes msg connectionId id (index + Z.of_nat i) (bool_decide (S i = length cs)) c) <$> cs !! i.
Proof.
  revert index i. induction cs as [|c cs IH]; intros index i; [done|]. destruct i as [|i]; cbn [datagrams lookup list_lookup].
  - cbn. rewrite Z.add_0_r. do 2 f_equal. by destruct cs.
  - change (datagrams msg connectionId id (index + 1) cs !! i = (fun c => fragment_bytes msg connectionId id (index + Z.of_nat (S i)) (bool_decide (S (S i) = S (length cs))) c) <$> (cs !! i)).
    rewrite IH. replace (index + 1 + Z.of_nat i) with (index + Z.of_nat (S i)) by lia.
    destruct (cs !! i); cbn; [|done]. do 2 f_equal. apply bool_decide_ext. lia.
Qed.

Lemma length_datagrams msg connectionId id index cs : length (datagrams msg connectionId id index cs) = length cs.
Proof. revert index. induction cs; intros; cbn; auto. Qed.

(** ** The receiver *)
(** A datagram that is one data message, on the receiver's side. *)
Definition receive_datagram (server : bool) (now : instant) (order : list Z) (d : list Z) (s : FragmentStore)
    : TransportResult (option QunetMessageMeta) * FragmentStore :=
  match decode_error (decodeMeta d true server) with
  | Ok meta => processFragment now order meta s
  | Err e => (Err e, s)
  | Fault f => (Fault f, s)
  end.

(** The datagram [ds !! i] arrives at a time, the map being walked in an order. *)
Abbreviation arrival := (instant * list Z * nat)%type.

Fixpoint receive_datagrams (server : bool) (ds : list (list Z)) (arrivals : list arrival) (s : FragmentStore)
    : list (TransportResult (option QunetMessageMeta)) * FragmentStore :=
  match arrivals with
  | [] => ([], s)
  | (now, order, i) :: arrivals =>
      let '(res, s) := receive_datagram server now order (nth i ds []) s in
      let '(results, s) := receive_datagrams server ds arrivals s in
      (res :: results, s)
  end.

Definition to_event (a : arrival) : event := let '(now, order, i) := a in Ours now order i.

Definition message_of (msg : DataMessage) : QunetMessageMeta :=
  {| mm_type := 0; mm_compressionHeader := dm_compHeader msg; mm_reliabilityHeader := dm_relHeader msg;
     mm_fragmentationHeader := None; mm_data := dm_data msg; mm_dataOffset := 0 |}.

Section Receive.
Variable msg : DataMessage.
Variables (connectionId id : Z).
Hypothesis Hwf : wf_data msg.
Hypothesis Hconn : connectionId <> 0 -> dm_compHeader msg = None.
Hypothesis Hid : u16_ok id.
Hypothesis Hlen : len (dm_data msg) <= 2 ^ 25.
Let chunks := chunks_of msg.
Let ds := datagrams msg connectionId id 0 chunks.
Let meta := fragment_meta id chunks (dm_compHeader msg) (dm_relHeader msg) (fragment_offset msg connectionId).

Lemma datagram_decoded udp i :
  (i < length chunks)%nat -> decodeMeta (nth i ds []) udp (negb (connectionId =? 0)) = Ok (meta i).
Proof using Hwf Hconn Hid Hlen RL.
  intros Hi. pose proof (length_chunks_of msg Hwf Hlen) as Hn. fold chunks in Hn.
  destruct (lookup_lt_is_Some_2 chunks i Hi) as [c Hc].
  assert (Hd : ds !! i = Some (fragment_bytes msg connectionId id (Z.of_nat i) (bool_decide (S i = length chunks)) c)).
  { unfold ds. rewrite datagrams_lookup, Hc. cbn. by rewrite Z.add_0_l. }
  rewrite (nth_lookup_Some _ _ _ _ Hd), fragment_decoded by (done || lia).
  unfold meta, fragment_meta, fragment_header. by rewrite (nth_lookup_Some _ _ _ _ Hc).
Qed.

Lemma receive_datagrams_events arrivals s :
  Forall (fun a : arrival => (a.2 < length chunks)%nat) arrivals ->
  receive_datagrams (negb (connectionId =? 0)) ds arrivals s =
  receive_events id chunks (dm_compHeader msg) (dm_relHeader msg) (fragment_offset msg connectionId) (to_event <$> arrivals) s.
Proof using Hwf Hconn Hid Hlen RL.
  intros Ha. revert s. induction Ha as [|[[now order] i] arrivals Hi Ha IH]; intros s; [done|].
  cbn [receive_datagrams fmap list_fmap to_event receive_events receive_event]. cbn in Hi.
  unfold receive_datagram. rewrite datagram_decoded by done. cbn [decode_error map_err].
  unfold meta. destruct (processFragment _ _ _ s) as [res s']. by rewrite IH.
Qed.

Lemma datagram_size : Forall (fun d => len d <= UDP_SAFE_MTU) ds.
Proof using Hwf Hconn Hid Hlen WL RL.
  pose proof (relHdrSize_bound msg Hwf). pose proof (compHdrSize_bound msg).
  apply Forall_lookup. intros i d Hd. unfold ds in Hd. rewrite datagrams_lookup in Hd.
  destruct (chunks !! i) as [c|] eqn:Hc; [|done]. injection Hd as <-.
  assert (Hconnlen : len (conn_bytes connectionId) <= 8) by (rewrite conn_bytes_length; destruct (_ =? _); cbn; lia).
  assert (Hrel : len (rel_bytes (dm_relHeader msg)) = relHdrSize msg) by (apply rel_bytes_length, Hwf).
  assert (Hcomp : len (comp_bytes (dm_compHeader msg)) = compHdrSize msg)
    by (unfold compHdrSize; destruct (dm_compHeader msg); cbn; by rewrite ?length_le_split).
  unfold fragment_bytes, frag_bytes. destruct i as [|i].
  - unfold chunks, chunks_of in Hc. cbn in Hc. injection Hc as <-.
    change (0 + Z.of_nat 0 =? 0) with true. cbn [length].
    pose proof (len_ztake_max (firstPayload msg) (dm_data msg)). pose proof (firstPayload_bound msg Hwf).
    rewrite !length_app, !length_le_split in *.
    unfold firstPayload, restPayload, UDP_SAFE_MTU, fragHdrSize, commonHdrSize in *. lia.
  - rewrite (proj2 (Z.eqb_neq _ 0)) by lia. cbn [length]. rewrite !length_app, !length_le_split.
    assert (1 <= len c <= restPayload) as Hc'.
    { unfold chunks, chunks_of in Hc. cbn in Hc.
      by apply (Forall_lookup_1 _ _ _ _ (pieces_bound (length (dm_data msg)) restPayload _ ltac:(done)) Hc). }
    unfold restPayload, UDP_SAFE_MTU, fragHdrSize, commonHdrSize in *. lia.
Qed.
End Receive.

(** Sending a message that does not fit in a datagram. *)
Lemma send_fragmented now msg ctx retransmission u :
  wf_data msg -> ut_mtu u = UDP_SAFE_MTU -> lossless (ut_net u) ->
  fits msg = false -> len (dm_data msg) <= 2 ^ 25 -> len (rs_localUnacked (ut_relStore u)) < 64 ->
  exists ctx' u', doSendUnfragmentedData now msg ctx retransmission u = (Ok ctx', u') /\
    ut_net u' = sending (datagrams msg (bt_connectionId (ut_base u)) (fs_nextMessageId (ut_fragStore u)) 0 (chunks_of msg))
                  (ut_net u).
Proof.
  intros Hwf Hmtu Hl Hfits Hlen Hroom. unfold doSendUnfragmentedData. cbn zeta.
  set (reliable := match dm_relHeader msg with Some _ => _ | None => _ end).
  run_step. rewrite Hmtu. unfold fits in Hfits. rewrite Hfits.
  set (id := fs_nextMessageId (ut_fragStore u)).
  set (u1 := set_frag {| fs_messages := fs_messages (ut_fragStore u); fs_nextMessageId := u16 (id + 1) |} u).
  erewrite (bind_run _ _ u id u1) by reflexivity.
  destruct (send_all_fragments now msg id u1 Hwf Hmtu Hl Hfits Hlen) as (u2 & Hsend & f & ->).
  erewrite bind_run by exact Hsend. clear Hsend.
  assert (exists r, when reliable (in_rel (update (pushLocalUnacked now (MData msg))))
    (set_base (set_tracker f (ut_base u1)) (set_net (sending (datagrams msg (bt_connectionId (ut_base u1)) id 0 (chunks_of msg))
      (ut_net u1)) u1)) = (Ok tt, set_rel r (set_base (set_tracker f (ut_base u1))
      (set_net (sending (datagrams msg (bt_connectionId (ut_base u1)) id 0 (chunks_of msg)) (ut_net u1)) u1)))) as (r & Hr).
  { unfold when, in_rel, focus, update, pushLocalUnacked.
    destruct reliable eqn:Er; [|exists (ut_relStore u); reflexivity]. cbn [ut_relStore set_base set_net u1 set_frag].
    rewrite (proj2 (Z.leb_gt _ _)) by lia. unfold reliable in Er.
    destruct msg as [data comp [h|]]; [|done]. cbn in *. eauto. }
  erewrite bind_run by exact Hr. run_step. do 2 eexists. split; [reflexivity|]. reflexivity.
Qed.

(** C2. A message of up to 32 MiB that does not fit in a datagram, and that has no
    compression header if the connection has an identifier (with one it would be
    misread: [CodecSpec.compressed_with_connection_id_misread]), reaches its
    receiver.  When the simulation of loss is off and the socket takes what is sent,
    it is sent in datagrams of at most the MTU; and at a receiver that holds nothing
    under the identifier, if each datagram arrives, and all of them within the ten
    seconds after which fragments expire, whatever their order, duplicates included,
    every one but the one that completes the set gives nothing, and that one gives
    the message: the data, the compression header and the reliability header. *)
Theorem fragmented_message_delivered now msg ctx retransmission u :
  let connectionId := bt_connectionId (ut_base u) in
  let server := negb (connectionId =? 0) in
  wf_data msg -> (connectionId <> 0 -> dm_compHeader msg = None) ->
  ut_mtu u = UDP_SAFE_MTU -> lossless (ut_net u) -> fits msg = false -> len (dm_data msg) <= 2 ^ 25 ->
  u16_ok (fs_nextMessageId (ut_fragStore u)) -> len (rs_localUnacked (ut_relStore u)) < 64 ->
  exists ds ctx' u', doSendUnfragmentedData now msg ctx retransmission u = (Ok ctx', u') /\
    ut_net u' = sending ds (ut_net u) /\ Forall (fun d => len d <= UDP_SAFE_MTU) ds /\
    forall (arrivals : list arrival) (last : arrival) (s : FragmentStore),
      store_inv (fs_messages s) -> fs_messages s !! fs_nextMessageId (ut_fragStore u) = None ->
      Forall (fun a : arrival => walks_all a.1.2 /\ (a.2 < length ds)%nat) (last :: arrivals) ->
      timely ((fun a : arrival => a.1.1) <$> last :: arrivals) ->
      last.2 ∉ arrivals.*2 -> (forall i, (i < length ds)%nat -> i <> last.2 -> i ∈ arrivals.*2) ->
      let '(results, s1) := receive_datagrams server ds arrivals s in
      let '(res, s2) := receive_datagram server last.1.1 last.1.2 (nth last.2 ds []) s1 in
      Forall (fun r => r = Ok None) results /\ res = Ok (Some (message_of msg)) /\
      fs_messages s2 !! fs_nextMessageId (ut_fragStore u) = None.
Proof.
  cbn zeta. set (connectionId := bt_connectionId (ut_base u)). set (id := fs_nextMessageId (ut_fragStore u)).
  intros Hwf Hconn Hmtu Hl Hfits Hlen Hid Hroom.
  destruct (send_fragmented now msg ctx retransmission u Hwf Hmtu Hl Hfits Hlen Hroom) as (ctx' & u' & Hsend & Hnet).
  fold connectionId id in Hnet.
  exists (datagrams msg connectionId id 0 (chunks_of msg)), ctx', u'.
  split; [done|]. split; [done|]. split; [by apply datagram_size|].
  rewrite length_datagrams. intros arrivals [[t order] j] s Hinv Hnone Hall Htimes Hj Hothers.
  apply Forall_cons in Hall as [[Hwalk Hjlt] Hall]. cbn [fst snd] in *.
  rewrite receive_datagrams_events by first [done | eapply Forall_impl; [exact Hall|by intros ? [??]]].
  assert (Hours : ours (to_event <$> arrivals) = arrivals.*2) by (clear; induction arrivals as [|[[??]?]]; cbn; congruence).
  assert (Htimes' : event_time <$> (to_event <$> arrivals) = (fun a : arrival => a.1.1) <$> arrivals)
    by (clear; induction arrivals as [|[[??]?]]; cbn; congruence).
  pose proof (reassembled id (chunks_of msg) (dm_compHeader msg) (dm_relHeader msg) (fragment_offset msg connectionId)
    s (to_event <$> arrivals) t order j) as H.
  rewrite Htimes', Hours in H. specialize (H Hid ltac:(done) Hinv Hnone Htimes).
  destruct (receive_events _ _ _ _ _ _ s) as [results s1] eqn:Eres.
  unfold receive_datagram. rewrite datagram_decoded by done. cbn [decode_error map_err].
  destruct (processFragment t order _ s1) as [res s2]. 
  destruct H as (Hresults & -> & Hgone); [|done|done|done|done|].
  { apply Forall_fmap, (Forall_impl _ _ _ Hall). intros [[??]?] [??]. cbn. done. }
  split; [|split; [|done]].
  - clear - Hresults. remember (to_event <$> arrivals) as es. revert arrivals Heqes.
    induction Hresults as [|e r es results Hr Hresults IH]; intros arrivals Heq; [constructor|].
    destruct arrivals as [|[[??]?] arrivals]; [done|]. injection Heq as -> ->. constructor; [done|by eapply IH].
  - unfold whole_message, message_of. by rewrite concat_chunks_of.
Qed.
End Send.

(** ** A run *)
Definition long_message : DataMessage :=
  {| dm_data := replicate 1300 7; dm_compHeader := None;
     dm_relHeader := Some {| rh_messageId := 4; rh_ackCount := 0; rh_acks := replicate 8 0 |} |}.

Definition example_udp : @UdpTransport nano_time rle_lib :=
  new_UdpTransport (0 : @instant nano_time) None (quiet_net []) example_rng.

Lemma long_message_wf : wf_data long_message.
Proof.
  split; [exact I|]. split; [unfold u16_ok; cbn; lia|]. exists [].
  split; [cbn; lia|]. split; [constructor|]. by split.
Qed.

Lemma fragmented_message_delivered_witness :
  exists ds ctx' u', doSendUnfragmentedData (W := list_writer) (0 : @instant nano_time) long_message (new_context true) false example_udp
      = (Ok ctx', u') /\
    ut_net u' = sending ds (quiet_net []) /\ Forall (fun d => len d <= UDP_SAFE_MTU) ds /\
    forall (arrivals : list (instant * list Z * nat)) (last : instant * list Z * nat) (s : FragmentStore),
      store_inv (fs_messages s) -> fs_messages s !! 1 = None ->
      Forall (fun a : instant * list Z * nat => walks_all a.1.2 /\ (a.2 < length ds)%nat) (last :: arrivals) ->
      timely ((fun a : instant * list Z * nat => a.1.1) <$> last :: arrivals) ->
      last.2 ∉ arrivals.*2 -> (forall i, (i < length ds)%nat -> i <> last.2 -> i ∈ arrivals.*2) ->
      let '(results, s1) := receive_datagrams (R := list_reader) false ds arrivals s in
      let '(res, s2) := receive_datagram (R := list_reader) false last.1.1 last.1.2 (nth last.2 ds []) s1 in
      Forall (fun r => r = Ok None) results /\ res = Ok (Some (message_of long_message)) /\
      fs_messages s2 !! 1 = None.
Proof.
  apply (fragmented_message_delivered (T := nano_time) (CL := rle_lib) (W := list_writer) (R := list_reader)
    (0 : @instant nano_time) long_message (new_context true) false example_udp).
  - exact long_message_wf.
  - intros _. reflexivity.
  - reflexivity.
  - repeat split; reflexivity.
  - reflexivity.
  - vm_compute. discriminate.
  - split; vm_compute; congruence.
  - reflexivity.
Defined.

(** The two datagrams of the message, decoded. *)
Example long_message_datagrams :
  let '(_, u) := doSendUnfragmentedData (W := list_writer) (0 : @instant nano_time) long_message (new_context true) false example_udp in
  (fun d => len d) <$> net_sent (ut_net u) = [1192; 122] /\
  (fun d => fst <$> (decodeMeta (R := list_reader) d true false ≫= fun m => Ok (mm_fragmentationHeader m, tt))) <$> net_sent (ut_net u)
  = [Ok (Some {| fh_messageId := 1; fh_fragmentIndex := 0; fh_lastFragment := false |});
     Ok (Some {| fh_messageId := 1; fh_fragmentIndex := 1; fh_lastFragment := true |})].
Proof. vm_compute. auto. Qed.
