(* ===== verification/UdpTimer.v ===== *)
(** * UdpTransport: the timer

    The loop that sends again ends and leaves nothing to send; a server that
    does not answer is given up; the timer of the transport. *)
From Stdlib Require Import SpecFloat.
From S2P Require Import Prelude Dbuf Messages Codec CodecSpec Time Errors Effects.
From S2P Require Import Fragment Reliable ReliableLocal Stats Compress Padding Transport Udp UdpSend.

(** ** Methods that leave the reliability store alone *)
Section Frame.
Context {T : TimeLib} {CL : CompressionLib} `{W : ByteWriter}.

Abbreviation keeps_rel := (keeps ut_relStore).

Lemma rel_in_base {A} (m : ST BaseTransport A) : keeps_rel (in_base m).
Proof. by apply keeps_outside. Qed.
Lemma rel_in_net {A} (m : ST Net A) : keeps_rel (in_net m).
Proof. by apply keeps_outside. Qed.
Lemma rel_in_frag {A} (m : ST FragmentStore A) : keeps_rel (in_frag m).
Proof. by apply keeps_outside. Qed.
#[local] Hint Resolve rel_in_base rel_in_net rel_in_frag : keeps.

Lemma rel_send_unless_lost data : keeps_rel (send_unless_lost data).
Proof. unfold send_unless_lost, shouldLosePacket. keeps_auto. Qed.
#[local] Hint Resolve rel_send_unless_lost : keeps.

Lemma rel_send_fragments fuel now msg id index rest : keeps_rel (send_fragments fuel now msg id index rest).
Proof. revert index rest. induction fuel as [|fuel IH]; intros index rest; cbn [send_fragments]; keeps_auto. Qed.
#[local] Hint Resolve rel_send_fragments : keeps.

Lemma rel_resend now m : keeps_rel (resend now m true).
Proof.
  unfold resend, doSendUnfragmentedData. destruct m; try apply keeps_lift. cbn zeta.
  set (reliable := match dm_relHeader m with Some _ => _ | None => _ end).
  assert (reliable = false) as -> by (unfold reliable; destruct (dm_relHeader m); [apply andb_false_r|done]).
  unfold when. keeps_auto.
Qed.
End Frame.

(** ** Sending again *)
Section Resend.
Context {T : TimeLib} {TL : TimeLaws T} {CL : CompressionLib} `{W : ByteWriter}.
Variable millis_float : duration -> spec_float.
Variable fromMillis_float : spec_float -> duration.

Abbreviation deadline := (calcRetransmissionDeadline millis_float fromMillis_float).
Abbreviation due := (due millis_float fromMillis_float).
Abbreviation retransmit_due := (retransmit_due millis_float fromMillis_float).

Definition n_due (now : instant) (s : ReliableStore) (l : list UnackedLocalMessage) : nat :=
  length (filter (fun u => due now s u = true) l).

Lemma n_due_app now s l1 l2 : n_due now s (l1 ++ l2) = (n_due now s l1 + n_due now s l2)%nat.
Proof. unfold n_due. by rewrite filter_app, length_app. Qed.

Lemma n_due_cons now s u l : n_due now s (u :: l) = ((if due now s u then 1 else 0) + n_due now s l)%nat.
Proof. unfold n_due. rewrite filter_cons. by destruct (due now s u). Qed.

Lemma n_due_le now s l : (n_due now s l <= length l)%nat.
Proof. apply length_filter. Qed.

(** The deadlines depend on the estimate of the round trip only. *)
Lemma due_set_local now next l s u : due now (set_local next l s) u = due now s u.
Proof. done. Qed.

Lemma n_due_set_local now next l s l' : n_due now (set_local next l s) l' = n_due now s l'.
Proof. done. Qed.

(** Every deadline of the store is longer than nothing. *)
Definition positive_deadlines (s : ReliableStore) : Prop := forall n, isZero (deadline n s) = false.

Lemma sent_again_not_due now s u : positive_deadlines s -> due now s (sent_again now u) = false.
Proof.
  intros Hpos. specialize (Hpos (ul_retransmitAttempts (sent_again now u))).
  unfold ReliableLocal.due. cbn [sent_again ul_sentAt] in *. rewrite dleb_law, since_self. apply Z.leb_gt.
  rewrite isZero_law in Hpos. apply Z.eqb_neq in Hpos. pose proof (nanos_nonneg (deadline (ul_retransmitAttempts u + 1) s)).
  cbn in *. lia.
Qed.

(** A message that is sent again is one due message less. *)
Lemma maybeRetransmit_progress now s m s' :
  positive_deadlines s -> maybeRetransmit millis_float fromMillis_float now s = (Ok (Some m), s') ->
  positive_deadlines s' /\ S (n_due now s' (rs_localUnacked s')) = n_due now s (rs_localUnacked s).
Proof.
  intros Hpos. unfold maybeRetransmit.
  pose proof (retransmit_loop_spec millis_float fromMillis_float now s (rs_localUnacked s)) as H.
  destruct (retransmit_loop _ _ now s (rs_localUnacked s)) as [[[m'|]|e|f] l']; try done.
  destruct H as (l1 & u & l2 & E & -> & Hl1 & Hu & -> & _). intros [= <- <-]. split; [exact Hpos|].
  rewrite n_due_set_local, E. cbn [rs_localUnacked set_local].
  by rewrite !n_due_app, !n_due_cons, sent_again_not_due, Hu by done.
Qed.

Lemma maybeRetransmit_nothing now s s' :
  maybeRetransmit millis_float fromMillis_float now s = (Ok None, s') -> s' = s /\ n_due now s (rs_localUnacked s) = 0%nat.
Proof.
  unfold maybeRetransmit. pose proof (retransmit_loop_spec millis_float fromMillis_float now s (rs_localUnacked s)) as H.
  destruct (retransmit_loop _ _ now s (rs_localUnacked s)) as [[[m'|]|e|f] l']; try done.
  destruct H as [-> H]. intros [= <-]. rewrite ReliableSpec.set_local_id. split; [done|].
  unfold n_due. clear - H. induction H as [|u l Hu H IH]; [done|]. by rewrite filter_cons, Hu.
Qed.

Lemma retransmit_due_unfold fuel now u :
  retransmit_due (S fuel) now u =
  match maybeRetransmit millis_float fromMillis_float now (ut_relStore u) with
  | (Ok None, s) => (Ok tt, set_rel s u)
  | (Ok (Some m), s) => (resend now m true ≫= fun _ => retransmit_due fuel now) (set_rel s u)
  | (Err e, s) => (Err e, set_rel s u)
  | (Fault f, s) => (Fault f, set_rel s u)
  end.
Proof.
  cbn [Udp.retransmit_due]. unfold mbind at 1, ST_bind at 1, in_rel at 1, focus at 1.
  by destruct (maybeRetransmit _ _ now (ut_relStore u)) as [[[m|]|e|f] s].
Qed.

Lemma retransmit_due_fuel fuel fuel' now u :
  positive_deadlines (ut_relStore u) ->
  (n_due now (ut_relStore u) (rs_localUnacked (ut_relStore u)) < fuel)%nat -> (fuel <= fuel')%nat ->
  retransmit_due fuel' now u = retransmit_due fuel now u /\
  forall u', retransmit_due fuel now u = (Ok tt, u') -> n_due now (ut_relStore u') (rs_localUnacked (ut_relStore u')) = 0%nat.
Proof.
  revert fuel' u. induction fuel as [|fuel IH]; intros fuel' u Hpos Hn Hle; [lia|].
  destruct fuel' as [|fuel']; [lia|]. rewrite !retransmit_due_unfold.
  destruct (maybeRetransmit _ _ now (ut_relStore u)) as [[[m|]|e|f] s] eqn:E; [|..|done|done].
  - destruct (maybeRetransmit_progress now _ _ _ Hpos E) as [Hpos' Hn'].
    pose proof (rel_resend (W := W) now m (set_rel s u)) as Hk. unfold mbind, ST_bind.
    destruct (resend now m true (set_rel s u)) as [[[]|e|f] u1]; [|done|done]. cbn in Hk. rewrite <- Hk in *.
    apply IH; [done|lia|lia].
  - destruct (maybeRetransmit_nothing now _ _ E) as [-> H0]. split; [done|]. intros u' [= <-]. exact H0.
Qed.

(** The loop that sends unacknowledged messages again ends: no message is
    sent twice by one run, so that more turns than the transport has messages
    change nothing, and a run that succeeds leaves no message due. *)
Theorem retransmissions_end now u fuel :
  positive_deadlines (ut_relStore u) -> (retransmit_fuel u <= fuel)%nat ->
  retransmit_due fuel now u = retransmit_due (retransmit_fuel u) now u /\
  forall u', retransmit_due (retransmit_fuel u) now u = (Ok tt, u') ->
    forall m, m ∈ rs_localUnacked (ut_relStore u') -> due now (ut_relStore u') m = false.
Proof.
  intros Hpos Hfuel. destruct (retransmit_due_fuel (retransmit_fuel u) fuel now u Hpos) as [H1 H2]; [|done|].
  { unfold retransmit_fuel. pose proof (n_due_le now (ut_relStore u) (rs_localUnacked (ut_relStore u))). lia. }
  split; [done|]. intros u' Hu' m Hm. specialize (H2 u' Hu'). apply nil_length_inv in H2.
  destruct (due now (ut_relStore u') m) eqn:E; [|done].
  assert (m ∈ filter (fun u => due now (ut_relStore u') u = true) (rs_localUnacked (ut_relStore u')))
    as Hin by (by apply list_elem_of_filter).
  rewrite H2 in Hin. by apply not_elem_of_nil in Hin.
Qed.
End Resend.

(** ** A server that does not answer *)
Section Silence.
Context {T : TimeLib} {TL : TimeLaws T} {CL : CompressionLib} `{WL : ByteWriterLaws}.
Variable millis_float : duration -> spec_float.
Variable fromMillis_float : spec_float -> duration.

Abbreviation handleTimerExpiry := (handleTimerExpiry (W := W) millis_float fromMillis_float).

(** Nothing to send again and nothing to acknowledge. *)
Definition idle (u : UdpTransport) : Prop :=
  rs_localUnacked (ut_relStore u) = [] /\ rs_remoteUnacked (ut_relStore u) = [].

Abbreviation unacked u := (bt_unackedKeepalives (ut_base u)).

(** A keepalive is handed to the network in one datagram. *)
Lemma send_keepalive now ns u :
  0 <= ns < 2 ^ 64 -> lossless (ut_net u) ->
  exists d u', send now ns (MKeepalive {| ka_timestamp := 0 |}) false u = (Ok tt, u') /\
    ut_net u' = sending [d] (ut_net u) /\ ut_relStore u' = ut_relStore u /\
    unacked u' = u64 (unacked u + 1) /\ bt_lastActivity (ut_base u') = Some now.
Proof.
  intros Hns Hl. unfold send, sendMessage.
  set (b := updateLastSentKeepalive now (ut_base u)). set (u1 := set_base b u).
  set (msg := MKeepalive {| ka_timestamp := ns |}).
  destruct (encodeControlMsg_written msg MSG_KEEPALIVE (bt_connectionId b) new_writer) as (w & Hw & _); [exact Hns|done|].
  destruct (pad_spec (E := TransportError) (ut_rng u1) w) as (w' & g' & bs & Hpad & _).
  eexists (written w'), _. split.
  { erewrite bind_run; cycle 1.
    { erewrite bind_run by reflexivity. fold b u1. run_step. etransitivity; [apply (bind_run _ _ u1 w u1); unfold lift; f_equal; exact (f_equal encode_error Hw)|].
      run_step. erewrite bind_run by (unfold lift; by rewrite Hpad). cbv beta iota. run_step.
      erewrite bind_run by (by apply send_unless_lost_lossless). run_step. run_step. reflexivity. }
    run_step. reflexivity. }
  repeat split.
Qed.

Lemma timer_idle now ns u :
  idle u -> lossless (ut_net u) -> unacked u <= 5 -> 0 <= ns < 2 ^ 64 -> isZero (untilKeepalive now u) = true ->
  exists d u', handleTimerExpiry now ns u = (Ok tt, u') /\
    ut_net u' = sending [d] (ut_net u) /\ idle u' /\
    unacked u' = u64 (unacked u + 1) /\ bt_lastActivity (ut_base u') = Some now.
Proof.
  intros [Hlocal Hremote] Hl Hn Hns Hdue.
  assert (Hid : set_base (ut_base u) u = u) by by destruct u.
  assert (Hret : maybeRetransmit millis_float fromMillis_float now (ut_relStore u) = (Ok None, ut_relStore u)).
  { unfold maybeRetransmit. rewrite Hlocal. cbn. rewrite <- Hlocal. by rewrite ReliableSpec.set_local_id. }
  destruct (send_keepalive now ns u Hns Hl) as (d & u' & Hsend & Hnet & Hrel & Hunacked & Hact).
  exists d, u'. unfold idle. rewrite Hrel. split; [|done].
  unfold Udp.handleTimerExpiry. erewrite (bind_run _ _ u tt u).
  2: { unfold in_base, focus, BaseTransport_handleTimerExpiry. erewrite bind_run by reflexivity.
       rewrite (proj2 (Z.ltb_ge _ _)) by done. cbn. by rewrite Hid. }
  run_step. erewrite (bind_run _ _ u tt u).
  2: { unfold retransmit_fuel. rewrite retransmit_due_unfold, Hret. by destruct u. }
  erewrite (bind_run _ _ u tt u).
  2: { unfold send_urgent_acks. erewrite bind_run by reflexivity. unfold hasUrgentOutgoingAcks. by rewrite Hremote. }
  run_step. rewrite Hdue. exact Hsend.
Qed.

(** Successive expiries of the timer, with the readings of the two clocks. *)
Fixpoint expiries (times : list (instant * Z)) : ST UdpTransport unit :=
  match times with
  | [] => mret tt
  | (now, ns) :: times =>
      _ ← handleTimerExpiry now ns;
      expiries times
  end.

(** Two seconds at least between two readings. *)
Fixpoint spaced (t : instant) (times : list (instant * Z)) : Prop :=
  match times with
  | [] => True
  | (now, ns) :: times => dleb (fromSecs 2) (since now t) = true /\ 0 <= ns < 2 ^ 64 /\ spaced now times
  end.

Lemma expiries_silent times t u :
  idle u -> lossless (ut_net u) -> 1 <= unacked u <= 6 -> bt_lastActivity (ut_base u) = Some t ->
  spaced t times -> len times = 7 - unacked u ->
  exists ds u', expiries times u = (Err (TE_Custom TimedOut), u') /\
    ut_net u' = sending ds (ut_net u) /\ len ds = 6 - unacked u.
Proof.
  revert t u. induction times as [|[now ns] times IH]; intros t u Hidle Hl Hn Hact Hsp Hlen; cbn [length] in Hlen; [lia|].
  destruct Hsp as (Hdue & Hns & Hsp). cbn [expiries].
  assert (Hzero : isZero (untilKeepalive now u) = true).
  { unfold untilKeepalive. rewrite (proj2 (Z.ltb_lt _ _)) by lia. unfold sinceLastActivity. rewrite Hact.
    rewrite isZero_law. apply Z.eqb_eq, (dsub_zero (T := T)). done. }
  destruct (decide (unacked u = 6)) as [H6|H6].
  - exists [], (set_base (ut_base u) u). rewrite sending_nil. split; [|split; [done|cbn; lia]].
    erewrite bind_err; [reflexivity|]. unfold Udp.handleTimerExpiry. erewrite bind_err; [reflexivity|].
    unfold in_base, focus, BaseTransport_handleTimerExpiry. erewrite bind_run by reflexivity. by rewrite H6.
  - destruct (timer_idle now ns u Hidle Hl ltac:(lia) Hns Hzero) as (d & u1 & Hrun & Hnet & Hidle1 & Hun1 & Hact1).
    rewrite u_small in Hun1 by lia.
    destruct (IH now u1 Hidle1) as (ds & u' & Hexp & Hnet' & Hds); [by rewrite Hnet|lia|done|done|lia|].
    exists (d :: ds), u'. erewrite bind_run by exact Hrun. split; [done|].
    rewrite Hnet', Hnet, sending_app. split; [done|]. cbn [length]. lia.
Qed.

(** C20. A server that stops answering is given up: from the moment a keepalive
    is due on an idle connection, six keepalives are sent, one per expiry of
    the timer, two seconds apart at least, and the seventh expiry ends with
    [TimedOut]. *)
Theorem silent_server_given_up now ns times u :
  idle u -> lossless (ut_net u) -> unacked u = 0 -> isZero (untilKeepalive now u) = true -> 0 <= ns < 2 ^ 64 ->
  spaced now times -> length times = 6%nat ->
  exists ds u', expiries ((now, ns) :: times) u = (Err (TE_Custom TimedOut), u') /\
    ut_net u' = sending ds (ut_net u) /\ length ds = 6%nat.
Proof.
  intros Hidle Hl H0 Hdue Hns Hsp Hlen.
  destruct (timer_idle now ns u Hidle Hl ltac:(lia) Hns Hdue) as (d & u1 & Hrun & Hnet & Hidle1 & Hun1 & Hact1).
  rewrite H0 in Hun1. change (u64 (0 + 1)) with 1 in Hun1.
  destruct (expiries_silent times now u1 Hidle1) as (ds & u' & Hexp & Hnet' & Hds);
    [by rewrite Hnet|lia|done|done|lia|].
  exists (d :: ds), u'. cbn [expiries]. erewrite bind_run by exact Hrun. split; [exact Hexp|].
  rewrite Hnet', Hnet, sending_app. split; [done|]. cbn [length]. lia.
Qed.
End Silence.

(** ** Runs *)
Lemma nano_deadlines : positive_deadlines nano_millis nano_fromMillis example_store.
Proof.
  intros n. unfold calcRetransmissionDeadline. set (k := Z.max 1 (Z.min n 6)).
  assert (k = 1 \/ k = 2 \/ k = 3 \/ k = 4 \/ k = 5 \/ k = 6) as H by lia. clearbody k.
  by repeat destruct H as [->|H]; [..|rewrite H]; vm_compute.
Qed.

Definition busy_udp : @UdpTransport nano_time rle_lib := set_rel example_store example_udp.

Lemma retransmissions_end_witness :
  retransmit_due (W := list_writer) nano_millis nano_fromMillis 9 (400000000 : @instant nano_time) busy_udp =
    retransmit_due (W := list_writer) nano_millis nano_fromMillis (retransmit_fuel busy_udp) (400000000 : @instant nano_time) busy_udp /\
  forall u', retransmit_due (W := list_writer) nano_millis nano_fromMillis (retransmit_fuel busy_udp)
      (400000000 : @instant nano_time) busy_udp = (Ok tt, u') ->
    forall m, m ∈ rs_localUnacked (ut_relStore u') ->
      ReliableLocal.due nano_millis nano_fromMillis (400000000 : @instant nano_time) (ut_relStore u') m = false.
Proof.
  apply (retransmissions_end (TL := nano_time_laws) (W := list_writer) nano_millis nano_fromMillis
    (400000000 : @instant nano_time) busy_udp 9); [exact nano_deadlines|].
  apply (bool_decide_unpack _). vm_compute. exact I.
Defined.

(** Of the three messages, the second one is due: it is the one that is sent. *)
Example busy_udp_resends :
  let u := (retransmit_due (W := list_writer) nano_millis nano_fromMillis 4 (400000000 : @instant nano_time) busy_udp).2 in
  (net_sent (ut_net u), ul_retransmitAttempts <$> rs_localUnacked (ut_relStore u)) =
  ([[144; 2; 0; 0; 0; 2]], [2; 1; 10]).
Proof. vm_compute. reflexivity. Qed.

Definition seconds (n : Z) : @instant nano_time * Z := (n * 1000000000, n).

Lemma silent_server_given_up_witness :
  exists ds u', expiries (W := list_writer) nano_millis nano_fromMillis
      ((0 : @instant nano_time, 0) :: (seconds <$> [2; 4; 6; 9; 11; 13])) example_udp = (Err (TE_Custom TimedOut), u') /\
    ut_net u' = sending ds (ut_net example_udp) /\ length ds = 6%nat.
Proof.
  apply (silent_server_given_up (TL := nano_time_laws) (W := list_writer) nano_millis nano_fromMillis
    (0 : @instant nano_time) 0 (seconds <$> [2; 4; 6; 9; 11; 13]) example_udp).
  - split; reflexivity.
  - repeat split; reflexivity.
  - reflexivity.
  - reflexivity.
  - split; reflexivity.
  - repeat split; (reflexivity || discriminate).
  - reflexivity.
Defined.
