(* ===== verification/UdpHandshake.v ===== *)
(** * UdpTransport: the handshake

    The chunks of the database that come with the answer to a handshake are put
    together whatever the order in which they arrive, and the messages that
    arrive in between are kept for later; but the messages that were batched
    behind the last chunk, in its datagram, are lost. *)
From Stdlib Require Import SpecFloat.
From S2P Require Import Prelude Dbuf Messages Codec Time Errors Effects.
From S2P Require Import Fragment Reliable Compress Padding Transport Udp UdpSend.

(** ** Writing the parts of a list in any order *)
Section Parts.
Variable parts : list (list Z).

Definition part (j : nat) : list Z := nth j parts [].
Definition off (j : nat) : nat := sum_list (length <$> take j parts).
Definition whole : list Z := mjoin parts.

Lemma part_lookup j l : parts !! j = Some l -> part j = l.
Proof. intros H. unfold part. by apply nth_lookup_Some. Qed.

Lemma part_end j l : parts !! j = Some l -> (off j + length l <= length whole)%nat.
Proof.
  intros H. unfold whole, off. rewrite length_join.
  rewrite <- (take_drop_middle parts j l H) at 2. rewrite fmap_app, fmap_cons.
  assert (Happ : forall a b, sum_list (a ++ b) = (sum_list a + sum_list b)%nat)
    by (induction a as [|x a IH]; intros b; cbn; [done|rewrite IH; lia]).
  rewrite Happ. cbn. lia.
Qed.

Lemma off_S j l : parts !! j = Some l -> off (S j) = (off j + length l)%nat.
Proof.
  intros H. unfold off. rewrite (take_S_r _ _ _ H), fmap_app.
  assert (Happ : forall a b, sum_list (a ++ b) = (sum_list a + sum_list b)%nat)
    by (induction a as [|x a IH]; intros b; cbn; [done|rewrite IH; lia]).
  rewrite Happ. cbn. lia.
Qed.

Hypothesis parts_nonempty : Forall (fun l => l <> []) parts.

Lemma off_lt i j : (i < j)%nat -> (i < length parts)%nat -> (j <= length parts)%nat -> (off i < off j)%nat.
Proof using parts_nonempty.
  intros Hij Hi Hj. induction j as [|j IH]; [lia|].
  destruct (lookup_lt_is_Some_2 parts j ltac:(lia)) as [l Hl]. rewrite (off_S _ _ Hl).
  assert (0 < length l)%nat.
  { pose proof (Forall_lookup_1 _ _ _ _ parts_nonempty Hl). destruct l; [done|cbn; lia]. }
  destruct (decide (i = j)) as [->|]; [lia|]. specialize (IH ltac:(lia) ltac:(lia)). lia.
Qed.

Lemma off_inj i j : (i < length parts)%nat -> (j < length parts)%nat -> off i = off j -> i = j.
Proof using parts_nonempty.
  intros Hi Hj E. destruct (lt_eq_lt_dec i j) as [[H|H]|H]; [|done|].
  - pose proof (off_lt i j H Hi ltac:(lia)). lia.
  - pose proof (off_lt j i H Hj ltac:(lia)). lia.
Qed.

Lemma write_at_lookup (o : nat) bs l k :
  (o + length bs <= length l)%nat ->
  write_at (Z.of_nat o) bs l !! k = if decide (o <= k < o + length bs)%nat then bs !! (k - o)%nat else l !! k.
Proof.
  intros Hle. unfold write_at, ztake, zdrop. rewrite <- Nat2Z.inj_add, !Nat2Z.id.
  destruct (decide (k < o)%nat).
  - rewrite decide_False by lia. rewrite lookup_app_l by (rewrite length_take; lia). by rewrite lookup_take_lt.
  - rewrite lookup_app_r by (rewrite length_take; lia). rewrite length_take, Nat.min_l by lia.
    case_decide as Hk.
    + by rewrite lookup_app_l by lia.
    + rewrite lookup_app_r by lia. rewrite lookup_drop. f_equal. lia.
Qed.

Lemma length_write_at (o : nat) bs l :
  (o + length bs <= length l)%nat -> length (write_at (Z.of_nat o) bs l) = length l.
Proof.
  intros Hle. unfold write_at, ztake, zdrop. rewrite <- Nat2Z.inj_add, !Nat2Z.id.
  rewrite !length_app, length_take, length_drop. lia.
Qed.

(** The buffer has the right length, and the right bytes at the parts [ds]. *)
Definition filled (ds : list nat) (buf : list Z) : Prop :=
  length buf = length whole /\
  forall j l i x, j ∈ ds -> parts !! j = Some l -> l !! i = Some x -> buf !! (off j + i)%nat = Some x.

Lemma filled_write ds buf j l :
  filled ds buf -> parts !! j = Some l -> filled (j :: ds) (write_at (Z.of_nat (off j)) l buf).
Proof.
  intros [Hlen Hbuf] Hl. pose proof (part_end j l Hl) as Hend. split; [by rewrite length_write_at by lia|].
  intros j' l' i x Hj' Hl' Hx. rewrite write_at_lookup by lia.
  assert (Hw : whole !! (off j' + i)%nat = Some x) by (by apply join_lookup_Some; exists j', l', i).
  case_decide as Hk.
  - destruct (lookup_lt_is_Some_2 l (off j' + i - off j)%nat ltac:(lia)) as [y Hy]. rewrite Hy.
    assert (whole !! (off j' + i)%nat = Some y) as Hw'; [|congruence].
    apply join_lookup_Some. exists j, l, (off j' + i - off j)%nat. split; [done|]. split; [done|]. fold (off j). lia.
  - apply elem_of_cons in Hj' as [->|Hj']; [|by eapply Hbuf].
    simplify_eq. apply lookup_lt_Some in Hx. lia.
Qed.

Lemma filled_all ds buf : filled ds buf -> (forall j, (j < length parts)%nat -> j ∈ ds) -> buf = whole.
Proof.
  intros [Hlen Hbuf] Hall. apply list_eq. intros k. destruct (whole !! k) as [x|] eqn:Hk.
  - apply join_lookup_Some in Hk as (j & l & i & Hl & Hx & ->).
    eapply Hbuf; [|done|done]. apply Hall. by eapply lookup_lt_Some.
  - apply lookup_ge_None. apply lookup_ge_None in Hk. lia.
Qed.

(** The sizes of distinct parts. *)
Definition size_of (ds : list nat) : nat := sum_list_with (fun j => length (part j)) ds.

Lemma size_of_app ds ds' : size_of (ds ++ ds') = (size_of ds + size_of ds')%nat.
Proof. apply sum_list_with_app. Qed.

Lemma size_of_all : size_of (seq 0 (length parts)) = length whole.
Proof.
  assert (H : forall n, (n <= length parts)%nat -> size_of (seq 0 n) = off n).
  { induction n as [|n IH]; intros Hn; [done|].
    destruct (lookup_lt_is_Some_2 parts n ltac:(lia)) as [l Hl].
    rewrite seq_S, size_of_app, IH, (off_S _ _ Hl) by lia. cbn. rewrite (part_lookup _ _ Hl). lia. }
  rewrite H by done. unfold off, whole. by rewrite firstn_all, length_join.
Qed.

Lemma size_of_some ds :
  NoDup ds -> (forall j, j ∈ ds -> (j < length parts)%nat) ->
  (size_of ds <= length whole)%nat /\ (size_of ds = length whole <-> length ds = length parts).
Proof using parts_nonempty.
  intros Hnd Hlt. assert (Hsub : ds ⊆+ seq 0 (length parts)).
  { apply NoDup_submseteq; [done|]. intros j Hj. apply elem_of_seq. specialize (Hlt j Hj). lia. }
  apply submseteq_Permutation in Hsub as [rest Hperm]. rewrite <- size_of_all.
  assert (Hsum : size_of (seq 0 (length parts)) = (size_of ds + size_of rest)%nat).
  { rewrite <- size_of_app. unfold size_of. by rewrite Hperm. }
  assert (Hlen : length parts = (length ds + length rest)%nat).
  { rewrite <- length_app, <- Hperm. by rewrite length_seq. }
  assert (Hrest : rest <> [] -> (0 < size_of rest)%nat).
  { destruct rest as [|j rest]; [done|]. intros _. cbn.
    assert (j < length parts)%nat as Hj.
    { assert (j ∈ seq 0 (length parts)) as Hin by (rewrite Hperm; set_solver). apply elem_of_seq in Hin. lia. }
    destruct (lookup_lt_is_Some_2 parts j Hj) as [l Hl]. rewrite (part_lookup _ _ Hl).
    pose proof (Forall_lookup_1 _ _ _ _ parts_nonempty Hl). destruct l; [done|cbn; lia]. }
  rewrite Hsum, Hlen. split; [lia|]. split.
  - intros E. destruct rest; [cbn; lia|]. specialize (Hrest ltac:(done)). lia.
  - intros E. destruct rest; [cbn; lia|cbn in E; lia].
Qed.
End Parts.

(** ** The chunks of a database *)
Section Chunks.
Variable parts : list (list Z).
Variables (connectionId uncompressedSize : Z).
Hypothesis parts_nonempty : Forall (fun l => l <> []) parts.
Hypothesis size_ok : len (whole parts) <= 1024 * 1024.

(** The chunk of the part [j], and the message that carries it. *)
Definition chunk_of (j : nat) : QdbData :=
  {| qd_uncompressedSize := uncompressedSize; qd_compressedSize := len (whole parts);
     qd_chunkOffset := Z.of_nat (off parts j); qd_chunkSize := len (part parts j); qd_chunkData := part parts j |}.
Definition chunk_message (j : nat) : HandshakeFinishMessage :=
  {| hf_connectionId := connectionId; hf_qdbData := Some (chunk_of j) |}.

Definition whole_answer : HandshakeFinishMessage :=
  {| hf_connectionId := connectionId;
     hf_qdbData := Some {| qd_uncompressedSize := uncompressedSize; qd_compressedSize := len (whole parts);
                           qd_chunkOffset := 0; qd_chunkSize := len (whole parts); qd_chunkData := whole parts |} |}.

(** The chunks of the parts [ds] have arrived. *)
Definition gathered {T : TimeLib} (ds : list nat) (h : handshake) : Prop :=
  NoDup ds /\ (forall j, j ∈ ds -> (j < length parts)%nat) /\
  hk_chunks h = (fun j => (chunk_message j, chunk_of j)) <$> ds /\
  (ds <> [] -> hk_out h = first_chunk (chunk_message 0) (chunk_of 0)).

Lemma combine_chunks_filled ds done_ buf :
  (forall j, j ∈ ds -> (j < length parts)%nat) -> filled parts done_ buf ->
  exists buf', combine_chunks (len (whole parts)) (chunk_of <$> ds) buf = Ok buf' /\ filled parts (rev ds ++ done_) buf'.
Proof using size_ok.
  revert done_ buf. induction ds as [|j ds IH]; intros done_ buf Hlt Hfilled; [by eexists|].
  destruct (lookup_lt_is_Some_2 parts j ltac:(apply Hlt; by left)) as [l Hl].
  pose proof (part_end parts j l Hl) as Hend. cbn [fmap list_fmap combine_chunks chunk_of qd_chunkData qd_chunkSize qd_chunkOffset].
  rewrite (part_lookup _ _ _ Hl), Z.eqb_refl. cbn [qn_assert mbind result_bind].
  rewrite (proj2 (Z.ltb_ge _ _)) by lia. rewrite u_small by lia. rewrite (proj2 (Z.ltb_ge _ _)) by lia. cbn [orb].
  destruct (IH (j :: done_) (write_at (Z.of_nat (off parts j)) l buf)) as (buf' & -> & Hf).
  { intros; apply Hlt; by right. }
  { by apply filled_write. }
  exists buf'. split; [done|]. cbn [rev]. by rewrite <- app_assoc.
Qed.

Lemma foldl_sizes ds n :
  (size_of parts ds <= length (whole parts))%nat -> 0 <= n -> n + Z.of_nat (size_of parts ds) <= len (whole parts) ->
  foldl (fun n c => u64 (n + qd_chunkSize c.2)) n ((fun j => (chunk_message j, chunk_of j)) <$> ds) =
  n + Z.of_nat (size_of parts ds).
Proof using size_ok.
  revert n. induction ds as [|j ds IH]; intros n Hle Hn Hsum; cbn [fmap list_fmap foldl size_of sum_list_with] in *; [cbn; lia|].
  unfold size_of in *. cbn [sum_list_with] in *. cbn [snd chunk_of qd_chunkSize].
  rewrite u_small by lia. rewrite IH by lia. lia.
Qed.

Lemma finish_chunks_spec {T : TimeLib} ds h :
  gathered ds h -> ds <> [] ->
  finish_chunks h = if decide (length ds = length parts) then Ok (inr whole_answer) else Ok (inl h).
Proof using parts_nonempty size_ok.
  intros (Hnd & Hlt & Hchunks & Hout) Hne. unfold finish_chunks. rewrite (Hout Hne), Hchunks.
  cbn [first_chunk hf_qdbData qd_compressedSize chunk_of].
  destruct (size_of_some parts parts_nonempty ds Hnd Hlt) as [Hle Hall].
  rewrite foldl_sizes by lia. rewrite Z.add_0_l.
  destruct (decide (length ds = length parts)) as [E|E].
  - apply Hall in E as Hsize. rewrite Hsize, Z.eqb_refl. cbn [negb].
    rewrite <- list_fmap_compose. change (snd ∘ _) with chunk_of.
    destruct (combine_chunks_filled ds [] (replicate (Z.to_nat (len (whole parts))) 0) Hlt) as (buf & -> & Hf).
    { split; [by rewrite length_replicate, Nat2Z.id|]. intros j l i x Hj. by apply not_elem_of_nil in Hj. }
    cbn [mbind result_bind]. unfold whole_answer. rewrite (filled_all _ _ _ Hf); [done|].
    intros j Hj. rewrite app_nil_r. apply list_elem_of_In; rewrite <- in_rev; apply list_elem_of_In.
    assert (ds ≡ₚ seq 0 (length parts)) as ->; [|apply elem_of_seq; lia].
    apply submseteq_length_Permutation; [|by rewrite length_seq, E].
    apply NoDup_submseteq; [done|]. intros k Hk. apply elem_of_seq. specialize (Hlt k Hk). lia.
  - rewrite (proj2 (Z.eqb_neq _ _)); [done|]. intros Heq. apply E, Hall. lia.
Qed.

(** One chunk: a duplicate, the last one, or one more. *)
Lemma accept_chunk {T : TimeLib} ds h j :
  gathered ds h -> (j < length parts)%nat ->
  if bool_decide (j ∈ ds) then accept_finish (chunk_message j) h = Ok (inl h)
  else if bool_decide (S (length ds) = length parts) then accept_finish (chunk_message j) h = Ok (inr whole_answer)
  else exists h', accept_finish (chunk_message j) h = Ok (inl h') /\ gathered (ds ++ [j]) h' /\
         hk_unexpected h' = hk_unexpected h /\ hk_lastSent h' = hk_lastSent h.
Proof using parts_nonempty size_ok.
  intros Hg Hj. pose proof Hg as (Hnd & Hlt & Hchunks & Hout).
  assert (Hadd : forall h', j ∉ ds -> hk_chunks h' = (fun j => (chunk_message j, chunk_of j)) <$> (ds ++ [j]) ->
    hk_out h' = first_chunk (chunk_message 0) (chunk_of 0) -> gathered (ds ++ [j]) h').
  { intros h' Hnin Hc Ho. split; [|split; [|done]].
    - apply NoDup_app. split; [done|]. split; [set_solver|apply NoDup_singleton].
    - intros k Hk. apply elem_of_app in Hk as [?|Hk]; [auto|]. by apply list_elem_of_singleton in Hk as ->. }
  assert (Hfinish : forall h', j ∉ ds -> gathered (ds ++ [j]) h' ->
    hk_unexpected h' = hk_unexpected h -> hk_lastSent h' = hk_lastSent h ->
    if bool_decide (S (length ds) = length parts) then finish_chunks h' = Ok (inr whole_answer)
    else exists h'', finish_chunks h' = Ok (inl h'') /\ gathered (ds ++ [j]) h'' /\
         hk_unexpected h'' = hk_unexpected h /\ hk_lastSent h'' = hk_lastSent h).
  { intros h' Hnin Hg' Hu Hs. rewrite (finish_chunks_spec (ds ++ [j]) h' Hg') by (by destruct ds).
    rewrite length_app. cbn [length]. rewrite Nat.add_1_r.
    case_bool_decide; [by rewrite decide_True|rewrite decide_False by done; eauto]. }
  unfold accept_finish. cbn [chunk_message hf_qdbData hf_connectionId]. rewrite Hchunks.
  destruct ds as [|d ds].
  - cbn [fmap list_fmap]. rewrite bool_decide_eq_false_2 by apply not_elem_of_nil.
    rewrite (proj2 (Z.ltb_ge _ _)) by (cbn; lia). apply Hfinish; [apply not_elem_of_nil| |done|done].
    apply Hadd; [apply not_elem_of_nil|done|done].
  - cbn [fmap list_fmap]. rewrite (Hout ltac:(done)). cbn [first_chunk hf_connectionId chunk_message].
    rewrite Z.eqb_refl. cbn [negb].
    assert (Hdup : forall l, (forall k, k ∈ l -> (k < length parts)%nat) ->
      existsb (fun c : HandshakeFinishMessage * QdbData => qd_chunkOffset c.2 =? qd_chunkOffset (chunk_of j))
      ((fun j => (chunk_message j, chunk_of j)) <$> l) = bool_decide (j ∈ l)).
    { clear - parts_nonempty Hj. intros l Hl. apply eq_true_iff_eq. rewrite existsb_exists, bool_decide_eq_true. split.
      - intros (c & Hc & E). apply list_elem_of_In, list_elem_of_fmap in Hc as (k & -> & Hk).
        cbn in E. apply Z.eqb_eq, Nat2Z.inj, (off_inj parts parts_nonempty) in E as ->; [done|by apply Hl|done].
      - intros Hin. exists (chunk_message j, chunk_of j). split; [|apply Z.eqb_refl].
        apply list_elem_of_In, list_elem_of_fmap. eauto. }
    change ((chunk_message d, chunk_of d) :: ((fun j => (chunk_message j, chunk_of j)) <$> ds))
      with ((fun j => (chunk_message j, chunk_of j)) <$> (d :: ds)).
    rewrite Hdup by done. destruct (decide (j ∈ d :: ds)) as [Hin|Hin];
      [by rewrite !(bool_decide_eq_true_2 (j ∈ d :: ds)) by done|rewrite !(bool_decide_eq_false_2 (j ∈ d :: ds)) by done].
    apply Hfinish; [exact Hin| |reflexivity|reflexivity].
    apply Hadd; [done|by rewrite fmap_app|done].
Qed.

(** ** The loop *)
Inductive answer := Chunk (j : nat) | Other (m : QunetMessage).

Definition answer_message (a : answer) : QunetMessage :=
  match a with Chunk j => MHandshakeFinish (chunk_message j) | Other m => m end.

Definition answer_ok (a : answer) : Prop :=
  match a with
  | Chunk j => (j < length parts)%nat
  | Other (MHandshakeFinish _) | Other (MHandshakeFailure _) => False
  | Other _ => True
  end.

Definition chunks_in (l : list answer) : list nat := omap (fun a => match a with Chunk j => Some j | _ => None end) l.
Definition others_in (l : list answer) : list QunetMessage := omap (fun a => match a with Other m => Some m | _ => None end) l.

Section Loop.
Context {T : TimeLib} {CL : CompressionLib} `{W : ByteWriter} `{R : ByteReader}.
Variables (now_ns : Z) (order : list Z) (start : HandshakeStartMessage).

(** A turn at which the handshake is sent again. *)
Definition is_late (last now : instant) : bool := isZero (dsub (fromMillis 750) (since now last)).
Definition resent (now : instant) (h : handshake) : handshake :=
  {| hk_lastSent := now; hk_sentAttempts := hk_sentAttempts h + 1; hk_chunks := hk_chunks h;
     hk_unexpected := hk_unexpected h; hk_out := hk_out h |}.

(** The handshake was sent at [last].  The turns that come too late send it again;
    at the others [receiveMessage], called when there is data, returns [ms] in
    turn; all that leads from [u] to [u']. *)
Fixpoint receives (last : instant) (turns : list (instant * poll_result)) (ms : list QunetMessage) (u u' : UdpTransport) : Prop :=
  match ms with
  | [] => u' = u
  | m :: ms' =>
      match turns with
      | [] => False
      | (now, poll) :: turns =>
          if is_late last now then
            exists a u1, send now now_ns (MHandshakeStart start) false u = (Ok a, u1) /\ receives now turns ms u1 u'
          else
            match poll with
            | PollNothing => receives last turns ms u u'
            | PollData => exists u1, receiveMessage now order u = (Ok m, u1) /\ receives last turns ms' u1 u'
            | PollError _ => False
            end
      end
  end.

(** All the parts but one have arrived, and they are not the same. *)
Lemma one_missing ds j :
  NoDup ds -> (forall i, i ∈ ds -> (i < length parts)%nat) -> (j < length parts)%nat -> j ∉ ds ->
  (length ds < length parts)%nat /\
  ((forall i, (i < length parts)%nat -> i <> j -> i ∈ ds) -> S (length ds) = length parts).
Proof.
  intros Hnd Hlt Hj Hin. split; [by apply (arrived_missing parts ds j)|]. intros Hall.
  apply Nat.le_antisymm; [by apply (arrived_missing parts ds j)|].
  rewrite <- (length_seq (length parts) 0). change (S (length ds)) with (length (j :: ds)).
  apply submseteq_length, NoDup_submseteq; [apply NoDup_seq|]. intros i Hi. apply elem_of_seq in Hi.
  destruct (decide (i = j)) as [->|]; [by left|]. right. apply Hall; [lia|done].
Qed.

Lemma other_turn turns m h u u1 now :
  answer_ok (Other m) -> is_late (hk_lastSent h) now = false ->
  receiveMessage now order u = (Ok m, u1) ->
  handshake_loop (W := W) ((now, PollData) :: turns) now_ns order start h u =
  handshake_loop (W := W) turns now_ns order start (push_unexpected m h) u1.
Proof.
  unfold is_late. intros Hok Htime Hrecv. cbn [handshake_loop]. rewrite Htime. erewrite bind_run by exact Hrecv.
  by destruct m.
Qed.

Lemma chunk_turn turns j h u u1 now :
  is_late (hk_lastSent h) now = false ->
  receiveMessage now order u = (Ok (MHandshakeFinish (chunk_message j)), u1) ->
  handshake_loop (W := W) ((now, PollData) :: turns) now_ns order start h u =
  match accept_finish (chunk_message j) h with
  | Ok (inl h) => handshake_loop (W := W) turns now_ns order start h u1
  | Ok (inr out) => (Ok (MHandshakeFinish out), set_pending (hk_unexpected h) u1)
  | Err e => (Err e, u1)
  | Fault f => (Fault f, u1)
  end.
Proof.
  unfold is_late. intros Htime Hrecv. cbn [handshake_loop]. rewrite Htime. erewrite bind_run by exact Hrecv.
  unfold mbind, ST_bind, lift. by destruct (accept_finish (chunk_message j) h) as [[h'|out]|e|f].
Qed.

(** The chunks are kept when the handshake is sent again. *)
Lemma late_turn turns poll h u u1 now a :
  is_late (hk_lastSent h) now = true -> send now now_ns (MHandshakeStart start) false u = (Ok a, u1) ->
  handshake_loop (W := W) ((now, poll) :: turns) now_ns order start h u = handshake_loop (W := W) turns now_ns order start (resent now h) u1.
Proof. unfold is_late. intros Htime Hsend. cbn [handshake_loop]. rewrite Htime. by erewrite bind_run by exact Hsend. Qed.

Lemma receives_nil last turns u u' : receives last turns [] u u' -> u' = u.
Proof. by destruct turns. Qed.

Lemma receives_turn last now poll turns m ms u u' :
  receives last ((now, poll) :: turns) (m :: ms) u u' =
  if is_late last now then
    exists a u1, send now now_ns (MHandshakeStart start) false u = (Ok a, u1) /\ receives now turns (m :: ms) u1 u'
  else
    match poll with
    | PollNothing => receives last turns (m :: ms) u u'
    | PollData => exists u1, receiveMessage now order u = (Ok m, u1) /\ receives last turns ms u1 u'
    | PollError _ => False
    end.
Proof. done. Qed.

Lemma handshake_loop_assembles turns answers j ds h u u' :
  gathered ds h -> Forall answer_ok answers -> (j < length parts)%nat -> j ∉ ds -> j ∉ chunks_in answers ->
  (forall i, (i < length parts)%nat -> i <> j -> i ∈ ds \/ i ∈ chunks_in answers) ->
  receives (hk_lastSent h) turns (answer_message <$> answers ++ [Chunk j]) u u' ->
  handshake_loop (W := W) turns now_ns order start h u =
    (Ok (MHandshakeFinish whole_answer), set_pending (hk_unexpected h ++ others_in answers) u').
Proof using parts_nonempty size_ok.
  revert answers ds h u. induction turns as [|[now poll] turns IH];
    intros answers ds h u Hg Hok Hj Hjds Hja Hall Hrecv; [by destruct answers|].
  assert (exists m ms, answer_message <$> answers ++ [Chunk j] = m :: ms) as (m0 & ms0 & Hms)
    by (destruct answers; by do 2 eexists).
  rewrite Hms, receives_turn, <- Hms in Hrecv. destruct (is_late (hk_lastSent h) now) eqn:Hnow.
  { destruct Hrecv as (a & u1 & Hsend & Hrecv). rewrite (late_turn turns poll h u u1 now a Hnow Hsend). by apply (IH answers ds (resent now h)). }
  destruct poll; [| |done].
  { cbn [handshake_loop]. unfold is_late in Hnow. rewrite Hnow. by apply (IH answers ds). }
  destruct answers as [|[i|m] answers]; injection Hms as <- <-; cbn [answer_message] in Hrecv;
    destruct Hrecv as (u1 & Hrecv & Hrest).
  - apply receives_nil in Hrest as ->. rewrite (chunk_turn turns j h u u1 now Hnow Hrecv).
    pose proof (accept_chunk ds h j Hg Hj) as H. rewrite bool_decide_eq_false_2 in H by done.
    pose proof Hg as (Hnd & Hlt & _). destruct (one_missing ds j Hnd Hlt Hj Hjds) as [_ Hlast].
    rewrite bool_decide_eq_true_2, app_nil_r in * by (apply Hlast; intros; by destruct (Hall i) as [?|?%not_elem_of_nil]).
    by rewrite H.
  - apply Forall_cons in Hok as [Hi Hok]. cbn [answer_ok] in Hi.
    change (chunks_in (Chunk i :: answers)) with (i :: chunks_in answers) in *.
    change (others_in (Chunk i :: answers)) with (others_in answers).
    apply not_elem_of_cons in Hja as [Hne Hja].
    rewrite (chunk_turn turns i h u u1 now Hnow Hrecv).
    pose proof (accept_chunk ds h i Hg Hi) as H. case_bool_decide as Hin.
    + rewrite H. apply (IH answers ds); [done..| |done].
      intros k Hk Hkj. destruct (Hall k Hk Hkj) as [?|[->|?]%elem_of_cons]; auto.
    + rewrite bool_decide_eq_false_2 in H.
      2: { pose proof Hg as (Hnd & Hlt & _). intros Hfull.
           destruct (one_missing (ds ++ [i]) j) as [Hl _]; [| |done| |].
           - apply NoDup_app. split; [done|]. split; [set_solver|apply NoDup_singleton].
           - intros k Hk. apply elem_of_app in Hk as [?|Hk]; [auto|]. by apply list_elem_of_singleton in Hk as ->.
           - rewrite elem_of_app, list_elem_of_singleton. naive_solver.
           - rewrite length_app in Hl. cbn in Hl. lia. }
      destruct H as (h' & -> & Hg' & <- & Hs). apply (IH answers (ds ++ [i])); [done..| |done| |by rewrite Hs].
      * rewrite elem_of_app, list_elem_of_singleton. naive_solver.
      * intros k Hk Hkj. rewrite elem_of_app, list_elem_of_singleton.
        destruct (Hall k Hk Hkj) as [?|[->|?]%elem_of_cons]; auto.
  - apply Forall_cons in Hok as [Hm Hok].
    change (chunks_in (Other m :: answers)) with (chunks_in answers) in *.
    change (others_in (Other m :: answers)) with (m :: others_in answers).
    rewrite (other_turn turns m h u u1 now Hm Hnow Hrecv).
    rewrite (IH answers ds (push_unexpected m h) u1); [|done..]. cbn. by rewrite <- app_assoc.
Qed.

(** C16. The handshake puts the database together.  Whatever the order in which
    the chunks of the answer arrive, with duplicates and with other messages in
    between, however often the polls find nothing, and however often 750
    milliseconds pass and the handshake is sent again, the handshake returns
    the answer with the whole of the data, and the other messages that
    [receiveMessage] gave until then are left to be received, in the order in which
    they arrived.  Of the messages that wait in the queue of the transport when it
    returns - those that were batched behind the last chunk - none is left
    ([handshake_drops_batched]).  No poll, no receive and no send fails meanwhile. *)
Theorem handshake_assembles t0 turns answers j u u' :
  Forall answer_ok answers -> (j < length parts)%nat -> j ∉ chunks_in answers ->
  (forall i, (i < length parts)%nat -> i <> j -> i ∈ chunks_in answers) ->
  receives t0 turns (answer_message <$> answers ++ [Chunk j]) u u' ->
  handshake_loop (W := W) turns now_ns order start
    {| hk_lastSent := t0; hk_sentAttempts := 1; hk_chunks := []; hk_unexpected := [];
       hk_out := {| hf_connectionId := 0; hf_qdbData := None |} |} u =
    (Ok (MHandshakeFinish whole_answer), set_pending (others_in answers) u').
Proof using parts_nonempty size_ok.
  intros Hok Hj Hja Hall Hrecv. rewrite (handshake_loop_assembles turns answers j [] _ u u'); try done.
  - split; [apply NoDup_nil_2|]. split; [intros i Hi; by apply not_elem_of_nil in Hi|done].
  - apply not_elem_of_nil.
  - auto.
Qed.
End Loop.
End Chunks.

(** ** What follows the answer in its datagram *)
Section Lost.
Context {T : TimeLib} {CL : CompressionLib} `{W : ByteWriter} `{R : ByteReader}.

(** When the datagram of the answer holds messages after it, [receiveMessage]
    has queued them, and the end of the handshake overwrites the queue: whatever
    the queue held, only the messages that were set aside before are left. *)
Theorem handshake_drops_batched now now_ns order start turns h u u1 msg :
  isZero (dsub (fromMillis 750) (since now (hk_lastSent h))) = false ->
  receiveMessage now order u = (Ok (MHandshakeFinish msg), u1) -> hf_qdbData msg = None ->
  exists u', handshake_loop (W := W) ((now, PollData) :: turns) now_ns order start h u = (Ok (MHandshakeFinish msg), u') /\
    ut_pendingMessages u' = hk_unexpected h /\ ut_relStore u' = ut_relStore u1 /\ ut_net u' = ut_net u1.
Proof.
  intros Htime Hrecv Hnone. exists (set_pending (hk_unexpected h) u1). split; [|done].
  cbn [handshake_loop]. rewrite Htime. erewrite bind_run by exact Hrecv. unfold accept_finish. by rewrite Hnone.
Qed.
End Lost.

(** ** Runs *)
Definition example_start : HandshakeStartMessage :=
  {| hs_protocolVersion := PROTOCOL_VERSION; hs_fragLimit := 1200; hs_qdbHash := replicate 16 0 |}.

(** A database in two chunks; the second arrives first, and twice, and a
    keepalive response arrives in between; the handshake is sent again before the
    first. *)
Definition chunk_bytes (offset : Z) (data : list Z) : list Z :=
  [MSG_HANDSHAKE_FINISH] ++ le_split 8 77 ++ [1] ++ le_split 4 9 ++ le_split 4 5 ++ le_split 4 offset ++
  le_split 4 (len data) ++ data.
Definition response_bytes : list Z := [MSG_KEEPALIVE_RESPONSE] ++ le_split 8 3 ++ le_split 2 0.

Definition handshaking (incoming : list (list Z)) : @UdpTransport nano_time rle_lib :=
  new_UdpTransport (0 : @instant nano_time) None (quiet_net incoming) example_rng.

Definition example_turns : list (@instant nano_time * poll_result) :=
  [(1, PollData); (2, PollNothing); (3, PollData); (750000003, PollNothing); (750000004, PollData); (750000005, PollData)].
Definition example_answers : list (answer) :=
  [Chunk 1; Other (MKeepaliveResponse {| kr_timestamp := 3; kr_data := [] |}); Chunk 1].

Definition after_answers : @UdpTransport nano_time rle_lib :=
  let u := handshaking [chunk_bytes 3 [4; 5]; response_bytes; chunk_bytes 3 [4; 5]; chunk_bytes 0 [1; 2; 3]] in
  let next (u : UdpTransport) := fun now => (receiveMessage (R := list_reader) (now : @instant nano_time) [] u).2 in
  let resend (u : UdpTransport) := (send (W := list_writer) (750000003 : @instant nano_time) 0 (MHandshakeStart example_start) false u).2 in
  foldl next (resend (foldl next u [1; 3])) [750000004; 750000005].

Ltac next_turn late :=
  rewrite (receives_turn (T := nano_time) (CL := rle_lib) (W := list_writer) (R := list_reader)); replace (is_late _ _) with late by (vm_compute; reflexivity); cbn iota.
Ltac given := eexists; split; [apply run_result; vm_compute; reflexivity|].

Lemma handshake_assembles_witness :
  handshake_loop (W := list_writer) (R := list_reader) example_turns 0 [] example_start
    {| hk_lastSent := 0 : @instant nano_time; hk_sentAttempts := 1; hk_chunks := []; hk_unexpected := [];
       hk_out := {| hf_connectionId := 0; hf_qdbData := None |} |}
    (handshaking [chunk_bytes 3 [4; 5]; response_bytes; chunk_bytes 3 [4; 5]; chunk_bytes 0 [1; 2; 3]]) =
  (Ok (MHandshakeFinish {| hf_connectionId := 77; hf_qdbData := Some
        {| qd_uncompressedSize := 9; qd_compressedSize := 5; qd_chunkOffset := 0; qd_chunkSize := 5;
           qd_chunkData := [1; 2; 3; 4; 5] |} |}),
   set_pending [MKeepaliveResponse {| kr_timestamp := 3; kr_data := [] |}] after_answers).
Proof.
  apply (handshake_assembles [[1; 2; 3]; [4; 5]] 77 9 ltac:(repeat constructor; discriminate) ltac:(discriminate)
    0 [] example_start (0 : @instant nano_time) example_turns example_answers 0).
  - repeat constructor; cbn; lia.
  - cbn. lia.
  - cbn. rewrite !not_elem_of_cons. split; [discriminate|]. split; [discriminate|apply not_elem_of_nil].
  - intros i Hi Hne. cbn in Hi |- *. rewrite !elem_of_cons. lia.
  - cbn [fmap list_fmap answer_message example_answers app]. unfold example_turns.
    next_turn false. given. next_turn false. next_turn false. given. next_turn true. exists tt. given.
    next_turn false. given. next_turn false. given. reflexivity.
Defined.

(** An answer without database, and a data message behind it. *)
Definition batched_answer : list Z :=
  [MSG_HANDSHAKE_FINISH] ++ le_split 8 77 ++ [0] ++ [136] ++ le_split 2 3 ++ [7; 8; 9].
Definition batched_data : QunetMessage := MData {| dm_data := [7; 8; 9]; dm_compHeader := None; dm_relHeader := None |}.

Definition after_batch : @UdpTransport nano_time rle_lib :=
  (receiveMessage (R := list_reader) (1 : @instant nano_time) [] (handshaking [batched_answer])).2.

Lemma handshake_drops_batched_witness :
  ut_pendingMessages after_batch = [batched_data] /\
  exists u', handshake_loop (W := list_writer) (R := list_reader) [(1 : @instant nano_time, PollData)] 0 [] example_start
    {| hk_lastSent := 0 : @instant nano_time; hk_sentAttempts := 1; hk_chunks := []; hk_unexpected := [];
       hk_out := {| hf_connectionId := 0; hf_qdbData := None |} |} (handshaking [batched_answer]) =
    (Ok (MHandshakeFinish {| hf_connectionId := 77; hf_qdbData := None |}), u') /\
    ut_pendingMessages u' = [] /\ ut_relStore u' = ut_relStore after_batch /\ ut_net u' = ut_net after_batch.
Proof.
  split; [vm_compute; reflexivity|].
  apply (handshake_drops_batched (W := list_writer) (1 : @instant nano_time) 0 [] example_start []
    {| hk_lastSent := 0 : @instant nano_time; hk_sentAttempts := 1; hk_chunks := []; hk_unexpected := [];
       hk_out := {| hf_connectionId := 0; hf_qdbData := None |} |} (handshaking [batched_answer]) after_batch
    {| hf_connectionId := 77; hf_qdbData := None |});
    [reflexivity|apply run_result; vm_compute; reflexivity|reflexivity].
Defined.
