(* ===== verification/UdpRecv.v ===== *)
(** * UdpTransport: receiving

    What repeated calls of [receiveMessage] give the application: reliable
    messages, one per datagram, come in order and once each, as the reliability
    store promises; but not when a datagram holds several of them. *)
From Stdlib Require Import SpecFloat.
From S2P Require Import Prelude Dbuf Messages Codec CodecSpec Time Errors Effects.
From S2P Require Import Fragment Reliable ReliableSpec Stats Compress Padding Transport Udp UdpSend.

#[local] Arguments decodeMeta : simpl never.
#[local] Arguments drain : simpl never.

Section Receive.
Context {T : TimeLib} {CL : CompressionLib} `{RL : ByteReaderLaws}.
Variables (now : instant) (order : list Z).

Abbreviation receiveMessageInner := (receiveMessageInner now order).

(** The messages that the application receives, until the transport waits for
    a datagram, or fails. *)
Fixpoint receive_messages (fuel : nat) (u : UdpTransport) : TransportResult (list QunetMessage) :=
  match fuel with
  | O => Fault OutOfFuel
  | S fuel =>
      match receiveMessageInner u with
      | (Ok (Some m), u) => cons m <$> receive_messages fuel u
      | (Ok None, u) => receive_messages fuel u
      | (Err e, _) => Err e
      | (Fault WouldBlock, _) => Ok []
      | (Fault f, _) => Fault f
      end
  end.

(** ** One datagram, one message *)
Lemma process_single fuel d meta u :
  decodeMeta d true false = Ok meta -> mm_type meta = MSG_DATA -> mm_fragmentationHeader meta = None ->
  mm_dataOffset meta + len (mm_data meta) = len d -> 0 < len d -> (2 <= fuel)%nat ->
  process_datagram fuel now order (new_iter d false) None u = accept_whole now meta u.
Proof.
  intros Hdec Htype Hfrag Hsize Hpos Hfuel. destruct fuel as [|[|fuel]]; [lia|lia|].
  cbn [process_datagram]. rewrite iter_next_slices. cbn [new_iter it_data it_pos it_eof it_server].
  rewrite (proj2 (Z.leb_gt _ _)), zdrop_0, Z.eqb_refl by lia. cbn [orb andb]. rewrite Hdec.
  erewrite bind_run by reflexivity. rewrite Htype. change (MSG_DATA =? MSG_PADDING) with false. cbn iota.
  unfold processOne. rewrite Htype, Hfrag. change (negb (MSG_DATA =? MSG_DATA)) with false. cbn iota.
  rewrite iter_next_slices. cbn [it_data it_pos it_eof it_server]. rewrite Hsize, (proj2 (Z.leb_le _ _)) by lia. cbn [orb].
  unfold mbind, ST_bind. by destruct (accept_whole now meta u) as [[[m|]|e|f] u'].
Qed.

(** A transport with these messages to receive. *)
Definition ready (u : UdpTransport) (s : ReliableStore) (incoming : list (list Z)) : Prop :=
  ut_pendingMessages u = [] /\ ut_relStore u = s /\ net_incoming (ut_net u) = incoming.

Lemma inner_delayed u s m q incoming data :
  ready u s incoming -> rs_remoteDelayedQueue s = m :: q -> mm_compressionHeader m = None -> mm_data m = data ->
  exists u', receiveMessageInner u =
      (Ok (Some (MData {| dm_data := data; dm_compHeader := None; dm_relHeader := None |})), u') /\
    ready u' (set_remote (rs_remoteUnacked s) (rs_remoteOutOfOrder s) q (rs_nextRemoteId s) s) incoming.
Proof.
  intros (Hp & Hs & Hin) Hd Hcomp <-. set (s' := set_remote _ _ q _ s).
  assert (Hpop : in_rel (state popDelayedMessage) u = (Ok (Some m), set_rel s' u)).
  { unfold in_rel, focus, state, popDelayedMessage. rewrite Hs, Hd. reflexivity. }
  destruct (decodePreFinal_ok now m (ut_base u) (mm_data m)) as (f & Hdec).
  { unfold decompress_message. by rewrite Hcomp. }
  exists (set_base (set_tracker f (ut_base u)) (set_rel s' u)). split; [|by repeat split].
  unfold Udp.receiveMessageInner. run_step. rewrite Hp. erewrite bind_run by exact Hpop. cbv beta iota.
  erewrite bind_run; [reflexivity|]. unfold in_base, focus. cbn [ut_base set_rel]. by rewrite Hdec.
Qed.

(** No message is delayed: the transport reads its socket. *)
Lemma inner_socket u s incoming :
  ready u s incoming -> rs_remoteDelayedQueue s = [] ->
  receiveMessageInner u =
  (data ← in_net (socket_recv UDP_MAX_ALLOWED_MTU);
   if len data =? 0 then custom ZeroLengthMessage
   else
     _ ← in_base (modify (set_tracker (Stats.onDownPacket now (len data))));
     process_datagram (datagram_fuel data) now order (new_iter data false) None) u.
Proof.
  intros (Hp & Hs & Hin) Hd. unfold Udp.receiveMessageInner. run_step. rewrite Hp.
  assert (Hpop : in_rel (state popDelayedMessage) u = (Ok None, u)).
  { unfold in_rel, focus, state, popDelayedMessage. rewrite Hs, Hd. subst s. by destruct u. }
  by erewrite bind_run by exact Hpop.
Qed.

Lemma inner_blocked u s : ready u s [] -> rs_remoteDelayedQueue s = [] -> (receiveMessageInner u).1 = Fault WouldBlock.
Proof.
  intros Hr Hd. rewrite (inner_socket u s [] Hr Hd). destruct Hr as (_ & _ & Hin).
  unfold mbind, ST_bind, in_net, focus, socket_recv. by rewrite Hin.
Qed.

Lemma inner_datagram u s d incoming meta h :
  ready u s (d :: incoming) -> rs_remoteDelayedQueue s = [] ->
  decodeMeta d true false = Ok meta -> mm_type meta = MSG_DATA -> mm_fragmentationHeader meta = None ->
  mm_compressionHeader meta = None -> mm_reliabilityHeader meta = Some h ->
  mm_dataOffset meta + len (mm_data meta) = len d -> 0 < len d <= UDP_MAX_ALLOWED_MTU ->
  match handleIncoming now meta s with
  | (Ok accepted, s') =>
      exists u', receiveMessageInner u =
        (Ok (if accepted then Some (MData {| dm_data := mm_data meta; dm_compHeader := None; dm_relHeader := None |})
             else None), u') /\ ready u' s' incoming
  | (Err e, _) => (receiveMessageInner u).1 = Err e
  | (Fault f, _) => (receiveMessageInner u).1 = Fault f
  end.
Proof.
  intros Hr Hd Hdec Htype Hfrag Hcomp Hh Hsize Hlen. rewrite (inner_socket u s _ Hr Hd).
  destruct Hr as (Hp & Hs & Hin).
  set (n' := {| net_sent := net_sent (ut_net u); net_lossSim := net_lossSim (ut_net u); net_draws := net_draws (ut_net u);
                net_errors := net_errors (ut_net u); net_incoming := incoming |}).
  assert (Hrecv : in_net (socket_recv UDP_MAX_ALLOWED_MTU) u = (Ok d, set_net n' u)).
  { unfold in_net, focus, socket_recv. rewrite Hin. by rewrite ztake_ge by lia. }
  set (u1 := set_base (set_tracker (Stats.onDownPacket now (len d)) (ut_base u)) (set_net n' u)).
  assert (Hrun : (data ← in_net (socket_recv UDP_MAX_ALLOWED_MTU);
     if len data =? 0 then custom ZeroLengthMessage
     else
       _ ← in_base (modify (set_tracker (Stats.onDownPacket now (len data))));
       process_datagram (datagram_fuel data) now order (new_iter data false) None) u = accept_whole now meta u1).
  { erewrite bind_run by exact Hrecv. cbv beta. rewrite (proj2 (Z.eqb_neq _ _)) by lia.
    erewrite bind_run by reflexivity. fold u1. apply process_single; try done; [lia|unfold datagram_fuel; lia]. }
  rewrite Hrun. unfold accept_whole. rewrite Hh.
  assert (Hhandle : in_rel (handleIncoming now meta) u1 =
    ((handleIncoming now meta s).1, set_rel (handleIncoming now meta s).2 u1)).
  { unfold in_rel, focus. cbn [ut_relStore u1 set_base set_net]. rewrite Hs. by destruct (handleIncoming now meta s). }
  destruct (handleIncoming now meta s) as [[accepted|e|f] s']; cbn [fst snd] in Hhandle.
  - erewrite bind_run by exact Hhandle. cbv beta. destruct accepted.
    + destruct (decodePreFinal_ok now meta (ut_base u1) (mm_data meta)) as (f & Hpre).
      { unfold decompress_message. by rewrite Hcomp. }
      exists (set_base (set_tracker f (ut_base u1)) (set_rel s' u1)). split; [|by repeat split].
      erewrite bind_run; [reflexivity|]. unfold in_base, focus. cbn [ut_base set_rel]. by rewrite Hpre.
    + exists (set_rel s' u1). by repeat split.
  - by erewrite bind_err by exact Hhandle.
  - unfold mbind, ST_bind. by rewrite Hhandle.
Qed.

(** ** Reliable messages, one per datagram *)
Section Reliable.
Context `{WL : ByteWriterLaws}.
Variable data : nat -> list Z.
Variable header : nat -> ReliabilityHeader.
Hypothesis header_wf : forall n, wf_rel (Some (header n)).
Hypothesis header_id : forall n, rh_messageId (header n) = message_id n.
Hypothesis datagram_size : forall n, 25 + len (data n) <= UDP_MAX_ALLOWED_MTU.

Definition reliable_message (n : nat) : DataMessage :=
  {| dm_data := data n; dm_compHeader := None; dm_relHeader := Some (header n) |}.

(** The datagram of the [n]-th message. *)
Definition reliable_datagram (n : nat) : list Z :=
  data_header_bytes (reliable_message n) 0 false ++ data n.

Definition reliable_meta (n : nat) : QunetMessageMeta :=
  {| mm_type := MSG_DATA; mm_compressionHeader := None; mm_reliabilityHeader := Some (header n);
     mm_fragmentationHeader := None; mm_data := data n;
     mm_dataOffset := len (reliable_datagram n) - len (data n) |}.

(** What the application receives for it. *)
Definition application_message (n : nat) : QunetMessage :=
  MData {| dm_data := data n; dm_compHeader := None; dm_relHeader := None |}.

Lemma reliable_datagram_decoded n : decodeMeta (reliable_datagram n) true false = Ok (reliable_meta n).
Proof using header_wf RL WL.
  destruct (data_frame_decoded (reliable_message n) 0 true) as (bytes & Hb & Hd); [|lia|done|].
  { split; [exact I|apply header_wf]. }
  rewrite data_frame_bytes in Hb. injection Hb as <-. exact Hd.
Qed.

Lemma reliable_datagram_length n : 0 < len (reliable_datagram n) <= UDP_MAX_ALLOWED_MTU.
Proof using header_wf RL WL datagram_size.
  unfold reliable_datagram, data_header_bytes, conn_bytes. cbn [comp_bytes dm_compHeader reliable_message Z.eqb app length].
  rewrite length_app, Nat2Z.inj_succ, Nat2Z.inj_add. pose proof (rel_bytes_length (Some (header n)) (header_wf n)) as Hr.
  change (dm_relHeader (reliable_message n)) with (Some (header n)). rewrite Hr. pose proof (datagram_size n). pose proof (header_wf n) as (_ & acks & ? & _ & Hc & _).
  cbn [rel_size]. lia.
Qed.

Lemma header_acks n : length (rh_acks (header n)) = 8%nat /\ rh_ackCount (header n) <= 8.
Proof using header_wf.
  destruct (header_wf n) as (_ & acks & ? & _ & -> & ->). rewrite length_app, length_replicate. lia.
Qed.

Abbreviation prepend ms := (fmap (M := result TransportError) (app ms)).

(** The messages that a datagram has made ready are received first. *)
Lemma receive_delayed js u s incoming :
  ready u s incoming -> rs_remoteDelayedQueue s = reliable_meta <$> js ->
  exists u', ready u' (set_remote (rs_remoteUnacked s) (rs_remoteOutOfOrder s) [] (rs_nextRemoteId s) s) incoming /\
    forall fuel, receive_messages (length js + fuel) u = prepend (application_message <$> js) (receive_messages fuel u').
Proof.
  revert u s. induction js as [|j js IH]; intros u s Hr Hd.
  - exists u. split; [|intros fuel; cbn; by destruct (receive_messages fuel u)].
    destruct s. cbn in *. by subst.
  - destruct (inner_delayed u s (reliable_meta j) (fmap (M := list) reliable_meta js) incoming (data j) Hr Hd) as (u1 & Hrun & Hr1); [done..|].
    destruct (IH u1 _ Hr1 eq_refl) as (u' & Hr' & Hrest). exists u'. split; [exact Hr'|].
    intros fuel. cbn [length Nat.add receive_messages]. rewrite Hrun, Hrest. by destruct (receive_messages fuel u').
Qed.

(** The calls of the application, with enough of them, see what the store
    delivers. *)
Lemma receive_messages_spec arrivals e held u s :
  represents reliable_meta e held s -> in_window reliable_meta e ((fun i => (now, i)) <$> arrivals) s ->
  ready u s (reliable_datagram <$> arrivals) ->
  exists n, forall fuel, (n <= fuel)%nat ->
    receive_messages fuel u =
    match receive_all reliable_meta ((fun i => (now, i)) <$> arrivals) s with
    | Ok metas => Ok ((fun m => MData {| dm_data := mm_data m; dm_compHeader := None; dm_relHeader := None |}) <$> metas)
    | Err err => Err err
    | Fault f => Fault f
    end.
Proof using header_wf header_id datagram_size RL WL.
  revert e held u s. induction arrivals as [|i arrivals IH]; intros e held u s HR Hw Hr.
  { exists 1%nat. intros [|fuel] Hfuel; [lia|]. cbn [receive_messages fmap list_fmap receive_all].
    pose proof (inner_blocked u s Hr (r_delayed _ _ _ _ HR)) as Hb.
    destruct (receiveMessageInner u) as [res u']. cbn in Hb. by subst. }
  cbn [fmap list_fmap in_window receive_all] in *. destruct Hw as [Hwi Hw].
  pose proof (receive_represents reliable_meta header ltac:(done) header_id header_acks now e held s i HR Hwi) as Hrecv.
  pose proof (inner_datagram u s (reliable_datagram i) (fmap (M := list) reliable_datagram arrivals) (reliable_meta i) (header i) Hr
    (r_delayed _ _ _ _ HR) (reliable_datagram_decoded i) eq_refl eq_refl eq_refl eq_refl ltac:(cbn; lia)
    (reliable_datagram_length i)) as Hinner.
  unfold receive in *. destruct (handleIncoming now (reliable_meta i) s) as [[accepted|err|f] s1].
  - rewrite drain_all in Hrecv, Hw |- * by lia.
    destruct Hinner as (u1 & Hrun & Hr1). destruct Hrecv as [(e' & held' & HR' & He & Hms & _) _].
    assert (exists js, rs_remoteDelayedQueue s1 = reliable_meta <$> js) as (js & Hjs).
    { destruct accepted; cbn [app] in Hms; [|by eexists].
      destruct (e' - e)%nat; [done|]. cbn in Hms. injection Hms as _ Hms. by eexists. }
    destruct (receive_delayed js u1 s1 _ Hr1 Hjs) as (u2 & Hr2 & Hrest).
    rewrite Hms in Hw. rewrite length_fmap, length_seq in Hw. replace (e + (e' - e))%nat with e' in Hw by lia.
    destruct (IH e' held' u2 _ HR' Hw Hr2) as (n & Hn).
    exists (S (length js + n))%nat. intros fuel Hfuel. destruct fuel as [|fuel]; [lia|].
    replace fuel with (length js + (fuel - length js))%nat by lia. cbn [receive_messages]. rewrite Hrun.
    specialize (Hn (fuel - length js)%nat ltac:(lia)).
    assert (Hq : (fun m => MData {| dm_data := mm_data m; dm_compHeader := None; dm_relHeader := None |}) <$>
      rs_remoteDelayedQueue s1 = application_message <$> js) by (rewrite Hjs, <- list_fmap_compose; done).
    destruct accepted; rewrite Hrest, Hn; cbn [app];
      destruct (receive_all reliable_meta _ _) as [ms'|e2|f2]; cbn; rewrite ?fmap_app, ?Hq; done.
  - exists 1%nat. intros [|fuel] Hfuel; [lia|]. cbn [receive_messages].
    destruct (receiveMessageInner u) as [res u']. cbn in Hinner. by subst.
  - done.
Qed.

(** C1. Over UDP, reliable messages reach the application in order and exactly
    once.  Whatever the datagrams that arrive (lost, repeated, reordered within
    the window), the calls of [receiveMessage], once there are enough of them to
    empty the socket, return the data of a prefix of the messages that were
    sent; once the datagrams of all the messages up to the [n]-th have arrived,
    these have been received.  The only failure is the one of more than 32
    messages held back. *)
Theorem reliable_transport_in_order arrivals u :
  ready u new_ReliableStore (reliable_datagram <$> arrivals) ->
  in_window reliable_meta 0 ((fun i => (now, i)) <$> arrivals) new_ReliableStore ->
  exists n, forall fuel, (n <= fuel)%nat ->
    match receive_messages fuel u with
    | Ok delivered => exists k, delivered = application_message <$> seq 0 k /\
        forall n, (forall j, (j < n)%nat -> j ∈ arrivals) -> (n <= k)%nat
    | Err err => err = TE_Custom TooUnreliable
    | Fault _ => False
    end.
Proof using header_wf header_id datagram_size RL WL.
  intros Hr Hw. assert (HR : represents reliable_meta 0 [] new_ReliableStore).
  { constructor; try done; [apply NoDup_nil_2|intros j Hj; by apply not_elem_of_nil in Hj|cbn; lia]. }
  destruct (receive_messages_spec arrivals 0 [] u _ HR Hw Hr) as (n & Hn). exists n. intros fuel Hfuel. rewrite Hn by done.
  pose proof (receive_all_represents reliable_meta header ltac:(done) header_id header_acks _ 0 [] _ HR Hw) as H.
  destruct (receive_all reliable_meta _ _) as [ms|err|f]; [|done|done].
  destruct H as (k & -> & Hall). exists k. split; [by rewrite <- list_fmap_compose|].
  intros m Hm. apply Hall. intros j Hj. right; right. rewrite <- list_fmap_compose.
  change (snd ∘ _) with (@id nat). by rewrite list_fmap_id; apply Hm.
Qed.
End Reliable.
End Receive.

(** ** Runs *)
Definition example_data (n : nat) : list Z := [Z.of_nat n; 1; 2; 3].
Definition example_header (n : nat) : ReliabilityHeader := plain_header (message_id n).
Definition example_arrived : list nat := [0; 2; 0; 3; 1]%nat.
Definition receiving (incoming : list (list Z)) : @UdpTransport nano_time rle_lib :=
  new_UdpTransport (0 : @instant nano_time) None (quiet_net incoming) example_rng.

Lemma reliable_transport_in_order_witness :
  exists n, forall fuel, (n <= fuel)%nat ->
    match receive_messages (R := list_reader) (5 : @instant nano_time) [] fuel
            (receiving (reliable_datagram example_data example_header <$> example_arrived)) with
    | Ok delivered => exists k, delivered = application_message example_data <$> seq 0 k /\
        forall n, (forall j, (j < n)%nat -> j ∈ example_arrived) -> (n <= k)%nat
    | Err err => err = TE_Custom TooUnreliable
    | Fault _ => False
    end.
Proof.
  apply (reliable_transport_in_order (WL := list_writer_laws) (5 : @instant nano_time) [] example_data example_header).
  - intros n. pose proof (message_id_range n). split; [unfold u16_ok; cbn; lia|]. exists [].
    split; [cbn; lia|]. split; [constructor|]. by split.
  - reflexivity.
  - intros n. vm_compute. discriminate.
  - repeat split.
  - apply (bool_decide_unpack _). vm_compute. exact I.
Defined.

(** A data message that carries its length, so that another can follow it. *)
Definition bounded_datagram (id : Z) (data : list Z) : list Z :=
  [152] ++ le_split 2 id ++ le_split 2 0 ++ le_split 2 (len data) ++ data.

Definition received_data (m : QunetMessage) : list Z := match m with MData m => dm_data m | _ => [] end.

(** Two messages in one datagram: the message 2 arrives, then a datagram with
    the messages 1 and 3.  The message 3 goes to the queue of the rest of the
    datagram, the message 2 to the queue of the delayed messages, and the first
    of the two queues is read first. *)
Example batched_messages_overtake :
  let u := receiving [bounded_datagram 2 [2]; bounded_datagram 1 [1] ++ bounded_datagram 3 [3]] in
  fmap (M := list) received_data <$> receive_messages (R := list_reader) (5 : @instant nano_time) [] 9 u = Ok [[1]; [3]; [2]].
Proof. vm_compute. reflexivity. Qed.
