(* ===== verification/UdpSafety.v ===== *)
(** * UdpTransport: whatever arrives

    The receiving methods on any sequence of datagrams, malformed and forged
    ones included.  The only headers that are excluded are those that announce
    more than the eight acknowledgements the array of [ReliabilityHeader]
    holds, which make the reliability store read past it. *)
From stdpp Require Import gmap.
From S2P Require Import Prelude Dbuf Messages Codec CodecSpec CodecSafety CodecIter Time Errors Effects.
From S2P Require Import Fragment Reliable ReliableSpec ReliableLocal Stats Compress Padding Transport Udp.

#[local] Arguments decodeMeta : simpl never.

(** ** The headers that may be met *)
Definition few_acks (rel : option ReliabilityHeader) : bool :=
  match rel with Some h => rh_ackCount h <=? 8 | None => true end.

Definition rel_ok (rel : option ReliabilityHeader) : Prop :=
  forall h, rel = Some h -> 0 <= rh_ackCount h <= 8 /\ length (rh_acks h) = 8%nat.
Definition meta_ok (meta : QunetMessageMeta) : Prop :=
  comp_ok (mm_compressionHeader meta) /\ rel_ok (mm_reliabilityHeader meta) /\
  (forall h, mm_fragmentationHeader meta = Some h -> u16_ok (fh_messageId h)).

Section Datagrams.
Context `{R : ByteReader}.

(** No message that is read before the first error has too many of them. *)
Fixpoint datagram_acks_ok (fuel : nat) (it : QunetUdpMessageIter) : bool :=
  match fuel with
  | O => true
  | S fuel =>
      match iter_next it with
      | (Some (Ok meta), it) => few_acks (mm_reliabilityHeader meta) && datagram_acks_ok fuel it
      | _ => true
      end
  end.

Definition harmless (d : list Z) : Prop :=
  bytes_ok d /\
  let d := ztake UDP_MAX_ALLOWED_MTU d in datagram_acks_ok (datagram_fuel d) (new_iter d false) = true.
End Datagrams.

Section Decoded.
Context `{RL : ByteReaderLaws}.

Lemma fragmentation_id b r frag r' :
  bytes_ok (unread r) -> decode_fragmentation b r = Ok (frag, r') ->
  forall h, frag = Some h -> u16_ok (fh_messageId h).
Proof.
  unfold decode_fragmentation. intros Hb H h Hh. destruct b; [|congruence].
  apply bind_ok in H as ([id r1] & H1 & H). apply bind_ok in H as ([i r2] & H2 & [= <- <-]).
  injection Hh as <-. cbn. by eapply u16_nonneg.
Qed.

Lemma decodeMeta_ok data udpConnId meta :
  bytes_ok data -> decodeMeta data true udpConnId = Ok meta -> few_acks (mm_reliabilityHeader meta) = true ->
  meta_ok meta.
Proof.
  intros Hb H Hfew. split_and!; [by eapply decodeMeta_comp| |].
  { intros h Hh. destruct (decodeMeta_header _ _ _ _ _ Hb H Hh) as [Hc Hl]. rewrite Hh in Hfew.
    apply Z.leb_le in Hfew. unfold u16_ok in Hc. lia. }
  clear Hfew. rewrite decodeMeta_sliced in H. destruct data as [|t data]; [done|]. unfold decodeMeta_slices in H.
  destruct (_ <? _); [done|]. destruct (_ =? 0).
  { apply bind_ok in H as (n & _ & H). destruct (_ <? _); [done|]. by injection H as <-. }
  apply bind_ok in H as ([comp r1] & H1 & H). apply bind_ok in H as ([rel r2] & H2 & H).
  apply bind_ok in H as ([frag r3] & H3 & H). apply bind_ok in H as ([bnd r4] & _ & H).
  assert (mm_fragmentationHeader meta = frag) as ->.
  { destruct bnd as [b|]; [destruct (_ <? _); [done|]|]; by injection H as <-. }
  eapply fragmentation_id; [|done]. eapply moved_bytes; [by eapply moved_reliability|].
  eapply moved_bytes; [by eapply moved_compression|]. rewrite unread_of. auto with qn.
Qed.
End Decoded.

(** ** The invariant of the parts *)
Section Parts.
Context `{TL : TimeLaws}.

Definition frag_inv (s : FragmentStore) : Prop :=
  store_inv (fs_messages s) /\
  map_Forall (fun _ m => comp_ok (pm_compressionHeader m) /\ rel_ok (pm_reliabilityHeader m)) (fs_messages s).

Definition rel_inv (s : ReliableStore) : Prop :=
  Forall (fun m => comp_ok (mm_compressionHeader (so_meta m))) (rs_remoteOutOfOrder s) /\
  Forall (fun m => comp_ok (mm_compressionHeader m)) (rs_remoteDelayedQueue s).

(** What is left to process of a message. *)
Definition whole_ok (meta : QunetMessageMeta) : Prop :=
  comp_ok (mm_compressionHeader meta) /\ rel_ok (mm_reliabilityHeader meta).

Lemma processFragment_inv now order meta :
  meta_ok meta -> is_Some (mm_fragmentationHeader meta) -> walks_all order ->
  triple frag_inv (processFragment now order meta)
    (fun res s => frag_inv s /\ forall m, res = Some m -> whole_ok m) frag_inv.
Proof.
  intros (Hcomp & Hrel & Hid) [frh Hfrh] Hwalk s [Hs Hh]. specialize (Hid _ Hfrh).
  pose proof (processFragment_steps now order meta frh s Hs Hwalk Hfrh Hid) as H. cbn zeta in H.
  destruct (processFragment now order meta s) as [res s'].
  set (fmsg := default empty_message (fs_messages s !! fh_messageId frh)) in *.
  assert (Hf : comp_ok (pm_compressionHeader fmsg) /\ rel_ok (pm_reliabilityHeader fmsg)).
  { unfold fmsg. destruct (fs_messages s !! fh_messageId frh) eqn:E; [by eapply Hh|done]. }
  set (added := add_fragment now meta frh fmsg) in *.
  assert (Ha : comp_ok (pm_compressionHeader added) /\ rel_ok (pm_reliabilityHeader added)).
  { unfold added, add_fragment. cbn. destruct Hf. split; repeat case_match; by subst. }
  assert (Hentry : forall msg, (entry_after now meta frh (fs_messages s !! fh_messageId frh)).2 = Some msg ->
    comp_ok (pm_compressionHeader msg) /\ rel_ok (pm_reliabilityHeader msg)).
  { intros msg. unfold entry_after. fold fmsg added. destruct (has_index _ _); cbn.
    - intros E. by eapply Hh.
    - destruct (is_complete added); cbn; [done|]. by intros [= <-]. }
  assert (Hres : match (entry_after now meta frh (fs_messages s !! fh_messageId frh)).1 with
                 | Ok r => forall m, r = Some m -> whole_ok m | Err _ => True | Fault _ => False end).
  { unfold entry_after. fold fmsg added. destruct (has_index _ _); cbn; [done|].
    destruct (is_complete added); cbn; [|done]. unfold reassemble. destruct (check_sequence _ _); [|done].
    by intros m [= <-]. }
  destruct (entry_after _ _ _ _) as [res' entry]. cbn in Hentry, Hres. destruct H as (-> & Hs' & Hk & Hother).
  assert (Hinv : frag_inv s').
  { split; [done|]. intros k msg Hm. destruct (decide (k = fh_messageId frh)) as [->|Hne].
    - destruct Hk as [E|[E _]]; rewrite E in Hm; [by apply Hentry|done].
    - destruct (Hother k Hne) as [E|[E _]]; rewrite E in Hm; [by eapply Hh|done]. }
  by destruct res' as [r|e|f].
Qed.

Lemma take_stored_inv id l meta rest :
  take_stored id l = Some (meta, rest) -> Forall (fun m => comp_ok (mm_compressionHeader (so_meta m))) l ->
  comp_ok (mm_compressionHeader meta) /\ Forall (fun m => comp_ok (mm_compressionHeader (so_meta m))) rest.
Proof.
  revert meta rest. induction l as [|m l IH]; intros meta rest H Hl; cbn in H; [done|].
  apply Forall_cons in Hl as [Hm Hl]. case_bool_decide; [by injection H as <- <-|].
  destruct (take_stored id l) as [[meta' rest']|]; [|done]. injection H as <- <-.
  destruct (IH _ _ eq_refl Hl). by repeat constructor.
Qed.

Lemma restore_inv fuel now s s' : maybeRestoreRemote fuel now s = Ok s' -> rel_inv s -> rel_inv s'.
Proof.
  revert s. induction fuel as [|fuel IH]; intros s H [Ho Hd]; cbn in H; [done|].
  destruct (take_stored _ _) as [[meta rest]|] eqn:E; [|by injection H as <-].
  apply take_stored_inv in E as [Hm Hr]; [|done]. apply IH in H; [done|]. split; cbn; [done|].
  apply Forall_app. by repeat constructor.
Qed.

Lemma pushRemote_inv fuel now id dupe s s' :
  pushRemoteUnackedWithId (maybeRestoreRemote fuel now) now id dupe s = Ok s' -> rel_inv s -> rel_inv s'.
Proof.
  unfold pushRemoteUnackedWithId. destruct (_ && _); [by intros [= <-]|]. intros H Hs.
  by eapply restore_inv in H.
Qed.

Lemma handleIncoming_inv now meta :
  whole_ok meta -> is_Some (mm_reliabilityHeader meta) ->
  triple rel_inv (handleIncoming now meta) (fun _ => rel_inv) rel_inv.
Proof.
  intros [Hcomp Hrel] [h Hh] s Hs. destruct (Hrel _ Hh) as [Hcount Hslots].
  unfold handleIncoming. rewrite Hh, processAcks_ok by lia. set (s1 := set_local _ _ s).
  assert (Hs1 : rel_inv s1) by exact Hs. clearbody s1. destruct (_ =? 0); [done|].
  destruct (is_duplicate _ _); cbn [negb andb].
  - unfold pushRemoteDuplicate. pose proof (push_never_faults now (rh_messageId h) true s1 s1 eq_refl) as Hf.
    destruct (pushRemoteUnackedWithId _ _ _ _ _) eqn:E; [by eapply pushRemote_inv in E|done|done].
  - destruct (negb _).
    + unfold storeRemoteOutOfOrder. destruct (_ <=? _); [done|]. destruct (existsb _ _); [done|].
      destruct Hs1. split; [|done]. cbn. apply Forall_app. by repeat constructor.
    + unfold pushRemoteUnacked. set (s2 := set_remote _ _ _ _ s1).
      pose proof (push_never_faults now (rs_nextRemoteId s1) false s2 s1 eq_refl) as Hf.
      destruct (pushRemoteUnackedWithId _ _ _ _ _) eqn:E; [by eapply pushRemote_inv in E|done|done].
Qed.

Lemma popDelayed_inv s :
  rel_inv s -> rel_inv (popDelayedMessage s).2 /\
  forall m, (popDelayedMessage s).1 = Some m -> comp_ok (mm_compressionHeader m).
Proof.
  intros [Ho Hd]. unfold popDelayedMessage. destruct (rs_remoteDelayedQueue s) as [|m q] eqn:E; cbn.
  - by repeat split; rewrite ?E.
  - apply Forall_cons in Hd as [Hm Hq]. split; [done|]. by intros ? [= <-].
Qed.
End Parts.

(** ** The transport *)
Section Transport.
Context `{TL : TimeLaws} {CL : CompressionLib} `{RL : ByteReaderLaws}.

(** What the methods that receive preserve; [n] datagrams at most are left. *)
Definition receiving_inv (n : nat) (u : UdpTransport) : Prop :=
  frag_inv (ut_fragStore u) /\ rel_inv (ut_relStore u) /\
  Forall harmless (net_incoming (ut_net u)) /\ (length (net_incoming (ut_net u)) <= n)%nat.

(** The base and the statistics do not matter to the invariant. *)
Lemma in_base_inv {A} (m : ST BaseTransport A) n :
  (forall b, is_fault (m b).1 = false) ->
  triple (receiving_inv n) (in_base m) (fun _ => receiving_inv n) (receiving_inv n).
Proof.
  intros Hm u Hu. specialize (Hm (ut_base u)). unfold in_base, focus.
  destruct (m (ut_base u)) as [[a|e|f] b]; [exact Hu|exact Hu|done].
Qed.

Lemma in_rel_inv {A} (m : ST ReliableStore A) Q n :
  triple rel_inv m (fun a s => rel_inv s /\ Q a) rel_inv ->
  triple (receiving_inv n) (in_rel m) (fun a u => receiving_inv n u /\ Q a) (receiving_inv n).
Proof.
  intros Hm u (Hf & Hr & Hn). specialize (Hm _ Hr). unfold in_rel, focus.
  destruct (m (ut_relStore u)) as [[a|e|f] s]; [by destruct Hm|done|by destruct f].
Qed.

Lemma in_frag_inv {A} (m : ST FragmentStore A) Q n :
  triple frag_inv m (fun a s => frag_inv s /\ Q a) frag_inv ->
  triple (receiving_inv n) (in_frag m) (fun a u => receiving_inv n u /\ Q a) (receiving_inv n).
Proof.
  intros Hm u (Hf & Hr & Hn). specialize (Hm _ Hf). unfold in_frag, focus.
  destruct (m (ut_fragStore u)) as [[a|e|f] s]; [by destruct Hm|done|by destruct f].
Qed.

Lemma modify_base_inv f n :
  triple (receiving_inv n) (in_base (modify f)) (fun _ => receiving_inv n) (receiving_inv n).
Proof. by apply in_base_inv. Qed.

Lemma accept_whole_inv now meta n :
  whole_ok meta -> triple (receiving_inv n) (accept_whole now meta) (fun _ => receiving_inv n) (receiving_inv n).
Proof.
  intros Hm. unfold accept_whole. apply triple_bind with (Q := fun _ => receiving_inv n).
  - destruct (mm_reliabilityHeader meta) as [h|] eqn:E; [|apply triple_ret].
    eapply triple_conseq; [apply (in_rel_inv _ (fun _ => True))|done|by intros ? ? []|done].
    eapply triple_conseq; [apply handleIncoming_inv|done..]; [done|by rewrite E].
  - intros []; [|apply triple_ret]. eapply triple_bind; [apply in_base_inv|intros ?; apply triple_ret].
    intros b. apply decodePreFinal_total, Hm.
Qed.

Lemma processOne_inv now order meta n :
  walks_all order -> meta_ok meta ->
  triple (receiving_inv n) (processOne now order meta) (fun _ => receiving_inv n) (receiving_inv n).
Proof.
  intros Hwalk Hm. assert (whole_ok meta) as Hw by (split; apply Hm).
  unfold processOne. destruct (negb _).
  - eapply triple_bind; [apply modify_base_inv|intros ?].
    apply triple_bind with (Q := fun _ => receiving_inv n).
    + eapply triple_conseq; [apply (triple_lift (receiving_inv n))|done|by intros ? ? []|done]; [|done].
      unfold decode_error. rewrite map_err_fault. apply decodeWithMeta_total.
    + intros msg. apply triple_bind with (Q := fun _ => receiving_inv n); [|intros ?; apply triple_ret].
      destruct msg; try apply triple_ret. apply modify_base_inv.
  - destruct (mm_fragmentationHeader meta) as [frh|] eqn:E; [|by apply accept_whole_inv].
    eapply triple_bind; [apply (in_frag_inv _ (fun res => forall m, res = Some m -> whole_ok m))|].
    + apply processFragment_inv; [done|by rewrite E|done].
    + intros [m|]; [|eapply triple_conseq; [apply triple_ret|..]; try done; by intros ? []].
      intros u [Hu Hmw]. by apply accept_whole_inv; [apply Hmw|].
Qed.

(** The loop over the messages of a datagram. *)
Lemma process_datagram_inv now order fuel it toReturn n :
  walks_all order -> bytes_ok (it_data it) -> 0 <= it_pos it ->
  Z.max 0 (len (it_data it) - it_pos it) < Z.of_nat fuel -> datagram_acks_ok fuel it = true ->
  triple (receiving_inv n) (process_datagram fuel now order it toReturn)
    (fun _ => receiving_inv n) (receiving_inv n).
Proof.
  intros Hwalk. revert it toReturn. induction fuel as [|fuel IH]; intros it toReturn Hb Hpos Hfuel Hacks; [lia|].
  cbn [process_datagram datagram_acks_ok] in *. destruct (iter_next it) as [[item|] it'] eqn:E; [|apply triple_ret].
  destruct (iter_next_progress it item it' Hb Hpos E) as (Hf & Hlt & Hok).
  destruct item as [meta|e|f]; [|by intros u Hu|done]. destruct (Hok eq_refl) as [Hadv Hd].
  apply andb_true_iff in Hacks as [Hfew Hacks].
  assert (meta_ok meta) as Hm.
  { rewrite iter_next_slices in E. destruct (_ || _); [done|].
    destruct (decodeMeta _ _ _) as [m| |] eqn:Hdec; [|done|done]. injection E as <- _.
    eapply decodeMeta_ok; [|exact Hdec|done]. auto with qn. }
  assert (Hrec : forall toReturn, triple (receiving_inv n) (process_datagram fuel now order it' toReturn)
    (fun _ => receiving_inv n) (receiving_inv n)).
  { intros r. apply IH; rewrite ?Hd; try done; lia. }
  intros u Hu. erewrite bind_run by reflexivity. revert u Hu. change (triple (receiving_inv n)
    (if mm_type meta =? MSG_PADDING then process_datagram fuel now order it' toReturn
     else msg ← processOne now order meta;
       match msg, toReturn with
       | None, _ => process_datagram fuel now order it' toReturn
       | Some m, None => process_datagram fuel now order it' (Some m)
       | Some m, Some _ =>
           _ ← modify (fun u => set_pending (ut_pendingMessages u ++ [m]) u);
           process_datagram fuel now order it' toReturn
       end) (fun _ => receiving_inv n) (receiving_inv n)).
  destruct (_ =? MSG_PADDING); [apply Hrec|]. eapply triple_bind; [by apply processOne_inv|].
  intros [m|]; [|apply Hrec]. destruct toReturn; [|apply Hrec].
  eapply triple_bind; [|intros ?; apply Hrec]. by apply triple_modify.
Qed.

(** Either there is a message, or a datagram has been taken. *)
Lemma receiveMessageInner_inv now order n :
  walks_all order ->
  triple (receiving_inv n) (receiveMessageInner now order)
    (fun res u => receiving_inv n u /\ (res = None -> length (net_incoming (ut_net u)) < n)%nat) (receiving_inv n).
Proof.
  intros Hwalk. unfold receiveMessageInner. eapply triple_bind; [apply triple_get|]. cbv beta.
  intros [|m ms].
  2: { eapply triple_bind; [apply triple_modify with (Q := receiving_inv n); by intros u []|].
       by intros ? u Hu. }
  apply triple_bind with (Q := fun d u => receiving_inv n u /\
    forall m, d = Some m -> comp_ok (mm_compressionHeader m)).
  { eapply triple_conseq; [apply (in_rel_inv _ (fun d => forall m, d = Some m -> comp_ok (mm_compressionHeader m)))|by intros ? []|done|done].
    intros s Hs. unfold state. apply popDelayed_inv in Hs. by destruct (popDelayedMessage s). }
  intros [meta|].
  { intros u [Hu Hm]. revert u Hu. change (triple (receiving_inv n)
      (msg ← in_base (decodePreFinalDataMessage now meta); mret (Some msg))
      (fun res u => receiving_inv n u /\ (res = None -> length (net_incoming (ut_net u)) < n)%nat) (receiving_inv n)).
    eapply triple_bind; [apply in_base_inv; intros b; by apply decodePreFinal_total, Hm|].
    by intros msg u Hu. }
  apply triple_bind with (Q := fun data u => (receiving_inv (pred n) u /\ (0 < n)%nat) /\
    bytes_ok data /\ datagram_acks_ok (datagram_fuel data) (new_iter data false) = true).
  { apply triple_focus. intros u [(Hf & Hr & Hin & Hn) _] net <-. unfold socket_recv.
    destruct (net_incoming (ut_net u)) as [|d ds] eqn:E.
    - split_and!; cbn; rewrite ?E; done.
    - apply Forall_cons in Hin as [[Hb Hd] Hin]. cbn in Hn.
      split; [split; [split_and!; [done|done|done|cbn; lia]|lia]|]. split; [auto with qn|done]. }
  intros data u ((Hu & Hn) & Hb & Hacks).
  assert (Hless : forall u, receiving_inv (pred n) u -> receiving_inv n u).
  { intros v (? & ? & ? & ?). split_and!; try done. lia. }
  destruct (_ =? 0); [by apply Hless|].
  eapply triple_conseq with (P' := receiving_inv (pred n)) (Q' := fun _ => receiving_inv (pred n));
    [| | | |exact Hu]; [|done| |exact Hless].
  - eapply triple_bind; [apply modify_base_inv|intros ?]. apply process_datagram_inv; try done.
    unfold datagram_fuel. cbn. lia.
  - intros res v Hv. split; [auto|]. intros _. destruct Hv as (_ & _ & _ & Hv). lia.
Qed.

Lemma receive_loop_inv now order fuel n :
  walks_all order -> (n < fuel)%nat ->
  triple (receiving_inv n) (receive_loop fuel now order) (fun _ => receiving_inv n) (receiving_inv n).
Proof.
  intros Hwalk. revert n. induction fuel as [|fuel IH]; intros n Hn; [lia|]. cbn [receive_loop].
  eapply triple_bind; [by apply receiveMessageInner_inv|]. intros [m|] u [Hu Hless]; [exact Hu|].
  specialize (Hless eq_refl). destruct n as [|n]; [lia|].
  assert (Hmore : forall u, receiving_inv n u -> receiving_inv (S n) u).
  { intros v (? & ? & ? & ?). split_and!; try done. lia. }
  eapply triple_conseq with (P' := receiving_inv n);
    [apply IH; lia|done|intros ?; exact Hmore|exact Hmore|].
  destruct Hu as (? & ? & ? & _). split_and!; try done. lia.
Qed.

(** What [receiveMessage] keeps. *)
Definition udp_inv (u : UdpTransport) : Prop :=
  frag_inv (ut_fragStore u) /\ rel_inv (ut_relStore u) /\ Forall harmless (net_incoming (ut_net u)).

Lemma receiveMessage_safe now order : walks_all order -> safe udp_inv (receiveMessage now order).
Proof.
  intros Hwalk u (Hf & Hr & Hin). unfold receiveMessage.
  pose proof (receive_loop_inv now order (S (length (net_incoming (ut_net u)))) (length (net_incoming (ut_net u)))
    Hwalk ltac:(lia) u) as H.
  destruct (receive_loop _ _ _ u) as [res u']. specialize (H ltac:(by split_and!)).
  destruct res as [m|e|[]]; try done; by destruct H as (? & ? & ? & _).
Qed.

(** C7. Receiving never throws.  Whatever the datagrams that have arrived, and
    however the fragment store is walked, [receiveMessage] returns a message,
    returns an error, or waits for the next datagram, and it keeps the
    invariant of the stores; the loop over the messages of a datagram and the
    loop over the datagrams end.  A datagram must only not hold a reliability
    header that announces more than eight acknowledgements. *)
Theorem receive_never_throws now order u :
  udp_inv u -> walks_all order ->
  let '(res, u') := receiveMessage now order u in
  (is_fault res = false \/ res = Fault WouldBlock) /\ udp_inv u'.
Proof.
  intros Hu Hwalk. pose proof (receiveMessage_safe now order Hwalk u Hu) as H.
  destruct (receiveMessage now order u) as [[m|e|[]] u']; try done; by split; [auto|].
Qed.
End Transport.

(** ** A concrete input *)
(** A fragment that is the last and the first of its message, a message with a
    boundary beyond the end, an unknown message type, a padding message. *)
Definition odd_datagrams : list (list Z) :=
  [[192; 7; 0; 0; 128; 1; 2]; [136; 9; 0; 1]; [99]; [127; 0; 0]; []].

Definition odd_udp : @UdpTransport nano_time rle_lib :=
  new_UdpTransport (0 : @instant nano_time) None (quiet_net odd_datagrams) {| m_x := 1; m_y := 2; m_z := 3 |}.

Lemma receive_never_throws_witness :
  let '(res, u') := receiveMessage (T := nano_time) (R := list_reader) (5 : @instant nano_time) every_key odd_udp in
  (is_fault res = false \/ res = Fault WouldBlock) /\ udp_inv (R := list_reader) u'.
Proof.
  apply (receive_never_throws (T := nano_time) (CL := rle_lib) (R := list_reader)
    (5 : @instant nano_time) every_key odd_udp).
  - split; [split; apply map_Forall_empty|]. split; [split; apply Forall_nil_2|].
    repeat (apply Forall_cons_2; [split; [repeat constructor; unfold byte_ok; lia|vm_compute; reflexivity]|]).
    apply Forall_nil_2.
  - apply every_key_walks.
Defined.
