(* ===== verification/UdpCalls.v ===== *)
(** * UdpTransport: every call

    Sending, the timer and the handshake beside receiving ([UdpSafety]): none of
    the calls throws, and each keeps the invariant on which the others rely. *)
From Stdlib Require Import SpecFloat.
From S2P Require Import Prelude Dbuf Messages Codec CodecSpec CodecSafety Time Errors Effects.
From S2P Require Import Fragment Reliable ReliableLocal Stats Compress Padding Transport Udp UdpSend UdpTimer UdpSafety.

#[local] Arguments decodeMeta : simpl never.
Open Scope Z_scope.

(** ** What is sent and received *)
(** A chunk of a database has the size that it announces. *)
Definition chunk_ok (m : QunetMessage) : Prop :=
  match m with MHandshakeFinish hf => forall q, hf_qdbData hf = Some q -> len (qd_chunkData q) = qd_chunkSize q | _ => True end.

(** The header of an outgoing message counts at most eight acknowledgements. *)
Definition rel_small (rel : option ReliabilityHeader) : Prop := forall h, rel = Some h -> 0 <= rh_ackCount h <= 8.
Definition local_ok {T : TimeLib} (u : UnackedLocalMessage) : Prop :=
  exists m h, ul_msg u = MData m /\ dm_relHeader m = Some h /\ 0 <= rh_ackCount h <= 8.

Section Decoded.
Context `{RL : ByteReaderLaws}.

Lemma read_size r n r' : bytes_ok (unread r) -> readU32 r = Ok (n, r') -> 0 <= n.
Proof.
  intros Hb H. rewrite readU32_law in H. apply reads_ok in H as (H4 & -> & _).
  pose proof (le_combine_small 4 r Hb). lia.
Qed.

Lemma read_bytes_if_any n r bs r' : 0 <= n -> readBytes_if_any n r = Ok (bs, r') -> len bs = n.
Proof.
  intros Hn. unfold readBytes_if_any. destruct (Z.ltb_spec 0 n); [|intros [= <- _]; cbn; lia].
  rewrite readBytes_law. intros (Hl & -> & _)%reads_ok. apply len_ztake. lia.
Qed.

Lemma decode_chunk (r r' : reader) hf :
  bytes_ok (unread r) -> HandshakeFinishMessage_decode r = Ok (hf, r') -> chunk_ok (MHandshakeFinish hf).
Proof.
  intros Hb. unfold HandshakeFinishMessage_decode. intros H. apply bind_ok in H as ([id r1] & H1 & H).
  apply bind_ok in H as ([b r2] & H2 & H). destruct b; [|injection H as <- <-; by intros q].
  apply bind_ok in H as ([q r3] & Hq & H). injection H as <- <-. intros q' [= <-].
  unfold QdbData_decode in Hq. apply bind_ok in Hq as ([a1 s1] & Ha1 & Hq). apply bind_ok in Hq as ([a2 s2] & Ha2 & Hq).
  apply bind_ok in Hq as ([a3 s3] & Ha3 & Hq). apply bind_ok in Hq as ([size s4] & Hsize & Hq).
  apply bind_ok in Hq as ([data s5] & Hd & Hq). injection Hq as <- <-. cbn.
  eapply read_bytes_if_any; [|exact Hd]. eapply read_size; [|exact Hsize].
  assert (forall {A} w (f : list Z -> A) d a (x x' : reader), (forall r, d r = reads unread advance w f r) -> 0 <= w ->
    d x = Ok (a, x') -> bytes_ok (unread x) -> bytes_ok (unread x')) as Hmove.
  { intros A w f d a x x' Hr Hw Hx. apply moved_bytes with w. by eapply moved_reads. }
  eapply Hmove; [apply readU32_law|lia|exact Ha3|]. eapply Hmove; [apply readU32_law|lia|exact Ha2|].
  eapply Hmove; [apply readU32_law|lia|exact Ha1|]. apply readBool_inv in H2 as [-> _].
  rewrite unread_advance. apply Forall_drop.
  eapply Hmove; [apply readU64_law|lia|exact H1|done].
Qed.

Lemma decodeWithMeta_chunk meta m : bytes_ok (mm_data meta) -> decodeWithMeta meta = Ok m -> chunk_ok m.
Proof.
  intros Hb. unfold decodeWithMeta. destruct (negb _); [done|].
  assert (forall {A} (k : A -> QunetMessage) (d : result read_error (A * reader)),
    (forall a, chunk_ok (k a)) -> as_message k d = Ok m -> chunk_ok m) as Hother.
  { intros A k d Hk. unfold as_message. intros H. apply bind_ok in H as ([a r] & _ & H). by injection H as <-. }
  assert (as_message MHandshakeFinish (HandshakeFinishMessage_decode (reader_of (mm_data meta))) = Ok m -> chunk_ok m) as Hhf.
  { unfold as_message. intros H. apply bind_ok in H as ([a r] & H & Hm). injection Hm as <-.
    apply map_invalid_ok in H. eapply decode_chunk; [|exact H]. by rewrite unread_of. }
  repeat (case_match; try done); first [exact Hhf | by apply Hother | by intros [= <-]].
Qed.

Lemma decodeMeta_bytes data udp udpConnId meta :
  bytes_ok data -> decodeMeta data udp udpConnId = Ok meta -> bytes_ok (mm_data meta).
Proof.
  intros Hb H. destruct (decodeMeta_payload _ _ _ _ Hb H) as (_ & _ & ->). auto with qn.
Qed.
End Decoded.

(** ** What receiving keeps *)
Section Receiving.
Context {T : TimeLib} {CL : CompressionLib} `{RL : ByteReaderLaws}.

Definition locals_ok (r : ReliableStore) : Prop := Forall local_ok (rs_localUnacked r).
Definition calls_inv (u : UdpTransport) : Prop :=
  Forall harmless (net_incoming (ut_net u)) /\ Forall chunk_ok (ut_pendingMessages u) /\
  locals_ok (ut_relStore u) /\ ut_mtu u = UDP_SAFE_MTU.

Lemma calls_in_base {A} (m : ST BaseTransport A) : preserves calls_inv (in_base m).
Proof. by apply preserves_focus. Qed.
Lemma calls_in_frag {A} (m : ST FragmentStore A) : preserves calls_inv (in_frag m).
Proof. by apply preserves_focus. Qed.
Lemma calls_in_rel {A} (m : ST ReliableStore A) : preserves locals_ok m -> preserves calls_inv (in_rel m).
Proof.
  intros Hm u (Hn & Hp & Hl & Hmtu). specialize (Hm _ Hl). unfold in_rel, focus. by destruct (m (ut_relStore u)).
Qed.
Lemma calls_in_net {A} (m : ST Net A) : preserves (fun n => Forall harmless (net_incoming n)) m -> preserves calls_inv (in_net m).
Proof.
  intros Hm u (Hn & Hp & Hl & Hmtu). specialize (Hm _ Hn). unfold in_net, focus. by destruct (m (ut_net u)).
Qed.
Lemma calls_pending f : (forall l, Forall chunk_ok l -> Forall chunk_ok (f l)) ->
  preserves calls_inv (modify (fun u => set_pending (f (ut_pendingMessages u)) u) : ST UdpTransport unit).
Proof. intros Hf u (Hn & Hp & Hl & Hmtu). split; [done|]. split; [by apply Hf|done]. Qed.
#[local] Hint Resolve calls_in_base calls_in_frag : preserves.

(** The acknowledgements only remove local messages. *)
Lemma erase_first_locals id l : Forall local_ok l -> Forall local_ok (erase_first id l).
Proof. rewrite !Forall_forall. intros H x Hx. by apply H, (erase_first_sub id l). Qed.

Lemma processAcks_locals n acks r r' : processAcks_loop n acks r = Ok r' -> locals_ok r -> locals_ok r'.
Proof.
  revert acks r. induction n as [|n IH]; intros acks r; [by destruct acks; intros [= <-]|].
  destruct acks as [|a acks]; [done|]. cbn. intros H Hr. eapply IH; [exact H|]. by apply erase_first_locals.
Qed.

Lemma restore_locals fuel now r r' : maybeRestoreRemote fuel now r = Ok r' -> rs_localUnacked r' = rs_localUnacked r.
Proof.
  revert r. induction fuel as [|fuel IH]; intros r H; [done|]. cbn in H.
  destruct (take_stored _ _) as [[meta rest]|]; [|by injection H as <-]. by apply IH in H.
Qed.

Lemma handleIncoming_locals now meta : preserves locals_ok (handleIncoming now meta).
Proof.
  intros r Hr. unfold handleIncoming. destruct (mm_reliabilityHeader meta) as [h|]; [|done].
  destruct (processAcks h r) as [r1|e|f] eqn:E; [|done..]. apply processAcks_locals in E; [|done]. clear r Hr.
  assert (forall m : TransportResult ReliableStore, (forall r', m = Ok r' -> rs_localUnacked r' = rs_localUnacked r1) ->
    forall b, locals_ok (match m with Ok s => (Ok b, s) | Err e => (Err e, r1) | Fault f => (Fault f, r1) end : TransportResult bool * _).2) as Hm.
  { intros m Hm b. destruct m as [r'|e|f]; [|done..]. cbn. unfold locals_ok. by rewrite (Hm _ eq_refl). }
  destruct (_ =? 0); [done|]. destruct (is_duplicate _ _); [|destruct (negb _ && _)]; apply Hm; intros r'.
  - unfold pushRemoteDuplicate, pushRemoteUnackedWithId. destruct (_ && _); [by intros [= <-]|]. by intros H%restore_locals.
  - unfold storeRemoteOutOfOrder. destruct (_ <=? _); [done|]. destruct (existsb _ _); by intros [= <-].
  - by intros H%restore_locals.
Qed.

Lemma popDelayed_locals : preserves locals_ok (state popDelayedMessage : ST ReliableStore _).
Proof. apply preserves_state. intros r Hr. unfold popDelayedMessage. by destruct (rs_remoteDelayedQueue r). Qed.

(** ** What it returns *)
Abbreviation returning := (fun om : option QunetMessage => forall m, om = Some m -> chunk_ok m).

Lemma decodePreFinal_chunk now meta (b : BaseTransport) m : (decodePreFinalDataMessage now meta b).1 = Ok m -> chunk_ok m.
Proof.
  unfold decodePreFinalDataMessage, modify, get, lift, mbind, ST_bind. cbn.
  by destruct (decompress_message _ _ _); intros [= <-].
Qed.

Lemma in_base_chunk now meta : yields calls_inv (in_base (decodePreFinalDataMessage now meta)) chunk_ok.
Proof.
  intros u Hu. split; [by apply calls_in_base|]. intros m. unfold in_base, focus.
  pose proof (decodePreFinal_chunk now meta (ut_base u)) as H.
  destruct (decodePreFinalDataMessage now meta (ut_base u)) as [res b]. by apply H.
Qed.

Lemma accept_whole_yields now meta : yields calls_inv (accept_whole now meta) returning.
Proof.
  unfold accept_whole. apply yields_seq.
  - destruct (mm_reliabilityHeader meta); [apply calls_in_rel, handleIncoming_locals|apply preserves_ret].
  - intros []; [|by apply yields_ret]. eapply yields_bind; [apply in_base_chunk|]. intros m Hm. apply yields_ret. by intros ? [= <-].
Qed.

Lemma processOne_yields now order meta : bytes_ok (mm_data meta) -> yields calls_inv (processOne now order meta) returning.
Proof.
  intros Hb. unfold processOne. destruct (negb _).
  - apply yields_seq; [apply calls_in_base|intros _]. eapply yields_bind with (Q := chunk_ok).
    + apply yields_lift. intros m Hm. apply map_err_ok in Hm. by eapply decodeWithMeta_chunk.
    + intros m Hm. apply yields_seq; [destruct m; auto with preserves|]. intros _. apply yields_ret. by intros ? [= <-].
  - destruct (mm_fragmentationHeader meta); [|apply accept_whole_yields]. apply yields_seq; [apply calls_in_frag|].
    intros [m|]; [apply accept_whole_yields|by apply yields_ret].
Qed.

Lemma process_datagram_yields now order fuel it r :
  bytes_ok (it_data it) -> returning r -> yields calls_inv (process_datagram fuel now order it r) returning.
Proof.
  revert it r. induction fuel as [|fuel IH]; intros it r Hb Hr; cbn [process_datagram]; [by intros u Hu|].
  destruct (iter_next it) as [[item|] it'] eqn:E; [|by apply yields_ret].
  eapply yields_bind with (Q := fun meta => bytes_ok (mm_data meta) /\ bytes_ok (it_data it')).
  - apply yields_lift. intros meta Hm. unfold decode_error in Hm. apply map_err_ok in Hm. subst item.
    rewrite iter_next_slices in E. destruct (_ || _); [done|]. destruct (decodeMeta _ _ _) as [meta'|e|f] eqn:Hd; [|done..].
    injection E as <- <-. split; [|done]. eapply decodeMeta_bytes; [|exact Hd]. auto with qn.
  - intros meta [Hmeta Hit]. destruct (_ =? MSG_PADDING); [by apply IH|].
    eapply yields_bind; [by apply processOne_yields|]. intros [m|] Hm; [|by apply IH].
    destruct r as [m0|]; [|apply IH; [done|by intros ? [= <-]; apply Hm]].
    apply yields_seq; [|intros _; by apply IH].
    apply (calls_pending (fun l => l ++ [m])). intros l Hl. apply Forall_app. split; [done|]. constructor; [by apply Hm|done].
Qed.

Lemma receiveMessageInner_yields now order : yields calls_inv (receiveMessageInner now order) returning.
Proof.
  unfold receiveMessageInner. apply yields_read. intros u (_ & Hpend & _). destruct (ut_pendingMessages u) as [|m ms].
  - apply yields_seq; [apply calls_in_rel, popDelayed_locals|]. intros [meta|].
    + eapply yields_bind; [apply in_base_chunk|]. intros m Hm. apply yields_ret. by intros ? [= <-].
    + eapply yields_bind with (Q := bytes_ok).
      * clear u Hpend. intros u (Hn & Hrest). unfold in_net, focus, socket_recv. destruct (net_incoming (ut_net u)) as [|d ds] eqn:E.
        -- split; [|done]. by split; [cbn; rewrite E|].
        -- apply Forall_cons in Hn as [[Hb _] Hn]. split; [by split|]. intros bs [= <-]. auto with qn.
      * intros data Hb. destruct (_ =? 0); [apply yields_throw|]. apply yields_seq; [apply calls_in_base|].
        intros _. by apply process_datagram_yields.
  - apply Forall_cons in Hpend as [Hm Hpend]. apply yields_seq; [by apply (calls_pending (fun _ => ms))|].
    intros _. apply yields_ret. by intros ? [= <-].
Qed.

Lemma receive_loop_yields fuel now order : yields calls_inv (receive_loop fuel now order) chunk_ok.
Proof.
  induction fuel as [|fuel IH]; cbn [receive_loop]; [by intros u Hu|].
  eapply yields_bind; [apply receiveMessageInner_yields|]. intros [m|] Hm; [by apply yields_ret, Hm|apply IH].
Qed.

Lemma receiveMessage_yields now order : yields calls_inv (receiveMessage now order) chunk_ok.
Proof. intros u. apply receive_loop_yields. Qed.
End Receiving.

(** ** Sending *)
Section Sending.
Context {T : TimeLib} {TL : TimeLaws T} {CL : CompressionLib} `{WL : ByteWriterLaws, RL : ByteReaderLaws}.

(** What every call keeps. *)
Definition udp_ok (u : UdpTransport) : Prop := udp_inv u /\ calls_inv u.

Lemma udp_in_base_safe {A} (m : ST BaseTransport A) : returns m -> safe udp_ok (in_base m).
Proof. intros Hm. apply safe_returns; [by apply returns_focus|]. by apply preserves_focus. Qed.
Lemma udp_modify_base_safe f : safe udp_ok (in_base (modify f)).
Proof. by apply udp_in_base_safe. Qed.
Lemma udp_in_net_safe {A} (m : ST Net A) : returns m -> keeps net_incoming m -> safe udp_ok (in_net m).
Proof.
  intros Hr Hk. apply safe_returns; [by apply returns_focus|]. intros u ((Hf & Hrel & Hn) & Hn' & Hrest).
  specialize (Hk (ut_net u)). unfold in_net, focus. destruct (m (ut_net u)) as [res n]. cbn in Hk.
  unfold udp_ok, udp_inv, calls_inv. cbn. by rewrite Hk.
Qed.
Lemma udp_in_rel_safe {A} (m : ST ReliableStore A) : safe (fun r => rel_inv r /\ locals_ok r) m -> safe udp_ok (in_rel m).
Proof.
  apply safe_focus.
  - by intros u ((_ & Hr & _) & _ & _ & Hl & _).
  - by intros r u ((Hf & _ & Hn) & Hn' & Hp & _ & Hm) [Hr Hl].
Qed.
#[local] Hint Resolve udp_modify_base_safe : safe.

Lemma udp_send_unless_lost_safe data : safe udp_ok (send_unless_lost data).
Proof.
  unfold send_unless_lost, shouldLosePacket. apply safe_bind.
  - apply udp_in_net_safe; [apply returns_state|]. by apply keeps_state.
  - intros []; [apply safe_ret|]. apply udp_in_net_safe; [apply socket_send_returns|].
    intros n. unfold socket_send. by destruct (net_errors n) as [|[]].
Qed.
#[local] Hint Resolve udp_send_unless_lost_safe : safe.

Lemma fragment_datagram_total msg connectionId id index isLast chunk :
  exists w, fragment_datagram msg connectionId id index isLast chunk = Ok w.
Proof.
  unfold fragment_datagram.
  destruct (encodeDataHeader_written msg connectionId (negb (index =? 0)) new_writer) as (w & -> & Hw).
  rewrite written_new in Hw. cbn [unwrap mbind result_bind]. destruct (written w) as [|b bs] eqn:E; [by destruct (negb _)|].
  cbn [mbind result_bind]. destruct (performAtU8_law 0 (Z.lor b MSG_DATA_FRAGMENTATION_MASK) w ltac:(lia)) as (w' & -> & _).
  { rewrite E. cbn [length]. lia. }
  by eexists.
Qed.

(** The part of the data that goes into a datagram. *)
Lemma payload_size msg index :
  rel_small (dm_relHeader msg) ->
  0 < (if index =? 0 then u64 (UDP_SAFE_MTU - relHdrSize msg - compHdrSize msg - fragHdrSize - commonHdrSize)
       else u64 (UDP_SAFE_MTU - fragHdrSize - commonHdrSize)).
Proof.
  intros Hr. pose proof (compHdrSize_bound msg). assert (0 <= relHdrSize msg <= 20).
  { unfold relHdrSize. destruct (dm_relHeader msg) as [h|]; [specialize (Hr h eq_refl)|]; lia. }
  unfold UDP_SAFE_MTU, fragHdrSize, commonHdrSize. destruct (index =? 0); rewrite u_small by lia; lia.
Qed.

Lemma udp_send_fragments_safe fuel now msg id index rest :
  rel_small (dm_relHeader msg) -> (length rest < fuel)%nat -> safe udp_ok (send_fragments fuel now msg id index rest).
Proof.
  intros Hr. revert index rest. induction fuel as [|fuel IH]; intros index rest Hl; [lia|]. cbn [send_fragments].
  destruct rest as [|b rest]; [apply safe_ret|]. set (data := b :: rest) in *.
  apply safe_read. intros u (_ & _ & _ & _ & Hmtu). rewrite Hmtu. apply safe_read. intros v _. cbn zeta.
  set (size := if index =? 0 then _ else _). assert (0 < size) as Hsize by apply (payload_size msg index Hr). clearbody size.
  destruct (fragment_datagram_total msg (bt_connectionId (ut_base v)) id index (len data <=? size)
    (ztake (Z.min size (len data)) data)) as (w & Hw). rewrite Hw.
  apply safe_bind; [by apply safe_lift|]. intros w'. apply safe_bind; [apply udp_send_unless_lost_safe|]. intros _.
  apply safe_bind; [apply udp_modify_base_safe|]. intros _. apply IH.
  assert (0 < len data) by (unfold data; cbn [length]; lia).
  assert (len (zdrop (len (ztake (Z.min size (len data)) data)) data) < len data); [|lia].
  rewrite len_ztake_max, len_zdrop_max. lia.
Qed.

Lemma udp_push now msg h :
  dm_relHeader msg = Some h -> 0 <= rh_ackCount h <= 8 -> safe udp_ok (in_rel (update (pushLocalUnacked now (MData msg)))).
Proof.
  intros Hh Hc. apply udp_in_rel_safe. intros r [Hr Hl]. unfold update, pushLocalUnacked. destruct (64 <=? _); [done|].
  destruct msg as [data comp rel]. cbn in Hh. subst rel. split; [exact Hr|]. unfold locals_ok. cbn.
  apply Forall_app. split; [done|]. constructor; [|done]. eexists _, h. by cbn.
Qed.

Lemma udp_doSend_safe now msg ctx again : rel_small (dm_relHeader msg) -> safe udp_ok (doSendUnfragmentedData now msg ctx again).
Proof.
  intros Hr. unfold doSendUnfragmentedData. cbn zeta. set (reliable := match dm_relHeader msg with Some _ => _ | None => _ end).
  assert (safe udp_ok (when reliable (in_rel (update (pushLocalUnacked now (MData msg)))))) as Hpush.
  { unfold reliable. destruct (dm_relHeader msg) as [h|] eqn:Hh; [|apply safe_ret]. apply safe_when.
    apply (udp_push now msg h Hh). by apply Hr. }
  apply safe_read. intros u _. destruct (_ <=? _).
  - apply safe_read. intros v _. apply safe_bind; [|intros w; cbn zeta; safe_auto].
    destruct (encodeDataHeader_written msg (bt_connectionId (ut_base v)) false new_writer) as (w & Hw & _).
    rewrite Hw. by apply safe_lift.
  - apply safe_bind.
    + apply safe_focus with (Q := frag_inv).
      * by intros s ((Hf & _) & _).
      * by intros f s ((_ & Hrel & Hn) & Hrest) Hf.
      * by apply safe_state.
    + intros id. apply safe_bind; [|intros ?; safe_auto]. apply udp_send_fragments_safe; [done|lia].
Qed.

(** The acknowledgements that are attached. *)
Lemma udp_setAcks :
  triple udp_ok (in_rel (state (setOutgoingAcks ReliabilityHeader_zero))) (fun h u => udp_ok u /\ 0 <= rh_ackCount h <= 8) udp_ok.
Proof.
  intros u Hu. assert (safe udp_ok (in_rel (state (setOutgoingAcks ReliabilityHeader_zero)))) as Hs
    by (apply udp_in_rel_safe, safe_state; by intros r [[Ho Hd] Hl]).
  specialize (Hs u Hu). unfold in_rel, focus, state in *. unfold setOutgoingAcks in *. cbn in *.
  split; [exact Hs|]. rewrite length_fmap, length_take. lia.
Qed.

Lemma udp_assign reliable :
  triple udp_ok (assign_reliability reliable) (fun rel u => udp_ok u /\ rel_small rel) udp_ok.
Proof.
  unfold assign_reliability. eapply triple_bind; [apply udp_setAcks|].
  intros h u [Hu Hh]. set (m := if reliable then _ else _).
  assert (safe udp_ok m) as Hm by (unfold m; destruct reliable; [|apply safe_ret]; apply udp_in_rel_safe, safe_state; by intros r [[Ho Hd] Hl]).
  specialize (Hm u Hu). unfold mbind, ST_bind. destruct (m u) as [[id|e|[]] u']; try done.
  destruct (_ || _); (split; [done|]); [|by intros ?]. by intros h' [= <-].
Qed.

(** The end of [sendMessage] for a control message. *)
Definition send_control (now : instant) (ctx : SentMessageContext) (m : QunetMessage) : ST UdpTransport SentMessageContext :=
  connectionId ← get (fun u => bt_connectionId (ut_base u));
  w ← lift (encode_error (encodeControlMsg m connectionId new_writer));
  g ← get ut_rng;
  '(w, g) ← lift (padMessageToMinimum g w);
  _ ← modify (set_rng g);
  let data := written w in
  _ ← send_unless_lost data;
  _ ← in_base (modify (updateLastActivity now));
  _ ← in_base (modify (set_tracker (Stats.onUpPacket now (len data))));
  mret ctx.

Lemma udp_send_control now ctx m :
  sendable m = true -> match m with MData _ => False | _ => True end -> safe udp_ok (send_control now ctx m).
Proof.
  intros Hm Hd. apply safe_read. intros u _. destruct (encode_control_total m (bt_connectionId (ut_base u)) new_writer Hm Hd) as (w & ? & Hw & _ & _).
  rewrite Hw. apply safe_bind; [by apply safe_lift|]. intros w0. apply safe_read. intros v _.
  destruct (pad_spec (E := TransportError) (ut_rng v) w0) as (w' & g' & bs & Hpad & _).
  rewrite Hpad. apply safe_bind; [by apply safe_lift|]. intros [w1 g1]. apply safe_bind; [by apply safe_modify|].
  intros _. cbn zeta. safe_auto.
Qed.

(** A message that has an encoder is sent. *)
Lemma udp_sendMessage_safe now now_ns msg ctx : sendable msg = true -> safe udp_ok (sendMessage now now_ns msg ctx).
Proof.
  intros Hs. unfold sendMessage.
  assert (forall (pre : ST UdpTransport QunetMessage) m, sendable m = true -> match m with MData _ => False | _ => True end ->
    triple udp_ok pre (fun m' u => udp_ok u /\ m' = m) udp_ok -> safe udp_ok (pre ≫= send_control now ctx)) as Hpre.
  { intros pre m Hm Hd Ht. eapply triple_bind; [exact Ht|]. intros m' u [Hu ->]. by apply udp_send_control. }
  assert (forall m, sendable m = true -> match m with MData _ => False | _ => True end ->
    safe udp_ok ((mret m : ST UdpTransport QunetMessage) ≫= send_control now ctx)) as Hret by (intros m ??; by apply (Hpre _ m)).
  destruct msg; try done; try (by apply Hret).
  - eapply Hpre with (m := MKeepalive {| ka_timestamp := now_ns |}); [done|done|].
    intros u Hu. exact (conj (udp_modify_base_safe (updateLastSentKeepalive now) u Hu) eq_refl).
  - eapply triple_bind; [apply udp_assign|]. intros rel u [Hu Hrel]. by apply udp_doSend_safe.
Qed.

Lemma udp_send_safe now now_ns msg reliable : sendable msg = true -> safe udp_ok (send now now_ns msg reliable).
Proof.
  intros Hs. unfold send. apply safe_bind; [by apply udp_sendMessage_safe|]. intros ctx.
  apply safe_bind; [by apply safe_lift, headerByte_sendable|]. intros b. safe_auto.
Qed.
End Sending.

(** ** The timer *)
Section Timer.
Context {T : TimeLib} {TL : TimeLaws T} {CL : CompressionLib} `{WL : ByteWriterLaws, RL : ByteReaderLaws}.
Variable millis_float : duration -> spec_float.
Variable fromMillis_float : spec_float -> duration.
(** A message is not due as soon as it is sent. *)
Hypothesis Hpos : forall r, positive_deadlines millis_float fromMillis_float r.
#[local] Hint Resolve udp_modify_base_safe : safe.

Abbreviation due := (ReliableLocal.due millis_float fromMillis_float).

Lemma udp_resend now msg again : rel_small (dm_relHeader msg) -> safe udp_ok (resend now (MData msg) again).
Proof. intros Hr. unfold resend. apply safe_bind; [by apply udp_doSend_safe|]. intros ctx. safe_auto. Qed.

(** A message that is sent again is one of those that wait. *)
Lemma retransmit_loop_locals now r l :
  Forall local_ok l ->
  let '(res, l') := retransmit_loop millis_float fromMillis_float now r l in
  Forall local_ok l' /\ is_fault res = false /\
  forall m, res = Ok (Some m) -> exists msg, m = MData msg /\ rel_small (dm_relHeader msg).
Proof.
  induction 1 as [|v l Hv Hl IH]; cbn [retransmit_loop]; [by split_and!|]. destruct (dleb _ _).
  - split; [by constructor|]. destruct (_ <=? _); split; [done|by intros m|done|]. intros m [= <-].
    destruct Hv as (msg & h & Hm & Hh & Hc). exists msg. split; [done|]. intros h' Hh'. by simplify_eq.
  - destruct (retransmit_loop _ _ now r l) as [res l']. destruct IH as (IH & Hres). split; [by constructor|done].
Qed.

Lemma udp_retransmit_due fuel now u :
  udp_ok u -> (n_due millis_float fromMillis_float now (ut_relStore u) (rs_localUnacked (ut_relStore u)) < fuel)%nat ->
  match retransmit_due millis_float fromMillis_float fuel now u with
  | (Ok _, u') | (Err _, u') | (Fault WouldBlock, u') => udp_ok u'
  | _ => False
  end.
Proof.
  revert u. induction fuel as [|fuel IH]; intros u Hu Hn; [lia|]. rewrite retransmit_due_unfold.
  assert (forall r, rel_inv r -> locals_ok r -> udp_ok (set_rel r u)) as Hset.
  { intros r Hr Hl. by destruct Hu as ((Hf & _ & Hin) & Hin' & Hp & _ & Hm). }
  pose proof (retransmit_loop_locals now (ut_relStore u) (rs_localUnacked (ut_relStore u)) ltac:(by apply Hu)) as Hloop.
  pose proof (maybeRetransmit_progress millis_float fromMillis_float now (ut_relStore u)) as Hprog.
  unfold maybeRetransmit in *. destruct (retransmit_loop _ _ now _ _) as [res l'] eqn:E. destruct Hloop as (Hl & Hf & Hm).
  set (r' := set_local _ l' _) in *. assert (udp_ok (set_rel r' u)) as Hu' by (apply Hset; [by apply Hu|done]).
  destruct res as [[m|]|e|f]; [|done..]. destruct (Hprog m r' (Hpos _) eq_refl) as [_ Hless].
  destruct (Hm m eq_refl) as (msg & -> & Hsmall).
  pose proof (udp_resend now msg true Hsmall (set_rel r' u) Hu') as H1. pose proof (rel_resend now (MData msg) (set_rel r' u)) as Hk.
  unfold mbind, ST_bind. destruct (resend now (MData msg) true (set_rel r' u)) as [[[]|e|[]] u1]; try done.
  cbn in Hk. apply IH; [done|]. rewrite Hk. lia.
Qed.

(** The timer. *)
Lemma udp_handleTimerExpiry_safe now now_ns : safe udp_ok (handleTimerExpiry millis_float fromMillis_float now now_ns).
Proof.
  unfold handleTimerExpiry. apply safe_bind; [apply udp_in_base_safe|intros _].
  { unfold BaseTransport_handleTimerExpiry. returns_auto. }
  apply triple_read. intros fuel. eapply triple_bind with (Q := fun _ => udp_ok).
  - intros u [Hu <-]. pose proof (udp_retransmit_due (retransmit_fuel u) now u Hu) as H. unfold retransmit_fuel in H at 1.
    pose proof (n_due_le millis_float fromMillis_float now (ut_relStore u) (rs_localUnacked (ut_relStore u))).
    specialize (H ltac:(lia)). by destruct (retransmit_due _ _ _ now u) as [[]].
  - intros _. apply safe_bind.
    + unfold send_urgent_acks. apply safe_read. intros v _. apply safe_when.
      eapply triple_bind with (Q := fun h u => udp_ok u /\ 0 <= rh_ackCount h <= 8); [apply udp_setAcks|].
      intros h u [Hu Hh]. apply (udp_resend now {| dm_data := []; dm_compHeader := None; dm_relHeader := Some h |} false); [|done].
      by intros h' [= <-].
    + intros _. apply safe_read. intros v _. apply safe_when. by apply udp_send_safe.
Qed.
End Timer.

(** ** The handshake *)
Section Handshake.
Context {T : TimeLib} {TL : TimeLaws T} {CL : CompressionLib} `{WL : ByteWriterLaws, RL : ByteReaderLaws}.

Lemma udp_receiveMessage_safe now order : walks_all order ->
  triple udp_ok (receiveMessage now order) (fun m u => udp_ok u /\ chunk_ok m) udp_ok.
Proof.
  intros Hw u [Hu Hc]. pose proof (receiveMessage_safe now order Hw u Hu) as Hs.
  destruct (receiveMessage_yields now order u Hc) as [Hc' Hm].
  destruct (receiveMessage now order u) as [[m|e|[]] u']; try done. split; [done|by apply Hm].
Qed.

(** The chunks that are there. *)
Record gathering (h : handshake) : Prop := {
  ga_chunks : Forall (fun c => len (qd_chunkData c.2) = qd_chunkSize c.2) (hk_chunks h);
  ga_out : hk_chunks h <> [] -> is_Some (hf_qdbData (hk_out h));
  ga_unexpected : Forall chunk_ok (hk_unexpected h);
}.

Lemma combine_total n cs data : Forall (fun c => len (qd_chunkData c) = qd_chunkSize c) cs -> is_fault (combine_chunks n cs data) = false.
Proof.
  intros H. revert data. induction H as [|c cs Hc Hcs IH]; intros data; cbn; [done|].
  rewrite Hc, Z.eqb_refl. cbn. destruct (_ || _); [done|apply IH].
Qed.

Lemma finish_total h : is_Some (hf_qdbData (hk_out h)) -> gathering h ->
  is_fault (finish_chunks h) = false /\ forall h', finish_chunks h = Ok (inl h') -> h' = h.
Proof.
  intros [out Hout] [Hc _ _]. unfold finish_chunks. rewrite Hout. destruct (negb _); [split; [done|by intros h' [= <-]]|].
  pose proof (combine_total (qd_compressedSize out) (hk_chunks h).*2 (replicate (Z.to_nat (qd_compressedSize out)) 0)
    ltac:(by apply Forall_fmap)) as Hf.
  destruct (combine_chunks _ _ _); by split.
Qed.

Lemma accept_finish_total msg h :
  chunk_ok (MHandshakeFinish msg) -> gathering h ->
  is_fault (accept_finish msg h) = false /\ forall h', accept_finish msg h = Ok (inl h') -> gathering h'.
Proof.
  intros Hm Hh. unfold accept_finish. destruct (hf_qdbData msg) as [q|] eqn:Hq; [|done]. specialize (Hm q Hq).
  assert (forall h1, gathering h1 -> is_Some (hf_qdbData (hk_out h1)) ->
    is_fault (finish_chunks h1) = false /\ forall h', finish_chunks h1 = Ok (inl h') -> gathering h') as Hfin.
  { intros h1 H1 Ho. destruct (finish_total h1 Ho H1) as [Hf Hl]. split; [done|]. intros h' E. by rewrite (Hl h' E). }
  destruct Hh as [Hc Ho Hu]. destruct (hk_chunks h) as [|c cs] eqn:E.
  - destruct (_ <? _); [done|]. apply Hfin; [|by eexists]. split; cbn; [by repeat constructor|by eexists|done].
  - destruct (negb _); [done|]. destruct (existsb _ _); [split; [done|]; intros h' [= <-]; split; by rewrite ?E|].
    apply Hfin; [|by apply Ho]. split; cbn; [|by intros _; apply Ho|done].
    apply (Forall_app _ (c :: cs) [(msg, q)]). split; [done|by repeat constructor].
Qed.

Lemma udp_handshake_loop_safe turns now_ns order start h :
  walks_all order -> gathering h -> safe udp_ok (handshake_loop turns now_ns order start h).
Proof.
  intros Hw. revert h. induction turns as [|[now poll] turns IH]; intros h Hh; cbn [handshake_loop]; [by intros u Hu|].
  destruct (isZero _).
  - apply safe_bind; [by apply udp_send_safe|]. intros _. apply IH. by destruct Hh.
  - destruct poll as [| |e]; [by apply IH| |apply safe_throw].
    eapply triple_bind; [by apply udp_receiveMessage_safe|]. intros m u [Hu Hm]. revert u Hu.
    change (safe udp_ok (match m with
      | MHandshakeFailure _ => mret m
      | MHandshakeFinish msg => res ← lift (accept_finish msg h);
          match res with
          | inl h => handshake_loop turns now_ns order start h
          | inr out => _ ← modify (set_pending (hk_unexpected h)); mret (MHandshakeFinish out)
          end
      | _ => handshake_loop turns now_ns order start (push_unexpected m h)
      end)).
    assert (gathering (push_unexpected m h)) as Hpush.
    { destruct Hh as [Hc Ho Hun]. split; cbn; [done|done|]. apply Forall_app. split; [done|by constructor]. }
    destruct m as [| | |hf| | | | | | | | | |]; try (by apply IH); [|apply safe_ret].
    destruct (accept_finish_total hf h Hm Hh) as [Hf Hgo]. eapply triple_bind; [by apply triple_lift|].
    intros [h'|out] u [Hu E]; [by apply IH; [apply Hgo|]|]. revert u Hu.
    apply (safe_bind udp_ok); [|intros _; apply safe_ret]. apply safe_modify.
    intros u ((Hf' & Hr & Hn) & Hn' & _ & Hl & Hmtu). destruct Hh. by split_and!.
Qed.

Lemma udp_performHandshake_safe now turns now_ns order start :
  walks_all order -> safe udp_ok (performHandshake now turns now_ns order start).
Proof.
  intros Hw. unfold performHandshake. apply safe_bind; [by apply udp_send_safe|]. intros _. by apply udp_handshake_loop_safe.
Qed.
End Handshake.
