(* ===== verification/Stream.v ===== *)
(** * The transports over a stream

    [src/socket/transport/Common.hpp]: messages over a byte stream of any kind,
    each after its length, and [TcpTransport]
    ([include/qunet/socket/transport/TcpTransport.hpp],
    [src/socket/transport/TcpTransport.cpp]), which is this over a TCP socket and
    a schedule of keepalives.  The TCP socket is a script of what it will do. *)
From S2P Require Import Prelude Dbuf Messages Codec Time Errors Effects Stats Compress Transport.

(** ** The streams
    What the templates of [streamcommon] ask of a stream, and a bound on the
    bytes that calls of [receive] can still give and the errors that they can
    still make. *)
Class Streaming (St : Type) := {
  st_sendAll : list Z -> ST St unit;
  (** a buffer of this size *)
  st_receive : Z -> ST St (list Z);
  st_turns : St -> nat;
}.

(** A TCP socket. *)
Record ByteStream := {
  st_written : list Z;
  (** the errors of the calls of [sendAll] to come; then success *)
  st_errors : list (option SocketError);
  (** what [receive] finds, a part at a time; an empty part is the end *)
  st_incoming : list (SocketError + list Z);
}.

Definition stream_sendAll (data : list Z) : ST ByteStream unit := fun s =>
  match st_errors s with
  | Some e :: errors =>
      (Err (TE_Socket e), {| st_written := st_written s; st_errors := errors; st_incoming := st_incoming s |})
  | errors =>
      (Ok tt, {| st_written := st_written s ++ data; st_errors := tail errors; st_incoming := st_incoming s |})
  end.

Definition set_incoming (incoming : list (SocketError + list Z)) (s : ByteStream) : ByteStream :=
  {| st_written := st_written s; st_errors := st_errors s; st_incoming := incoming |}.

(** [receive(buffer, size)]: what does not fit stays. *)
Definition stream_receive (size : Z) : ST ByteStream (list Z) := fun s =>
  match st_incoming s with
  | [] => (Fault WouldBlock, s)
  | inl e :: rest => (Err (TE_Socket e), set_incoming rest s)
  | inr part :: rest =>
      (Ok (ztake size part),
       set_incoming (if len part <=? size then rest else inr (zdrop size part) :: rest) s)
  end.

(** What did not arrive yet; a part that arrived at once can be received in
    several calls. *)
Definition stream_bytes (s : ByteStream) : nat :=
  sum_list_with (fun part => match part with inl _ => 1 | inr part => S (length part) end)%nat (st_incoming s).

#[export] Instance tcp_streaming : Streaming ByteStream :=
  {| st_sendAll := stream_sendAll; st_receive := stream_receive; st_turns := stream_bytes |}.

(** What [streamcommon] is given: a transport, its stream and its buffer. *)
Record StreamLayer {T : TimeLib} {CL : CompressionLib} {C : CircularBuffer} (St : Type) := {
  sp_base : BaseTransport;
  sp_stream : St;
  sp_buffer : cbuf;
}.
Arguments sp_base {T CL C St} s : rename.
Arguments sp_stream {T CL C St} s : rename.
Arguments sp_buffer {T CL C St} s : rename.

Section Common.
Context {T : TimeLib} {CL : CompressionLib} {C : CircularBuffer} `{W : ByteWriter} `{R : ByteReader}.
Context {St : Type} {SO : Streaming St}.
Abbreviation Layer := (StreamLayer St).

Definition set_base (b : BaseTransport) (s : Layer) : Layer :=
  {| sp_base := b; sp_stream := sp_stream s; sp_buffer := sp_buffer s |}.
Definition set_stream (st : St) (s : Layer) : Layer :=
  {| sp_base := sp_base s; sp_stream := st; sp_buffer := sp_buffer s |}.
Definition set_buffer (b : cbuf) (s : Layer) : Layer :=
  {| sp_base := sp_base s; sp_stream := sp_stream s; sp_buffer := b |}.

Abbreviation SM := (ST Layer).
Definition in_base {A} : ST BaseTransport A -> SM A := focus sp_base set_base.
Definition in_stream {A} : ST St A -> SM A := focus sp_stream set_stream.
Definition on_buffer (f : cbuf -> cbuf) : SM unit := modify (fun s => set_buffer (f (sp_buffer s)) s).

(** ** Sending *)
Definition hasLength (message : QunetMessage) : bool :=
  match message with MHandshakeStart _ | MClientReconnect _ => false | _ => true end.

(** The bytes of a message, its length before it. *)
Definition encode_frame (message : QunetMessage) : TransportResult writer :=
  let w := if hasLength message then writeU32 0 new_writer else new_writer in
  let preMessagePos := if hasLength message then position w else 0 in
  w ← match message with
      | MData msg =>
          w ← unwrap (encodeDataHeader message 0 false w);
          Ok (writeBytes (dm_data msg) w)
      | _ => encode_error (encodeControlMsg message 0 w)
      end;
  if hasLength message then
    unwrap (performAtU32 (preMessagePos - 4) (u32 (position w - preMessagePos)) w)
  else Ok w.

Definition streamcommon_sendMessage (now : instant) (message : QunetMessage) : SM unit :=
  w ← lift (encode_frame message);
  let data := written w in
  _ ← in_stream (st_sendAll data);
  in_base (modify (set_tracker (Stats.onUpPacket now (len data)))).

(** ** Receiving *)
(** The start of the lambda [waitForData]. *)
Definition reserve_space : SM unit :=
  wnd ← get (fun s => cb_writeWindow (sp_buffer s));
  if wnd <? 2048 then
    capacity ← get (fun s => cb_capacity (sp_buffer s));
    if 1024 * 1024 <=? capacity then custom NoBufferSpace else on_buffer (cb_reserve 2048)
  else mret tt.

Definition waitForData (now : instant) : SM unit :=
  _ ← reserve_space;
  wnd ← get (fun s => cb_writeWindow (sp_buffer s));
  data ← in_stream (st_receive wnd);
  if len data =? 0 then custom Closed
  else
    _ ← in_base (modify (set_tracker (Stats.onDownPacket now (len data))));
    on_buffer (cb_write data).

(** The lambda [dec], on the two parts of the message that [peek] found. *)
Definition decode_peeked (now : instant) (wrpread : list Z * list Z) : SM QunetMessage :=
  meta ← lift (decode_error
           match wrpread.2 with
           | [] => decodeMeta wrpread.1 false false
           | _ => decodeMeta (wrpread.1 ++ wrpread.2) false false
           end);
  if negb (mm_type meta =? MSG_DATA) then
    msg ← lift (decode_error (decodeWithMeta meta));
    header ← lift (match wrpread.1 with b :: _ => Ok b | [] => Fault OutOfBounds end);
    _ ← in_base (modify (set_tracker
          (Stats.onDownMessage now header (len wrpread.1 + len wrpread.2) None zero None)));
    mret msg
  else in_base (decodePreFinalDataMessage now meta).

(** The length at the front of the buffer. *)
Definition peek_length (s : Layer) : TransportResult Z :=
  let lenbuf := cb_peek 4 (sp_buffer s) in
  '(n, _) ← unwrap (readU32 (reader_of (lenbuf.1 ++ lenbuf.2)));
  Ok n.

Fixpoint receive_loop (fuel : nat) (now : instant) : SM QunetMessage :=
  match fuel with
  | O => lift (Fault OutOfFuel)
  | S fuel =>
      size ← get (fun s => cb_size (sp_buffer s));
      if size <? 4 then
        _ ← waitForData now;
        receive_loop fuel now
      else
        length ← get peek_length;
        length ← lift length;
        limit ← get (fun s => bt_messageSizeLimit (sp_base s));
        if length =? 0 then
          _ ← on_buffer (cb_skip 4);
          receive_loop fuel now
        else if negb (limit =? 0) && (limit <? length) then custom MessageTooLong
        else if size <? 4 + length then
          _ ← waitForData now;
          receive_loop fuel now
        else
          _ ← on_buffer (cb_skip 4);
          wrpread ← get (fun s => cb_peek length (sp_buffer s));
          res ← attempt (decode_peeked now wrpread);
          _ ← on_buffer (cb_skip length);
          lift res
  end.

(** Each turn either moves bytes from the stream to the buffer or drops bytes
    of the buffer. *)
Definition receive_fuel (s : Layer) : nat := S (2 * st_turns (sp_stream s) + Z.to_nat (cb_size (sp_buffer s))).

Definition streamcommon_receiveMessage (now : instant) : SM QunetMessage := fun s =>
  receive_loop (receive_fuel s) now s.

(** ** The keepalives, the same for all the transports over a stream *)
Definition stream_untilKeepalive (activeKeepaliveInterval : option duration) (now : instant) (b : BaseTransport)
    : duration :=
  if 0 <? bt_unackedKeepalives b then dsub (fromSecs 3) (sinceLastActivity now b)
  else
    let orActive dur :=
      match activeKeepaliveInterval with
      | Some interval => dsub (dmin dur interval) (sinceLastKeepalive now b)
      | None => dsub dur (sinceLastKeepalive now b)
      end in
    match bt_totalRttEstimates b with
    | 0 | 1 => orActive (fromSecs 3)
    | 2 => orActive (fromSecs 10)
    | 3 => orActive (fromSecs 25)
    | _ =>
        match activeKeepaliveInterval with
        | Some interval =>
            dmin (dsub (fromSecs 45) (sinceLastActivity now b)) (dsub interval (sinceLastKeepalive now b))
        | None => dsub (fromSecs 45) (sinceLastActivity now b)
        end
    end.

(** The start of [sendMessage] of these transports. *)
Definition touch (now : instant) (now_ns : Z) (message : QunetMessage) : ST BaseTransport QunetMessage :=
  _ ← modify (updateLastActivity now);
  match message with
  | MKeepalive _ =>
      _ ← modify (updateLastSentKeepalive now);
      mret (MKeepalive {| ka_timestamp := now_ns |})
  | _ => mret message
  end.
End Common.

(** ** TcpTransport *)
Abbreviation StreamTransport := (StreamLayer ByteStream).
Record TcpTransport {T : TimeLib} {CL : CompressionLib} {C : CircularBuffer} := {
  tcp_common : StreamTransport;
  tcp_activeKeepaliveInterval : option duration;
  tcp_closed : bool;
}.

Section Tcp.
Context {T : TimeLib} {CL : CompressionLib} {C : CircularBuffer} `{W : ByteWriter} `{R : ByteReader}.

Definition new_TcpTransport (start : instant) (activeKeepaliveInterval : option duration) (socket : ByteStream)
    : TcpTransport :=
  {| tcp_common := {| sp_base := new_BaseTransport start; sp_stream := socket; sp_buffer := new_cbuf 512 |};
     tcp_activeKeepaliveInterval := activeKeepaliveInterval; tcp_closed := false |}.

Definition set_common (c : StreamTransport) (t : TcpTransport) : TcpTransport :=
  {| tcp_common := c; tcp_activeKeepaliveInterval := tcp_activeKeepaliveInterval t; tcp_closed := tcp_closed t |}.

Abbreviation TM := (ST TcpTransport).
Definition in_common {A} : ST StreamTransport A -> TM A := focus tcp_common set_common.

(** [shutdown] is what the socket answers. *)
Definition Tcp_closeSync (shutdown : TransportResult unit) : TM unit :=
  _ ← lift shutdown;
  modify (fun t => {| tcp_common := tcp_common t; tcp_activeKeepaliveInterval := tcp_activeKeepaliveInterval t;
                      tcp_closed := true |}).
Definition Tcp_isClosed (t : TcpTransport) : bool := tcp_closed t.

Definition Tcp_sendMessage (now : instant) (now_ns : Z) (message : QunetMessage) : TM unit :=
  message ← in_common (in_base (touch now now_ns message));
  in_common (streamcommon_sendMessage now message).

(** [BaseTransport::sendMessage(message, reliable)] *)
Definition Tcp_send (now : instant) (now_ns : Z) (message : QunetMessage) (reliable : bool) : TM unit :=
  _ ← Tcp_sendMessage now now_ns message;
  hbyte ← lift (headerByte message);
  in_common (in_base (modify (logOutgoingMessage now hbyte (new_context reliable)))).

Definition Tcp_receiveMessage (now : instant) : TM QunetMessage :=
  in_common (streamcommon_receiveMessage now).

Definition Tcp_untilKeepalive (now : instant) (t : TcpTransport) : duration :=
  stream_untilKeepalive (tcp_activeKeepaliveInterval t) now (sp_base (tcp_common t)).
Definition Tcp_untilTimerExpiry : instant -> TcpTransport -> duration := Tcp_untilKeepalive.

Definition Tcp_handleTimerExpiry (now : instant) (now_ns : Z) : TM unit :=
  _ ← in_common (in_base BaseTransport_handleTimerExpiry);
  Tcp_send now now_ns (MKeepalive {| ka_timestamp := 0 |}) true.
End Tcp.
