(* ===== verification/StreamSpec.v ===== *)
(** * Messages over a stream arrive as they were sent

    What [streamcommon] writes for a sequence of messages, cut in parts in any
    way by the network, is read by repeated calls of [receiveMessage] as the
    same sequence; and a WebSocket gives back each message. *)
From S2P Require Import Prelude Dbuf Messages Codec CodecSpec Time Errors Effects.
From S2P Require Import Stats Compress Transport Stream.

#[local] Arguments decodeMeta : simpl never.

(** ** The bytes of a message *)
Definition payload (m : QunetMessage) : list Z :=
  match m with
  | MData msg => data_header_bytes msg 0 false ++ dm_data msg
  | _ => match headerByte (E := string) m with Ok t => t :: control_body m | _ => [] end
  end.
Definition frame (bs : list Z) : list Z := le_split 4 (len bs) ++ bs.

(** What the receiver makes of a message: a data message is decompressed,
    keepalives and connection errors are the messages that both sides send. *)
Definition travels {CL : CompressionLib} (d : ZstdDecompressor) (limit : Z) (m m' : QunetMessage) : Prop :=
  len (payload m) < 2 ^ 32 /\ (limit = 0 \/ len (payload m) <= limit) /\
  match m with
  | MData msg => wf_data msg /\ exists data, decompress_message d limit (meta_of msg 0) = Ok data /\
      m' = MData {| dm_data := data; dm_compHeader := None; dm_relHeader := None |}
  | MKeepalive _ | MConnectionError _ => wf_control m /\ m' = m
  | _ => False
  end.

Section Encoding.
Context {CL : CompressionLib} `{WL : ByteWriterLaws} `{RL : ByteReaderLaws}.

Lemma prepend_length w bs :
  written w = le_split 4 0 ++ bs -> len bs < 2 ^ 32 ->
  exists w', unwrap (E := read_error) (F := TransportError) (performAtU32 0 (u32 (position w - 4)) w) = Ok w' /\
    written w' = frame bs.
Proof.
  intros Hw Hlen. destruct (performAtU32_law 0 (u32 (position w - 4)) w) as (w' & E & Hw'); [lia| |].
  { rewrite Hw. len_lia. }
  rewrite E. exists w'. split; [done|]. rewrite Hw', Hw, position_law, Hw.
  assert (len (le_split 4 0 ++ bs) - 4 = len bs) as -> by len_lia. rewrite u_small by lia.
  unfold patch, frame. rewrite ztake_0 by lia. reflexivity.
Qed.

Lemma encode_frame_written d limit m m' :
  travels d limit m m' -> exists w, encode_frame m = Ok w /\ written w = frame (payload m).
Proof.
  intros (Hlen & _ & Hm). unfold encode_frame.
  assert (Hw0 : written (writeU32 0 new_writer) = le_split 4 0 ++ []) by (by rewrite writeU32_law, written_new).
  assert (Hpos : position (writeU32 0 new_writer) = 4) by (rewrite position_law, Hw0; done).
  assert (hasLength m = true) as Hl by (by destruct m). rewrite Hl, Hpos.
  assert (exists w, match m with
    | MData msg => w ← unwrap (encodeDataHeader m 0 false (writeU32 0 new_writer)); Ok (writeBytes (dm_data msg) w)
    | _ => encode_error (encodeControlMsg m 0 (writeU32 0 new_writer))
    end = Ok w /\ written w = le_split 4 0 ++ payload m) as (w & E & Hw).
  { destruct m; try done.
    3: { destruct (encodeDataHeader_written m 0 false (writeU32 0 new_writer)) as (w & -> & Hw).
         eexists. split; [reflexivity|]. cbn [payload]. by rewrite writeBytes_law, Hw, Hw0, <- !app_assoc. }
    all: destruct Hm as [Hwf _]; edestruct (encodeControlMsg_written _ _ 0 (writeU32 0 new_writer) Hwf eq_refl)
      as (w & -> & Hw); exists w; split; [reflexivity|]; rewrite Hw, Hw0; done. }
  rewrite E. cbn [mbind]. by apply prepend_length.
Qed.

(** The payload, decoded. *)
Definition understood (d : ZstdDecompressor) (limit : Z) (bs : list Z) (m' : QunetMessage) : Prop :=
  exists meta, decodeMeta bs false false = Ok meta /\ bs <> [] /\
    if mm_type meta =? MSG_DATA
    then exists data, decompress_message d limit meta = Ok data /\
           m' = MData {| dm_data := data; dm_compHeader := None; dm_relHeader := None |}
    else decodeWithMeta meta = Ok m'.

Lemma control_payload_decoded m t :
  wf_control m -> headerByte (E := string) m = Ok t ->
  decodeMeta (t :: control_body m) false false
  = Ok {| mm_type := t; mm_compressionHeader := None; mm_reliabilityHeader := None;
          mm_fragmentationHeader := None; mm_data := control_body m; mm_dataOffset := 1 |}.
Proof.
  intros Hwf Ht. destruct (control_length (reader_of (control_body m)) m t Hwf Ht) as [Hlen Hmask].
  change (t :: control_body m) with (t :: [] ++ control_body m). rewrite decodeMeta_control by done.
  rewrite Hlen. cbn [mbind]. cbn. rewrite (proj2 (Z.ltb_ge _ _)) by lia. by rewrite ztake_ge by lia.
Qed.

Lemma payload_decoded d limit m m' : travels d limit m m' -> understood d limit (payload m) m'.
Proof.
  intros (_ & _ & Hm). destruct m; try done.
  3: { destruct Hm as [Hwf Hd]. destruct (data_frame_decoded m 0 false Hwf) as (bytes & Hb & Hdec); [lia|done|].
       rewrite data_frame_bytes in Hb. injection Hb as <-. eexists. split; [exact Hdec|]. split; [done|exact Hd]. }
  all: destruct Hm as [Hwf ->]; eexists; (split; [by apply control_payload_decoded|]); split; [done|];
    cbn -[decodeWithMeta]; by rewrite (control_decoded _ _ 1 Hwf eq_refl).
Qed.
End Encoding.

(** ** Receiving one message *)
Section Receive.
Context {T : TimeLib} {CL : CompressionLib} `{CLaws : CircularBufferLaws} `{RL : ByteReaderLaws}.
Variable now : instant.

(** The bytes that are in the buffer or on their way, in parts that are not
    empty. *)
Definition sees (s : StreamTransport) (bytes : list Z) : Prop :=
  exists parts, st_incoming (sp_stream s) = inr <$> parts /\ Forall (fun part => part <> []) parts /\
    contents (sp_buffer s) ++ mjoin parts = bytes.

Definition same_options {St} (s s' : StreamLayer St) : Prop :=
  bt_zstdDecompressor (sp_base s') = bt_zstdDecompressor (sp_base s) /\
  bt_messageSizeLimit (sp_base s') = bt_messageSizeLimit (sp_base s).

Definition measure (s : StreamTransport) : nat :=
  (2 * stream_bytes (sp_stream s) + length (contents (sp_buffer s)))%nat.

(** The only failure: the buffer is as large as it may be and almost full. *)
Definition full {St} (s : StreamLayer St) : Prop := 1024 * 1024 <= cb_capacity (sp_buffer s).

Lemma reserve_spec {St} (s : StreamLayer St) :
  reserve_space s = (Err (TE_Custom NoBufferSpace), s) /\ full s \/
  exists b, reserve_space s = (Ok tt, set_buffer b s) /\ 2048 <= cb_writeWindow b /\
    contents b = contents (sp_buffer s).
Proof.
  unfold reserve_space. erewrite bind_run by reflexivity.
  destruct (Z.ltb_spec (cb_writeWindow (sp_buffer s)) 2048).
  - erewrite bind_run by reflexivity. destruct (Z.leb_spec (1024 * 1024) (cb_capacity (sp_buffer s))); [by left|right].
    exists (cb_reserve 2048 (sp_buffer s)). split_and!; [done|apply cb_window_law|apply cb_reserve_law].
  - right. exists (sp_buffer s). split_and!; [by destruct s|done|done].
Qed.

Lemma length_ztake {A} n (l : list A) : 0 <= n -> length (ztake n l) = Nat.min (Z.to_nat n) (length l).
Proof. intros. unfold ztake. by rewrite length_take. Qed.

(** What [receive] takes from the first part. *)
Lemma receive_part size part parts st :
  1 <= size -> part <> [] -> Forall (fun part => part <> []) parts -> st_incoming st = inr <$> part :: parts ->
  exists st' parts', stream_receive size st = (Ok (ztake size part), st') /\ ztake size part <> [] /\
    st_incoming st' = inr <$> parts' /\ Forall (fun part => part <> []) parts' /\
    ztake size part ++ mjoin parts' = mjoin (part :: parts) /\
    (stream_bytes st' + length (ztake size part) <= stream_bytes st)%nat.
Proof.
  intros Hsize Hne Hparts Hin. unfold stream_receive. rewrite Hin. cbn [fmap list_fmap].
  assert (Hpos : ztake size part <> []).
  { destruct part as [|b part]; [done|]. unfold ztake. destruct (Z.to_nat size) eqn:E; [lia|done]. }
  unfold stream_bytes. rewrite Hin. destruct (Z.leb_spec (len part) size).
  - exists (set_incoming (inr <$> parts) st), parts. rewrite ztake_ge by done. split_and!; try done. cbn. lia.
  - eexists _, (zdrop size part :: parts). split; [reflexivity|]. split; [done|]. split; [done|]. split_and!.
    + apply Forall_cons. split; [|done]. intros E. apply (f_equal (fun l => len l)) in E.
      rewrite len_zdrop in E by lia. cbn in E. lia.
    + change (ztake size part ++ zdrop size part ++ mjoin parts = part ++ mjoin parts).
      by rewrite app_assoc, ztake_zdrop.
    + cbn. assert (length (ztake size part) + length (zdrop size part) = length part)%nat; [|lia].
      rewrite <- length_app. by rewrite ztake_zdrop.
Qed.

Lemma wait_spec s bytes :
  sees s bytes ->
  match waitForData now s with
  | (Ok _, s') => sees s' bytes /\ same_options s s' /\ (measure s' < measure s)%nat
  | (Err e, s') => e = TE_Custom NoBufferSpace /\ full s'
  | (Fault f, s') => f = WouldBlock /\ bytes = contents (sp_buffer s)
  end.
Proof.
  intros (parts & Hin & Hne & Hbytes). unfold waitForData.
  destruct (reserve_spec s) as [[E Hfull]|(b & E & Hroom & Hb)].
  { by rewrite (bind_err _ _ _ _ _ E). }
  erewrite bind_run by exact E. erewrite bind_run by reflexivity. cbn [sp_buffer set_buffer].
  set (s1 := set_buffer b s) in *. destruct parts as [|part parts].
  { unfold in_stream, focus, st_receive, tcp_streaming, stream_receive. unfold mbind, ST_bind. change (sp_stream s1) with (sp_stream s).
    cbv beta. rewrite Hin. cbn.
    rewrite app_nil_r in Hbytes. by subst. }
  apply Forall_cons in Hne as [Hne1 Hne].
  destruct (receive_part (cb_writeWindow b) part parts (sp_stream s1)) as
    (st' & parts' & Hrec & Hpos & Hin' & Hne' & Hjoin & Hless); [lia|done|done|done|].
  assert (Hrun : in_stream (st_receive (cb_writeWindow b)) s1
    = (Ok (ztake (cb_writeWindow b) part), set_stream st' s1)) by (unfold in_stream, focus, st_receive, tcp_streaming; by rewrite Hrec).
  erewrite bind_run by exact Hrun. cbv beta. set (data := ztake _ part) in *.
  rewrite (proj2 (Z.eqb_neq _ _)) by (destruct data; [done|cbn; lia]).
  erewrite bind_run by reflexivity. cbv beta. unfold on_buffer, modify.
  split; [|split].
  - exists parts'. cbn. split; [done|]. split; [done|]. rewrite cb_write_law, Hb, <- app_assoc, Hjoin. done.
  - by split.
  - unfold measure. cbn. rewrite cb_write_law, Hb, length_app.
    assert (0 < length data)%nat by (destruct data; [done|cbn; lia]). cbn in Hless. lia.
Qed.

Lemma decode_peeked_spec {St} a b bs m' (s : StreamLayer St) :
  understood (bt_zstdDecompressor (sp_base s)) (bt_messageSizeLimit (sp_base s)) bs m' ->
  a ++ b = bs -> a <> [] ->
  exists base, decode_peeked now (a, b) s = (Ok m', set_base base s) /\ same_options s (set_base base s).
Proof.
  intros (meta & Hdec & _ & Hm) <- Ha. unfold decode_peeked. cbn [fst snd].
  assert (E : match b with [] => decodeMeta a false false | _ => decodeMeta (a ++ b) false false end = Ok meta).
  { destruct b; [by rewrite app_nil_r in Hdec|done]. }
  rewrite E. cbn [decode_error map_err]. erewrite bind_run by reflexivity. cbv beta.
  destruct (mm_type meta =? MSG_DATA) eqn:Ety; cbn [negb].
  - destruct Hm as (data & Hd & ->). unfold in_base, focus.
    edestruct (decodePreFinal_ok now meta (sp_base s) data Hd) as (f & ->). eexists. by split.
  - rewrite Hm. cbn [decode_error map_err]. erewrite bind_run by reflexivity. cbv beta.
    destruct a as [|h a]; [done|]. erewrite bind_run by reflexivity. cbv beta.
    erewrite bind_run by reflexivity. cbv beta. by eexists.
Qed.
Lemma sees_prefix (s : StreamTransport) k bs rest :
  sees s (bs ++ rest) -> len bs = k -> k <= len (contents (sp_buffer s)) ->
  ztake k (contents (sp_buffer s)) = bs /\ sees (set_buffer (cb_skip k (sp_buffer s)) s) rest.
Proof.
  intros (parts & Hin & Hne & Hbytes) <- Hlen. set (c := contents (sp_buffer s)) in *.
  assert (E : ztake (len bs) c = bs /\ zdrop (len bs) c ++ mjoin parts = rest).
  { apply app_inj_1; [apply Nat2Z.inj; rewrite len_ztake; lia|]. by rewrite app_assoc, ztake_zdrop. }
  destruct E as [E1 E2]. split; [done|]. exists parts. cbn. split; [done|]. split; [done|].
  rewrite cb_skip_law by (fold c; lia). exact E2.
Qed.

Lemma peek_length_spec {St} (s : StreamLayer St) n :
  ztake 4 (contents (sp_buffer s)) = le_split 4 n -> 4 <= len (contents (sp_buffer s)) -> 0 <= n < 2 ^ 32 ->
  peek_length s = Ok n.
Proof.
  intros Hc Hlen Hn. unfold peek_length. rewrite (cb_peek_law 4) by lia. rewrite Hc.
  destruct (parses_u32 n Hn (reader_of (le_split 4 n)) []) as (r & E & _); [by rewrite unread_of, app_nil_r|].
  by rewrite E.
Qed.

(** From a state that sees the frame of a message and [rest]: the message is
    returned and [rest] is left, unless the buffer is full. *)
Lemma receive_one fuel s bs rest m' :
  sees s (frame bs ++ rest) -> len bs < 2 ^ 32 ->
  (bt_messageSizeLimit (sp_base s) = 0 \/ len bs <= bt_messageSizeLimit (sp_base s)) ->
  understood (bt_zstdDecompressor (sp_base s)) (bt_messageSizeLimit (sp_base s)) bs m' -> (measure s < fuel)%nat ->
  match receive_loop fuel now s with
  | (Ok m, s') => m = m' /\ sees s' rest /\ same_options s s'
  | (Err e, s') => e = TE_Custom NoBufferSpace /\ full s'
  | (Fault _, _) => False
  end.
Proof.
  revert s. induction fuel as [|fuel IH]; intros s Hsees Hlen Hlimit Hund Hfuel; [lia|].
  set (c := contents (sp_buffer s)).
  assert (Hpos : 0 < len bs) by (destruct Hund as (meta & _ & ? & _); destruct bs; [done|cbn; lia]).
  assert (Hwait : len c < 4 + len bs ->
    match (_ ← waitForData now; receive_loop fuel now) s with
    | (Ok m, s') => m = m' /\ sees s' rest /\ same_options s s'
    | (Err e, s') => e = TE_Custom NoBufferSpace /\ full s'
    | (Fault _, _) => False
    end).
  { intros Hshort. pose proof (wait_spec s _ Hsees) as H. unfold mbind at 1, ST_bind.
    destruct (waitForData now s) as [[[]|e|f] s1]; [|exact H|].
    - destruct H as (Hs1 & [Hd Hl] & Hless). rewrite <- Hl, <- Hd in *.
      specialize (IH s1 Hs1 Hlen Hlimit Hund ltac:(lia)).
      destruct (receive_loop fuel now s1) as [[m|e|f] s']; [|exact IH|exact IH].
      destruct IH as (-> & ? & ?). split; [done|]. split; [done|]. unfold same_options in *. by rewrite <- Hd, <- Hl.
    - destruct H as [_ H]. apply (f_equal (fun l => len l)) in H. unfold frame in H. fold c in H.
      autorewrite with qn_len in H. lia. }
  cbn [receive_loop]. erewrite bind_run by reflexivity. cbv beta. rewrite cb_size_law. fold c.
  destruct (Z.ltb_spec (len c) 4) as [|H4]; [apply Hwait; lia|].
  assert (Hfirst := Hsees). unfold frame in Hfirst. rewrite <- app_assoc in Hfirst.
  destruct (sees_prefix s 4 _ _ Hfirst) as [Hc1 Hs1]; [by rewrite length_le_split|done|].
  erewrite bind_run by reflexivity. cbv beta. rewrite (peek_length_spec s (len bs)) by (done || lia).
  do 2 (erewrite bind_run by reflexivity; cbv beta).
  rewrite (proj2 (Z.eqb_neq _ _)) by lia.
  destruct (negb _ && _) eqn:Hlim.
  { apply andb_true_iff in Hlim as [Hl1 Hl2]. apply Z.ltb_lt in Hl2.
    destruct (Z.eqb_spec (bt_messageSizeLimit (sp_base s)) 0); [done|lia]. }
  clear Hlim. destruct (Z.ltb_spec (len c) (4 + len bs)) as [|Hwhole]; [by apply Hwait|].
  set (s1 := set_buffer _ s) in Hs1. erewrite bind_run by reflexivity. cbv beta. fold s1.
  assert (Hc2 : contents (sp_buffer s1) = zdrop 4 c) by (cbn; by apply cb_skip_law).
  assert (Hlen2 : len bs <= len (contents (sp_buffer s1))) by (rewrite Hc2, len_zdrop; lia).
  destruct (sees_prefix s1 (len bs) bs rest Hs1 eq_refl Hlen2) as [Hc3 Hs2].
  erewrite bind_run by reflexivity. cbv beta.
  pose proof (cb_peek_law (len bs) (sp_buffer s1) (conj (Nat2Z.is_nonneg _) Hlen2)) as Hparts. rewrite Hc3 in Hparts.
  pose proof (cb_peek_first (len bs) (sp_buffer s1) (conj Hpos Hlen2)) as Hne.
  change (cb_peek (len bs) (sp_buffer (set_buffer (cb_skip 4 (sp_buffer s)) s))) with (cb_peek (len bs) (sp_buffer s1)).
  destruct (cb_peek (len bs) (sp_buffer s1)) as [a b]. cbn [fst snd] in Hparts, Hne.
  destruct (decode_peeked_spec a b bs m' s1 Hund Hparts Hne) as (base & Hrun & Hopt).
  assert (Hrun2 : attempt (decode_peeked now (a, b)) s1 = (Ok (Ok m'), set_base base s1))
    by (unfold attempt; by rewrite Hrun).
  erewrite bind_run by exact Hrun2. cbv beta. erewrite bind_run by reflexivity. cbv beta.
  unfold lift. split; [done|]. split; [|exact Hopt].
  destruct Hs2 as (parts & ? & ? & ?). by exists parts.
Qed.

(** Nothing is left. *)
Lemma receive_nothing s :
  sees s [] ->
  match streamcommon_receiveMessage now s with
  | (Ok _, _) => False
  | (Err e, s') => e = TE_Custom NoBufferSpace /\ full s'
  | (Fault f, _) => f = WouldBlock
  end.
Proof.
  intros Hs. unfold streamcommon_receiveMessage, receive_fuel. cbn [receive_loop].
  erewrite bind_run by reflexivity. cbv beta. rewrite cb_size_law.
  assert (Hc : contents (sp_buffer s) = []).
  { destruct Hs as (parts & _ & _ & E). by apply app_nil in E as [? _]. }
  assert (Hin : st_incoming (sp_stream s) = []).
  { destruct Hs as (parts & -> & Hne & E). apply app_nil in E as [_ E]. destruct parts as [|part parts]; [done|].
    apply app_nil in E as [E _]. by apply Forall_cons in Hne as [? _]. }
  rewrite Hc. cbn [length]. change (Z.of_nat 0 <? 4) with true. cbn iota. unfold waitForData.
  destruct (reserve_spec s) as [[E Hfull]|(b & E & _)]; unfold mbind, ST_bind; rewrite E; [done|].
  cbn. unfold in_stream, focus, st_receive, tcp_streaming, stream_receive. cbn. by rewrite Hin.
Qed.

(** The messages that repeated calls of [receiveMessage] give, how they end
    ([Ok] when the stream has nothing more), and the state then. *)
Fixpoint receive_all (fuel : nat) (s : StreamTransport)
    : list QunetMessage * TransportResult unit * StreamTransport :=
  match fuel with
  | O => ([], Fault OutOfFuel, s)
  | S fuel =>
      match streamcommon_receiveMessage now s with
      | (Ok m, s) => let '(ms, res, s) := receive_all fuel s in (m :: ms, res, s)
      | (Err e, s) => ([], Err e, s)
      | (Fault WouldBlock, s) => ([], Ok tt, s)
      | (Fault f, s) => ([], Fault f, s)
      end
  end.

Lemma receive_all_spec fuel bss ms s :
  sees s (mjoin (frame <$> bss)) -> (length ms < fuel)%nat ->
  Forall2 (fun bs m => len bs < 2 ^ 32 /\
    (bt_messageSizeLimit (sp_base s) = 0 \/ len bs <= bt_messageSizeLimit (sp_base s)) /\
    understood (bt_zstdDecompressor (sp_base s)) (bt_messageSizeLimit (sp_base s)) bs m) bss ms ->
  let '(received, res, s') := receive_all fuel s in
  exists rest, ms = received ++ rest /\
    match res with
    | Ok _ => rest = []
    | Err e => e = TE_Custom NoBufferSpace /\ full s'
    | Fault _ => False
    end.
Proof.
  intros Hs Hfuel Hms. revert fuel s Hs Hfuel Hms. revert bss.
  induction ms as [|m ms IH]; intros bss fuel s Hs Hfuel Hms; (destruct fuel as [|fuel]; [lia|]); cbn [receive_all].
  - apply Forall2_nil_inv_r in Hms as ->. pose proof (receive_nothing s Hs) as H.
    destruct (streamcommon_receiveMessage now s) as [[?|e|f] s']; [done|by exists []|subst f; by exists []].
  - apply Forall2_cons_inv_r in Hms as (bs & bss' & (Hlen & Hlimit & Hund) & Hms & ->).
    pose proof (receive_one (receive_fuel s) s bs (mjoin (frame <$> bss')) m Hs Hlen Hlimit Hund) as H.
    unfold streamcommon_receiveMessage. specialize (H ltac:(unfold measure, receive_fuel, st_turns, tcp_streaming; rewrite cb_size_law; lia)).
    destruct (receive_loop (receive_fuel s) now s) as [[m1|e|f] s1]; [|by exists (m :: ms)|done].
    destruct H as (-> & Hs1 & Hd & Hl). specialize (IH bss' fuel s1 Hs1 ltac:(cbn in Hfuel; lia)).
    rewrite Hd, Hl in IH. specialize (IH Hms). destruct (receive_all fuel s1) as [[received res] s'].
    destruct IH as (rest & -> & Hres). by exists rest.
Qed.
End Receive.

(** ** From one end to the other *)
Section Delivery.
Context {T : TimeLib} {CL : CompressionLib} `{CLaws : CircularBufferLaws} `{WL : ByteWriterLaws} `{RL : ByteReaderLaws}.

Fixpoint send_all (now : instant) (ms : list QunetMessage) : ST StreamTransport unit :=
  match ms with
  | [] => mret tt
  | m :: ms =>
      _ ← streamcommon_sendMessage now m;
      send_all now ms
  end.

Lemma send_all_written now d limit ms ms' s :
  Forall2 (travels d limit) ms ms' -> st_errors (sp_stream s) = [] ->
  exists s', send_all now ms s = (Ok tt, s') /\
    st_written (sp_stream s') = st_written (sp_stream s) ++ mjoin ((fun m => frame (payload m)) <$> ms).
Proof.
  intros H. revert s. induction H as [|m m' ms ms' Hm _ IH]; intros s He; cbn [send_all fmap list_fmap].
  { exists s. split; [done|]. cbn. by rewrite app_nil_r. }
  destruct (encode_frame_written d limit m m' Hm) as (w & Hw & Hbytes).
  assert (exists s1, streamcommon_sendMessage now m s = (Ok tt, s1) /\ st_errors (sp_stream s1) = [] /\
    st_written (sp_stream s1) = st_written (sp_stream s) ++ frame (payload m)) as (s1 & E & He1 & Hw1).
  { unfold streamcommon_sendMessage. rewrite Hw. erewrite bind_run by reflexivity. cbv beta.
    unfold in_stream, focus, st_sendAll, tcp_streaming, stream_sendAll, mbind, ST_bind. rewrite He. eexists. split; [reflexivity|].
    cbn. by rewrite Hbytes. }
  erewrite bind_run by exact E. cbv beta. destruct (IH s1 He1) as (s' & -> & Hs'). exists s'. split; [done|].
  rewrite Hs', Hw1. cbn. by rewrite <- app_assoc.
Qed.

(** C8. Messages over a stream arrive as they were sent.  The sending end
    writes each message after its length; whatever the parts in which the
    bytes arrive, the calls of [receiveMessage] at the other end return the
    same messages in the same order (the data of data messages decompressed),
    then wait.  The only failure is a receive buffer of a mebibyte that is
    almost full, and the messages before it have been returned. *)
Theorem stream_delivery now now' ms ms' d limit sender :
  Forall2 (travels d limit) ms ms' -> st_errors (sp_stream sender) = [] ->
  let '(res, sender') := send_all now ms sender in
  res = Ok tt /\ exists bytes, st_written (sp_stream sender') = st_written (sp_stream sender) ++ bytes /\
  forall receiver fuel, sees receiver bytes -> (length ms < fuel)%nat ->
    bt_zstdDecompressor (sp_base receiver) = d -> bt_messageSizeLimit (sp_base receiver) = limit ->
    let '(received, res, receiver') := receive_all now' fuel receiver in
    exists rest, ms' = received ++ rest /\
      match res with
      | Ok _ => rest = []
      | Err e => e = TE_Custom NoBufferSpace /\ full receiver'
      | Fault _ => False
      end.
Proof.
  intros Hms He. destruct (send_all_written now d limit ms ms' sender Hms He) as (s' & -> & Hw).
  split; [done|]. eexists. split; [exact Hw|]. intros receiver fuel Hsees Hfuel <- <-.
  apply (receive_all_spec now' fuel (payload <$> ms)).
  - by rewrite <- list_fmap_compose.
  - by rewrite <- (Forall2_length _ _ _ Hms).
  - apply Forall2_fmap_l. eapply Forall2_impl; [exact Hms|]. intros m m' Hm. cbn.
    split; [apply Hm|]. split; [apply Hm|]. by apply payload_decoded.
Qed.
End Delivery.

(** ** A server that stops answering, over TCP *)
Section Silence.
Context {T : TimeLib} {CL : CompressionLib} {C : CircularBuffer} `{WL : ByteWriterLaws}.

Abbreviation base t := (sp_base (tcp_common t)).
Abbreviation stream t := (sp_stream (tcp_common t)).
Abbreviation unacked t := (bt_unackedKeepalives (base t)).

(** The keepalive that is sent at a reading of the steady clock. *)
Definition keepalive_frame (ns : Z) : list Z := frame (payload (MKeepalive {| ka_timestamp := ns |})).

(** One expiry of the timer of a transport on which [send] does not fail. *)
Lemma tcp_timer now ns t :
  st_errors (stream t) = [] -> 0 <= ns < 2 ^ 64 -> 0 <= unacked t <= 5 ->
  exists t', Tcp_handleTimerExpiry now ns t = (Ok tt, t') /\ st_errors (stream t') = [] /\
    st_written (stream t') = st_written (stream t) ++ keepalive_frame ns /\ unacked t' = unacked t + 1.
Proof.
  intros He Hns Hn. unfold Tcp_handleTimerExpiry.
  assert (Hbase : in_common (in_base BaseTransport_handleTimerExpiry) t = (Ok tt, t)).
  { unfold in_common, in_base, focus, BaseTransport_handleTimerExpiry. erewrite bind_run by reflexivity.
    rewrite (proj2 (Z.ltb_ge _ _)) by lia. by destruct t as [[]]. }
  erewrite bind_run by exact Hbase. unfold Tcp_send, Tcp_sendMessage.
  destruct (encode_frame_written (CL := CL) {| zd_ctx := true; zd_dict := None |} 0 (MKeepalive {| ka_timestamp := ns |})
    (MKeepalive {| ka_timestamp := ns |})) as (w & Hw & Hbytes).
  { split; [reflexivity|split; [by left|by split]]. }
  eexists. split.
  { erewrite bind_run; cycle 1.
    { erewrite bind_run by reflexivity. cbv beta iota. unfold in_common at 1, focus at 1.
      unfold streamcommon_sendMessage. rewrite Hw. erewrite bind_run by reflexivity. cbv beta.
      erewrite bind_run; cycle 1.
      { unfold in_stream, focus, st_sendAll, tcp_streaming, stream_sendAll.
        match goal with |- context [st_errors ?st] => change (st_errors st) with (st_errors (stream t)) end.
        rewrite He. reflexivity. }
      reflexivity. }
    cbv beta. erewrite bind_run by reflexivity. reflexivity. }
  split; [done|]. split; [unfold keepalive_frame; by rewrite <- Hbytes|]. cbn. apply u_small. lia.
Qed.

Fixpoint tcp_expiries (times : list (instant * Z)) : ST TcpTransport unit :=
  match times with
  | [] => mret tt
  | (now, ns) :: times =>
      _ ← Tcp_handleTimerExpiry now ns;
      tcp_expiries times
  end.

(** Over TCP, a server that stops answering is given up: the timer sends
    one keepalive at each expiry, six in all, and the next expiry ends with
    [TimedOut]. *)
Theorem tcp_silent_server_given_up times last t :
  st_errors (stream t) = [] -> unacked t = 0 -> length times = 6%nat ->
  Forall (fun time : instant * Z => 0 <= time.2 < 2 ^ 64) times ->
  exists t', tcp_expiries times t = (Ok tt, t') /\
    st_written (stream t') = st_written (stream t) ++ mjoin (keepalive_frame ∘ snd <$> times) /\
    Tcp_handleTimerExpiry last.1 last.2 t' = (Err (TE_Custom TimedOut), t').
Proof.
  intros He H0 Hlen Hns.
  assert (G : forall times t, st_errors (stream t) = [] -> 0 <= unacked t -> unacked t + len times = 6 ->
    Forall (fun time : instant * Z => 0 <= time.2 < 2 ^ 64) times ->
    exists t', tcp_expiries times t = (Ok tt, t') /\
      st_written (stream t') = st_written (stream t) ++ mjoin (keepalive_frame ∘ snd <$> times) /\ unacked t' = 6).
  { clear times t He H0 Hlen Hns. induction times as [|[now ns] times IH]; intros t He H0 Hlen Hns; cbn [length] in Hlen.
    { exists t. split; [done|]. cbn. rewrite app_nil_r. split; [done|lia]. }
    apply Forall_cons in Hns as [Hns1 Hns]. cbn [tcp_expiries].
    destruct (tcp_timer now ns t He Hns1 ltac:(lia)) as (t1 & E & He1 & Hw1 & Hn1).
    erewrite bind_run by exact E. destruct (IH t1 He1) as (t' & E' & Hw & Hn); [lia|lia|done|].
    exists t'. split; [done|]. split; [|done]. rewrite Hw, Hw1, <- app_assoc. done. }
  destruct (G times t He) as (t' & E & Hw & Hn); [lia|lia|done|]. exists t'. split; [done|]. split; [done|].
  unfold Tcp_handleTimerExpiry. erewrite bind_err; [reflexivity|].
  unfold in_common, in_base, focus, BaseTransport_handleTimerExpiry. erewrite bind_run by reflexivity.
  rewrite Hn. cbn. by destruct t' as [[]].
Qed.
End Silence.

(** ** Runs *)
Definition example_socket (parts : list (list Z)) : ByteStream :=
  {| st_written := []; st_errors := []; st_incoming := inr <$> parts |}.
Definition example_tcp (parts : list (list Z)) : @TcpTransport nano_time rle_lib list_cbuf :=
  new_TcpTransport (0 : @instant nano_time) None (example_socket parts).

Definition example_messages : list QunetMessage :=
  [MKeepalive {| ka_timestamp := 258 |}; MData {| dm_data := [1; 2; 3]; dm_compHeader := None; dm_relHeader := None |}].

(** The bytes arrive in three parts, cut inside a length and inside a message. *)
Definition example_parts : list (list Z) :=
  [[10; 0]; [0; 0; 3; 2; 1; 0; 0; 0; 0; 0; 0; 0; 4]; [0; 0; 0; 128; 1; 2; 3]].

Lemma stream_delivery_witness :
  let '(res, sender') := send_all (W := list_writer) (0 : @instant nano_time) example_messages
                           (tcp_common (example_tcp [])) in
  res = Ok tt /\ exists bytes, st_written (sp_stream sender') = [] ++ bytes /\
  forall (receiver : @StreamLayer nano_time rle_lib list_cbuf ByteStream) fuel, sees receiver bytes -> (2 < fuel)%nat ->
    bt_zstdDecompressor (sp_base receiver) = {| zd_ctx := false; zd_dict := None |} ->
    bt_messageSizeLimit (sp_base receiver) = 2 ^ 64 - 1 ->
    let '(received, res, receiver') := receive_all (R := list_reader) (5 : @instant nano_time) fuel receiver in
    exists rest, example_messages = received ++ rest /\
      match res with
      | Ok _ => rest = []
      | Err e => e = TE_Custom NoBufferSpace /\ full receiver'
      | Fault _ => False
      end.
Proof.
  apply (stream_delivery (T := nano_time) (CL := rle_lib) (CLaws := list_cbuf_laws) (W := list_writer) (R := list_reader)
    (0 : @instant nano_time) (5 : @instant nano_time) example_messages example_messages
    {| zd_ctx := false; zd_dict := None |} (2 ^ 64 - 1) (tcp_common (example_tcp []))); [|reflexivity].
  constructor; [|constructor; [|constructor]];
    (split; [reflexivity|]; split; [right; vm_compute; discriminate|]).
  - split; [cbn; lia|reflexivity].
  - split; [split; exact I|]. exists [1; 2; 3]. split; reflexivity.
Defined.

(** A receiver that sees these bytes, and what it returns. *)
Example example_parts_received :
  mjoin example_parts = mjoin ((fun m => frame (payload m)) <$> example_messages) /\
  (receive_all (R := list_reader) (5 : @instant nano_time) 3 (tcp_common (example_tcp example_parts))).1
  = (example_messages, Ok tt).
Proof. split; vm_compute; reflexivity. Qed.

Lemma tcp_silent_server_given_up_witness :
  exists t', tcp_expiries (W := list_writer) ((fun n => (n : @instant nano_time, n)) <$> seqZ 1 6) (example_tcp []) = (Ok tt, t') /\
    st_written (sp_stream (tcp_common t')) = [] ++ mjoin (keepalive_frame ∘ snd <$> ((fun n => (n, n)) <$> seqZ 1 6)) /\
    Tcp_handleTimerExpiry (W := list_writer) (9 : @instant nano_time) 9 t' = (Err (TE_Custom TimedOut), t').
Proof.
  apply (tcp_silent_server_given_up (T := nano_time) (W := list_writer) ((fun n => (n : @instant nano_time, n)) <$> seqZ 1 6)
    (9 : @instant nano_time, 9) (example_tcp [])); try reflexivity.
  repeat constructor; cbn; lia.
Defined.
