(* ===== verification/StreamSafe.v ===== *)
(** * Messages over any stream: whatever arrives

    What a stream promises to [streamcommon::receiveMessage], and that the
    latter then never throws nor loops; the TCP socket keeps the promise. *)
From S2P Require Import Prelude Dbuf Messages Codec CodecSafety Time Errors Effects.
From S2P Require Import Stats Compress Transport Stream.

#[local] Arguments decodeMeta : simpl never.

(** ** The promise
    [receive] into a buffer that is not empty gives as many bytes as fit, or
    fails, or waits; and each call uses up what the stream can still give. *)
Class StreamingLaws (St : Type) {SO : Streaming St} := {
  st_ok : St -> Prop;
  st_receive_law n s : 0 < n -> st_ok s ->
    match st_receive n s with
    | (Ok bs, s') => st_ok s' /\ bytes_ok bs /\ (st_turns s' + length bs <= st_turns s)%nat
    | (Err _, s') | (Fault WouldBlock, s') => st_ok s'
    | (Fault _, _) => False
    end;
}.

#[export] Instance tcp_streaming_laws : StreamingLaws ByteStream.
Proof.
  refine {| st_ok s := Forall (fun part => match part with inl _ => True | inr bs => bytes_ok bs end) (st_incoming s) |}.
  intros n s Hn Hs. cbn. unfold stream_receive, stream_bytes.
  destruct (st_incoming s) as [|[e|part] rest] eqn:Hin; [by rewrite Hin|by apply Forall_cons in Hs as [_ ?]|].
  apply Forall_cons in Hs as [Hp Hr]. cbn. split; [|split; [by apply Forall_take|]].
  - destruct (Z.leb_spec (len part) n); [done|]. constructor; [by apply Forall_drop|done].
  - unfold ztake. rewrite length_take. destruct (Z.leb_spec (len part) n); [lia|]. cbn. unfold zdrop. rewrite length_drop. lia.
Defined.

Section Safe.
Context {T : TimeLib} {CL : CompressionLib} {C : CircularBuffer} {CLaws : CircularBufferLaws C} `{RL : ByteReaderLaws}.
Context {St : Type} {SO : Streaming St} {SL : StreamingLaws St}.
Abbreviation Layer := (StreamLayer St).

Definition layer_ok (s : Layer) : Prop := st_ok (sp_stream s) /\ bytes_ok (contents (sp_buffer s)).
Definition layer_turns (s : Layer) : nat := (2 * st_turns (sp_stream s) + length (contents (sp_buffer s)))%nat.
(** What is left to do is less than [n]. *)
Definition within (n : nat) (s : Layer) : Prop := layer_ok s /\ (layer_turns s < n)%nat.

Lemma reserve_within n : triple (within n) (reserve_space : ST Layer unit) (fun _ s => within n s /\ 0 < cb_writeWindow (sp_buffer s)) layer_ok.
Proof.
  intros s [Hs Hn]. unfold reserve_space, get, mbind, ST_bind.
  destruct (Z.ltb_spec (cb_writeWindow (sp_buffer s)) 2048); [|split; [done|lia]].
  destruct (1024 * 1024 <=? cb_capacity (sp_buffer s)); [done|]. unfold on_buffer, modify.
  pose proof (cb_window_law 2048 (sp_buffer s)). unfold within, layer_ok, layer_turns in *. cbn. rewrite cb_reserve_law.
  split; [done|lia].
Qed.

Lemma waitForData_within n now : triple (within (S n)) (waitForData now : ST Layer unit) (fun _ => within n) layer_ok.
Proof.
  unfold waitForData. eapply triple_bind; [apply reserve_within|]. intros ?. apply triple_read. intros wnd.
  intros s [[[[Hs Hb] Hn] Hw] <-]. unfold in_stream, focus, mbind, ST_bind.
  pose proof (st_receive_law _ _ Hw Hs) as H. destruct (st_receive _ (sp_stream s)) as [[bs|e|[]] st']; try done.
  destruct H as (Hs' & Hbs & Hlen). destruct (Z.eqb_spec (len bs) 0); [done|].
  unfold in_base, focus, on_buffer, modify. unfold within, layer_ok, layer_turns in *. cbn in *. rewrite cb_write_law.
  split; [split; [done|by apply Forall_app]|]. rewrite length_app. lia.
Qed.

Lemma decode_peeked_ok now wrp n :
  wrp.1 <> [] -> triple (within n) (decode_peeked now wrp : ST Layer QunetMessage) (fun _ => within n) (within n).
Proof.
  intros Hne s Hs. unfold decode_peeked.
  set (data := match wrp.2 with [] => decodeMeta wrp.1 false false | _ => _ end).
  assert (is_fault data = false /\ forall meta, data = Ok meta -> comp_ok (mm_compressionHeader meta)) as [Hf Hc].
  { unfold data. destruct wrp.2; split; try (by apply decodeMeta_total; destruct wrp.1); intros meta; apply decodeMeta_comp. }
  clearbody data. unfold lift, mbind, ST_bind, decode_error. destruct data as [meta|e|f]; [|done|done]. specialize (Hc _ eq_refl).
  cbn. destruct (negb _).
  - pose proof (decodeWithMeta_total meta) as Hd. destruct (decodeWithMeta meta) as [m|e|f]; [|done|done]. cbn.
    by destruct wrp.1 as [|b l].
  - unfold in_base, focus. pose proof (decodePreFinal_total now meta (sp_base s) Hc) as Hd.
    by destruct (decodePreFinalDataMessage now meta (sp_base s)) as [[m|e|f] b].
Qed.

Lemma peek_length_ok (s : Layer) :
  bytes_ok (contents (sp_buffer s)) -> 4 <= len (contents (sp_buffer s)) ->
  exists n, peek_length s = Ok n /\ 0 <= n.
Proof.
  intros Hb Hl. unfold peek_length. rewrite (cb_peek_law 4) by lia. set (bs := ztake 4 (contents (sp_buffer s))).
  assert (len bs = 4) as Hbs by (unfold bs; apply len_ztake; lia).
  assert (bytes_ok (unread (reader_of bs))) as Hbr by (rewrite unread_of; by apply Forall_take).
  rewrite readU32_law. unfold reads. rewrite unread_of. destruct (Z.leb_spec 4 (len bs)); [|lia]. cbn.
  eexists. split; [reflexivity|]. pose proof (le_combine_small 4 _ Hbr) as H4. rewrite unread_of in H4. lia.
Qed.

Lemma skip_within n k : 0 <= k -> triple (fun s => within n s /\ k <= len (contents (sp_buffer s)))
  (on_buffer (cb_skip k) : ST Layer unit) (fun _ => within (n - Z.to_nat k)) layer_ok.
Proof.
  intros Hk s [[[Hs Hb] Hn] Hl]. unfold on_buffer, modify, within, layer_ok, layer_turns in *. cbn.
  rewrite cb_skip_law by lia. split; [split; [done|by apply Forall_drop]|]. unfold zdrop. rewrite length_drop. lia.
Qed.

Lemma decode_peeked_buffer now wrp : keeps sp_buffer (decode_peeked now wrp : ST Layer QunetMessage).
Proof.
  assert (forall A (m : ST BaseTransport A), keeps sp_buffer (in_base m : ST Layer A)) by (intros; by apply keeps_outside).
  unfold decode_peeked. keeps_auto.
Qed.

Lemma receive_loop_ok now fuel : triple (within fuel) (receive_loop fuel now : ST Layer QunetMessage) (fun _ => layer_ok) layer_ok.
Proof.
  induction fuel as [|fuel IH]; [intros s [_ H]; lia|]. cbn [receive_loop]. apply triple_read. intros size.
  assert (triple (fun s : Layer => within (S fuel) s) (_ ← waitForData now; receive_loop fuel now) (fun _ => layer_ok) layer_ok) as Hwait
    by (eapply triple_bind; [apply waitForData_within|by intros ?]).
  intros s [Hw <-]. destruct (Z.ltb_spec (cb_size (sp_buffer s)) 4) as [|H4]; [by apply Hwait|].
  rewrite cb_size_law in *. destruct (peek_length_ok s) as (n & Hp & Hn); [apply Hw|done|].
  do 3 (erewrite bind_run by (unfold get, lift; rewrite ?Hp; reflexivity); cbv beta).
  assert (within (S fuel - 4) (set_buffer (cb_skip 4 (sp_buffer s)) s)) as H1
    by exact (skip_within (S fuel) 4 ltac:(lia) s (conj Hw H4)).
  destruct (Z.eqb_spec n 0) as [|Hn0].
  { unfold on_buffer, modify. erewrite bind_run by reflexivity. apply IH. destruct H1 as [H1 Hm]. split; [done|lia]. }
  destruct (negb _ && _); [apply Hw|]. destruct (Z.ltb_spec (len (contents (sp_buffer s))) (4 + n)) as [|Hl]; [by apply Hwait|].
  unfold on_buffer, modify. erewrite bind_run by reflexivity. cbv beta. set (s1 := set_buffer _ s) in *.
  assert (n <= len (contents (sp_buffer s1))) as Hl1 by (cbn; rewrite cb_skip_law, len_zdrop by lia; lia).
  erewrite bind_run by reflexivity. cbv beta.
  assert (0 < n <= len (contents (sp_buffer s1))) as Hn1 by lia. pose proof (cb_peek_first n (sp_buffer s1) Hn1) as Hne.
  pose proof (decode_peeked_ok now _ _ Hne s1 H1) as Hd. unfold attempt at 1, mbind at 1, ST_bind at 1.
  assert (forall s2, within (S fuel - 4) s2 -> sp_buffer s2 = sp_buffer s1 -> layer_ok (set_buffer (cb_skip n (sp_buffer s2)) s2)) as Hend.
  { intros s2 [[Hs2 Hb2] _] Heq. unfold layer_ok in *. cbn. rewrite Heq in *. rewrite cb_skip_law by lia.
    split; [done|by apply Forall_drop]. }
  assert (sp_buffer (decode_peeked now (cb_peek n (sp_buffer s1)) s1).2 = sp_buffer s1) as Hbuf by apply decode_peeked_buffer.
  destruct (decode_peeked now (cb_peek n (sp_buffer s1)) s1) as [[m|e|[]] s2]; try done; first [by apply Hend | apply Hd].
Qed.

(** Whatever bytes arrive, however they are cut, [receiveMessage] returns a message
    or an error, or waits; it never throws, reads out of range or loops, and leaves
    stream and buffer fit for the next call. *)
Lemma stream_receive_safe now : safe layer_ok (streamcommon_receiveMessage now : ST Layer QunetMessage).
Proof.
  intros s Hs. unfold streamcommon_receiveMessage. apply (receive_loop_ok now (receive_fuel s)). split; [done|].
  unfold layer_turns, receive_fuel. rewrite cb_size_law. lia.
Qed.
End Safe.
