(* ===== verification/StreamOrder.v ===== *)
(** * Messages over any stream: in order

    What a stream promises of the bytes that it gives, and that the messages
    then come in the order they were sent, none twice and none left out,
    whatever errors and waits come between the calls; the TCP socket keeps the
    promise. *)
From S2P Require Import Prelude Dbuf Messages Codec CodecSpec Time Errors Effects.
From S2P Require Import Stats Compress Transport Stream StreamSpec.

Open Scope Z_scope.
#[local] Arguments decodeMeta : simpl never.

(** ** The promise
    [st_next rest s]: what [receive] can still give is a part of [rest], from
    its beginning. *)
Class StreamingOrder (St : Type) {SO : Streaming St} := {
  st_next : list Z -> St -> Prop;
  st_next_law n rest s : 0 < n -> st_next rest s ->
    match st_receive n s with
    | (Ok bs, s') => exists rest', rest = bs ++ rest' /\ st_next rest' s'
    | (_, s') => st_next rest s'
    end;
}.

(** The bytes of a TCP socket that did not arrive yet. *)
Definition tcp_bytes (s : ByteStream) : list Z :=
  mjoin ((fun part => match part with inl _ => [] | inr bs => bs end) <$> st_incoming s).

#[export] Instance tcp_streaming_order : StreamingOrder ByteStream.
Proof.
  refine {| st_next rest s := tcp_bytes s `prefix_of` rest |}.
  intros n rest s Hn [more ->]. cbn. unfold stream_receive, tcp_bytes.
  destruct (st_incoming s) as [|[e|part] parts] eqn:Hin; cbn; [rewrite Hin; by exists more|by exists more|].
  exists (zdrop n part ++ tcp_bytes (set_incoming parts s) ++ more). split.
  - unfold tcp_bytes. cbn. by rewrite <- app_assoc, (app_assoc _ (zdrop _ _)), ztake_zdrop.
  - exists more. destruct (Z.leb_spec (len part) n); cbn.
    + rewrite zdrop_ge by done. done.
    + unfold tcp_bytes. by rewrite <- app_assoc.
Defined.

Section Order.
Context {T : TimeLib} {CL : CompressionLib} {C : CircularBuffer} {CLaws : CircularBufferLaws C} `{RL : ByteReaderLaws}.
Context {St : Type} {SO : Streaming St} {OL : StreamingOrder St}.
Abbreviation Layer := (StreamLayer St).

(** What is in the buffer and can still come. *)
Definition awaits (s : Layer) (bytes : list Z) : Prop :=
  exists rest, st_next rest (sp_stream s) /\ contents (sp_buffer s) ++ rest = bytes.

Lemma same_options_refl (s : Layer) : same_options s s.
Proof. done. Qed.
Lemma same_options_trans (s1 s2 s3 : Layer) : same_options s1 s2 -> same_options s2 s3 -> same_options s1 s3.
Proof. intros [H1 H2] [H3 H4]. unfold same_options. by rewrite H3, H4. Qed.

Lemma wait_awaits now (s : Layer) bytes :
  awaits s bytes -> let '(res, s') := waitForData now s in awaits s' bytes /\ same_options s s'.
Proof.
  intros (rest & Hrest & Hb). unfold waitForData. destruct (reserve_spec s) as [[E _]|(b & E & Hw & Hc)].
  { unfold mbind, ST_bind. rewrite E. split; [by exists rest|done]. }
  unfold mbind at 1, ST_bind at 1. rewrite E. unfold get at 1, mbind at 1, ST_bind at 1. cbn [sp_buffer set_buffer].
  assert (0 < cb_writeWindow b) as Hn by lia. unfold in_stream at 1, focus at 1, mbind at 1, ST_bind at 1.
  cbn [sp_stream set_buffer]. pose proof (st_next_law _ rest (sp_stream s) Hn Hrest) as H.
  assert (forall st', st_next rest st' -> awaits (set_stream st' (set_buffer b s)) bytes) as Hsame
    by (intros st' Hst; exists rest; cbn; by rewrite Hc).
  destruct (st_receive (cb_writeWindow b) (sp_stream s)) as [[bs|e|f] st'];
    [|split; [by apply Hsame|done]|split; [by apply Hsame|done]].
  destruct H as (rest' & -> & Hst'). destruct (Z.eqb_spec (len bs) 0) as [Hz|Hz].
  - assert (bs = []) as -> by (apply nil_length_inv; lia). split; [by apply Hsame|done].
  - split; [|done]. exists rest'. split; [done|]. cbn. by rewrite cb_write_law, Hc, <- app_assoc.
Qed.

Lemma awaits_prefix (s : Layer) k bs rest :
  awaits s (bs ++ rest) -> len bs = k -> k <= len (contents (sp_buffer s)) ->
  ztake k (contents (sp_buffer s)) = bs /\ awaits (set_buffer (cb_skip k (sp_buffer s)) s) rest.
Proof.
  intros (more & Hmore & Hbytes) <- Hlen. set (c := contents (sp_buffer s)) in *.
  assert (ztake (len bs) c = bs /\ zdrop (len bs) c ++ more = rest) as [E1 E2].
  { apply app_inj_1; [apply Nat2Z.inj; rewrite len_ztake; lia|]. by rewrite app_assoc, ztake_zdrop. }
  split; [done|]. exists more. cbn. split; [done|]. rewrite cb_skip_law by (fold c; lia). exact E2.
Qed.

(** A message that its receiver understands, with these options. *)
Definition receivable (s : Layer) (bs : list Z) (m : QunetMessage) : Prop :=
  len bs < 2 ^ 32 /\ (bt_messageSizeLimit (sp_base s) = 0 \/ len bs <= bt_messageSizeLimit (sp_base s)) /\
  understood (bt_zstdDecompressor (sp_base s)) (bt_messageSizeLimit (sp_base s)) bs m.

Lemma receivable_options (s s' : Layer) bs m : same_options s s' -> receivable s bs m -> receivable s' bs m.
Proof. intros [H1 H2]. unfold receivable. by rewrite H1, H2. Qed.

(** A call that returns a message returns the next one; any other outcome leaves
    everything to be received. *)
Definition next_result (s : Layer) (bs rest : list Z) (m' : QunetMessage) (out : TransportResult QunetMessage * Layer) : Prop :=
  same_options s out.2 /\
  match out.1 with
  | Ok m => m = m' /\ awaits out.2 rest
  | _ => awaits out.2 (frame bs ++ rest)
  end.

Lemma receive_loop_next now fuel (s : Layer) bs rest m' :
  awaits s (frame bs ++ rest) -> receivable s bs m' -> next_result s bs rest m' (receive_loop fuel now s).
Proof.
  revert s. induction fuel as [|fuel IH]; intros s Hs Hbs; [by split|]. set (c := contents (sp_buffer s)).
  assert (Hwait : next_result s bs rest m' ((_ ← waitForData now; receive_loop fuel now) s)).
  { pose proof (wait_awaits now s _ Hs) as H. unfold mbind at 1, ST_bind.
    destruct (waitForData now s) as [[[]|e|f] s1]; destruct H as [Hs1 Ho]; [|by split..].
    destruct (IH s1 Hs1 (receivable_options _ _ _ _ Ho Hbs)) as [Ho' Hres]. split; [by eapply same_options_trans|done]. }
  assert (Hbs2 := Hbs). destruct Hbs2 as (Hlen & Hlimit & Hund).
  assert (0 < len bs) as Hpos by (destruct Hund as (meta & _ & ? & _); destruct bs; [done|cbn; lia]).
  cbn [receive_loop]. erewrite bind_run by reflexivity. cbv beta. rewrite cb_size_law. fold c.
  destruct (Z.ltb_spec (len c) 4) as [|H4]; [exact Hwait|].
  assert (Hfirst := Hs). unfold frame in Hfirst. rewrite <- app_assoc in Hfirst.
  destruct (awaits_prefix s 4 _ _ Hfirst) as [Hc1 Hs1]; [by rewrite length_le_split|done|].
  erewrite bind_run by reflexivity. cbv beta. rewrite (peek_length_spec s (len bs)) by (done || lia).
  do 2 (erewrite bind_run by reflexivity; cbv beta). rewrite (proj2 (Z.eqb_neq _ _)) by lia.
  destruct (negb _ && _); [by split|]. destruct (Z.ltb_spec (len c) (4 + len bs)) as [|Hwhole]; [exact Hwait|].
  set (s1 := set_buffer _ s) in Hs1. erewrite bind_run by reflexivity. cbv beta. fold s1.
  assert (Hc2 : contents (sp_buffer s1) = zdrop 4 c) by (cbn; by apply cb_skip_law).
  assert (Hlen2 : len bs <= len (contents (sp_buffer s1))) by (rewrite Hc2, len_zdrop; lia).
  destruct (awaits_prefix s1 (len bs) bs rest Hs1 eq_refl Hlen2) as [Hc3 Hs2].
  erewrite bind_run by reflexivity. cbv beta.
  pose proof (cb_peek_law (len bs) (sp_buffer s1) (conj (Nat2Z.is_nonneg _) Hlen2)) as Hparts. rewrite Hc3 in Hparts.
  pose proof (cb_peek_first (len bs) (sp_buffer s1) (conj Hpos Hlen2)) as Hne.
  change (cb_peek (len bs) (sp_buffer (set_buffer (cb_skip 4 (sp_buffer s)) s))) with (cb_peek (len bs) (sp_buffer s1)).
  destruct (cb_peek (len bs) (sp_buffer s1)) as [a b]. cbn [fst snd] in Hparts, Hne.
  destruct (decode_peeked_spec now a b bs m' s1 Hund Hparts Hne) as (base & Hrun & Hopt).
  assert (attempt (decode_peeked now (a, b)) s1 = (Ok (Ok m'), set_base base s1)) as Hrun2
    by (unfold attempt; by rewrite Hrun).
  erewrite bind_run by exact Hrun2. cbv beta. erewrite bind_run by reflexivity. cbv beta.
  split; [exact Hopt|]. split; [done|]. destruct Hs2 as (more & ? & ?). by exists more.
Qed.

(** Nothing is left. *)
Lemma receive_loop_none now fuel (s : Layer) :
  awaits s [] -> awaits (receive_loop fuel now s).2 [] /\ is_ok (receive_loop fuel now s).1 = false.
Proof.
  revert s. induction fuel as [|fuel IH]; intros s Hs; [done|].
  assert (contents (sp_buffer s) = []) as Hc by (destruct Hs as (rest & _ & H); by apply app_eq_nil in H as [? _]).
  cbn [receive_loop]. erewrite bind_run by reflexivity. cbv beta. rewrite cb_size_law, Hc.
  change (Z.of_nat (length []) <? 4) with true. cbn iota.
  pose proof (wait_awaits now s _ Hs) as H. unfold mbind, ST_bind.
  destruct (waitForData now s) as [[[]|e|f] s1]; destruct H as [Hs1 _]; [by apply IH|done|done].
Qed.

(** What calls at these instants return, whatever comes between. *)
Fixpoint receive_each (nows : list instant) (s : Layer) : list QunetMessage * Layer :=
  match nows with
  | [] => ([], s)
  | now :: nows =>
      let '(res, s) := streamcommon_receiveMessage now s in
      let '(ms, s) := receive_each nows s in
      (match res with Ok m => m :: ms | _ => ms end, s)
  end.

Lemma receive_each_prefix nows (s : Layer) bss ms :
  awaits s (mjoin (frame <$> bss)) -> Forall2 (receivable s) bss ms -> (receive_each nows s).1 `prefix_of` ms.
Proof.
  revert s bss ms. induction nows as [|now nows IH]; intros s bss ms Hs Hms; cbn [receive_each]; [apply prefix_nil|].
  unfold streamcommon_receiveMessage. destruct Hms as [|bs m bss ms Hbs Hms].
  - pose proof (receive_loop_none now (receive_fuel s) s Hs) as [Hs' Hf].
    destruct (receive_loop (receive_fuel s) now s) as [[m|e|f] s']; [done| |];
      specialize (IH s' [] [] Hs' ltac:(constructor)); by destruct (receive_each nows s').
  - assert (Forall2 (receivable s) (bs :: bss) (m :: ms)) as Hall by (by constructor).
    assert (forall s', same_options s s' -> forall l l', Forall2 (receivable s) l l' -> Forall2 (receivable s') l l') as Hopt.
    { intros s' Ho l l' H. eapply Forall2_impl; [exact H|]. intros. by eapply receivable_options. }
    destruct (receive_loop_next now (receive_fuel s) s bs (mjoin (frame <$> bss)) m Hs Hbs) as [Ho Hres].
    destruct (receive_loop (receive_fuel s) now s) as [[m1|e|f] s']; cbn in Ho, Hres.
    + destruct Hres as [-> Hs']. specialize (IH s' bss ms Hs' (Hopt s' Ho _ _ Hms)).
      destruct (receive_each nows s') as [ms' s'']. by apply prefix_cons.
    + specialize (IH s' (bs :: bss) (m :: ms) Hres (Hopt s' Ho _ _ Hall)). by destruct (receive_each nows s').
    + specialize (IH s' (bs :: bss) (m :: ms) Hres (Hopt s' Ho _ _ Hall)). by destruct (receive_each nows s').
Qed.
End Order.
