(* ===== verification/Ws.v ===== *)
(** * WsTransport

    [include/qunet/socket/transport/WsTransport.hpp] and
    [src/socket/transport/WsTransport.cpp]: a message is a binary message of a
    WebSocket.  The client of the library is a script of what it will do. *)
From stdpp Require Import pretty.
From S2P Require Import Prelude Dbuf Messages Codec CodecSpec Time Errors Effects.
From S2P Require Import Stats Compress Transport Stream StreamSpec.

Inductive WsMessage :=
  | WsBinary (data : list Z)
  | WsText (data : list Z)
  | WsClose (code : Z) (reason : list Z).

Record WsClient := {
  ws_connected : bool;
  ws_sent : list (list Z);
  (** the errors of the calls of [send] to come; then success *)
  ws_errors : list (option (list Z));
  ws_incoming : list (list Z + WsMessage);
  (** what a close will answer: an error, and whether it is connected then *)
  ws_closing : option (list Z) * bool;
}.

Definition ws_send (data : list Z) : ST WsClient unit := fun c =>
  match ws_errors c with
  | Some e :: errors =>
      (Err (TE_Ws e), {| ws_connected := ws_connected c; ws_sent := ws_sent c; ws_errors := errors;
                         ws_incoming := ws_incoming c; ws_closing := ws_closing c |})
  | errors =>
      (Ok tt, {| ws_connected := ws_connected c; ws_sent := ws_sent c ++ [data]; ws_errors := tail errors;
                 ws_incoming := ws_incoming c; ws_closing := ws_closing c |})
  end.

Definition ws_recv : ST WsClient WsMessage := fun c =>
  match ws_incoming c with
  | [] => (Fault WouldBlock, c)
  | m :: ms =>
      (match m with inl e => Err (TE_Ws e) | inr m => Ok m end,
       {| ws_connected := ws_connected c; ws_sent := ws_sent c; ws_errors := ws_errors c;
          ws_incoming := ms; ws_closing := ws_closing c |})
  end.

(** [closeNoAck] and [closeSync] *)
Definition ws_close : ST WsClient unit := fun c =>
  (match (ws_closing c).1 with Some e => Err (TE_Ws e) | None => Ok tt end,
   {| ws_connected := (ws_closing c).2; ws_sent := ws_sent c; ws_errors := ws_errors c;
      ws_incoming := ws_incoming c; ws_closing := ws_closing c |}).

(** The buffer of the class is never used. *)
Record WsTransport {T : TimeLib} {CL : CompressionLib} := {
  wt_base : BaseTransport;
  wt_ws : WsClient;
  wt_activeKeepaliveInterval : option duration;
}.

Section Ws.
Context {T : TimeLib} {CL : CompressionLib} `{W : ByteWriter} `{R : ByteReader}.

Definition new_WsTransport (start : instant) (activeKeepaliveInterval : option duration) (ws : WsClient) : WsTransport :=
  {| wt_base := new_BaseTransport start; wt_ws := ws; wt_activeKeepaliveInterval := activeKeepaliveInterval |}.

Abbreviation WM := (ST WsTransport).
Definition ws_in_base {A} : ST BaseTransport A -> WM A :=
  focus wt_base (fun b t => {| wt_base := b; wt_ws := wt_ws t;
                               wt_activeKeepaliveInterval := wt_activeKeepaliveInterval t |}).
Definition in_client {A} : ST WsClient A -> WM A :=
  focus wt_ws (fun c t => {| wt_base := wt_base t; wt_ws := c;
                             wt_activeKeepaliveInterval := wt_activeKeepaliveInterval t |}).

(** [close] and [closeSync] *)
Definition Ws_close : WM unit :=
  connected ← get (fun t => ws_connected (wt_ws t));
  when connected (in_client ws_close).
Definition Ws_isClosed (t : WsTransport) : bool := negb (ws_connected (wt_ws t)).

Definition Ws_sendMessage (now : instant) (now_ns : Z) (message : QunetMessage) : WM unit :=
  message ← ws_in_base (touch now now_ns message);
  w ← lift match message with
           | MData msg =>
               w ← unwrap (encodeDataHeader message 0 false new_writer);
               Ok (writeBytes (dm_data msg) w)
           | _ => encode_error (encodeControlMsg message 0 new_writer)
           end;
  let data := written w in
  _ ← in_client (ws_send data);
  ws_in_base (modify (set_tracker (Stats.onUpPacket now (len data)))).

(** [BaseTransport::sendMessage(message, reliable)] *)
Definition Ws_send (now : instant) (now_ns : Z) (message : QunetMessage) (reliable : bool) : WM unit :=
  _ ← Ws_sendMessage now now_ns message;
  hbyte ← lift (headerByte message);
  ws_in_base (modify (logOutgoingMessage now hbyte (new_context reliable))).

Definition Ws_poll : WM unit := custom NotImplemented.

Definition close_text (code : Z) (reason : list Z) : list Z :=
  str "WebSocket closed by peer: " ++ reason ++ str " (code " ++ str (pretty code) ++ str ")".

Definition Ws_receiveMessage (now : instant) : WM QunetMessage :=
  msg ← in_client ws_recv;
  match msg with
  | WsClose code reason => throw (TE_Ws (close_text code reason))
  | WsText _ => custom UnexpectedMessage
  | WsBinary data =>
      meta ← lift (decode_error (decodeMeta data false false));
      if negb (mm_type meta =? MSG_DATA) then
        msg ← lift (decode_error (decodeWithMeta meta));
        header ← lift (match data with b :: _ => Ok b | [] => Fault OutOfBounds end);
        _ ← ws_in_base (modify (set_tracker (Stats.onDownMessage now header (len data) None zero None)));
        mret msg
      else ws_in_base (decodePreFinalDataMessage now meta)
  end.

Definition Ws_untilKeepalive (now : instant) (t : WsTransport) : duration :=
  stream_untilKeepalive (wt_activeKeepaliveInterval t) now (wt_base t).
Definition Ws_untilTimerExpiry : instant -> WsTransport -> duration := Ws_untilKeepalive.

Definition Ws_handleTimerExpiry (now : instant) (now_ns : Z) : WM unit :=
  _ ← ws_in_base BaseTransport_handleTimerExpiry;
  Ws_send now now_ns (MKeepalive {| ka_timestamp := 0 |}) true.
End Ws.

(** ** From one end to the other *)
Section Delivery.
Context {T : TimeLib} {CL : CompressionLib} `{WL : ByteWriterLaws} `{RL : ByteReaderLaws}.

(** A keepalive carries the time at which it is sent. *)
Definition stamped (now_ns : Z) (m : QunetMessage) : QunetMessage :=
  match m with MKeepalive _ => MKeepalive {| ka_timestamp := now_ns |} | _ => m end.

Lemma encode_ws d limit m m' :
  travels d limit m m' ->
  exists w, match m with
    | MData msg =>
        w ← unwrap (encodeDataHeader m 0 false new_writer);
        Ok (writeBytes (dm_data msg) w)
    | _ => encode_error (encodeControlMsg m 0 new_writer)
    end = Ok w /\ written w = payload m.
Proof.
  intros (_ & _ & Hm). destruct m; try done.
  3: { destruct (encodeDataHeader_written m 0 false new_writer) as (w & -> & Hw). eexists. split; [reflexivity|].
       by rewrite writeBytes_law, Hw, written_new. }
  all: destruct Hm as [Hwf _]; edestruct (encodeControlMsg_written _ _ 0 new_writer Hwf eq_refl) as (w & -> & Hw);
    exists w; (split; [reflexivity|]); by rewrite Hw, written_new.
Qed.

Lemma touch_run now now_ns m b :
  exists b', touch now now_ns m b = (Ok (stamped now_ns m), b').
Proof. unfold touch. erewrite bind_run by reflexivity. destruct m; eexists; reflexivity. Qed.

(** C21. A WebSocket transport sends a message as one binary message, from which
    the transport at the other end returns the same message (the data of a
    data message decompressed, a keepalive with the time at which it was
    sent), whatever else is on its way. *)
Theorem ws_delivery now now_ns m m' d limit sender :
  travels d limit (stamped now_ns m) m' -> ws_errors (wt_ws sender) = [] ->
  let '(res, sender') := Ws_sendMessage now now_ns m sender in
  res = Ok tt /\ exists bytes, ws_sent (wt_ws sender') = ws_sent (wt_ws sender) ++ [bytes] /\
  forall now' receiver rest, ws_incoming (wt_ws receiver) = inr (WsBinary bytes) :: rest ->
    bt_zstdDecompressor (wt_base receiver) = d -> bt_messageSizeLimit (wt_base receiver) = limit ->
    exists receiver', Ws_receiveMessage now' receiver = (Ok m', receiver') /\
      ws_incoming (wt_ws receiver') = rest.
Proof.
  intros Hm He. destruct (touch_run now now_ns m (wt_base sender)) as (b & Ht).
  destruct (encode_ws d limit _ m' Hm) as (w & Hw & Hbytes). unfold Ws_sendMessage.
  erewrite bind_run by (unfold ws_in_base, focus; rewrite Ht; reflexivity). cbv beta.
  erewrite bind_run by (unfold lift; rewrite Hw; reflexivity). cbv beta.
  unfold in_client at 1, focus at 1, ws_send, mbind, ST_bind. cbn [wt_ws]. rewrite He. cbn.
  split; [done|]. exists (payload (stamped now_ns m)). rewrite Hbytes. split; [done|].
  intros now' receiver rest Hin <- <-. destruct (payload_decoded _ _ _ _ Hm) as (meta & Hdec & Hne & Hmeta).
  unfold Ws_receiveMessage, mbind, ST_bind, in_client, focus, ws_recv. rewrite Hin. cbn [lift]. unfold lift.
  rewrite Hdec. cbn [decode_error map_err]. destruct (mm_type meta =? MSG_DATA); cbn [negb].
  - destruct Hmeta as (data & Hd & ->). unfold ws_in_base, focus. cbn [wt_base].
    edestruct (decodePreFinal_ok now' meta (wt_base receiver) data Hd) as (f & ->). by eexists.
  - rewrite Hmeta. cbn [decode_error map_err]. destruct (payload _); [done|]. by eexists.
Qed.
End Delivery.

(** ** Runs *)
Definition example_client (incoming : list (list Z + WsMessage)) : WsClient :=
  {| ws_connected := true; ws_sent := []; ws_errors := []; ws_incoming := incoming; ws_closing := (None, false) |}.
Definition example_ws (incoming : list (list Z + WsMessage)) : @WsTransport nano_time rle_lib :=
  new_WsTransport (0 : @instant nano_time) None (example_client incoming).

Lemma ws_delivery_witness :
  let '(res, sender') := Ws_sendMessage (W := list_writer) (3 : @instant nano_time) 77 (MKeepalive {| ka_timestamp := 0 |})
                           (example_ws []) in
  res = Ok tt /\ exists bytes, ws_sent (wt_ws sender') = [] ++ [bytes] /\
  forall (now' : @instant nano_time) (receiver : @WsTransport nano_time rle_lib) rest,
    ws_incoming (wt_ws receiver) = inr (WsBinary bytes) :: rest ->
    bt_zstdDecompressor (wt_base receiver) = {| zd_ctx := false; zd_dict := None |} ->
    bt_messageSizeLimit (wt_base receiver) = 0 ->
    exists receiver', Ws_receiveMessage (R := list_reader) now' receiver = (Ok (MKeepalive {| ka_timestamp := 77 |}), receiver') /\
      ws_incoming (wt_ws receiver') = rest.
Proof.
  apply (ws_delivery (T := nano_time) (CL := rle_lib) (W := list_writer) (R := list_reader) (3 : @instant nano_time) 77
    (MKeepalive {| ka_timestamp := 0 |}) (MKeepalive {| ka_timestamp := 77 |}) {| zd_ctx := false; zd_dict := None |} 0
    (example_ws [])); [|reflexivity].
  split; [reflexivity|]. split; [left; reflexivity|]. split; [cbn; lia|reflexivity].
Defined.

(** An empty binary message is not an error of the decoder but an assertion
    that fails. *)
Example ws_empty_message_throws :
  (Ws_receiveMessage (R := list_reader) (1 : @instant nano_time) (example_ws [inr (WsBinary [])])).1
  = Fault AssertionFailed.
Proof. reflexivity. Qed.
