(* ===== verification/StreamCalls.v ===== *)
(** * Messages over any stream: every call

    Sending beside receiving ([StreamSafe]): what a stream promises of [sendAll],
    and that the calls of a transport over it do not throw and keep what the others
    rely on; the TCP socket keeps the promise.  The same of a WebSocket, as long as
    no binary message is empty. *)
From S2P Require Import Prelude Dbuf Messages Codec CodecSpec CodecSafety Time Errors Effects.
From S2P Require Import Stats Compress Transport Stream StreamSafe Ws.

Open Scope Z_scope.

(** ** What is encoded *)
Section Encoding.
Context `{WL : ByteWriterLaws}.

(** What the transports over a stream and the WebSocket put into the buffer. *)
Definition encode_message (m : QunetMessage) (w : writer) : TransportResult writer :=
  match m with
  | MData msg =>
      w ← unwrap (encodeDataHeader m 0 false w);
      Ok (writeBytes (dm_data msg) w)
  | _ => encode_error (encodeControlMsg m 0 w)
  end.

(** A message that has an encoder, after what is written. *)
Lemma encode_message_total m w :
  sendable m = true ->
  exists w' bs, encode_message m w = Ok w' /\ written w' = written w ++ bs /\ len bs <= body_size m + 34.
Proof.
  intros Hs. unfold encode_message.
  assert (match m with MData _ => False | _ => True end ->
    exists w' bs, encode_error (encodeControlMsg m 0 w) = Ok w' /\ written w' = written w ++ bs /\ len bs <= body_size m + 34) as Hc.
  { intros Hm. destruct (encode_control_total m 0 w Hs Hm) as (w' & bs & -> & Hw & Hl). exists w', bs. split; [done|]. split; [done|lia]. }
  destruct m as [| | | | | | | | | | | | |msg]; try exact (Hc I).
  destruct (encodeDataHeader_written msg 0 false w) as (w' & -> & Hw). cbn. eexists _, (_ ++ dm_data msg). split; [reflexivity|].
  rewrite writeBytes_law, Hw, <- app_assoc. split; [reflexivity|]. pose proof (length_data_header msg 0 false). len_lia.
Qed.

Lemma encode_frame_total m :
  sendable m = true -> exists w, encode_frame m = Ok w /\ len (written w) <= body_size m + 38.
Proof.
  intros Hs. unfold encode_frame. change (match m with MData _ => _ | _ => _ end) with (encode_message m (if hasLength m then writeU32 0 new_writer else new_writer)).
  destruct (encode_message_total m (if hasLength m then writeU32 0 new_writer else new_writer) Hs) as (w & bs & E & Hw & Hl).
  cbn zeta. rewrite E.
  cbn [mbind result_bind]. destruct (hasLength m).
  - rewrite writeU32_law, written_new in Hw. cbn [app] in Hw. rewrite (position_law (writeU32 _ _)), writeU32_law, written_new. cbn [app].
    rewrite length_le_split. change (Z.of_nat 4 - 4) with 0. edestruct (performAtU32_law 0) as (w' & -> & Hw'); [lia| |].
    { rewrite Hw. len_lia. }
    exists w'. split; [done|]. rewrite Hw', Hw. unfold patch. rewrite !length_app, !Nat2Z.inj_add, !length_le_split, len_ztake_max, len_zdrop_max. len_lia.
  - rewrite written_new in Hw. exists w. rewrite Hw. split; [done|]. cbn [app]. lia.
Qed.
End Encoding.

(** ** The promise
    [sendAll] does not throw and keeps the stream fit for the next call, if there
    is room for what is sent. *)
Class StreamingSends (St : Type) {SO : Streaming St} {SL : StreamingLaws St} := {
  st_room : Z -> St -> Prop;
  st_room_le n k s : n <= k -> st_room k s -> st_room n s;
  st_send_law data : triple (fun s => st_ok s /\ st_room (len data) s) (st_sendAll data) (fun _ => st_ok) st_ok;
}.

#[export] Instance tcp_streaming_sends : StreamingSends ByteStream.
Proof.
  refine {| st_room _ _ := True |}; [done|]. intros data s [Hs _]. cbn. unfold stream_sendAll. by destruct (st_errors s) as [|[]].
Defined.

Section Calls.
Context {T : TimeLib} {CL : CompressionLib} {C : CircularBuffer} {CLaws : CircularBufferLaws C} `{WL : ByteWriterLaws, RL : ByteReaderLaws}.
Context {St : Type} {SO : Streaming St} {SL : StreamingLaws St} {SS : StreamingSends St}.
Abbreviation Layer := (StreamLayer St).

(** There is room for a message with [n] bytes and its headers. *)
Definition layer_room (n : Z) (s : Layer) : Prop := st_room (n + 38) (sp_stream s).

Lemma layer_in_base {A} (m : ST BaseTransport A) : returns m -> safe layer_ok (in_base m).
Proof. intros Hm. apply safe_returns; [by apply returns_focus|]. by apply preserves_focus. Qed.

Lemma layer_send_safe now m : sendable m = true ->
  triple (fun s : Layer => layer_ok s /\ layer_room (body_size m) s) (streamcommon_sendMessage now m) (fun _ => layer_ok) layer_ok.
Proof.
  intros Hm. unfold streamcommon_sendMessage. destruct (encode_frame_total m Hm) as (w & -> & Hl).
  intros s [[Hs Hb] Hr]. erewrite bind_run by reflexivity. revert s Hs Hb Hr.
  assert (triple (fun s : Layer => layer_ok s /\ layer_room (body_size m) s)
    (_ ← in_stream (st_sendAll (written w)); in_base (modify (set_tracker (onUpPacket now (len (written w)))))) (fun _ => layer_ok) layer_ok) as H.
  { apply triple_bind with (Q := fun _ => layer_ok); [|intros _; by apply layer_in_base].
    apply triple_focus. intros s [[Hs Hb] Hr] st <-. apply (st_room_le _ _ _ Hl) in Hr.
    pose proof (st_send_law (written w) (sp_stream s) (conj Hs Hr)) as H.
    by destruct (st_sendAll (written w) (sp_stream s)) as [[a|e|[]] st]. }
  intros s Hs Hb Hr. by apply H.
Qed.

Lemma base_timer_returns : returns BaseTransport_handleTimerExpiry.
Proof. unfold BaseTransport_handleTimerExpiry. returns_auto. Qed.
End Calls.

(** ** TCP *)
Section Tcp.
Context {T : TimeLib} {CL : CompressionLib} {C : CircularBuffer} {CLaws : CircularBufferLaws C} `{WL : ByteWriterLaws, RL : ByteReaderLaws}.

Definition tcp_ok (t : TcpTransport) : Prop := layer_ok (tcp_common t).

Lemma tcp_common_safe {A} (m : ST StreamTransport A) : safe layer_ok m -> safe tcp_ok (in_common m).
Proof. by apply safe_focus. Qed.

Lemma touch_sendable now now_ns m b b' m' : touch now now_ns m b = (Ok m', b') -> sendable m = true -> sendable m' = true.
Proof. unfold touch. erewrite bind_run by reflexivity. by destruct m; intros [= <- _]. Qed.
Lemma touch_returns now now_ns m : returns (touch now now_ns m).
Proof. unfold touch. returns_auto. Qed.

Lemma tcp_send_safe now now_ns m : sendable m = true -> safe tcp_ok (Tcp_sendMessage now now_ns m).
Proof.
  intros Hm. unfold Tcp_sendMessage. apply safe_yields with (Q := fun m => sendable m = true).
  - apply tcp_common_safe, layer_in_base, touch_returns.
  - intros t Ht. unfold in_common, in_base, focus. destruct (touch now now_ns m _) as [res b] eqn:E. split; [exact Ht|].
    cbn. intros m' ->. by eapply touch_sendable.
  - intros m' Hm'. apply tcp_common_safe. intros s Hs. by apply (layer_send_safe now m' Hm').
Qed.

Lemma tcp_timer_safe now now_ns : safe tcp_ok (Tcp_handleTimerExpiry now now_ns).
Proof.
  unfold Tcp_handleTimerExpiry, Tcp_send. apply safe_bind; [apply tcp_common_safe, layer_in_base, base_timer_returns|]. intros _.
  apply safe_bind; [by apply tcp_send_safe|]. intros _. apply safe_bind; [by apply safe_lift|]. intros h.
  by apply tcp_common_safe, layer_in_base.
Qed.

Lemma tcp_close_safe shutdown : is_fault shutdown = false -> safe tcp_ok (Tcp_closeSync shutdown).
Proof. intros Hf. apply safe_bind; [by apply safe_lift|]. intros _ t Ht. exact Ht. Qed.
End Tcp.

(** ** WebSocket *)
Section WebSocket.
Context {T : TimeLib} {CL : CompressionLib} `{WL : ByteWriterLaws, RL : ByteReaderLaws}.

(** An empty binary message throws ([Ws.ws_empty_message_throws]). *)
Definition not_empty (m : list Z + WsMessage) : Prop := match m with inr (WsBinary data) => data <> [] | _ => True end.
Definition ws_ok (t : WsTransport) : Prop := Forall not_empty (ws_incoming (wt_ws t)).

Lemma ws_base_safe {A} (m : ST BaseTransport A) : returns m -> safe ws_ok (ws_in_base m).
Proof. intros Hm. apply safe_returns; [by apply returns_focus|]. by apply preserves_focus. Qed.
Lemma ws_client_safe {A} (m : ST WsClient A) : returns m -> keeps ws_incoming m -> safe ws_ok (in_client m).
Proof.
  intros Hm Hk. apply safe_returns; [by apply returns_focus|]. intros t Ht. unfold in_client, focus. specialize (Hk (wt_ws t)).
  destruct (m (wt_ws t)) as [res c]. unfold ws_ok. cbn in *. by rewrite Hk.
Qed.

Lemma ws_send_safe now now_ns m : sendable m = true -> safe ws_ok (Ws_sendMessage now now_ns m).
Proof.
  intros Hm. unfold Ws_sendMessage. apply safe_yields with (Q := fun m => sendable m = true).
  - apply ws_base_safe, touch_returns.
  - intros t Ht. unfold ws_in_base, focus. destruct (touch now now_ns m _) as [res b] eqn:E. split; [exact Ht|].
    cbn. intros m' ->. by eapply touch_sendable.
  - intros m' Hm'. change (match m' with MData _ => _ | _ => _ end) with (encode_message m' new_writer).
    destruct (encode_message_total m' new_writer Hm') as (w & bs & -> & _). apply safe_bind; [by apply safe_lift|].
    intros w'. cbn zeta. apply safe_bind; [|intros _; by apply ws_base_safe].
    apply ws_client_safe; intros c; unfold ws_send; by destruct (ws_errors c) as [|[]].
Qed.

Lemma ws_receive_safe now : safe ws_ok (Ws_receiveMessage now).
Proof.
  unfold Ws_receiveMessage. eapply triple_bind with (Q := fun m t => ws_ok t /\ not_empty (inr m)).
  - intros t Ht. unfold in_client, focus, ws_recv, ws_ok in *. destruct (ws_incoming (wt_ws t)) as [|m ms] eqn:E; cbn.
    + by rewrite E.
    + apply Forall_cons in Ht as [Hm Hms]. by destruct m as [e|m].
  - intros m t [Ht Hm]. revert t Ht. fold (safe ws_ok (match m with
      | WsClose code reason => throw (TE_Ws (close_text code reason))
      | WsText _ => custom UnexpectedMessage
      | WsBinary data =>
          meta ← lift (decode_error (decodeMeta data false false));
          if negb (mm_type meta =? MSG_DATA) then
            msg ← lift (decode_error (decodeWithMeta meta));
            header ← lift (match data with b :: _ => Ok b | [] => Fault OutOfBounds end);
            _ ← ws_in_base (modify (set_tracker (Stats.onDownMessage now header (len data) None zero None)));
            mret msg
          else ws_in_base (decodePreFinalDataMessage now meta)
      end)). destruct m as [data|data|code reason]; [|apply safe_throw..].
    eapply safe_yields with (Q := fun meta => comp_ok (mm_compressionHeader meta)).
    + apply safe_lift. unfold decode_error. rewrite map_err_fault. by apply decodeMeta_total.
    + apply yields_lift. intros meta Hmeta. unfold decode_error in Hmeta. apply map_err_ok in Hmeta. by eapply decodeMeta_comp.
    + intros meta Hc. destruct (negb _).
      * apply safe_bind; [apply safe_lift; unfold decode_error; rewrite map_err_fault; apply decodeWithMeta_total|]. intros msg.
        apply safe_bind; [apply safe_lift; by destruct data|]. intros h. apply safe_bind; [by apply ws_base_safe|]. intros _. apply safe_ret.
      * apply ws_base_safe. intros b. by apply decodePreFinal_total.
Qed.

Lemma ws_timer_safe now now_ns : safe ws_ok (Ws_handleTimerExpiry now now_ns).
Proof.
  unfold Ws_handleTimerExpiry, Ws_send. apply safe_bind; [apply ws_base_safe, base_timer_returns|]. intros _.
  apply safe_bind; [by apply ws_send_safe|]. intros _. apply safe_bind; [by apply safe_lift|]. intros h. by apply ws_base_safe.
Qed.

Lemma ws_close_safe : safe ws_ok Ws_close.
Proof.
  unfold Ws_close. apply safe_read. intros t _. apply safe_when. apply ws_client_safe; intros c; [|done].
  unfold ws_close. by destruct (ws_closing c) as [[]].
Qed.
End WebSocket.
