(* ===== verification/Url.v ===== *)
(** * UrlParser

    [src/UrlParser.hpp], and the connection types of
    [include/qunet/socket/Socket.hpp]: the protocol, the address, the port and
    the path of the URL given to [connect] and [ping].  The parsers of IP
    addresses are those of the socket library, and parameters. *)
From S2P Require Import Prelude Messages.

Inductive ConnectionType := Unknown | Tcp | Udp | Quic | WebSocket | WebSocketTls.
#[export] Instance ConnectionType_eq_dec : EqDecision ConnectionType.
Proof. solve_decision. Defined.

Definition defaultPort (type : ConnectionType) : Z :=
  match type with WebSocket => 80 | WebSocketTls => 443 | _ => DEFAULT_PORT end.

Inductive UrlParseError := Success | InvalidProtocol | InvalidPort.

(** ** Searching in strings *)
Fixpoint find (pattern s : list Z) : option Z :=
  if bool_decide (take (length pattern) s = pattern) then Some 0
  else match s with
       | [] => None
       | _ :: s => Z.succ <$> find pattern s
       end.

Fixpoint find_last_of (c : Z) (s : list Z) : option Z :=
  match s with
  | [] => None
  | x :: s =>
      match find_last_of c s with
      | Some i => Some (Z.succ i)
      | None => if x =? c then Some 0 else None
      end
  end.

Definition is_digit (c : Z) : bool := (48 <=? c) && (c <=? 57).

(** The digits at the front of a string. *)
Fixpoint leading_digits (s : list Z) : list Z :=
  match s with
  | c :: s => if is_digit c then c :: leading_digits s else []
  | [] => []
  end.

(** [std::from_chars] to a [uint16_t]: what follows the digits is left. *)
Definition from_chars_u16 (s : list Z) : option Z :=
  match leading_digits s with
  | [] => None
  | ds =>
      let n := foldl (fun n c => n * 10 + (c - 48)) 0 ds in
      if n <? 65536 then Some n else None
  end.

Section Parser.
Context {IpAddress : Type}.
(** [qsox::Ipv6Address::parse] succeeds; [qsox::IpAddress::parse] *)
Variable Ipv6Address_parse : list Z -> bool.
Variable IpAddress_parse : list Z -> option IpAddress.

(** The alternatives of [m_value]. *)
Inductive UrlValue :=
  | SocketAddress (address : IpAddress) (port : Z)
  | Ip (address : IpAddress)
  | Domain (name : list Z)
  | DomainWithPort (name : list Z) (port : Z).

Record UrlParser := {
  up_url : list Z;
  up_path : list Z;
  up_proto : option ConnectionType;
  up_result : UrlParseError;
  up_value : option UrlValue;
}.

Definition protocol_of (proto : list Z) : option ConnectionType :=
  if bool_decide (proto = str "udp") then Some Udp
  else if bool_decide (proto = str "tcp") then Some Tcp
  else if bool_decide (proto = str "quic") then Some Quic
  else if bool_decide (proto = str "ws") then Some WebSocket
  else if bool_decide (proto = str "wss") then Some WebSocketTls
  else if bool_decide (proto = str "qunet") then Some Unknown
  else None.

(** The protocol and what follows it. *)
Definition split_protocol (url : list Z) : option (ConnectionType * list Z) :=
  match find (str "://") url with
  | None => Some (Unknown, url)
  | Some protoEnd =>
      type ← protocol_of (ztake protoEnd url);
      Some (type, zdrop (protoEnd + 3) url)
  end.

Definition split_path (url : list Z) : list Z * list Z :=
  match find (str "/") url with
  | Some pathPos => (ztake pathPos url, zdrop pathPos url)
  | None => (url, [])
  end.

(** The position of the colon before the port.  The character before the
    colon is read whatever the position of the colon. *)
Definition port_colon {E} (url : list Z) : result E (option Z) :=
  match find_last_of 58 url with
  | None => Ok None
  | Some colonPos =>
      if colonPos =? 0 then Fault OutOfBounds
      else if bool_decide (url !! Z.to_nat (colonPos - 1) = Some 93) then Ok (Some colonPos)
      else if Ipv6Address_parse url then Ok None
      else Ok (Some colonPos)
  end.

Definition strip_brackets (url : list Z) : list Z :=
  if bool_decide (head url = Some 91) && bool_decide (last url = Some 93)
  then zdrop 1 (ztake (len url - 1) url) else url.

Definition value_of (url : list Z) (port : option Z) : UrlValue :=
  match IpAddress_parse url, port with
  | Some address, Some port => SocketAddress address port
  | Some address, None => Ip address
  | None, Some port => DomainWithPort url port
  | None, None => Domain url
  end.

Definition UrlParser_parse {E} (url : list Z) : result E UrlParser :=
  match split_protocol url with
  | None => Ok {| up_url := url; up_path := []; up_proto := None; up_result := InvalidProtocol; up_value := None |}
  | Some (type, url) =>
      let '(url, path) := split_path url in
      colon ← port_colon url;
      let parsed url port :=
        let url := strip_brackets url in
        {| up_url := url; up_path := path; up_proto := Some type; up_result := Success;
           up_value := Some (value_of url port) |} in
      match colon with
      | None => Ok (parsed url None)
      | Some colonPos =>
          let portStr := zdrop (colonPos + 1) url in
          match from_chars_u16 portStr with
          | None => Ok {| up_url := url; up_path := path; up_proto := Some type; up_result := InvalidPort;
                          up_value := None |}
          | Some port => Ok (parsed (ztake (len url - (len portStr + 1)) url) (Some port))
          end
      end
  end.

(** ** The members *)
Definition isIpWithPort (p : UrlParser) : bool :=
  match up_value p with Some (SocketAddress _ _) => true | _ => false end.
Definition isIp (p : UrlParser) : bool :=
  match up_value p with Some (Ip _) => true | _ => false end.
Definition isDomain (p : UrlParser) : bool :=
  match up_value p with Some (Domain _) => true | _ => false end.
Definition isDomainWithPort (p : UrlParser) : bool :=
  match up_value p with Some (DomainWithPort _ _) => true | _ => false end.
End Parser.
Arguments UrlValue : clear implicits.
Arguments UrlParser : clear implicits.

(** ** Parsing what is printed *)
Section RoundTrip.
Context {IpAddress : Type}.
Variable Ipv6_parse : list Z -> bool.
Variable Ip_parse : list Z -> option IpAddress.

(** The text of an IPv6 address has two colons at least. *)
Hypothesis ipv6_colons : forall s, Ipv6_parse s = true -> exists a b c, s = a ++ 58 :: b ++ 58 :: c.

(** The decimal digits of a 16-bit number. *)
Fixpoint decimal (fuel : nat) (n : Z) : list Z :=
  match fuel with
  | O => []
  | S fuel => (if n <? 10 then [] else decimal fuel (n / 10)) ++ [48 + n mod 10]
  end.
Definition port_text (port : Z) : list Z := decimal 5 port.

Lemma decimal_spec fuel n :
  0 <= n < 10 ^ Z.of_nat (S fuel) ->
  let ds := decimal (S fuel) n in
  ds <> [] /\ Forall (fun c => is_digit c = true) ds /\ foldl (fun n c => n * 10 + (c - 48)) 0 ds = n.
Proof.
  assert (Hdigit : forall n, is_digit (48 + n mod 10) = true).
  { intros k. pose proof (Z.mod_pos_bound k 10 eq_refl). apply andb_true_iff. split; apply Z.leb_le; lia. }
  revert n. induction fuel as [|fuel IH]; intros n Hn; cbn zeta.
  - change (10 ^ Z.of_nat 1) with 10 in Hn. cbn [decimal]. rewrite (proj2 (Z.ltb_lt _ _)) by lia. cbn [app foldl].
    split; [done|]. split; [by repeat constructor|]. rewrite Z.mod_small; lia.
  - set (k := S fuel) in *. cbn [decimal]. destruct (Z.ltb_spec n 10).
    { cbn [app foldl]. split; [done|]. split; [by repeat constructor|]. rewrite Z.mod_small; lia. }
    destruct (IH (n / 10)) as (_ & Hd & Hv).
    { rewrite Nat2Z.inj_succ, Z.pow_succ_r in Hn by lia. split; [apply Z.div_pos; lia|apply Z.div_lt_upper_bound; lia]. }
    split; [by destruct (decimal k (n / 10))|]. split; [apply Forall_app; by repeat constructor|].
    rewrite foldl_app, Hv. cbn [foldl]. pose proof (Z.div_mod n 10). lia.
Qed.

Lemma port_text_ok port :
  u16_ok port -> from_chars_u16 (port_text port) = Some port /\ Forall (fun c => is_digit c = true) (port_text port).
Proof.
  intros Hp. unfold u16_ok in Hp. destruct (decimal_spec 4 port) as (Hne & Hd & Hv); [lia|].
  fold (port_text port) in *. split; [|done]. unfold from_chars_u16.
  assert (leading_digits (port_text port) = port_text port) as ->.
  { clear Hne Hv. induction Hd as [|c l Hc _ IH]; cbn; [done|]. by rewrite Hc, IH. }
  destruct (port_text port); [done|]. rewrite Hv. by rewrite (proj2 (Z.ltb_lt _ _)) by lia.
Qed.

Lemma find_char_app c a b : c ∉ a -> find [c] (a ++ c :: b) = Some (len a).
Proof.
  induction a as [|x a IH]; intros Hc; cbn [app find length take]; [by rewrite bool_decide_true|].
  apply not_elem_of_cons in Hc as [Hx Hc]. rewrite bool_decide_false by congruence.
  rewrite IH by done. cbn. f_equal. lia.
Qed.

Lemma find_char_none c a : c ∉ a -> find [c] a = None.
Proof.
  induction a as [|x a IH]; intros Hc; cbn [find length take]; [by rewrite bool_decide_false|].
  apply not_elem_of_cons in Hc as [Hx Hc]. rewrite bool_decide_false by congruence. by rewrite IH.
Qed.

Lemma find_last_of_none c a : c ∉ a -> find_last_of c a = None.
Proof.
  induction a as [|x a IH]; intros Hc; cbn; [done|]. apply not_elem_of_cons in Hc as [Hx Hc].
  rewrite IH by done. by rewrite (proj2 (Z.eqb_neq _ _)).
Qed.

Lemma find_last_of_app c a b : c ∉ b -> find_last_of c (a ++ c :: b) = Some (len a).
Proof.
  intros Hb. induction a as [|x a IH]; cbn [app find_last_of length].
  - by rewrite find_last_of_none, Z.eqb_refl.
  - rewrite IH. f_equal. lia.
Qed.

(** The ways to write an address: a name or an IPv4 address, an IPv6 address,
    or an IPv6 address in brackets, which a port needs. *)
Inductive host := Plain (text : list Z) | Ipv6 (text : list Z) | Bracketed (text : list Z).

Definition host_text (h : host) : list Z :=
  match h with Plain text | Ipv6 text | Bracketed text => text end.
Definition host_bytes (h : host) (port : option Z) : list Z :=
  match h, port with
  | Bracketed text, Some port => [91] ++ text ++ [93; 58] ++ port_text port
  | h, Some port => host_text h ++ [58] ++ port_text port
  | h, None => host_text h
  end.

Definition scheme (type : ConnectionType) : list Z :=
  match type with
  | Udp => str "udp" | Tcp => str "tcp" | Quic => str "quic" | WebSocket => str "ws" | WebSocketTls => str "wss"
  | Unknown => str "qunet"
  end.

Definition url_of (type : ConnectionType) (h : host) (port : option Z) (path : list Z) : list Z :=
  scheme type ++ str "://" ++ host_bytes h port ++ path.

(** A name has no colon and is not empty; an IPv6 address is one, and has a
    port only in brackets; a path begins with a slash. *)
Definition wf_host (h : host) (port : option Z) : Prop :=
  47 ∉ host_text h /\ 91 ∉ host_text h /\ 93 ∉ host_text h /\
  match h with
  | Plain text => 58 ∉ text /\ text <> []
  | Ipv6 text => Ipv6_parse text = true /\ port = None
  | Bracketed text => is_Some port
  end.
Definition wf_path (path : list Z) : Prop := path = [] \/ exists tl, path = 47 :: tl.

Lemma split_protocol_url type rest : split_protocol (scheme type ++ str "://" ++ rest) = Some (type, rest).
Proof. destruct type; reflexivity. Qed.

Lemma split_path_url a path : 47 ∉ a -> wf_path path -> split_path (a ++ path) = (a, path).
Proof.
  intros Ha [->|[tl ->]]; unfold split_path; change (str "/") with [47].
  - by rewrite app_nil_r, find_char_none.
  - rewrite find_char_app by done. by rewrite ztake_app, zdrop_app.
Qed.

Lemma port_text_no c port : u16_ok port -> is_digit c = false -> c ∉ port_text port.
Proof.
  intros Hp Hc Hin. destruct (port_text_ok port Hp) as [_ Hd]. rewrite Forall_forall in Hd.
  apply Hd in Hin. congruence.
Qed.

Lemma no_brackets text : 91 ∉ text -> strip_brackets text = text.
Proof.
  intros H. unfold strip_brackets. rewrite bool_decide_false; [done|]. destruct text; [done|].
  cbn. intros [= ->]. apply H. by left.
Qed.
Lemma find_last_of_ge c a b : exists i, find_last_of c (a ++ c :: b) = Some i /\ len a <= i < len (a ++ c :: b).
Proof.
  induction a as [|x a (i & IH & Hi)]; cbn [app find_last_of length].
  - destruct (find_last_of c b) as [i|] eqn:E; [|rewrite Z.eqb_refl; exists 0; split; [done|lia]].
    exists (Z.succ i). split; [done|]. revert i E. induction b as [|y b IH]; intros i E; [done|]. cbn in E.
    destruct (find_last_of c b) as [j|]; [injection E as <-; specialize (IH _ eq_refl); cbn [length]; lia|].
    destruct (y =? c); [|done]. injection E as <-. cbn. lia.
  - rewrite IH. exists (Z.succ i). split; [done|lia].
Qed.

Lemma one_colon text d : 58 ∉ text -> 58 ∉ d -> Ipv6_parse (text ++ 58 :: d) = false.
Proof.
  intros Ht Hd. destruct (Ipv6_parse _) eqn:E; [|done]. apply ipv6_colons in E as (a & b & c & E).
  apply (f_equal (filter (fun x => x = 58))), (f_equal length) in E.
  rewrite !filter_app, !filter_cons_True, filter_app, filter_cons_True, !length_app in E by done. cbn in E.
  rewrite length_app in E. cbn in E.
  assert (forall l, 58 ∉ l -> length (filter (fun x => x = 58) l) = 0%nat) as H0.
  { clear. induction l as [|x l IH]; intros H; [done|]. apply not_elem_of_cons in H as [H1 H2].
    rewrite filter_cons_False by congruence. by apply IH. }
  rewrite (H0 text), (H0 d) in E by done. lia.
Qed.

(** The character before the [i]-th. *)
Lemma before_colon text rest i :
  93 ∉ text -> 0 < i <= len text -> bool_decide ((text ++ rest) !! Z.to_nat (i - 1) = Some 93) = false.
Proof.
  intros H Hi. apply bool_decide_eq_false. rewrite lookup_app_l by lia.
  intros E. by apply H, list_elem_of_lookup_2 with (Z.to_nat (i - 1)).
Qed.

Lemma port_colon_url {E} h port :
  wf_host h port -> (forall p, port = Some p -> u16_ok p) ->
  port_colon (E := E) Ipv6_parse (host_bytes h port)
  = Ok (if port is Some p then Some (len (host_bytes h port) - len (port_text p) - 1) else None).
Proof.
  intros (_ & _ & H93 & Hwf) Hport. unfold port_colon. destruct h as [text|text|text]; cbn in H93.
  - destruct Hwf as [H58 Hne]. destruct port as [p|]; cbn [host_bytes host_text]; [|by rewrite find_last_of_none].
    assert (58 ∉ port_text p) as Hd by (apply port_text_no; [by apply Hport|done]).
    assert (0 < len text) by (destruct text; [done|cbn; lia]).
    cbn [app]. rewrite find_last_of_app by done. rewrite (proj2 (Z.eqb_neq _ _)) by lia.
    rewrite before_colon by (done || lia). rewrite one_colon by done.
    do 2 f_equal. len_lia.
  - destruct Hwf as [H6 ->]. cbn [host_bytes host_text]. destruct (ipv6_colons _ H6) as (a & b & c & E6).
    destruct (find_last_of_ge 58 (a ++ 58 :: b) c) as (i & Ei & Hi). rewrite <- app_assoc in Ei, Hi. cbn [app] in Ei, Hi.
    rewrite <- E6 in Ei, Hi. rewrite Ei. rewrite length_app in Hi. cbn in Hi.
    rewrite (proj2 (Z.eqb_neq _ _)) by lia.
    assert (0 < i <= len text) as Hrange by lia. pose proof (before_colon text [] i H93 Hrange) as Hb.
    rewrite app_nil_r in Hb. by rewrite Hb, H6.
  - destruct Hwf as [p ->]. cbn [host_bytes host_text].
    assert (58 ∉ port_text p) as Hd by (apply port_text_no; [by apply Hport|done]).
    assert (Eq : [91] ++ text ++ [93; 58] ++ port_text p = ([91] ++ text ++ [93]) ++ 58 :: port_text p)
      by (rewrite <- !app_assoc; done).
    rewrite Eq, find_last_of_app by done. rewrite (proj2 (Z.eqb_neq _ _)) by len_lia.
    rewrite bool_decide_true; [do 2 f_equal; len_lia|].
    assert (Z.to_nat (len ([91] ++ text ++ [93]) - 1) = length ([91] ++ text)) as -> by (rewrite !length_app; cbn [length]; lia).
    rewrite lookup_app_l by (rewrite !length_app; cbn; lia). by rewrite app_assoc, list_lookup_middle.
Qed.

Lemma host_no_slash h port : wf_host h port -> (forall p, port = Some p -> u16_ok p) -> 47 ∉ host_bytes h port.
Proof.
  intros (H47 & _) Hport. assert (forall p, port = Some p -> 47 ∉ port_text p) as Hp.
  { intros p E. apply port_text_no; [by apply Hport|done]. }
  destruct h, port as [p|]; cbn [host_bytes host_text] in *; try done; specialize (Hp _ eq_refl); set_solver.
Qed.

(** What is before the colon. *)
Lemma host_split h p :
  91 ∉ host_text h -> (forall text, h <> Ipv6 text) ->
  exists pre, host_bytes h (Some p) = pre ++ 58 :: port_text p /\ strip_brackets pre = host_text h.
Proof.
  intros H91 H6. destruct h as [text|text|text]; [|by destruct (H6 text)|].
  - exists text. split; [done|by apply no_brackets].
  - exists ((91 :: text) ++ [93]). split; [cbn; by rewrite <- app_assoc|]. unfold strip_brackets.
    rewrite last_snoc, bool_decide_true by done. rewrite bool_decide_true by done. cbn [andb].
    assert (len ((91 :: text) ++ [93]) - 1 = len (91 :: text)) as -> by (rewrite length_app; cbn [length]; lia).
    by rewrite ztake_app.
Qed.

Lemma cut_port pre ds : zdrop (len (pre ++ 58 :: ds) - len ds - 1 + 1) (pre ++ 58 :: ds) = ds.
Proof.
  replace (len (pre ++ 58 :: ds) - len ds - 1 + 1) with (len (pre ++ [58])) by (rewrite !length_app; cbn [length]; lia).
  change (pre ++ 58 :: ds) with (pre ++ [58] ++ ds). by rewrite app_assoc, zdrop_app.
Qed.

(** C35. A URL that is written from its parts is parsed to the same parts: the
    protocol, the address (in brackets or not), the port if there is one, and
    the path. *)
Theorem url_roundtrip type h port path :
  wf_host h port -> wf_path path -> (forall p, port = Some p -> u16_ok p) ->
  UrlParser_parse (E := Empty_set) Ipv6_parse Ip_parse (url_of type h port path)
  = Ok {| up_url := host_text h; up_path := path; up_proto := Some type; up_result := Success;
          up_value := Some (value_of Ip_parse (host_text h) port) |}.
Proof.
  intros Hh Hpath Hport. unfold UrlParser_parse, url_of. rewrite split_protocol_url.
  rewrite split_path_url by (done || by apply host_no_slash). rewrite port_colon_url by done. cbn [mbind result_bind].
  destruct port as [p|].
  - destruct (host_split h p) as (pre & Hpre & Hstrip).
    { by destruct Hh as (_ & ? & _). }
    { intros text ->. by destruct Hh as (_ & _ & _ & _ & ?). }
    rewrite Hpre, cut_port. cbn zeta iota.
    replace (len (pre ++ 58 :: port_text p) - (len (port_text p) + 1)) with (len pre) by (rewrite length_app; cbn [length]; lia).
    by rewrite (proj1 (port_text_ok p (Hport _ eq_refl))), ztake_app, Hstrip.
  - destruct Hh as (_ & H91 & _ & Hh). destruct h; [..|by destruct Hh];
      cbn [host_bytes host_text] in *; by rewrite no_brackets.
Qed.
End RoundTrip.

(** ** Examples

    A parser of IPv6 addresses that takes what has two colons and nothing but
    colons and hexadecimal digits, and a parser of addresses that is that one
    or takes digits and dots. *)
Fixpoint has_colons (n : nat) (s : list Z) : bool :=
  match n, s with
  | O, _ => true
  | S _, [] => false
  | S n', c :: s => if c =? 58 then has_colons n' s else has_colons n s
  end.

Lemma has_colons_split n s : has_colons (S n) s = true -> exists a b, s = a ++ 58 :: b /\ has_colons n b = true.
Proof.
  induction s as [|c s IH]; intros H; [done|]. cbn in H. destruct (Z.eqb_spec c 58) as [->|].
  - by exists [], s.
  - destruct (IH H) as (a & b & -> & Hb). by exists (c :: a), b.
Qed.

Definition hex (c : Z) : bool := is_digit c || (97 <=? c) && (c <=? 102).
Definition example_ipv6 (s : list Z) : bool := has_colons 2 s && forallb (fun c => hex c || (c =? 58)) s.
Definition example_ip (s : list Z) : option (list Z) :=
  if example_ipv6 s || forallb (fun c => is_digit c || (c =? 46)) s then Some s else None.

Lemma example_ipv6_colons s : example_ipv6 s = true -> exists a b c, s = a ++ 58 :: b ++ 58 :: c.
Proof.
  intros [H _]%andb_true_iff. apply has_colons_split in H as (a & s' & -> & H).
  apply has_colons_split in H as (b & c & -> & _). by exists a, b, c.
Qed.

Definition example_parse (url : string) : result Empty_set (UrlParser (list Z)) :=
  UrlParser_parse example_ipv6 example_ip (str url).

(** [wss://[fe80::1]:4340/a] *)
Lemma url_roundtrip_witness :
  example_parse "wss://[fe80::1]:4340/a"
  = Ok {| up_url := str "fe80::1"; up_path := str "/a"; up_proto := Some WebSocketTls; up_result := Success;
          up_value := Some (SocketAddress (str "fe80::1") 4340) |}.
Proof.
  apply (url_roundtrip example_ipv6 example_ip example_ipv6_colons WebSocketTls (Bracketed (str "fe80::1")) (Some 4340)
           (str "/a")).
  - assert (forall c, forallb (fun x => negb (x =? c)) (str "fe80::1") = true -> c ∉ str "fe80::1") as H.
    { intros c H Hin. rewrite forallb_forall in H. apply list_elem_of_In, H in Hin. by rewrite Z.eqb_refl in Hin. }
    split_and!; [by apply H..|by eexists].
  - right. by eexists.
  - intros p [= <-]. unfold u16_ok. lia.
Defined.

(** A bracketed address without a port is cut at its last colon. *)
Example bracketed_without_port :
  up_value <$> example_parse "udp://[::1]" = Ok (Some (DomainWithPort (str "[:") 1)).
Proof. reflexivity. Qed.

(** What follows the digits of a port is dropped. *)
Example port_with_rest : up_value <$> example_parse "tcp://host:80x" = Ok (Some (DomainWithPort (str "host") 80)).
Proof. reflexivity. Qed.

(** An empty host: the character before the colon is out of bounds. *)
Example empty_host : example_parse "tcp://:80" = Fault OutOfBounds.
Proof. reflexivity. Qed.

Example port_too_large : up_result <$> example_parse "quic://host:65536" = Ok InvalidPort.
Proof. reflexivity. Qed.

Example unknown_protocol : up_result <$> example_parse "http://host" = Ok InvalidProtocol.
Proof. reflexivity. Qed.
