(* ===== verification/Address.v ===== *)
(** * Socket addresses, as an interface

    [qsox::IpAddress] and [qsox::SocketAddress] are types of a package that the
    build fetches.  The source builds an address from an IP address and a port,
    reads the family, the bits of an IPv4 address and the octets of an IPv6
    address, and sets the port.  An address is determined by these. *)
From S2P Require Import Prelude.

Class AddressLib := {
  ip : Type;
  address : Type;
  address_eq_dec :: EqDecision address;
  mk_address : ip -> Z -> address;
  addr_isV6 : address -> bool;
  (** [ip().asV4().toBits()] *)
  addr_bits : address -> Z;
  (** [ip().asV6().octets()] *)
  addr_octets : address -> list Z;
  addr_port : address -> Z;
  addr_setPort : Z -> address -> address;
  addr_toString : address -> list Z;
}.

Class AddressLaws (A : AddressLib) := {
  address_ext a b :
    addr_isV6 a = addr_isV6 b -> (addr_isV6 a = false -> addr_bits a = addr_bits b) ->
    (addr_isV6 a = true -> addr_octets a = addr_octets b) -> addr_port a = addr_port b -> a = b;
  addr_port_mk i p : addr_port (mk_address i p) = p;
}.

(** ** IPv4 addresses as their bits, IPv6 addresses as their octets *)
Record simple_address := { sa_ip : Z + list Z; sa_port : Z }.
#[export] Instance simple_address_eq_dec : EqDecision simple_address.
Proof. solve_decision. Defined.

#[export] Instance simple_addresses : AddressLib := {|
  ip := Z + list Z;
  address := simple_address;
  mk_address i p := {| sa_ip := i; sa_port := p |};
  addr_isV6 a := match sa_ip a with inl _ => false | inr _ => true end;
  addr_bits a := match sa_ip a with inl bits => bits | inr _ => 0 end;
  addr_octets a := match sa_ip a with inl _ => [] | inr octets => octets end;
  addr_port := sa_port;
  addr_setPort p a := {| sa_ip := sa_ip a; sa_port := p |};
  addr_toString a := match sa_ip a with inl bits => [bits] | inr octets => octets end ++ [sa_port a];
|}.

#[export] Instance simple_address_laws : AddressLaws simple_addresses.
Proof.
  split; [|done]. intros [[b|o] p] [[b'|o'] p']; cbn; intros; simplify_eq; try done.
  - by rewrite H0.
  - by rewrite H1.
Qed.
