(* ===== verification/Socket.v ===== *)
(** * Socket

    [include/qunet/socket/Socket.hpp], [src/socket/Socket.cpp]: connecting and
    reconnecting a transport, the compression of outgoing messages, and the
    calls that are forwarded to the transport.  The virtual methods of
    [BaseTransport] are a class of types, with the transports over UDP, TCP and
    WebSocket as instances; the transport over QUIC is a parameter. *)
From S2P Require Import Prelude Dbuf Messages Codec Time Errors Effects Stats Compress Database Transport.
From S2P Require Import Udp Stream Ws Address Url.

(** What a call reads from its surroundings: the clock, the steady clock in
    nanoseconds, the order in which the hash map of fragments is walked, and the
    turns of the loop of a handshake until its time is over. *)
Record Clock {T : TimeLib} := {
  ck_now : instant;
  ck_ns : Z;
  ck_order : list Z;
  ck_turns : list (instant * poll_result);
}.

(** ** The virtual methods of a transport *)
Class VirtualTransport {T : TimeLib} {CL : CompressionLib} (X : Type) := {
  tr_base : X -> BaseTransport;
  tr_set_base : BaseTransport -> X -> X;
  tr_sendMessage : Clock -> QunetMessage -> SentMessageContext -> ST X SentMessageContext;
  tr_receiveMessage : Clock -> ST X QunetMessage;
  tr_performHandshake : Clock -> HandshakeStartMessage -> ST X QunetMessage;
  tr_performReconnect : Clock -> Z -> ST X QunetMessage;
  tr_untilTimerExpiry : Clock -> X -> duration;
  tr_handleTimerExpiry : Clock -> ST X unit;
  tr_close : ST X unit;
  tr_closeSync : ST X unit;
  tr_isClosed : X -> bool;
  tr_updateLatency : duration -> X -> X;
}.

Section Defaults.
Context {T : TimeLib} {CL : CompressionLib} {X : Type}.
Variable base : X -> BaseTransport.
Variable set_base : BaseTransport -> X -> X.
Variable sendMessage : Clock -> QunetMessage -> SentMessageContext -> ST X SentMessageContext.
Variable receiveMessage : Clock -> ST X QunetMessage.

(** [sendMessage(data, reliable)] *)
Definition BaseTransport_sendMessage (ck : Clock) (data : QunetMessage) (reliable : bool) : ST X unit :=
  ctx ← sendMessage ck data (new_context reliable);
  hbyte ← lift (headerByte data);
  focus base set_base (modify (logOutgoingMessage (ck_now ck) hbyte ctx)).

Definition BaseTransport_performHandshake (ck : Clock) (handshakeStart : HandshakeStartMessage) : ST X QunetMessage :=
  _ ← BaseTransport_sendMessage ck (MHandshakeStart handshakeStart) true;
  receiveMessage ck.

Definition BaseTransport_performReconnect (ck : Clock) (connectionId : Z) : ST X QunetMessage :=
  _ ← BaseTransport_sendMessage ck (MClientReconnect {| cr_connectionId := connectionId |}) true;
  receiveMessage ck.
End Defaults.

(** A transport without its own [updateLatency]. *)
Definition default_updateLatency {T : TimeLib} {CL : CompressionLib} {X} (base : X -> BaseTransport)
    (set_base : BaseTransport -> X -> X) (rtt : duration) (x : X) : X :=
  set_base (BaseTransport_updateLatency rtt (base x)) x.

Section Instances.
Context {T : TimeLib} {CL : CompressionLib} {C : CircularBuffer} `{W : ByteWriter} `{R : ByteReader}.
Variable millis_float : duration -> SpecFloat.spec_float.
Variable fromMillis_float : SpecFloat.spec_float -> duration.

Definition Udp_receive (ck : Clock) : ST UdpTransport QunetMessage := Udp.receiveMessage (ck_now ck) (ck_order ck).
Definition Udp_send (ck : Clock) : QunetMessage -> SentMessageContext -> ST UdpTransport SentMessageContext :=
  Udp.sendMessage (ck_now ck) (ck_ns ck).

Definition udp_transport : VirtualTransport UdpTransport := {|
  tr_base := ut_base;
  tr_set_base := Udp.set_base;
  tr_sendMessage := Udp_send;
  tr_receiveMessage := Udp_receive;
  tr_performHandshake ck := Udp.performHandshake (ck_now ck) (ck_turns ck) (ck_ns ck) (ck_order ck);
  tr_performReconnect := BaseTransport_performReconnect ut_base Udp.set_base Udp_send Udp_receive;
  tr_untilTimerExpiry ck := Udp.untilTimerExpiry millis_float fromMillis_float (ck_now ck);
  tr_handleTimerExpiry ck := Udp.handleTimerExpiry millis_float fromMillis_float (ck_now ck) (ck_ns ck);
  tr_close := Udp.closeSync;
  tr_closeSync := Udp.closeSync;
  tr_isClosed := Udp.isClosed;
  tr_updateLatency := Udp.updateLatency;
|}.

(** [shutdown] is what the TCP socket answers. *)
Variable shutdown : TransportResult unit.

Definition tcp_base (t : TcpTransport) : BaseTransport := sp_base (tcp_common t).
Definition tcp_set_base (b : BaseTransport) (t : TcpTransport) : TcpTransport :=
  set_common (Stream.set_base b (tcp_common t)) t.
(** The stream transports leave the context as it is. *)
Definition Tcp_sendCtx (ck : Clock) (message : QunetMessage) (ctx : SentMessageContext) : ST TcpTransport SentMessageContext :=
  _ ← Tcp_sendMessage (ck_now ck) (ck_ns ck) message; mret ctx.
Definition Tcp_receive (ck : Clock) : ST TcpTransport QunetMessage := Tcp_receiveMessage (ck_now ck).

Definition tcp_transport : VirtualTransport TcpTransport := {|
  tr_base := tcp_base;
  tr_set_base := tcp_set_base;
  tr_sendMessage := Tcp_sendCtx;
  tr_receiveMessage := Tcp_receive;
  tr_performHandshake := BaseTransport_performHandshake tcp_base tcp_set_base Tcp_sendCtx Tcp_receive;
  tr_performReconnect := BaseTransport_performReconnect tcp_base tcp_set_base Tcp_sendCtx Tcp_receive;
  tr_untilTimerExpiry ck := Tcp_untilTimerExpiry (ck_now ck);
  tr_handleTimerExpiry ck := Tcp_handleTimerExpiry (ck_now ck) (ck_ns ck);
  tr_close := Tcp_closeSync shutdown;
  tr_closeSync := Tcp_closeSync shutdown;
  tr_isClosed := Tcp_isClosed;
  tr_updateLatency := default_updateLatency tcp_base tcp_set_base;
|}.

Definition ws_set_base (b : BaseTransport) (t : WsTransport) : WsTransport :=
  {| wt_base := b; wt_ws := wt_ws t; wt_activeKeepaliveInterval := wt_activeKeepaliveInterval t |}.
Definition Ws_sendCtx (ck : Clock) (message : QunetMessage) (ctx : SentMessageContext) : ST WsTransport SentMessageContext :=
  _ ← Ws_sendMessage (ck_now ck) (ck_ns ck) message; mret ctx.
Definition Ws_receive (ck : Clock) : ST WsTransport QunetMessage := Ws_receiveMessage (ck_now ck).

Definition ws_transport : VirtualTransport WsTransport := {|
  tr_base := wt_base;
  tr_set_base := ws_set_base;
  tr_sendMessage := Ws_sendCtx;
  tr_receiveMessage := Ws_receive;
  tr_performHandshake := BaseTransport_performHandshake wt_base ws_set_base Ws_sendCtx Ws_receive;
  tr_performReconnect := BaseTransport_performReconnect wt_base ws_set_base Ws_sendCtx Ws_receive;
  tr_untilTimerExpiry ck := Ws_untilTimerExpiry (ck_now ck);
  tr_handleTimerExpiry ck := Ws_handleTimerExpiry (ck_now ck) (ck_ns ck);
  tr_close := Ws_close;
  tr_closeSync := Ws_close;
  tr_isClosed := Ws_isClosed;
  tr_updateLatency := default_updateLatency wt_base ws_set_base;
|}.
End Instances.

(** ** Any of them
    [std::shared_ptr<BaseTransport>]: the object has one of the types. *)
Inductive AnyTransport {T : TimeLib} {CL : CompressionLib} {C : CircularBuffer} (Q : Type) :=
  | AUdp (t : UdpTransport)
  | ATcp (t : TcpTransport)
  | AQuic (t : Q)
  | AWs (t : WsTransport).
Arguments AUdp {T CL C Q} t.
Arguments ATcp {T CL C Q} t.
Arguments AQuic {T CL C Q} t.
Arguments AWs {T CL C Q} t.

Section Any.
Context {T : TimeLib} {CL : CompressionLib} {C : CircularBuffer} {Q : Type}.
Context (VU : VirtualTransport UdpTransport) (VT : VirtualTransport TcpTransport).
Context (VQ : VirtualTransport Q) (VW : VirtualTransport WsTransport).

(** The call goes to the type of the object. *)
Definition dispatch {A} (f : forall X, VirtualTransport X -> ST X A) : ST (AnyTransport Q) A := fun t =>
  match t with
  | AUdp t => let '(res, t) := f _ VU t in (res, AUdp t)
  | ATcp t => let '(res, t) := f _ VT t in (res, ATcp t)
  | AQuic t => let '(res, t) := f _ VQ t in (res, AQuic t)
  | AWs t => let '(res, t) := f _ VW t in (res, AWs t)
  end.
Definition observe {A} (f : forall X, VirtualTransport X -> X -> A) (t : AnyTransport Q) : A :=
  match t with
  | AUdp t => f _ VU t
  | ATcp t => f _ VT t
  | AQuic t => f _ VQ t
  | AWs t => f _ VW t
  end.
Definition change (f : forall X, VirtualTransport X -> X -> X) (t : AnyTransport Q) : AnyTransport Q :=
  match t with
  | AUdp t => AUdp (f _ VU t)
  | ATcp t => ATcp (f _ VT t)
  | AQuic t => AQuic (f _ VQ t)
  | AWs t => AWs (f _ VW t)
  end.

Definition any_transport : VirtualTransport (AnyTransport Q) := {|
  tr_base := observe (fun _ _ => tr_base);
  tr_set_base b := change (fun _ _ => tr_set_base b);
  tr_sendMessage ck m ctx := dispatch (fun _ _ => tr_sendMessage ck m ctx);
  tr_receiveMessage ck := dispatch (fun _ _ => tr_receiveMessage ck);
  tr_performHandshake ck m := dispatch (fun _ _ => tr_performHandshake ck m);
  tr_performReconnect ck id := dispatch (fun _ _ => tr_performReconnect ck id);
  tr_untilTimerExpiry ck := observe (fun _ _ => tr_untilTimerExpiry ck);
  tr_handleTimerExpiry ck := dispatch (fun _ _ => tr_handleTimerExpiry ck);
  tr_close := dispatch (fun _ _ => tr_close);
  tr_closeSync := dispatch (fun _ _ => tr_closeSync);
  tr_isClosed := observe (fun _ _ => tr_isClosed);
  tr_updateLatency rtt := change (fun _ _ => tr_updateLatency rtt);
|}.
End Any.

(** ** Options *)
Record ConnectionDebugOptions := {
  cd_verboseSsl : bool;
  cd_verboseQuic : bool;
  cd_recordStats : bool;
  cd_packetLossSimulation : SpecFloat.spec_float;
}.
Record ConnectionOptions {T : TimeLib} := {
  co_debug : ConnectionDebugOptions;
  co_activeKeepaliveInterval : option duration;
}.
Record TransportOptions {T : TimeLib} {AL : AddressLib} (TlsContext : Type) := {
  to_address : address;
  to_type : ConnectionType;
  to_timeout : duration;
  to_hostname : list Z;
  to_path : list Z;
  to_connOptions : ConnectionOptions;
  to_tlsContext : option TlsContext;
  to_reconnecting : bool;
}.
Arguments to_address {T AL TlsContext} t.
Arguments to_type {T AL TlsContext} t.
Arguments to_timeout {T AL TlsContext} t.
Arguments to_hostname {T AL TlsContext} t.
Arguments to_path {T AL TlsContext} t.
Arguments to_connOptions {T AL TlsContext} t.
Arguments to_tlsContext {T AL TlsContext} t.
Arguments to_reconnecting {T AL TlsContext} t.

Record OutgoingMessage := {
  om_message : QunetMessage;
  om_reliable : bool;
  om_uncompressed : bool;
  om_tag : list Z;
}.

(** ** Creating the transport *)
Section Create.
Context {T : TimeLib} {CL : CompressionLib} {C : CircularBuffer} {AL : AddressLib} {Q TlsContext : Type}.
(** What the system and the libraries answer: [bindAny] and [connect] of a UDP
    socket, [connect] of a TCP stream (nothing when it is not there in time), of
    a QUIC transport and of a WebSocket client. *)
Variable udp_bind : bool -> SocketError + Net.
Variable udp_connect : address -> Net -> option SocketError.
Variable tcp_connect : address -> option (SocketError + ByteStream).
Variable quic_connect : address -> duration -> option TlsContext -> ConnectionOptions -> list Z -> TransportResult Q.
Variable ws_connect : list Z -> list Z -> address -> option TlsContext -> option (list Z + WsClient).
Variable timed_out : SocketError.
Variable seed : Padding.QunetPadRNG.
(** [QUNET_QUIC_SUPPORT] and [QUNET_WS_SUPPORT] *)
Variable quic_support ws_support : bool.

Definition set_lossSim (loss : SpecFloat.spec_float) (n : Net) : Net :=
  {| net_sent := net_sent n; net_lossSim := loss; net_draws := net_draws n; net_errors := net_errors n;
     net_incoming := net_incoming n |}.

Definition UdpTransport_connect (start : instant) (address : address) (connOptions : ConnectionOptions)
    : result SocketError UdpTransport :=
  match udp_bind (addr_isV6 address) with
  | inl e => Err e
  | inr socket =>
      match udp_connect address socket with
      | Some e => Err e
      | None =>
          Ok (new_UdpTransport start (co_activeKeepaliveInterval connOptions)
                (set_lossSim (cd_packetLossSimulation (co_debug connOptions)) socket) seed)
      end
  end.

Definition TcpTransport_connect (start : instant) (address : address) (connOptions : ConnectionOptions)
    : result SocketError TcpTransport :=
  match tcp_connect address with
  | None => Err timed_out
  | Some (inl e) => Err e
  | Some (inr socket) => Ok (new_TcpTransport start (co_activeKeepaliveInterval connOptions) socket)
  end.

Definition WsTransport_connect (start : instant) (connOptions : ConnectionOptions) (path hostname : list Z)
    (address : address) (tlsContext : option TlsContext) : TransportResult WsTransport :=
  match ws_connect path hostname address tlsContext with
  | None => Err (TE_Custom ConnectionTimedOut)
  | Some (inl e) => Err (TE_Ws e)
  | Some (inr client) => Ok (new_WsTransport start (co_activeKeepaliveInterval connOptions) client)
  end.

Definition createTransport (start : instant) (options : TransportOptions TlsContext)
    : TransportResult (AnyTransport Q) :=
  match to_type options with
  | Udp => AUdp <$> map_err TE_Socket (UdpTransport_connect start (to_address options) (to_connOptions options))
  | Tcp => ATcp <$> map_err TE_Socket (TcpTransport_connect start (to_address options) (to_connOptions options))
  | Quic =>
      if quic_support then
        AQuic <$> quic_connect (to_address options) (to_timeout options) (to_tlsContext options)
                    (to_connOptions options) (to_hostname options)
      else Err (TE_Custom NotImplemented)
  | WebSocket | WebSocketTls =>
      if ws_support then
        AWs <$> WsTransport_connect start (to_connOptions options) (to_path options) (to_hostname options)
                  (to_address options) (to_tlsContext options)
      else Err (TE_Custom NotImplemented)
  | Unknown => Err (TE_Custom NotImplemented)
  end.
End Create.

(** ** The socket
    [m_connTimeout] is never used. *)
Record Socket {AL : AddressLib} (X : Type) := {
  sk_transport : X;
  sk_remoteAddress : address;
  sk_usedQdb : option QunetDatabase;
  sk_qdbFolder : option (list Z);
}.
Arguments sk_transport {AL X} s.
Arguments sk_remoteAddress {AL X} s.
Arguments sk_usedQdb {AL X} s.
Arguments sk_qdbFolder {AL X} s.

Section Socket.
Context {T : TimeLib} {CL : CompressionLib} {AL : AddressLib} `{R : ByteReader} {X TlsContext : Type}.
Context {V : VirtualTransport X}.
Variable blake3Hash : list Z -> list Z.
Variable path_join : list Z -> list Z -> list Z.
Variable fs_exists : list Z -> bool.
Variable fs_read : list Z -> option (list Z).
Variable fmt_dec : Z -> list Z.

Abbreviation SK := (ST (Socket X)).
Definition set_transport (x : X) (s : Socket X) : Socket X :=
  {| sk_transport := x; sk_remoteAddress := sk_remoteAddress s; sk_usedQdb := sk_usedQdb s;
     sk_qdbFolder := sk_qdbFolder s |}.
Definition set_qdb (usedQdb : option QunetDatabase) (qdbFolder : option (list Z)) (s : Socket X) : Socket X :=
  {| sk_transport := sk_transport s; sk_remoteAddress := sk_remoteAddress s; sk_usedQdb := usedQdb;
     sk_qdbFolder := qdbFolder |}.

Definition in_transport {A} : ST X A -> SK A := focus sk_transport set_transport.
Definition tr_in_base {A} : ST BaseTransport A -> SK A :=
  fun m => in_transport (focus tr_base tr_set_base m).

(** [arc::timeout]: nothing when the call still waits at the end of the time,
    which is the end of its script. *)
Definition arc_timeout {S A} (m : ST S A) : ST S (option A) := fun s =>
  match m s with
  | (Ok a, s) => (Ok (Some a), s)
  | (Fault WouldBlock, s) => (Ok None, s)
  | (Err e, s) => (Err e, s)
  | (Fault f, s) => (Fault f, s)
  end.

(** [co_await transport->close()] without its result. *)
Definition close_transport (x : X) : option X := Some (tr_close x).2.

(** The transport, if there is one yet, is the second component.  [t0], [t1]
    and [t2] are the readings of the clock.  At the second check the transport was
    moved into the socket: [transport->close()] is a call of a null pointer. *)
Definition createSocket (t0 t1 t2 : instant) (options : TransportOptions TlsContext) (created : TransportResult X)
    : TransportResult (Socket X * duration) * option X :=
  match created with
  | Err e => (Err e, None)
  | Fault f => (Fault f, None)
  | Ok transport =>
      if dltb (to_timeout options) (since t1 t0) then (Err (TE_Custom ConnectionTimedOut), close_transport transport)
      else
        let tracker := onConnected t1 (setEnabled (cd_recordStats (co_debug (to_connOptions options)))
                                         (onStartedConnection t0 (new_StatTracker t0))) in
        let transport := tr_set_base (set_tracker (fun _ => tracker) (tr_base transport)) transport in
        let handshakeTimeout := dsub (to_timeout options) (since t2 t0) in
        if millis handshakeTimeout <=? 0 then (Fault NullDereference, Some transport)
        else
          (Ok ({| sk_transport := transport; sk_remoteAddress := to_address options; sk_usedQdb := None;
                  sk_qdbFolder := None |}, handshakeTimeout), Some transport)
  end.

(** [scopeDtor]: the socket is closed however the block is left, unless it
    reaches its end. *)
Definition closing_on_failure {A} (m : SK A) : SK A := fun s =>
  match m s with
  | (Ok a, s) => (Ok a, s)
  | (Fault WouldBlock, s) => (Fault WouldBlock, s)
  | (res, s) => (res, (in_transport tr_closeSync s).2)
  end.

(** The operations on files that saving a database performs. *)
Definition save_operations (qdbData : list Z) (s : Socket X) : list fs_operation :=
  match sk_qdbFolder s with
  | Some folder => saveQdb blake3Hash path_join fs_exists qdbData folder (addr_toString (sk_remoteAddress s))
  | None => []
  end.

Definition onHandshakeSuccess (msg : HandshakeFinishMessage) : SK (list fs_operation) :=
  _ ← tr_in_base (modify (setConnectionId (hf_connectionId msg)));
  match hf_qdbData msg with
  | Some q =>
      dec ← lift (unwrap (ZstdDecompressor_init new_ZstdDecompressor));
      qdbData ← lift (map_err TE_Decompressor
                        (ZstdDecompressor_decompress (qd_chunkData q) (qd_uncompressedSize q) false dec));
      qdb ← lift (map_err (fun _ => TE_Custom InvalidQunetDatabase) (QunetDatabase_decode blake3Hash qdbData));
      _ ← tr_in_base (initCompressors (Some qdb));
      get (save_operations qdbData)
  | None =>
      usedQdb ← get sk_usedQdb;
      match usedQdb with
      | Some qdb =>
          _ ← tr_in_base (initCompressors (Some qdb));
          folder ← get sk_qdbFolder;
          _ ← modify (set_qdb None folder);
          mret []
      | None =>
          _ ← tr_in_base (initCompressors None);
          mret []
      end
  end.

Definition handshake_message (usedQdb : option QunetDatabase) : HandshakeStartMessage :=
  {| hs_protocolVersion := PROTOCOL_VERSION; hs_fragLimit := UDP_SAFE_MTU;
     hs_qdbHash := match usedQdb with Some qdb => getHash qdb | None => replicate 16 0 end |}.

(** What follows the creation of the socket. *)
Definition connect_handshake (ck : Clock) : SK (list fs_operation) :=
  usedQdb ← get sk_usedQdb;
  tres ← in_transport (arc_timeout (tr_performHandshake ck (handshake_message usedQdb)));
  match tres with
  | None => custom HandshakeTimedOut
  | Some (MHandshakeFinish hf) => onHandshakeSuccess hf
  | Some (MHandshakeFailure hf) => throw (TE_HandshakeFailure (HandshakeFailureMessage_message fmt_dec hf))
  | Some _ => custom UnexpectedMessage
  end.

Definition load_qdb (options : TransportOptions TlsContext) (qdbFolder : option (list Z)) (socket : Socket X)
    : TransportResult (Socket X) :=
  match qdbFolder with
  | None => Ok socket
  | Some folder =>
      usedQdb ← tryFindQdb blake3Hash path_join fs_exists fs_read folder (addr_toString (to_address options));
      Ok (set_qdb usedQdb (Some folder) socket)
  end.

(** The first component of a success is what is saved, the second the socket;
    that of a failure is the transport as it is dropped. *)
Definition Socket_connect (t0 t1 t2 : instant) (ck : Clock) (options : TransportOptions TlsContext)
    (created : TransportResult X) (qdbFolder : option (list Z))
    : TransportResult (list fs_operation * Socket X) * option X :=
  match createSocket t0 t1 t2 options created with
  | (Ok (socket, timeout), x) =>
      match load_qdb options qdbFolder socket with
      | Ok socket =>
          let '(res, socket) := closing_on_failure (connect_handshake ck) socket in
          ((fun ops => (ops, socket)) <$> res, Some (sk_transport socket))
      | Err e => (Err e, x)
      | Fault f => (Fault f, x)
      end
  | (Err e, x) => (Err e, x)
  | (Fault f, x) => (Fault f, x)
  end.

(** ** Reconnecting
    [older] is the transport of the previous socket; its compressors are moved
    to the new one. *)
Definition onReconnectSuccess (older : X) : SK X :=
  let b := tr_base older in
  _ ← tr_in_base (modify (setConnectionId (bt_connectionId b)));
  _ ← tr_in_base (modify (setMessageSizeLimit (bt_messageSizeLimit b)));
  s ← get id;
  let new := tr_base (sk_transport s) in
  let '(c, c') := ZstdCompressor_assign false (bt_zstdCompressor new) (bt_zstdCompressor b) in
  let '(d, d') := ZstdDecompressor_assign false (bt_zstdDecompressor new) (bt_zstdDecompressor b) in
  _ ← tr_in_base (modify (set_zstd c d));
  mret (tr_set_base (set_zstd c' d' b) older).

Definition reconnect_handshake (ck : Clock) (prev : X) : SK X :=
  tres ← in_transport (arc_timeout (tr_performReconnect ck (bt_connectionId (tr_base prev))));
  match tres with
  | None => custom HandshakeTimedOut
  | Some (MReconnectSuccess _) => onReconnectSuccess prev
  | Some (MReconnectFailure _) => custom ReconnectFailed
  | Some _ => custom UnexpectedMessage
  end.

(** A success gives the new socket and what is left of the previous one. *)
Definition Socket_reconnect (t0 t1 t2 : instant) (ck : Clock) (options : TransportOptions TlsContext)
    (created : TransportResult X) (prev : Socket X)
    : TransportResult (Socket X * Socket X) * option X :=
  match createSocket t0 t1 t2 options created with
  | (Ok (socket, timeout), x) =>
      let '(res, socket) := closing_on_failure (reconnect_handshake ck (sk_transport prev)) socket in
      ((fun older => (socket, set_transport older prev)) <$> res, Some (sk_transport socket))
  | (Err e, x) => (Err e, x)
  | (Fault f, x) => (Fault f, x)
  end.

(** ** Messages *)
Definition Socket_sendMessage (ck : Clock) (outgoing : OutgoingMessage) : SK unit :=
  message ← (match om_message outgoing with
             | MData msg =>
                 compressor ← get (fun s => bt_zstdCompressor (tr_base (sk_transport s)));
                 '(_, msg) ← lift (compress_outgoing compressor (om_uncompressed outgoing) msg);
                 mret (MData msg)
             | message => mret message
             end);
  hbyte ← lift (headerByte message);
  let ctx :=
    {| ctx_reliable := om_reliable outgoing; ctx_relHeader := None;
       ctx_originalSize := match message with
                           | MData msg =>
                               match dm_compHeader msg with
                               | Some h => ch_uncompressedSize h
                               | None => len (dm_data msg)
                               end
                           | _ => 1
                           end;
       ctx_compressedSize := match message with
                             | MData {| dm_compHeader := Some _; dm_data := data |} => Some (len data)
                             | _ => None
                             end;
       ctx_tag := om_tag outgoing |} in
  ctx ← in_transport (tr_sendMessage ck message ctx);
  tr_in_base (modify (logOutgoingMessage (ck_now ck) hbyte ctx)).

Definition Socket_receiveMessage (ck : Clock) : SK QunetMessage :=
  msg ← in_transport (tr_receiveMessage ck);
  _ ← in_transport (modify (onIncomingMessage tr_base tr_set_base tr_updateLatency (ck_ns ck) msg));
  mret msg.

(** ** The calls that are forwarded *)
Definition Socket_close : SK unit := in_transport tr_close.
Definition Socket_closeSync : SK unit := in_transport tr_closeSync.
Definition Socket_isClosed (s : Socket X) : bool := tr_isClosed (sk_transport s).
Definition Socket_getLatency (s : Socket X) : duration := getLatency (tr_base (sk_transport s)).
Definition Socket_getJitter (s : Socket X) : duration := getJitter (tr_base (sk_transport s)).
Definition Socket_untilTimerExpiry (ck : Clock) (s : Socket X) : duration := tr_untilTimerExpiry ck (sk_transport s).
Definition Socket_handleTimerExpiry (ck : Clock) : SK unit := in_transport (tr_handleTimerExpiry ck).
Definition Socket_updateLatency (rtt : duration) (s : Socket X) : Socket X :=
  set_transport (tr_updateLatency rtt (sk_transport s)) s.
End Socket.
