(* ===== verification/SocketSpec.v ===== *)
(** * What a socket promises

    The laws of the virtual methods that [Socket] relies on, for the three
    transports of this development; the agreement of a connected socket with its
    server on identifier, limits and compressors; and that a connection that
    fails leaves no open transport behind. *)
From S2P Require Import Prelude Dbuf Messages Codec Time Errors Effects Stats Compress Database Transport.
From S2P Require Import Udp Stream Ws Address Url Socket.

(** What the two ends have to agree on. *)
Definition session {T : TimeLib} {CL : CompressionLib} (b : BaseTransport) : Z * Z * ZstdCompressor * ZstdDecompressor :=
  (bt_connectionId b, bt_messageSizeLimit b, bt_zstdCompressor b, bt_zstdDecompressor b).

Class TransportLaws {T : TimeLib} {CL : CompressionLib} {X} (V : VirtualTransport X) := {
  base_of_set b x : tr_base (tr_set_base b x) = b;
  handshake_keeps ck m : keeps (fun x => session (tr_base x)) (tr_performHandshake ck m);
  reconnect_keeps ck id : keeps (fun x => session (tr_base x)) (tr_performReconnect ck id);
}.

(** ** The base class *)
Section Base.
Context {T : TimeLib} {CL : CompressionLib}.

Lemma session_tracker f b : session (set_tracker f b) = session b.
Proof. done. Qed.
Lemma session_times a k t u b : session (set_times a k t u b) = session b.
Proof. done. Qed.

Lemma keeps_decodePreFinal now meta : keeps session (decodePreFinalDataMessage now meta).
Proof. unfold decodePreFinalDataMessage. keeps_auto. Qed.

Lemma keeps_touch `{W : ByteWriter} now now_ns message : keeps session (touch now now_ns message).
Proof. unfold touch. keeps_auto. Qed.
End Base.
#[export] Hint Resolve keeps_decodePreFinal keeps_touch : keeps.

(** ** UDP *)
Section Udp.
Context {T : TimeLib} {CL : CompressionLib} `{W : ByteWriter} `{R : ByteReader}.
Abbreviation us := (fun u : UdpTransport => session (ut_base u)).

Lemma udp_in_base {A} (m : ST BaseTransport A) : keeps session m -> keeps us (Udp.in_base m).
Proof. by apply keeps_inside. Qed.
Lemma udp_in_net {A} (m : ST Net A) : keeps us (Udp.in_net m).
Proof. by apply keeps_outside. Qed.
Lemma udp_in_rel {A} m : keeps us (Udp.in_rel (A := A) m).
Proof. by apply keeps_outside. Qed.
Lemma udp_in_frag {A} m : keeps us (Udp.in_frag (A := A) m).
Proof. by apply keeps_outside. Qed.
#[local] Hint Resolve udp_in_base udp_in_net udp_in_rel udp_in_frag : keeps.

Lemma udp_send_unless_lost data : keeps us (send_unless_lost data).
Proof. unfold send_unless_lost, shouldLosePacket. keeps_auto. Qed.
#[local] Hint Resolve udp_send_unless_lost : keeps.

Lemma udp_modify_base f : (forall b, session (f b) = session b) -> keeps us (Udp.in_base (modify f)).
Proof. intros H. by apply udp_in_base, keeps_modify. Qed.
#[local] Hint Resolve udp_modify_base : keeps.

Lemma udp_send_fragments fuel now msg id i rest : keeps us (send_fragments fuel now msg id i rest).
Proof. revert i rest. induction fuel as [|fuel IH]; intros i rest; cbn; keeps_auto. Qed.
#[local] Hint Resolve udp_send_fragments : keeps.

Lemma udp_doSend now msg ctx re : keeps us (doSendUnfragmentedData now msg ctx re).
Proof. unfold doSendUnfragmentedData. keeps_auto. Qed.
#[local] Hint Resolve udp_doSend : keeps.

Lemma udp_sendMessage now now_ns m ctx : keeps us (Udp.sendMessage now now_ns m ctx).
Proof. unfold Udp.sendMessage, assign_reliability. keeps_auto. Qed.
#[local] Hint Resolve udp_sendMessage : keeps.

Lemma udp_send now now_ns m r : keeps us (Udp.send now now_ns m r).
Proof. unfold Udp.send. keeps_auto. Qed.

Lemma udp_processOne now order meta : keeps us (processOne now order meta).
Proof. unfold processOne, accept_whole. keeps_auto. Qed.
#[local] Hint Resolve udp_send udp_processOne : keeps.

Lemma udp_process_datagram fuel now order it r : keeps us (process_datagram fuel now order it r).
Proof. revert it r. induction fuel as [|fuel IH]; intros it r; cbn; keeps_auto. Qed.
#[local] Hint Resolve udp_process_datagram : keeps.

Lemma udp_receiveInner now order : keeps us (receiveMessageInner now order).
Proof. unfold receiveMessageInner. keeps_auto. Qed.
#[local] Hint Resolve udp_receiveInner : keeps.

Lemma udp_receive_loop fuel now order : keeps us (Udp.receive_loop fuel now order).
Proof. induction fuel as [|fuel IH]; cbn; keeps_auto. Qed.

Lemma udp_receive now order : keeps us (Udp.receiveMessage now order).
Proof. intros u. unfold Udp.receiveMessage. apply udp_receive_loop. Qed.
#[local] Hint Resolve udp_receive : keeps.

Lemma udp_handshake_loop turns now_ns order hs h : keeps us (handshake_loop turns now_ns order hs h).
Proof. revert h. induction turns as [|[now poll] turns IH]; intros h; cbn; keeps_auto. Qed.
#[local] Hint Resolve udp_handshake_loop : keeps.

#[export] Instance udp_transport_laws millis_float fromMillis_float :
  TransportLaws (udp_transport millis_float fromMillis_float).
Proof.
  split.
  - done.
  - intros ck m. cbn. unfold Udp.performHandshake. keeps_auto.
  - intros ck id. cbn. unfold BaseTransport_performReconnect, BaseTransport_sendMessage, Udp_send, Udp_receive.
    keeps_auto.
Qed.
End Udp.

(** ** Messages over any stream *)
Section Layers.
Context {T : TimeLib} {CL : CompressionLib} {C : CircularBuffer} `{W : ByteWriter} `{R : ByteReader}.
Context {St : Type} {SO : Streaming St}.
Abbreviation ss := (fun s : StreamLayer St => session (sp_base s)).

Lemma stream_in_base {A} (m : ST BaseTransport A) : keeps session m -> keeps ss (Stream.in_base m).
Proof. by apply keeps_inside. Qed.
Lemma stream_in_stream {A} (m : ST St A) : keeps ss (Stream.in_stream m).
Proof. by apply keeps_outside. Qed.
#[local] Hint Resolve stream_in_base stream_in_stream : keeps.
Lemma stream_modify_base f : (forall b, session (f b) = session b) -> keeps ss (Stream.in_base (modify f)).
Proof. intros H. by apply stream_in_base, keeps_modify. Qed.
#[local] Hint Resolve stream_modify_base : keeps.

Lemma stream_send now m : keeps ss (streamcommon_sendMessage now m).
Proof. unfold streamcommon_sendMessage. keeps_auto. Qed.

Lemma stream_waitForData now : keeps ss (waitForData now).
Proof. unfold waitForData, reserve_space, on_buffer. keeps_auto. Qed.
Lemma stream_decode now p : keeps ss (decode_peeked now p).
Proof. unfold decode_peeked. keeps_auto. Qed.
#[local] Hint Resolve stream_waitForData stream_decode : keeps.

Lemma stream_receive_loop fuel now : keeps ss (Stream.receive_loop fuel now).
Proof. induction fuel as [|fuel IH]; cbn; unfold on_buffer; keeps_auto. Qed.
Lemma stream_receiveMessage now : keeps ss (streamcommon_receiveMessage now).
Proof. intros s. apply stream_receive_loop. Qed.
End Layers.

(** ** TCP and WebSocket *)
Section Streams.
Context {T : TimeLib} {CL : CompressionLib} {C : CircularBuffer} `{W : ByteWriter} `{R : ByteReader}.
Abbreviation ts := (fun t : TcpTransport => session (tcp_base t)).
Abbreviation ws := (fun t : WsTransport => session (wt_base t)).

Lemma tcp_in_common {A} (m : ST StreamTransport A) :
  keeps (fun s => session (sp_base s)) m -> keeps ts (in_common m).
Proof. by apply keeps_inside. Qed.
#[local] Hint Resolve tcp_in_common stream_send stream_in_base : keeps.

Lemma tcp_send ck m ctx : keeps ts (Tcp_sendCtx ck m ctx).
Proof. unfold Tcp_sendCtx, Tcp_sendMessage. keeps_auto. Qed.
Lemma tcp_receive ck : keeps ts (Tcp_receive ck).
Proof. apply tcp_in_common, stream_receiveMessage. Qed.

Lemma ws_in_client {A} (m : ST WsClient A) : keeps ws (in_client m).
Proof. by apply keeps_outside. Qed.
Lemma ws_in_base_keeps {A} (m : ST BaseTransport A) : keeps session m -> keeps ws (ws_in_base m).
Proof. by apply keeps_inside. Qed.
#[local] Hint Resolve ws_in_client ws_in_base_keeps : keeps.
Lemma ws_modify_base f : (forall b, session (f b) = session b) -> keeps ws (ws_in_base (modify f)).
Proof. intros H. by apply ws_in_base_keeps, keeps_modify. Qed.
#[local] Hint Resolve ws_modify_base : keeps.

Lemma ws_send_keeps ck m ctx : keeps ws (Ws_sendCtx ck m ctx).
Proof. unfold Ws_sendCtx, Ws_sendMessage. keeps_auto. Qed.
Lemma ws_receive_keeps ck : keeps ws (Ws_receive ck).
Proof. unfold Ws_receive, Ws_receiveMessage. keeps_auto. Qed.
#[local] Hint Resolve tcp_send tcp_receive ws_send_keeps ws_receive_keeps : keeps.

(** The methods that a transport inherits. *)
Lemma inherited_keeps {X} (base : X -> BaseTransport) set_base send receive :
  (forall b x, base (set_base b x) = b) -> (forall ck m ctx, keeps (fun x => session (base x)) (send ck m ctx)) ->
  (forall ck, keeps (fun x => session (base x)) (receive ck)) ->
  (forall ck m, keeps (fun x => session (base x)) (BaseTransport_performHandshake base set_base send receive ck m)) /\
  (forall ck id, keeps (fun x => session (base x)) (BaseTransport_performReconnect base set_base send receive ck id)).
Proof.
  intros Hb Hs Hr.
  assert (forall ck m r, keeps (fun x => session (base x)) (BaseTransport_sendMessage base set_base send ck m r)).
  { intros ck m r. unfold BaseTransport_sendMessage. keeps_auto. by apply keeps_inside with session; [| |apply keeps_modify]. }
  split; intros; unfold BaseTransport_performHandshake, BaseTransport_performReconnect; keeps_auto.
Qed.

#[export] Instance tcp_transport_laws shutdown : TransportLaws (tcp_transport shutdown).
Proof.
  split.
  - done.
  - apply inherited_keeps; auto with keeps.
  - apply inherited_keeps; auto with keeps.
Qed.

#[export] Instance ws_transport_laws : TransportLaws ws_transport.
Proof.
  split.
  - done.
  - apply inherited_keeps; auto with keeps.
  - apply inherited_keeps; auto with keeps.
Qed.
End Streams.

(** ** Any transport *)
Section Any.
Context {T : TimeLib} {CL : CompressionLib} {C : CircularBuffer} {Q : Type}.
Context (VU : VirtualTransport UdpTransport) (VT : VirtualTransport TcpTransport).
Context (VQ : VirtualTransport Q) (VW : VirtualTransport WsTransport).
Context {LU : TransportLaws VU} {LT : TransportLaws VT} {LQ : TransportLaws VQ} {LW : TransportLaws VW}.

Lemma dispatch_keeps {A} (f : forall X, VirtualTransport X -> ST X A) :
  (forall X (V : VirtualTransport X), TransportLaws V -> keeps (fun x => session (tr_base x)) (f X V)) ->
  keeps (fun t => session (observe VU VT VQ VW (fun _ _ => tr_base) t)) (dispatch VU VT VQ VW f).
Proof.
  intros H [x|x|x|x]; cbn.
  - specialize (H _ VU _ x). by destruct (f _ VU x).
  - specialize (H _ VT _ x). by destruct (f _ VT x).
  - specialize (H _ VQ _ x). by destruct (f _ VQ x).
  - specialize (H _ VW _ x). by destruct (f _ VW x).
Qed.

#[export] Instance any_transport_laws : TransportLaws (any_transport VU VT VQ VW).
Proof.
  split.
  - intros b [x|x|x|x]; cbn; apply base_of_set.
  - intros ck m. apply dispatch_keeps. intros X V LV. by apply handshake_keeps.
  - intros ck id. apply dispatch_keeps. intros X V LV. by apply reconnect_keeps.
Qed.
End Any.

(** ** A socket that is connected *)
Section Connected.
Context {T : TimeLib} {CL : CompressionLib} {LL : CompressionLaws CL} {AL : AddressLib} `{R : ByteReader}.
Context {X TlsContext : Type} {V : VirtualTransport X} {L : TransportLaws V}.
Variable blake3Hash : list Z -> list Z.
Variable path_join : list Z -> list Z -> list Z.
Variable fs_exists : list Z -> bool.
Variable fs_read : list Z -> option (list Z).
Variable fmt_dec : Z -> list Z.

(** What [sender] compresses is decompressed by [receiver]: whatever the
    compression that is chosen for a message, the data comes out as it was. *)
Definition understands (sender receiver : BaseTransport) : Prop :=
  forall now uncompressed m offset,
  len (dm_data m) < 2 ^ 30 -> len (dm_data m) <= bt_messageSizeLimit receiver -> dm_compHeader m = None ->
  match compress_outgoing (bt_zstdCompressor sender) uncompressed m with
  | Ok (_, m') => (decodePreFinalDataMessage now (meta_of m' offset) receiver).1 =
      Ok (MData {| dm_data := dm_data m; dm_compHeader := None; dm_relHeader := None |})
  | Err e => exists ce, e = TE_Compressor ce
  | Fault _ => False
  end.

Lemma paired_understands b1 b2 :
  paired (bt_zstdCompressor b1) (bt_zstdDecompressor b2) -> understands b1 b2.
Proof.
  intros Hp now uncompressed m offset Hlen Hlimit Hnone.
  pose proof (compress_then_decompress _ _ _ uncompressed m offset Hp Hlen Hlimit Hnone) as H.
  destruct (compress_outgoing _ uncompressed m) as [[t m']|e|f]; [|done|done]. destruct H as [H _].
  by destruct (decodePreFinal_ok now _ b2 _ H) as (t' & ->).
Qed.

(** The database that the two ends have in common after a handshake: the one
    that the server sends, or the one that the client already had. *)
Definition negotiated (usedQdb : option QunetDatabase) (hf : HandshakeFinishMessage) : TransportResult (option QunetDatabase) :=
  match hf_qdbData hf with
  | None => Ok usedQdb
  | Some q =>
      dec ← unwrap (ZstdDecompressor_init new_ZstdDecompressor);
      qdbData ← map_err TE_Decompressor (ZstdDecompressor_decompress (qd_chunkData q) (qd_uncompressedSize q) false dec);
      qdb ← map_err (fun _ => TE_Custom InvalidQunetDatabase) (QunetDatabase_decode blake3Hash qdbData);
      Ok (Some qdb)
  end.

(** The base class of a socket's transport. *)
Definition sk_base (s : Socket X) : BaseTransport := tr_base (sk_transport s).

Lemma createSocket_ok t0 t1 t2 (options : TransportOptions TlsContext) created s d x :
  createSocket t0 t1 t2 options created = (Ok (s, d), x) ->
  exists x0, created = Ok x0 /\ session (sk_base s) = session (tr_base x0) /\ sk_usedQdb s = None.
Proof.
  unfold createSocket. destruct created as [x0| |]; [|done..]. destruct (dltb _ _); [done|].
  destruct (_ <=? 0); [done|]. intros [= <- <- <-]. exists x0. split; [done|]. unfold sk_base. cbn.
  by rewrite base_of_set.
Qed.

Lemma in_base_run {A} (m : ST BaseTransport A) (s : Socket X) a s' :
  tr_in_base m s = (Ok a, s') ->
  exists b, m (sk_base s) = (Ok a, b) /\ sk_base s' = b /\ sk_usedQdb s' = sk_usedQdb s.
Proof.
  intros (x & H & ->)%focus_ok. apply focus_ok in H as (b & H & ->). exists b. split; [done|].
  unfold sk_base. cbn. by rewrite base_of_set.
Qed.

Lemma initCompressors_session qdb b b' :
  initCompressors qdb b = (Ok tt, b') ->
  bt_connectionId b' = bt_connectionId b /\ bt_messageSizeLimit b' = bt_messageSizeLimit b.
Proof.
  assert (forall f g, init_with f g b = (Ok tt, b') ->
    bt_connectionId b' = bt_connectionId b /\ bt_messageSizeLimit b' = bt_messageSizeLimit b) as H.
  { by intros f g (? & ? & _ & _ & ->)%init_with_ok. }
  destruct qdb as [[[?|] ? ?]|]; apply H.
Qed.

(** After the answer of the server: the identifier is the server's and the
    compressors are initialised with the common database. *)
Lemma onHandshakeSuccess_ok hf s ops s' :
  onHandshakeSuccess blake3Hash path_join fs_exists hf s = (Ok ops, s') ->
  exists qdb, negotiated (sk_usedQdb s) hf = Ok qdb /\
    initCompressors qdb (setConnectionId (hf_connectionId hf) (sk_base s)) = (Ok tt, sk_base s').
Proof.
  unfold onHandshakeSuccess. intros H. apply st_bind_ok in H as (? & s1 & H1 & H).
  apply in_base_run in H1 as (b & [= _ <-] & Hb & Hq).
  destruct (hf_qdbData hf) as [q|] eqn:Eq; unfold negotiated; rewrite Eq.
  - st_inv H. unfold lift in *. simplify_eq.
    repeat match goal with H : _ = Ok _ |- _ => rewrite H; cbn [mbind result_bind]; clear H end.
    eexists. split; [reflexivity|]. apply in_base_run in Hs2 as (b & Hi & <- & _). rewrite Hb in Hi. unfold get in H.
    repeat match goal with u : unit |- _ => destruct u end.
    by simplify_eq.
  - apply st_bind_ok in H as (used & s2 & [= <- <-] & H). rewrite Hq in H.
    destruct (sk_usedQdb s) as [qdb|]; apply st_bind_ok in H as ([] & s2 & H2 & H);
      apply in_base_run in H2 as (b' & Hi & <- & _); rewrite Hb in Hi.
    + exists (Some qdb). split; [done|]. st_inv H. unfold get, modify in *. simplify_eq. by injection H as _ <-.
    + exists None. split; [done|]. by injection H as _ <-.
Qed.

Lemma arc_timeout_some {S A} (m : ST S A) s a s' : arc_timeout m s = (Ok (Some a), s') -> m s = (Ok a, s').
Proof. unfold arc_timeout. destruct (m s) as [[b|e|[]] s1]; congruence. Qed.

Lemma closing_ok {A} (m : ST (Socket X) A) s a s' : closing_on_failure m s = (Ok a, s') -> m s = (Ok a, s').
Proof. unfold closing_on_failure. destruct (m s) as [[b|e|[]] s1]; congruence. Qed.

Lemma transport_call {A} (m : ST X A) (s : Socket X) a s' :
  keeps (fun x => session (tr_base x)) m ->
  in_transport (arc_timeout m) s = (Ok (Some a), s') ->
  m (sk_transport s) = (Ok a, sk_transport s') /\ session (sk_base s') = session (sk_base s) /\
  sk_usedQdb s' = sk_usedQdb s.
Proof.
  intros Hk (x & H & ->)%focus_ok. apply arc_timeout_some in H. split; [done|]. split; [|done].
  specialize (Hk (sk_transport s)). by rewrite H in Hk.
Qed.

Lemma session_inj b b' : session b = session b' ->
  bt_connectionId b = bt_connectionId b' /\ bt_messageSizeLimit b = bt_messageSizeLimit b' /\
  bt_zstdCompressor b = bt_zstdCompressor b' /\ bt_zstdDecompressor b = bt_zstdDecompressor b'.
Proof. unfold session. by intros [= -> -> -> ->]. Qed.

Lemma decodePreFinal_session now meta b b' :
  session b = session b' -> (decodePreFinalDataMessage now meta b).1 = (decodePreFinalDataMessage now meta b').1.
Proof.
  intros (_ & Hl & _ & Hd)%session_inj. unfold decodePreFinalDataMessage, mbind, ST_bind, modify, get, lift. cbn.
  rewrite Hl, Hd. by destruct (decompress_message _ _ _).
Qed.

(** C22. A socket that connects: its transport asked for a handshake with the hash
    of the database that the client has, and was answered; the identifier of the
    connection is the server's; and whoever initialises compressors with the
    common database (the one the server sent, or else the client's) understands
    what this socket sends, and is understood by it. *)
Theorem connect_agrees t0 t1 t2 ck (options : TransportOptions TlsContext) x0 folder ops s x :
  bt_zstdCompressor (tr_base x0) = new_ZstdCompressor ->
  bt_zstdDecompressor (tr_base x0) = new_ZstdDecompressor ->
  Socket_connect blake3Hash path_join fs_exists fs_read fmt_dec t0 t1 t2 ck options (Ok x0) folder = (Ok (ops, s), x) ->
  exists usedQdb x1 x2 hf qdb,
    tr_performHandshake ck (handshake_message usedQdb) x1 = (Ok (MHandshakeFinish hf), x2) /\
    negotiated usedQdb hf = Ok qdb /\
    bt_connectionId (sk_base s) = hf_connectionId hf /\
    bt_messageSizeLimit (sk_base s) = bt_messageSizeLimit (tr_base x0) /\
    forall peer peer',
      bt_zstdCompressor peer = new_ZstdCompressor -> bt_zstdDecompressor peer = new_ZstdDecompressor ->
      initCompressors qdb peer = (Ok tt, peer') ->
      understands (sk_base s) peer' /\ understands peer' (sk_base s).
Proof.
  intros Hc Hd. unfold Socket_connect.
  destruct (createSocket _ _ _ _ _) as [[[s0 d]|e|f] x'] eqn:Ecreate; [|done..].
  apply createSocket_ok in Ecreate as (x0' & [= <-] & Hs0 & _).
  destruct (load_qdb _ _ _ _ _ _ s0) as [s1|e|f] eqn:Eload; [|done..].
  assert (sk_base s1 = sk_base s0) as Hs1.
  { unfold load_qdb in Eload. destruct folder; [|congruence]. apply bind_ok in Eload as (used & _ & [= <-]). done. }
  destruct (closing_on_failure _ s1) as [res s2] eqn:Erun. destruct res as [ops'|e|f]; [|done..].
  intros [= <- <- <-]. apply closing_ok in Erun. unfold connect_handshake in Erun.
  apply st_bind_ok in Erun as (used & ? & [= <- <-] & Erun).
  apply st_bind_ok in Erun as (tres & s3 & Hcall & Erun).
  destruct tres as [msg|]; [|done]. apply transport_call in Hcall as (Hcall & Hs3 & Hq); [|apply handshake_keeps].
  destruct msg; try done. apply onHandshakeSuccess_ok in Erun as (qdb & Hneg & Hinit).
  exists (sk_usedQdb s1), (sk_transport s1), (sk_transport s3), m, qdb.
  rewrite Hs1, Hs0 in Hs3. apply session_inj in Hs3 as (_ & Hl & Hzc & Hzd).
  destruct (initCompressors_session _ _ _ Hinit) as [Hid Hlim].
  split_and!; [done|by rewrite Hq in Hneg|done|by rewrite Hlim, <- Hl|].
  intros peer peer' Hpc Hpd Hpeer. split; apply paired_understands.
  - apply (initCompressors_paired qdb _ peer _ peer') in Hinit; [apply Hinit|cbn; congruence|done|done].
  - apply (initCompressors_paired qdb peer _ peer') in Hinit; [apply Hinit|done|cbn; congruence|done].
Qed.

Lemma in_base_modify f (s : Socket X) a s' :
  tr_in_base (modify f) s = (Ok a, s') -> sk_base s' = f (sk_base s).
Proof. by intros (b & [= _ <-] & -> & _)%in_base_run. Qed.

(** C23. A socket that reconnects: its transport told the server the identifier
    of the previous connection and the server accepted; identifier, size limit
    and compressors are those of the previous socket, so that what was
    understood before the connection was lost is understood after it; and the
    previous socket has no compressors any more. *)
Theorem reconnect_keeps_session t0 t1 t2 ck (options : TransportOptions TlsContext) x0 prev s older x :
  Socket_reconnect t0 t1 t2 ck options (Ok x0) prev = (Ok (s, older), x) ->
  (exists x1 x2 m, tr_performReconnect ck (bt_connectionId (sk_base prev)) x1 = (Ok (MReconnectSuccess m), x2)) /\
  session (sk_base s) = session (sk_base prev) /\
  (forall peer, understands peer (sk_base prev) -> understands peer (sk_base s)) /\
  (forall peer, understands (sk_base prev) peer -> understands (sk_base s) peer) /\
  zc_ctx (bt_zstdCompressor (sk_base older)) = false /\ zd_ctx (bt_zstdDecompressor (sk_base older)) = false.
Proof.
  unfold Socket_reconnect. destruct (createSocket _ _ _ _ _) as [[[s0 d]|e|f] x'] eqn:Ecreate; [|done..].
  destruct (closing_on_failure _ s0) as [res s2] eqn:Erun. destruct res as [o|e|f]; [|done..].
  intros [= <- <- <-]. apply closing_ok in Erun. unfold reconnect_handshake in Erun.
  apply st_bind_ok in Erun as (tres & s3 & Hcall & Erun). destruct tres as [msg|]; [|done].
  apply transport_call in Hcall as (Hcall & _ & _); [|apply reconnect_keeps]. destruct msg; try done.
  unfold onReconnectSuccess in Erun. st_inv Erun. unfold get in *. cbn in Erun. simplify_eq.
  injection Erun as <- <-.
  repeat match goal with H : tr_in_base (modify _) _ = _ |- _ => apply in_base_modify in H end.
  assert (session (sk_base x7) = session (sk_base prev)) as Hses.
  { repeat match goal with H : sk_base _ = _ |- _ => rewrite H; clear H end.
    unfold session, sk_base. cbn. by destruct (bt_zstdCompressor _), (bt_zstdDecompressor _). }
  pose proof (session_inj _ _ Hses) as (_ & Hl & Hc & Hd).
  split_and!; [by eauto 10|done|..].
  - intros peer Hp now unc m' offset Hlen Hlim Hnone. rewrite Hl in Hlim.
    specialize (Hp now unc m' offset Hlen Hlim Hnone).
    destruct (compress_outgoing _ unc m') as [[t m'']| |]; [|done..].
    by rewrite (decodePreFinal_session _ _ _ _ Hses).
  - intros peer Hp now unc m' offset Hlen Hlim Hnone. rewrite Hc. by apply Hp.
  - unfold sk_base. cbn. by rewrite base_of_set.
  - unfold sk_base. cbn. by rewrite base_of_set.
Qed.

(** The time was not over at the first check, and is at the second. *)
Definition expires_between (t0 t1 t2 : instant) (options : TransportOptions TlsContext) : bool :=
  negb (dltb (to_timeout options) (since t1 t0)) && (millis (dsub (to_timeout options) (since t2 t0)) <=? 0).

(** Then [createSocket] closes a transport that it has moved away. *)
Lemma createSocket_throws t0 t1 t2 (options : TransportOptions TlsContext) (created : TransportResult X) :
  is_fault created = false ->
  is_fault (createSocket t0 t1 t2 options created).1 = is_ok created && expires_between t0 t1 t2 options /\
  (forall f, (createSocket t0 t1 t2 options created).1 = Fault f -> f = NullDereference).
Proof.
  intros Hf. unfold createSocket, expires_between. destruct created as [x|e|f]; [|by split|discriminate Hf]. cbn [is_ok andb].
  destruct (dltb _ _); [by split|]. cbn [negb andb]. cbn zeta. destruct (_ <=? 0); [|by split]. split; [done|]. by intros f [= <-].
Qed.

Lemma createSocket_err t0 t1 t2 (options : TransportOptions TlsContext) x0 e x :
  createSocket t0 t1 t2 options (Ok x0) = (Err e, x) -> exists x1, x = Some (tr_close x1).2.
Proof.
  unfold createSocket. destruct (dltb _ _); [intros [= _ <-]; by eexists|]. by destruct (_ <=? 0).
Qed.

Lemma closing_err {A} (m : ST (Socket X) A) s e s' :
  closing_on_failure m s = (Err e, s') -> exists x1, sk_transport s' = (tr_closeSync x1).2.
Proof.
  unfold closing_on_failure, in_transport, focus. destruct (m s) as [[a|e'|[]] s1]; try done;
    intros [= _ <-]; exists (sk_transport s1); by destruct (tr_closeSync _).
Qed.

Lemma load_qdb_err (options : TransportOptions TlsContext) folder s e :
  load_qdb (X := X) blake3Hash path_join fs_exists fs_read options folder s <> Err e.
Proof.
  unfold load_qdb, tryFindQdb. destruct folder; [|done].
  destruct (fs_exists _); [|done]. destruct (fs_read _); [|done]. by destruct (QunetDatabase_decode _ _).
Qed.

(** C24. An attempt to connect or to reconnect that ends with an error after its
    transport was created has closed this transport.  An attempt whose time is over
    between the two checks of [createSocket] does not end with an error: it throws
    ([createSocket_throws]). *)
Theorem failed_attempt_closes t0 t1 t2 ck (options : TransportOptions TlsContext) x0 folder prev e x :
  Socket_connect blake3Hash path_join fs_exists fs_read fmt_dec t0 t1 t2 ck options (Ok x0) folder = (Err e, x) \/
  Socket_reconnect t0 t1 t2 ck options (Ok x0) prev = (Err e, x) ->
  exists x1, x = Some (tr_close x1).2 \/ x = Some (tr_closeSync x1).2.
Proof.
  unfold Socket_connect, Socket_reconnect. intros [H|H];
    (destruct (createSocket _ _ _ _ _) as [[[s0 d]|e'|f] x'] eqn:Ecreate; [| |done]);
    try (injection H as <- <-; apply createSocket_err in Ecreate as [x1 ->]; by eauto).
  - destruct (load_qdb _ _ _ _ _ _ s0) as [s1|e'|f] eqn:Eload; [|by apply load_qdb_err in Eload|done].
    destruct (closing_on_failure _ s1) as [[ops|e''|f] s2] eqn:Erun; try done.
    injection H as <- <-. apply closing_err in Erun as [x1 ->]. by eauto.
  - destruct (closing_on_failure _ s0) as [[ops|e''|f] s2] eqn:Erun; try done.
    injection H as <- <-. apply closing_err in Erun as [x1 ->]. by eauto.
Qed.
End Connected.

(** ** Runs
    Over a WebSocket, with the database of the server in one chunk; the
    functions on paths and files are small ones. *)
Definition example_address : @address simple_addresses := {| sa_ip := inl 2130706433; sa_port := 4340 |}.
Definition example_options : @TransportOptions nano_time simple_addresses unit := {|
  to_address := example_address; to_type := WebSocket; to_timeout := fromSecs 5; to_hostname := []; to_path := [];
  to_connOptions := {| co_debug := {| cd_verboseSsl := false; cd_verboseQuic := false; cd_recordStats := false;
                                      cd_packetLossSimulation := SpecFloat.S754_zero false |};
                       co_activeKeepaliveInterval := None |};
  to_tlsContext := None; to_reconnecting := false |}.
Definition example_clock : @Clock nano_time := {| ck_now := 3; ck_ns := 77; ck_order := []; ck_turns := [] |}.

Definition sample_database : list Z := database_bytes sample_sections [] [7].
Definition compressed_database : list Z := flatten (rle sample_database).
Definition handshake_answer : list Z :=
  [MSG_HANDSHAKE_FINISH] ++ le_split 8 4242 ++ [1] ++
  le_split 4 (len sample_database) ++ le_split 4 (len compressed_database) ++ le_split 4 0 ++
  le_split 4 (len compressed_database) ++ compressed_database.

Abbreviation example_connect incoming :=
  (Socket_connect (T := nano_time) (AL := simple_addresses) (V := ws_transport (W := list_writer) (R := list_reader)) id app
    (fun _ => false) (fun _ => None) (fun _ => []) 0 1 2 example_clock example_options (Ok (example_ws incoming))
    (Some (str "dir/"))).

(** The run ends with a socket under the server's identifier and with a
    database to save. *)
Lemma example_connected :
  exists ops s x, example_connect [inr (WsBinary handshake_answer)] = (Ok (ops, s), x) /\ ops <> [] /\
    bt_connectionId (wt_base (sk_transport s)) = 4242.
Proof.
  assert (match (example_connect [inr (WsBinary handshake_answer)]).1 with
          | Ok (ops, s) => negb (bool_decide (ops = [])) && (bt_connectionId (wt_base (sk_transport s)) =? 4242)
          | _ => false
          end = true) as Hrun by (vm_compute; reflexivity).
  destruct (example_connect _) as [[[ops s]|e|f] x]; [|discriminate Hrun..].
  apply andb_true_iff in Hrun as [Hops Hid%Z.eqb_eq]. exists ops, s, x. split; [done|].
  split; [by intros ->|done].
Qed.

Lemma init_example qdb : (initCompressors qdb example_base).1 = Ok tt.
Proof. by destruct qdb as [[[d|] l h]|]. Qed.

Lemma connect_agrees_witness :
  exists s qdb, bt_connectionId (sk_base (V := ws_transport (W := list_writer) (R := list_reader)) s) = 4242 /\
    understands (sk_base (V := ws_transport (W := list_writer) (R := list_reader)) s) (initCompressors qdb example_base).2.
Proof.
  destruct example_connected as (ops & s & x & E & _ & Hid). exists s.
  destruct (connect_agrees (T := nano_time) (L := ws_transport_laws) id app (fun _ => false) (fun _ => None) (fun _ => [])
    0 1 2 example_clock example_options (example_ws [inr (WsBinary handshake_answer)]) (Some (str "dir/")) ops s x
    eq_refl eq_refl E) as (used & x1 & x2 & hf & qdb & _ & _ & _ & _ & H).
  exists qdb. split; [exact Hid|].
  apply (H example_base (initCompressors qdb example_base).2 eq_refl eq_refl). apply run_result, init_example.
Defined.

(** The connection is lost, and the server accepts a new one; or refuses it, or
    does not answer. *)
Definition example_lost : @Socket simple_addresses (@WsTransport nano_time rle_lib) :=
  {| sk_transport := ws_set_base (setConnectionId 4242 initialised_base) (example_ws []);
     sk_remoteAddress := example_address; sk_usedQdb := None; sk_qdbFolder := None |}.

Abbreviation example_reconnect incoming :=
  (Socket_reconnect (T := nano_time) (AL := simple_addresses) (V := ws_transport (W := list_writer) (R := list_reader))
     0 1 2 example_clock example_options (Ok (example_ws incoming)) example_lost).

Lemma example_reconnected :
  exists s older x, example_reconnect [inr (WsBinary [MSG_RECONNECT_SUCCESS])] = (Ok (s, older), x).
Proof.
  assert (is_ok (example_reconnect [inr (WsBinary [MSG_RECONNECT_SUCCESS])]).1 = true) as Hrun by (vm_compute; reflexivity).
  destruct (example_reconnect _) as [[[s older]|e|f] x]; [eauto|discriminate Hrun..].
Qed.

Lemma reconnect_keeps_session_witness :
  exists s : Socket WsTransport,
    session (sk_base (V := ws_transport (W := list_writer) (R := list_reader)) s)
    = (4242, SIZE_MAX, bt_zstdCompressor initialised_base, bt_zstdDecompressor initialised_base).
Proof.
  destruct example_reconnected as (s & older & x & E). exists s.
  destruct (reconnect_keeps_session (T := nano_time) (L := ws_transport_laws) 0 1 2 example_clock example_options
    (example_ws [inr (WsBinary [MSG_RECONNECT_SUCCESS])]) example_lost s older x E) as (_ & Hs & _).
  rewrite Hs. reflexivity.
Defined.

Example reconnect_refused :
  error_of (example_reconnect [inr (WsBinary [MSG_RECONNECT_FAILURE])]).1 = Some (TE_Custom ReconnectFailed).
Proof. vm_compute. reflexivity. Qed.

(** The transport is there after five seconds, of five: it was not late, and there
    is no time left for the handshake. *)
Example no_time_left :
  match (Socket_connect (T := nano_time) (AL := simple_addresses) (V := ws_transport (W := list_writer) (R := list_reader)) id app
    (fun _ => false) (fun _ => None) (fun _ => []) 0 5000000000 5000000000 example_clock example_options (Ok (example_ws [])) None).1 with
  | Fault NullDereference => true
  | _ => false
  end = true.
Proof. vm_compute. reflexivity. Qed.

Example reconnect_silence : error_of (example_reconnect []).1 = Some (TE_Custom HandshakeTimedOut).
Proof. vm_compute. reflexivity. Qed.

Lemma failed_attempt_closes_witness :
  exists x1 : WsTransport,
    (example_reconnect []).2 = Some (tr_close (VirtualTransport := ws_transport (W := list_writer) (R := list_reader)) x1).2 \/
    (example_reconnect []).2 = Some (tr_closeSync (VirtualTransport := ws_transport (W := list_writer) (R := list_reader)) x1).2.
Proof.
  pose proof (error_of_some _ _ reconnect_silence) as E.
  apply (failed_attempt_closes (T := nano_time) (AL := simple_addresses) (R := list_reader)
    (V := ws_transport (W := list_writer) (R := list_reader)) id app
    (fun _ => false) (fun _ => None) (fun _ => []) 0 1 2 example_clock example_options (example_ws []) None example_lost
    (TE_Custom HandshakeTimedOut)).
  right. by apply injective_projections.
Defined.
