(* ===== verification/SocketSafe.v ===== *)
(** * Sockets: nothing throws

    What a transport promises to [Socket], beside [SocketSpec.TransportLaws]: its
    calls do not throw and keep its invariant.  The four transports keep the
    promise, and so, through the virtual methods, does a transport of any of the
    four types; then the calls of a socket do not throw, in any order. *)
From S2P Require Import Prelude Dbuf Messages Codec CodecSpec CodecSafety Time Errors Effects.
From S2P Require Import Fragment Reliable ReliableLocal Stats Compress Database Padding Transport.
From S2P Require Import Udp UdpSend UdpTimer UdpSafety UdpCalls Stream StreamSpec StreamSafe Ws StreamCalls Address Url Socket SocketSpec.

#[local] Arguments decodeMeta : simpl never.
Open Scope Z_scope.

(** ** The promise
    [tr_room n x]: the transport can still take a message with [n] bytes. *)
Class TransportSafe {T : TimeLib} {CL : CompressionLib} {X} (V : VirtualTransport X) := {
  tr_ok : X -> Prop;
  tr_room : Z -> X -> Prop;
  room_le n k x : n <= k -> tr_room k x -> tr_room n x;
  ok_set_base b x : tr_ok x -> tr_ok (tr_set_base b x);
  room_set_base n b x : tr_room n x -> tr_room n (tr_set_base b x);
  ok_updateLatency rtt x : tr_ok x -> tr_ok (tr_updateLatency rtt x);
  send_safe ck m ctx : sendable m = true ->
    triple (fun x => tr_ok x /\ tr_room (body_size m) x) (tr_sendMessage ck m ctx) (fun _ => tr_ok) tr_ok;
  receive_safe ck : walks_all (ck_order ck) -> safe tr_ok (tr_receiveMessage ck);
  handshake_safe ck start : walks_all (ck_order ck) ->
    triple (fun x => tr_ok x /\ tr_room (len (hs_qdbHash start)) x) (tr_performHandshake ck start) (fun _ => tr_ok) tr_ok;
  reconnect_safe ck id : walks_all (ck_order ck) ->
    triple (fun x => tr_ok x /\ tr_room 0 x) (tr_performReconnect ck id)
      (fun _ => tr_ok) tr_ok;
  timer_safe ck : safe tr_ok (tr_handleTimerExpiry ck);
  close_safe : safe tr_ok tr_close;
  closeSync_safe : safe tr_ok tr_closeSync;
}.

(** ** The methods that are inherited *)
Section Inherited.
Context {T : TimeLib} {CL : CompressionLib} {X : Type} (ok : X -> Prop) (room : Z -> X -> Prop).
Context (base : X -> BaseTransport) (set_base : BaseTransport -> X -> X).
Context (send : Clock -> QunetMessage -> SentMessageContext -> ST X SentMessageContext).
Context (receive : Clock -> ST X QunetMessage).
Context (Hbase : forall b x, ok x -> ok (set_base b x)).
Context (Hsend : forall ck m ctx, sendable m = true ->
  triple (fun x => ok x /\ room (body_size m) x) (send ck m ctx) (fun _ => ok) ok).
Context (Hreceive : forall ck, walks_all (ck_order ck) -> safe ok (receive ck)).

Lemma modify_base_safe f : safe ok (focus base set_base (modify f) : ST X unit).
Proof. intros x Hx. cbn. by apply Hbase. Qed.

Lemma default_send_safe ck m reliable : sendable m = true ->
  triple (fun x => ok x /\ room (body_size m) x) (BaseTransport_sendMessage base set_base send ck m reliable) (fun _ => ok) ok.
Proof.
  intros Hm. unfold BaseTransport_sendMessage. eapply triple_bind; [by apply Hsend|]. intros ctx.
  apply (safe_bind ok); [by apply safe_lift, headerByte_sendable|]. intros h. apply modify_base_safe.
Qed.

Lemma default_handshake_safe ck start : walks_all (ck_order ck) ->
  triple (fun x => ok x /\ room (len (hs_qdbHash start)) x) (BaseTransport_performHandshake base set_base send receive ck start)
    (fun _ => ok) ok.
Proof.
  intros Hw. eapply triple_bind; [exact (default_send_safe ck (MHandshakeStart start) true eq_refl)|]. intros ?. by apply Hreceive.
Qed.

Lemma default_reconnect_safe ck id : walks_all (ck_order ck) ->
  triple (fun x => ok x /\ room 0 x)
    (BaseTransport_performReconnect base set_base send receive ck id) (fun _ => ok) ok.
Proof.
  intros Hw. eapply triple_bind; [exact (default_send_safe ck (MClientReconnect _) true eq_refl)|]. intros ?. by apply Hreceive.
Qed.
End Inherited.

Lemma no_room_needed {S A} (P : S -> Prop) (m : ST S A) : safe P m -> triple (fun s => P s /\ True) m (fun _ => P) P.
Proof. intros H s [Hs _]. exact (H s Hs). Qed.

(** ** UDP *)
Section Udp.
Context {T : TimeLib} {TL : TimeLaws T} {CL : CompressionLib} `{WL : ByteWriterLaws, RL : ByteReaderLaws}.
Variable millis_float : duration -> SpecFloat.spec_float.
Variable fromMillis_float : SpecFloat.spec_float -> duration.
Hypothesis Hpos : forall r, positive_deadlines millis_float fromMillis_float r.

Lemma udp_set_base b u : udp_ok u -> udp_ok (Udp.set_base b u).
Proof. done. Qed.

Lemma udp_transport_safe : TransportSafe (udp_transport millis_float fromMillis_float).
Proof.
  assert (forall ck m ctx, sendable m = true -> triple (fun u => udp_ok u /\ True) (Udp_send ck m ctx) (fun _ => udp_ok) udp_ok) as Hsend
    by (intros ck m ctx Hm; exact (no_room_needed _ _ (udp_sendMessage_safe (ck_now ck) (ck_ns ck) m ctx Hm))).
  assert (forall ck, walks_all (ck_order ck) -> safe udp_ok (Udp_receive ck)) as Hreceive.
  { intros ck Hw. eapply triple_conseq; [exact (udp_receiveMessage_safe (ck_now ck) (ck_order ck) Hw)|done|by intros ?? []|done]. }
  refine {| tr_ok := udp_ok; tr_room _ _ := True |}.
  - done.
  - exact udp_set_base.
  - done.
  - intros rtt u Hu. exact Hu.
  - exact Hsend.
  - exact Hreceive.
  - intros ck start Hw.
    exact (no_room_needed _ _ (udp_performHandshake_safe (ck_now ck) (ck_turns ck) (ck_ns ck) (ck_order ck) start Hw)).
  - intros ck id Hw. exact (default_reconnect_safe udp_ok (fun _ _ => True) _ _ _ _ udp_set_base Hsend Hreceive ck id Hw).
  - intros ck. exact (udp_handleTimerExpiry_safe _ _ Hpos (ck_now ck) (ck_ns ck)).
  - intros u Hu. exact Hu.
  - intros u Hu. exact Hu.
Defined.
End Udp.

(** ** TCP and WebSocket *)
Section Streams.
Context {T : TimeLib} {CL : CompressionLib} {C : CircularBuffer} {CLaws : CircularBufferLaws C} `{WL : ByteWriterLaws, RL : ByteReaderLaws}.
Variable shutdown : TransportResult unit.
Hypothesis Hshutdown : is_fault shutdown = false.

(** The calls of a transport that inherits what it can, and that always has room. *)
Lemma roomy_safe {X} (base : X -> BaseTransport) set_base (send : Clock -> QunetMessage -> ST X unit) receive (ok : X -> Prop) :
  (forall b x, ok x -> ok (set_base b x)) -> (forall ck m, sendable m = true -> safe ok (send ck m)) ->
  (forall ck, safe ok (receive ck)) ->
  let sendCtx := fun ck m (ctx : SentMessageContext) => _ ← send ck m; mret ctx in
  (forall ck m ctx, sendable m = true -> triple (fun x => ok x /\ True) (sendCtx ck m ctx) (fun _ => ok) ok) /\
  (forall ck start, walks_all (ck_order ck) ->
    triple (fun x => ok x /\ True) (BaseTransport_performHandshake base set_base sendCtx receive ck start) (fun _ => ok) ok) /\
  (forall ck id, walks_all (ck_order ck) ->
    triple (fun x => ok x /\ True) (BaseTransport_performReconnect base set_base sendCtx receive ck id) (fun _ => ok) ok).
Proof.
  intros Hb Hs Hr sendCtx.
  assert (forall ck m ctx, sendable m = true -> triple (fun x => ok x /\ True) (sendCtx ck m ctx) (fun _ => ok) ok) as Hsend.
  { intros ck m ctx Hm. apply no_room_needed. unfold sendCtx. apply safe_bind; [by apply Hs|]. intros _. apply safe_ret. }
  split; [exact Hsend|]. split.
  - exact (default_handshake_safe ok (fun _ _ => True) base set_base sendCtx receive Hb Hsend (fun ck _ => Hr ck)).
  - exact (default_reconnect_safe ok (fun _ _ => True) base set_base sendCtx receive Hb Hsend (fun ck _ => Hr ck)).
Qed.

Lemma tcp_transport_safe : TransportSafe (tcp_transport shutdown).
Proof.
  pose proof (roomy_safe tcp_base tcp_set_base (fun ck => Tcp_sendMessage (ck_now ck) (ck_ns ck)) Tcp_receive tcp_ok (fun b t Ht => Ht)
    (fun ck m Hm => tcp_send_safe (ck_now ck) (ck_ns ck) m Hm) (fun ck => tcp_common_safe _ (stream_receive_safe (ck_now ck)))) as H.
  refine {| tr_ok := tcp_ok; tr_room _ _ := True |}.
  - done.
  - intros b t Ht. exact Ht.
  - done.
  - intros rtt t Ht. exact Ht.
  - exact (proj1 H).
  - intros ck _. exact (tcp_common_safe _ (stream_receive_safe (ck_now ck))).
  - exact (proj1 (proj2 H)).
  - exact (proj2 (proj2 H)).
  - intros ck. exact (tcp_timer_safe (ck_now ck) (ck_ns ck)).
  - exact (tcp_close_safe shutdown Hshutdown).
  - exact (tcp_close_safe shutdown Hshutdown).
Defined.

Lemma ws_transport_safe : TransportSafe ws_transport.
Proof.
  pose proof (roomy_safe wt_base ws_set_base (fun ck => Ws_sendMessage (ck_now ck) (ck_ns ck)) Ws_receive ws_ok (fun b t Ht => Ht)
    (fun ck m Hm => ws_send_safe (ck_now ck) (ck_ns ck) m Hm) (fun ck => ws_receive_safe (ck_now ck))) as H.
  refine {| tr_ok := ws_ok; tr_room _ _ := True |}.
  - done.
  - intros b t Ht. exact Ht.
  - done.
  - intros rtt t Ht. exact Ht.
  - exact (proj1 H).
  - intros ck _. exact (ws_receive_safe (ck_now ck)).
  - exact (proj1 (proj2 H)).
  - exact (proj2 (proj2 H)).
  - intros ck. exact (ws_timer_safe (ck_now ck) (ck_ns ck)).
  - exact ws_close_safe.
  - exact ws_close_safe.
Defined.
End Streams.

(** ** Any transport *)
Section Any.
Context {T : TimeLib} {CL : CompressionLib} {C : CircularBuffer} {Q : Type}.
Context (VU : VirtualTransport UdpTransport) (VT : VirtualTransport TcpTransport).
Context (VQ : VirtualTransport Q) (VW : VirtualTransport WsTransport).
Context (SU : TransportSafe VU) (ST' : TransportSafe VT) (SQ : TransportSafe VQ) (SW : TransportSafe VW).

(** What holds of the object, whatever its type. *)
Definition of_any (P : forall X (V : VirtualTransport X), TransportSafe V -> X -> Prop) (t : AnyTransport Q) : Prop :=
  match t with
  | AUdp t => P _ VU SU t
  | ATcp t => P _ VT ST' t
  | AQuic t => P _ VQ SQ t
  | AWs t => P _ VW SW t
  end.
Definition any_ok : AnyTransport Q -> Prop := of_any (fun _ _ _ => tr_ok).
Definition any_room (n : Z) : AnyTransport Q -> Prop := of_any (fun _ _ _ => tr_room n).

Lemma dispatch_safe {A} P (f : forall X, VirtualTransport X -> ST X A) :
  (forall X V (S : TransportSafe V), triple (P X V S) (f X V) (fun _ => tr_ok) tr_ok) ->
  triple (of_any P) (dispatch VU VT VQ VW f) (fun _ => any_ok) any_ok.
Proof.
  intros H [t|t|t|t] Ht; cbn in *;
    match goal with |- context [f ?X ?V t] => pose proof (H X V _ t Ht) as Hc; by destruct (f X V t) as [[a|e|[]] t'] end.
Qed.

Lemma dispatch_safe_room {A} n (f : forall X, VirtualTransport X -> ST X A) :
  (forall X V (S : TransportSafe V), triple (fun x => tr_ok x /\ tr_room n x) (f X V) (fun _ => tr_ok) tr_ok) ->
  triple (fun t => any_ok t /\ any_room n t) (dispatch VU VT VQ VW f) (fun _ => any_ok) any_ok.
Proof.
  intros H. eapply triple_conseq; [exact (dispatch_safe (fun _ _ _ x => tr_ok x /\ tr_room n x) f H)|by intros [t|t|t|t]|done|done].
Qed.

Lemma any_transport_safe : TransportSafe (any_transport VU VT VQ VW).
Proof.
  refine {| tr_ok := any_ok; tr_room := any_room |}.
  - intros n k [t|t|t|t] Hn; by apply room_le.
  - intros b [t|t|t|t]; apply ok_set_base.
  - intros n b [t|t|t|t]; apply room_set_base.
  - intros rtt [t|t|t|t]; apply ok_updateLatency.
  - intros ck m ctx Hm. apply dispatch_safe_room. intros X V S. by apply send_safe.
  - intros ck Hw. apply (dispatch_safe (fun _ _ _ => tr_ok)). intros X V S. by apply receive_safe.
  - intros ck start Hw. apply dispatch_safe_room. intros X V S. by apply handshake_safe.
  - intros ck id Hw. apply dispatch_safe_room. intros X V S. by apply reconnect_safe.
  - intros ck. apply (dispatch_safe (fun _ _ _ => tr_ok)). intros X V S. apply timer_safe.
  - apply (dispatch_safe (fun _ _ _ => tr_ok)). intros X V S. apply close_safe.
  - apply (dispatch_safe (fun _ _ _ => tr_ok)). intros X V S. apply closeSync_safe.
Defined.
End Any.

(** ** The compression of outgoing messages *)
Section Compression.
Context {CL : CompressionLib} {LL : CompressionLaws CL}.

Lemma doCompress_smaller bound compress type m m' :
  len (dm_data m) < 2 ^ 30 -> doCompress bound compress type m = Ok m' -> len (dm_data m') <= len (dm_data m).
Proof.
  intros Hl H. unfold doCompress in H. rewrite u_small in H by lia. apply bind_ok in H as (out & _ & H).
  destruct (Z.leb_spec (len (dm_data m)) (len out)); injection H as <-; cbn; lia.
Qed.

(** It does not throw, and does not make the data longer. *)
Lemma compress_outgoing_safe c uncompressed m :
  len (dm_data m) < 2 ^ 30 ->
  is_fault (compress_outgoing c uncompressed m) = false /\
  forall t m', compress_outgoing c uncompressed m = Ok (t, m') -> len (dm_data m') <= len (dm_data m).
Proof.
  intros Hl. unfold compress_outgoing.
  assert (exists t, (if uncompressed then Ok CompNone else shouldCompress (dm_data m)) = Ok (E := TransportError) t) as (t & ->)
    by (destruct uncompressed; [by eauto|by apply shouldCompress_ok]).
  cbn [mbind result_bind]. set (res := match t with CompNone => _ | _ => _ end).
  assert (is_fault res = false /\ forall m', res = Ok m' -> len (dm_data m') <= len (dm_data m)) as [Hf Hs].
  { unfold res. destruct t; [split; [done|by intros m' [= <-]]|..];
      (split; [by apply doCompress_error; intros; auto using zstd_compress_error, lz4_compress_error
              |intros m'; by apply doCompress_smaller]). }
  clearbody res. destruct res as [m1|e|f]; [|done..]. cbn. split; [done|]. intros t' m' [= <- <-]. by apply Hs.
Qed.
End Compression.

(** ** The calls of a socket *)
Section Calls.
Context {T : TimeLib} {CL : CompressionLib} {LL : CompressionLaws CL} {AL : AddressLib} `{R : ByteReader}.
Context {X TlsContext : Type} {V : VirtualTransport X} {S : TransportSafe V}.
Variable blake3Hash : list Z -> list Z.
Variable path_join : list Z -> list Z -> list Z.
Variable fs_exists : list Z -> bool.
Variable fs_read : list Z -> option (list Z).
Variable fmt_dec : Z -> list Z.

Definition socket_ok (s : Socket X) : Prop := tr_ok (sk_transport s).

Lemma in_transport_safe {A} (m : ST X A) : safe tr_ok m -> safe socket_ok (in_transport m).
Proof. by apply safe_focus. Qed.
Lemma tr_in_base_preserves {A} (m : ST BaseTransport A) : preserves socket_ok (tr_in_base m).
Proof.
  intros s Hs. unfold tr_in_base, in_transport, focus. destruct (m _). by apply ok_set_base.
Qed.
Lemma tr_in_base_safe f : safe socket_ok (tr_in_base (modify f)).
Proof. intros s Hs. by apply (ok_set_base _ (sk_transport s)). Qed.
#[local] Hint Resolve tr_in_base_preserves : preserves.
#[local] Hint Resolve tr_in_base_safe : safe.

(** A call that sends: where there is room for it. *)
Lemma in_transport_room {A} n (m : ST X A) :
  triple (fun x => tr_ok x /\ tr_room n x) m (fun _ => tr_ok) tr_ok ->
  triple (fun s => socket_ok s /\ tr_room n (sk_transport s)) (in_transport m) (fun _ => socket_ok) socket_ok.
Proof.
  intros H s Hs. specialize (H _ Hs). unfold in_transport, focus. by destruct (m (sk_transport s)) as [[a|e|[]] x].
Qed.

Lemma arc_timeout_safe {A} (P : X -> Prop) (m : ST X A) :
  triple P m (fun _ => tr_ok) tr_ok -> triple P (arc_timeout m) (fun _ => tr_ok) tr_ok.
Proof. intros H x Hx. specialize (H x Hx). unfold arc_timeout. by destruct (m x) as [[a|e|[]] x']. Qed.

(** *** Sending and receiving *)
Lemma Socket_send_safe ck m :
  sendable (om_message m) = true -> body_size (om_message m) < 2 ^ 30 ->
  triple (fun s => socket_ok s /\ tr_room (body_size (om_message m)) (sk_transport s)) (Socket_sendMessage ck m)
    (fun _ => socket_ok) socket_ok.
Proof.
  intros Hm Hl. unfold Socket_sendMessage. eapply triple_bind with
    (Q := fun m' s => sendable m' = true /\ socket_ok s /\ tr_room (body_size m') (sk_transport s)).
  - destruct (om_message m) as [| | | | | | | | | | | | |d]; try done; try (by intros s Hs).
    intros s [Hs Hr]. erewrite bind_run by reflexivity. cbv beta.
    destruct (compress_outgoing_safe (bt_zstdCompressor (tr_base (sk_transport s))) (om_uncompressed m) d Hl) as [Hf Hlen].
    unfold lift, mbind, ST_bind. destruct (compress_outgoing _ _ _) as [[t d']|e|f]; [|exact Hs|done].
    cbn. split; [done|]. split; [done|]. by apply (room_le _ _ _ (Hlen t d' eq_refl)).
  - intros m' s (Hm' & Hs & Hr). pose proof (headerByte_sendable (E := TransportError) m' Hm') as Hh. unfold lift, mbind at 1, ST_bind at 1.
    destruct (headerByte m') as [h|e|f]; [|done..]. cbn zeta. set (ctx := {| ctx_reliable := _ |}). clearbody ctx. revert s Hs Hr.
    assert (triple (fun s => socket_ok s /\ tr_room (body_size m') (sk_transport s))
      (ctx ← in_transport (tr_sendMessage ck m' ctx); tr_in_base (modify (logOutgoingMessage (ck_now ck) h ctx)))
      (fun _ => socket_ok) socket_ok) as H.
    { eapply triple_bind; [apply in_transport_room; by apply send_safe|]. intros c. apply tr_in_base_safe. }
    intros s Hs Hr. by apply H.
Qed.

Lemma Socket_receive_safe ck : walks_all (ck_order ck) -> safe socket_ok (Socket_receiveMessage ck).
Proof.
  intros Hw. unfold Socket_receiveMessage. apply safe_bind; [by apply in_transport_safe, receive_safe|]. intros m.
  apply safe_bind; [|intros _; apply safe_ret]. apply in_transport_safe. intros x Hx. cbn. unfold onIncomingMessage.
  destruct m; try exact Hx. apply ok_set_base. destruct (_ <? _); [by apply ok_updateLatency|done].
Qed.

(** *** Connecting and reconnecting *)
Lemma createSocket_safe t0 t1 t2 (options : TransportOptions TlsContext) created n :
  (forall x, created = Ok x -> tr_ok x /\ tr_room n x) -> is_fault created = false ->
  (forall f, (createSocket t0 t1 t2 options created).1 = Fault f -> f = NullDereference /\ expires_between t0 t1 t2 options = true) /\
  forall s d, (createSocket t0 t1 t2 options created).1 = Ok (s, d) -> socket_ok s /\ tr_room n (sk_transport s).
Proof.
  intros Hx Hf. split.
  { intros f Ht. destruct (createSocket_throws t0 t1 t2 options created Hf) as [H1 H2]. split; [by apply H2|].
    rewrite Ht in H1. cbn in H1. by destruct (is_ok created). }
  unfold createSocket. destruct created as [x|e|f]; [|done..]. destruct (Hx x eq_refl) as [Ho Hr].
  destruct (dltb _ _); [done|]. destruct (_ <=? 0); [done|]. intros s d [= <- _]. split; [by apply ok_set_base|by apply room_set_base].
Qed.

Lemma onReconnectSuccess_safe older : safe socket_ok (onReconnectSuccess (V := V) older).
Proof. unfold onReconnectSuccess. safe_auto. Qed.

Lemma reconnect_handshake_safe ck prev : walks_all (ck_order ck) ->
  triple (fun s => socket_ok s /\ tr_room 0 (sk_transport s)) (reconnect_handshake ck prev) (fun _ => socket_ok) socket_ok.
Proof.
  intros Hw. unfold reconnect_handshake. eapply triple_bind; [by apply in_transport_room, arc_timeout_safe, reconnect_safe|].
  intros res. destruct res as [[]|]; try apply safe_throw. apply onReconnectSuccess_safe.
Qed.

Lemma Socket_reconnect_safe t0 t1 t2 ck (options : TransportOptions TlsContext) created (prev : Socket X) :
  walks_all (ck_order ck) -> (forall x, created = Ok x -> tr_ok x /\ tr_room 0 x) -> is_fault created = false ->
  match (Socket_reconnect t0 t1 t2 ck options created prev).1 with
  | Ok (s, _) => socket_ok s
  | Err _ | Fault WouldBlock => True
  | Fault f => f = NullDereference /\ expires_between t0 t1 t2 options = true
  end.
Proof.
  intros Hw Hx Hf. unfold Socket_reconnect. destruct (createSocket_safe t0 t1 t2 options created 0 Hx Hf) as [Hnf Hok].
  destruct (createSocket t0 t1 t2 options created) as [[[s d]|e|f] x]; [|done|destruct (Hnf f eq_refl) as [-> ?]; done].
  specialize (Hok s d eq_refl). pose proof (reconnect_handshake_safe ck (sk_transport prev) Hw s Hok) as H. unfold closing_on_failure.
  by destruct (reconnect_handshake ck (sk_transport prev) s) as [[older|e|[]] s'].
Qed.

(** What a method may throw, and what it keeps. *)
Definition throws_only (F : fault -> Prop) {Y A} (P : Y -> Prop) (m : ST Y A) (Q : Y -> Prop) : Prop :=
  forall s, P s ->
    match m s with
    | (Ok _, s) | (Err _, s) | (Fault WouldBlock, s) => Q s
    | (Fault f, _) => F f
    end.

Lemma throws_bind F {Y A B} (P Q : Y -> Prop) (m : ST Y A) (k : A -> ST Y B) :
  throws_only F P m Q -> (forall a, throws_only F Q (k a) Q) -> throws_only F P (m ≫= k) Q.
Proof.
  intros Hm Hk s Hs. specialize (Hm s Hs). unfold mbind, ST_bind. destruct (m s) as [[a|e|f] s']; [by apply Hk|done|by destruct f].
Qed.
Lemma throws_triple F {Y A} (P Q : Y -> Prop) (m : ST Y A) : triple P m (fun _ => Q) Q -> throws_only F P m Q.
Proof. intros H s Hs. specialize (H s Hs). by destruct (m s) as [[a|e|[]] s']. Qed.
Lemma throws_lift (F : fault -> Prop) {Y A} (P : Y -> Prop) (m : TransportResult A) :
  (forall f, m = Fault f -> F f) -> throws_only F P (lift m : ST Y A) P.
Proof. intros H s Hs. unfold lift. destruct m as [a|e|f]; [done|done|]. specialize (H f eq_refl). by destruct f. Qed.

(** The decoder of the database throws ([Database]); nothing else does, when
    there is memory for the contexts of zstd. *)
Definition database_throws (f : fault) : Prop := exists data, QunetDatabase_decode blake3Hash data = Fault f.
Hypothesis Hcctx : ZSTD_createCCtx = true.
Hypothesis Hdctx : ZSTD_createDCtx = true.

Lemma initCompressors_returns qdb : returns (tr_in_base (V := V) (initCompressors qdb)).
Proof.
  unfold tr_in_base, in_transport. do 2 apply returns_focus. intros b.
  assert (forall level, is_fault (init_with (in_place (ZstdCompressor_init level)) (in_place ZstdDecompressor_init) b).1 = false) as Hplain.
  { intros level. unfold init_with, in_place, ZstdCompressor_init, ZstdDecompressor_init. rewrite Hcctx, Hdctx.
    by destruct (zc_ctx (bt_zstdCompressor b)), (zd_ctx (bt_zstdDecompressor b)). }
  destruct qdb as [[[dict|] level hash]|]; cbn [initCompressors]; [|apply Hplain..].
  unfold init_with, ZstdCompressor_initWithDictionary, ZstdDecompressor_initWithDictionary, ZstdCompressor_init, ZstdDecompressor_init.
  rewrite Hcctx, Hdctx. destruct (zc_ctx (bt_zstdCompressor b)), (zd_ctx (bt_zstdDecompressor b)); cbn; try done; destruct (ZSTD_createCDict _ _); cbn; try done; by destruct (ZSTD_createDDict _).
Qed.

Lemma initCompressors_safe qdb : safe socket_ok (tr_in_base (initCompressors qdb)).
Proof. apply safe_returns; [apply initCompressors_returns|apply tr_in_base_preserves]. Qed.

Lemma onHandshakeSuccess_throws hf :
  throws_only database_throws socket_ok (onHandshakeSuccess blake3Hash path_join fs_exists hf) socket_ok.
Proof.
  unfold onHandshakeSuccess. apply throws_bind; [apply throws_triple, tr_in_base_safe|]. intros _. destruct (hf_qdbData hf) as [q|].
  - apply throws_bind.
    { apply throws_lift. intros f. unfold ZstdDecompressor_init. by rewrite Hdctx. }
    intros dec. apply throws_bind.
    { apply throws_lift. intros f. unfold ZstdDecompressor_decompress. by repeat case_match. }
    intros data. apply throws_bind.
    { apply throws_lift. intros f Hf. exists data. by destruct (QunetDatabase_decode blake3Hash data); simplify_eq/=. }
    intros qdb. apply throws_triple. apply safe_bind; [apply initCompressors_safe|]. intros _. apply safe_get.
  - apply throws_triple, safe_read. intros s _. destruct (sk_usedQdb s).
    + apply safe_bind; [apply initCompressors_safe|]. intros _. apply safe_read. intros ? _.
      apply safe_bind; [by apply safe_modify|]. intros _. apply safe_ret.
    + apply safe_bind; [apply initCompressors_safe|]. intros _. apply safe_ret.
Qed.

(** The hash of a database has at most 16 bytes. *)
Definition hash_fits (usedQdb : option QunetDatabase) : Prop := forall db, usedQdb = Some db -> len (getHash db) <= 16.

Lemma handshake_message_fits usedQdb : hash_fits usedQdb -> len (hs_qdbHash (handshake_message usedQdb)) <= 16.
Proof. intros H. destruct usedQdb as [db|]; cbn; [by apply H|lia]. Qed.

Lemma connect_handshake_throws ck : walks_all (ck_order ck) ->
  throws_only database_throws (fun s => hash_fits (sk_usedQdb s) /\ socket_ok s /\ tr_room 16 (sk_transport s))
    (connect_handshake blake3Hash path_join fs_exists fmt_dec ck) socket_ok.
Proof.
  intros Hw. unfold connect_handshake. intros s (Hq & Hs & Hr). erewrite bind_run by reflexivity. cbv beta.
  apply handshake_message_fits in Hq. revert s Hs Hr Hq. intros s0. generalize (handshake_message (sk_usedQdb s0)) as start.
  intros start Hs Hr Hq. revert s0 Hs Hr.
  assert (throws_only database_throws (fun s => socket_ok s /\ tr_room 16 (sk_transport s))
    (tres ← in_transport (arc_timeout (tr_performHandshake ck start));
     match tres with
     | None => custom HandshakeTimedOut
     | Some (MHandshakeFinish hf) => onHandshakeSuccess blake3Hash path_join fs_exists hf
     | Some (MHandshakeFailure hf) => throw (TE_HandshakeFailure (HandshakeFailureMessage_message fmt_dec hf))
     | Some _ => custom UnexpectedMessage
     end) socket_ok) as H.
  { apply throws_bind with (Q := socket_ok).
    - apply throws_triple, in_transport_room, arc_timeout_safe. eapply triple_conseq; [by apply handshake_safe| |done|done].
      intros x [Hx Hr]. split; [done|by apply (room_le _ _ _ Hq)].
    - intros res. destruct res as [[]|]; try (apply throws_triple, safe_throw). apply onHandshakeSuccess_throws. }
  intros s Hs Hr. by apply H.
Qed.

Lemma load_qdb_throws options folder (s : Socket X) :
  sk_usedQdb s = None ->
  match load_qdb (TlsContext := TlsContext) blake3Hash path_join fs_exists fs_read options folder s with
  | Ok s' => hash_fits (sk_usedQdb s') /\ sk_transport s' = sk_transport s
  | Err _ => True
  | Fault f => database_throws f
  end.
Proof.
  intros Hs. unfold load_qdb. destruct folder as [folder|]; [|split; [|done]; intros db; by rewrite Hs].
  unfold tryFindQdb. destruct (fs_exists _); [|by split]. destruct (fs_read _) as [data|]; [|by split].
  destruct (QunetDatabase_decode blake3Hash data) as [db|e|f] eqn:E; cbn; [|by split|by exists data].
  split; [|done]. intros db' [= <-]. unfold QunetDatabase_decode in E. apply bind_ok in E as (db0 & _ & E). injection E as <-.
  cbn. rewrite len_ztake_max. lia.
Qed.

(** A socket that is connected keeps the invariant of its transport. *)
Lemma Socket_connect_safe t0 t1 t2 ck (options : TransportOptions TlsContext) created folder :
  walks_all (ck_order ck) -> (forall x, created = Ok x -> tr_ok x /\ tr_room 16 x) -> is_fault created = false ->
  match (Socket_connect blake3Hash path_join fs_exists fs_read fmt_dec t0 t1 t2 ck options created folder).1 with
  | Ok (_, s) => socket_ok s
  | Err _ | Fault WouldBlock => True
  | Fault f => database_throws f \/ f = NullDereference /\ expires_between t0 t1 t2 options = true
  end.
Proof.
  intros Hw Hx Hf. unfold Socket_connect. destruct (createSocket_safe t0 t1 t2 options created 16 Hx Hf) as [Hnf Hok].
  assert (forall s d x, createSocket t0 t1 t2 options created = (Ok (s, d), x) -> sk_usedQdb s = None) as Hnone.
  { intros s d x. unfold createSocket. destruct created; [|done..]. destruct (dltb _ _); [done|]. destruct (_ <=? 0); [done|].
    by intros [= <- _ _]. }
  destruct (createSocket t0 t1 t2 options created) as [[[s d]|e|f] x]; [|done|destruct (Hnf f eq_refl) as [-> ?]; by right].
  specialize (Hok s d eq_refl). specialize (Hnone s d x eq_refl). pose proof (load_qdb_throws options folder s Hnone) as Hl.
  destruct (load_qdb _ _ _ _ _ _ _) as [s1|e|f]; [|done|destruct f; first [done|by left]]. destruct Hl as [Hq Ht].
  assert (socket_ok s1 /\ tr_room 16 (sk_transport s1)) as Hs1 by (unfold socket_ok; by rewrite Ht).
  pose proof (connect_handshake_throws ck Hw s1 (conj Hq Hs1)) as H. unfold closing_on_failure.
  by destruct (connect_handshake _ _ _ _ ck s1) as [[ops|e|[]] s']; first [done|by left].
Qed.

(** *** Any calls, in any order
    [Reconnect] is what a connection does with a socket that it lost: a new socket
    takes its place when it is connected.  A call that waits is left waiting. *)
Inductive SocketCall :=
  | CallSend (ck : Clock) (message : OutgoingMessage)
  | CallReceive (ck : Clock)
  | CallTimer (ck : Clock)
  | CallUpdateLatency (rtt : duration)
  | CallClose
  | CallCloseSync
  | CallReconnect (t0 t1 t2 : instant) (ck : Clock) (options : TransportOptions TlsContext) (created : TransportResult X).

Definition perform (c : SocketCall) : ST (Socket X) (option QunetMessage) :=
  match c with
  | CallSend ck m => _ ← Socket_sendMessage ck m; mret None
  | CallReceive ck => m ← Socket_receiveMessage ck; mret (Some m)
  | CallTimer ck => _ ← Socket_handleTimerExpiry ck; mret None
  | CallUpdateLatency rtt => _ ← modify (Socket_updateLatency rtt); mret None
  | CallClose => _ ← Socket_close; mret None
  | CallCloseSync => _ ← Socket_closeSync; mret None
  | CallReconnect t0 t1 t2 ck options created => fun s =>
      match (Socket_reconnect t0 t1 t2 ck options created s).1 with
      | Ok (new, _) => (Ok None, new)
      | Err e => (Err e, s)
      | Fault f => (Fault f, s)
      end
  end.

(** The application sends messages that have an encoder, of less than a gigabyte;
    a transport is created, or not, without a throw, and not so late that the time
    is over between the two checks. *)
Definition possible (c : SocketCall) (s : Socket X) : Prop :=
  match c with
  | CallSend _ m =>
      sendable (om_message m) = true /\ body_size (om_message m) < 2 ^ 30 /\ tr_room (body_size (om_message m)) (sk_transport s)
  | CallReceive ck => walks_all (ck_order ck)
  | CallReconnect t0 t1 t2 ck options created =>
      walks_all (ck_order ck) /\ (forall x, created = Ok x -> tr_ok x /\ tr_room 0 x) /\ is_fault created = false /\
      expires_between t0 t1 t2 options = false
  | _ => True
  end.

Lemma perform_safe c : triple (fun s => socket_ok s /\ possible c s) (perform c) (fun _ => socket_ok) socket_ok.
Proof.
  assert (forall {A B} P (m : ST (Socket X) A) (k : A -> B), triple P m (fun _ => socket_ok) socket_ok ->
    triple P (a ← m; mret (k a)) (fun _ => socket_ok) socket_ok) as Hret.
  { intros A B P m k Hm. eapply triple_bind; [exact Hm|]. intros a. apply safe_ret. }
  assert (forall A (m : ST X A), safe tr_ok m -> triple (fun s : Socket X => socket_ok s /\ True) (_ ← in_transport m; mret None)
    (fun _ : option QunetMessage => socket_ok) socket_ok) as Hin by (intros A m Hm; by apply no_room_needed, Hret, in_transport_safe).
  destruct c as [ck m|ck|ck|rtt| | |t0 t1 t2 ck options created]; cbn [perform possible].
  - intros s (Hs & Hm & Hl & Hr). exact (Hret _ _ _ _ _ (Socket_send_safe ck m Hm Hl) s (conj Hs Hr)).
  - intros s [Hs Hw]. exact (Hret _ _ _ _ _ (Socket_receive_safe ck Hw) s Hs).
  - apply Hin, timer_safe.
  - apply no_room_needed, Hret. intros s Hs. by apply (ok_updateLatency rtt (sk_transport s)).
  - apply Hin, close_safe.
  - apply Hin, closeSync_safe.
  - intros s (Hs & Hw & Hx & Hf & Htime). pose proof (Socket_reconnect_safe t0 t1 t2 ck options created s Hw Hx Hf) as H.
    rewrite Htime in H. destruct (Socket_reconnect _ _ _ _ _ _ s) as [[[new older]|e|[]] x]; cbn in *; try done; by destruct H.
Qed.

(** The results of the calls, and the socket after them. *)
Fixpoint perform_all (cs : list SocketCall) (s : Socket X) : list (TransportResult (option QunetMessage)) * Socket X :=
  match cs with
  | [] => ([], s)
  | c :: cs =>
      let '(res, s) := perform c s in
      let '(ress, s) := perform_all cs s in
      (res :: ress, s)
  end.
Fixpoint all_possible (cs : list SocketCall) (s : Socket X) : Prop :=
  match cs with
  | [] => True
  | c :: cs => possible c s /\ all_possible cs (perform c s).2
  end.

Definition not_thrown (res : TransportResult (option QunetMessage)) : Prop := is_fault res = false \/ res = Fault WouldBlock.

Lemma perform_all_safe cs s :
  socket_ok s -> all_possible cs s -> Forall not_thrown (perform_all cs s).1 /\ socket_ok (perform_all cs s).2.
Proof.
  revert s. induction cs as [|c cs IH]; intros s Hs Hp; cbn; [done|]. destruct Hp as [Hc Hcs].
  pose proof (perform_safe c s (conj Hs Hc)) as H. destruct (perform c s) as [res s1]. cbn in Hcs.
  assert (not_thrown res /\ socket_ok s1) as [Hres Hs1] by (unfold not_thrown; destruct res as [m|e|[]]; try done; by auto).
  specialize (IH s1 Hs1 Hcs). destruct (perform_all cs s1) as [ress s2]. destruct IH as [IH1 IH2]. split; [by constructor|done].
Qed.
End Calls.

(** A deadline is a nanosecond at least. *)
Definition positive_fromMillis (f : SpecFloat.spec_float) : @duration nano_time :=
  if isZero (nano_fromMillis f) then fromNanos 1 else nano_fromMillis f.

Lemma positive_fromMillis_deadlines r : positive_deadlines nano_millis positive_fromMillis r.
Proof.
  intros n. unfold calcRetransmissionDeadline, positive_fromMillis.
  match goal with |- context [nano_fromMillis ?f] => by destruct (isZero (nano_fromMillis f)) eqn:E end.
Qed.
