(* ===== verification/Sorting.v ===== *)
(** * Sorting

    [std::sort] and [std::stable_sort], and the lexicographic order of the keys
    that the source sorts by.  A sort by keys gives a sorted permutation that
    keeps the order of equal keys. *)
From stdpp Require Import sorting.
From S2P Require Import Prelude.

Open Scope Z_scope.

(** Octets are compared in lexicographic order. *)
Fixpoint octets_less (a b : list Z) : bool :=
  match a, b with
  | _, [] => false
  | [], _ => true
  | x :: a, y :: b => if x <? y then true else if y <? x then false else octets_less a b
  end.

(** [std::sort] and [std::stable_sort]: an insertion after the elements that are
    not greater. *)
Fixpoint insert_by {A} (less : A -> A -> bool) (a : A) (l : list A) : list A :=
  match l with
  | [] => [a]
  | b :: l => if less a b then a :: b :: l else b :: insert_by less a l
  end.
Definition sort_by {A} (less : A -> A -> bool) (l : list A) : list A := foldl (fun l a => insert_by less a l) [] l.

(** ** It is a permutation *)
Lemma insert_by_perm {A} less (a : A) l : insert_by less a l ≡ₚ a :: l.
Proof. induction l as [|b l IH]; cbn; [done|]. destruct (less a b); [done|]. by rewrite IH, Permutation_swap. Qed.

Lemma sort_by_perm {A} less (l : list A) : sort_by less l ≡ₚ l.
Proof.
  unfold sort_by. enough (forall acc, foldl (fun l a => insert_by less a l) acc l ≡ₚ acc ++ l) as H by apply (H []).
  induction l as [|a l IH]; intros acc; cbn; [by rewrite app_nil_r|].
  rewrite IH, insert_by_perm. by rewrite <- Permutation_middle.
Qed.

Lemma sorted_nonempty {A} less (l : list A) : l <> [] -> sort_by less l <> [].
Proof. intros Hne Hs. apply Hne, Permutation_nil_r. by rewrite <- (sort_by_perm less), Hs. Qed.

(** ** Lexicographic order *)
Lemma octets_less_asym a b : octets_less a b = true -> octets_less b a = false.
Proof.
  revert b. induction a as [|x a IH]; intros [|y b]; cbn; try done.
  destruct (Z.ltb_spec x y), (Z.ltb_spec y x); try done; try lia. apply IH.
Qed.

Lemma octets_less_eq a b : octets_less a b = false -> octets_less b a = false -> a = b.
Proof.
  revert b. induction a as [|x a IH]; intros [|y b]; cbn; try done.
  destruct (Z.ltb_spec x y), (Z.ltb_spec y x); try done. intros ? ?. f_equal; [lia|by apply IH].
Qed.

(** What is not less is greater or equal, and this is transitive. *)
Lemma octets_less_trans a b c : octets_less b a = false -> octets_less c b = false -> octets_less c a = false.
Proof.
  revert b c. induction a as [|x a IH]; intros [|y b] [|z c]; cbn; try done.
  destruct (Z.ltb_spec x y), (Z.ltb_spec y x), (Z.ltb_spec y z), (Z.ltb_spec z y), (Z.ltb_spec x z), (Z.ltb_spec z x);
    try done; try lia. apply IH.
Qed.

Lemma filter_none {A} (P : A -> Prop) `{forall x, Decision (P x)} (l : list A) :
  (forall x, x ∈ l -> ~ P x) -> filter P l = [].
Proof.
  induction l as [|x l IH]; intros Hl; [done|].
  rewrite filter_cons_False by (apply Hl; by left). apply IH. intros y Hy. apply Hl. by right.
Qed.

Lemma StronglySorted_weaken {A} (R R' : A -> A -> Prop) l :
  (forall a b, R a b -> R' a b) -> StronglySorted R l -> StronglySorted R' l.
Proof. intros HR. induction 1 as [|a l _ IH Ha]; constructor; [done|]. eapply Forall_impl; [done|auto]. Qed.

(** ** Sorting by a key *)
Section ByKey.
Context {A : Type} (less : A -> A -> bool) (key : A -> list Z).
Hypothesis less_key : forall a b, less a b = octets_less (key a) (key b).

Definition not_after (a b : A) : Prop := less b a = false.

Lemma insert_by_sorted a l : StronglySorted not_after l -> StronglySorted not_after (insert_by less a l).
Proof.
  induction 1 as [|b l Hl IH Hb]; cbn; [by repeat constructor|]. destruct (less a b) eqn:Eab.
  - constructor; [by constructor|]. constructor.
    + unfold not_after. rewrite less_key in *. by apply octets_less_asym.
    + eapply Forall_impl; [exact Hb|]. unfold not_after. intros c Hc. rewrite less_key in *.
      by apply (octets_less_trans _ (key b)); [apply octets_less_asym|].
  - constructor; [done|]. rewrite insert_by_perm. by constructor.
Qed.

Lemma sort_by_sorted l : StronglySorted not_after (sort_by less l).
Proof.
  unfold sort_by. assert (StronglySorted not_after []) as H by constructor. revert H. generalize (@nil A).
  induction l as [|a l IH]; intros acc H; cbn; [done|]. by apply IH, insert_by_sorted.
Qed.

(** Elements with the same key stay in order. *)
Lemma insert_by_stable k a l :
  StronglySorted not_after l ->
  filter (fun x => key x = k) (insert_by less a l) = filter (fun x => key x = k) l ++ filter (fun x => key x = k) [a].
Proof.
  induction 1 as [|b l Hl IH Hb]; [done|]. cbn [insert_by]. destruct (less a b) eqn:Eab.
  - rewrite !filter_cons, filter_nil. destruct (decide (key a = k)) as [<-|]; [|by rewrite app_nil_r].
    assert (forall x, x ∈ b :: l -> key x <> key a) as Hne.
    { intros x Hx Hk. assert (less x b = false) as Hxb.
      { apply elem_of_cons in Hx as [->|Hx].
        - destruct (less b b) eqn:Ebb; [|done]. pose proof Ebb as Ebb'. rewrite less_key in Ebb, Ebb'.
          apply octets_less_asym in Ebb'. congruence.
        - rewrite Forall_forall in Hb. by apply Hb. }
      rewrite less_key in *. rewrite Hk in Hxb. congruence. }
    rewrite decide_False by (apply Hne; by left). rewrite (filter_none _ l); [done|].
    intros x Hx. apply Hne. by right.
  - rewrite !(filter_cons _ b). case_decide; rewrite IH; done.
Qed.

Lemma sort_by_stable k l : filter (fun x => key x = k) (sort_by less l) = filter (fun x => key x = k) l.
Proof.
  unfold sort_by. enough (forall acc, StronglySorted not_after acc ->
    filter (fun x => key x = k) (foldl (fun l a => insert_by less a l) acc l)
    = filter (fun x => key x = k) acc ++ filter (fun x => key x = k) l) as H.
  { rewrite (H []); [done|constructor]. }
  induction l as [|a l IH]; intros acc Hacc; cbn [foldl]; [by rewrite filter_nil, app_nil_r|].
  rewrite IH by (by apply insert_by_sorted). rewrite insert_by_stable by done. rewrite <- app_assoc. by rewrite <- filter_app.
Qed.

(** The order of a list does not matter when equal keys are equal elements. *)
Lemma sort_by_unique l k :
  (forall a b, a ∈ l -> b ∈ l -> key a = key b -> a = b) -> l ≡ₚ k -> sort_by less l = sort_by less k.
Proof.
  intros Hkey Hp. apply (StronglySorted_unique_strong not_after); [|apply sort_by_sorted..|].
  - intros a b Ha Hb H1 H2. unfold not_after in *. rewrite less_key in *. apply Hkey.
    + by rewrite sort_by_perm in Ha.
    + by rewrite sort_by_perm, <- Hp in Hb.
    + by apply octets_less_eq.
  - by rewrite !sort_by_perm.
Qed.
End ByKey.
