(* ===== verification/Cache.v ===== *)
(** * Caches, as an interface

    [asp::Cache] is a class of a package that the build fetches: a map whose
    entries expire some time after they were inserted, and which forgets the
    oldest entries when it is full. *)
From S2P Require Import Prelude Time.

Class CacheLib {T : TimeLib} (K V : Type) := {
  cache : Type;
  (** [setMaxEntries], [setTimeToLive], [setWorkInterval] *)
  new_cache : Z -> duration -> duration -> cache;
  (** [get] may forget what has expired. *)
  cache_get : instant -> K -> cache -> option V * cache;
  cache_insert : instant -> K -> V -> cache -> cache;
  (** what is written through the pointer that [get] gave *)
  cache_set : K -> V -> cache -> cache;
}.
Arguments cache {T} K V {CacheLib}.

(** An entry that was inserted is found until it is as old as its time to live,
    unless too many others were inserted since; what is written through the
    pointer to an entry is found in its place. *)
Class CacheLaws {T : TimeLib} {K V : Type} (C : CacheLib K V) := {
  cache_ttl : cache K V -> duration;
  cache_ttl_new n ttl w : cache_ttl (new_cache n ttl w) = ttl;
  cache_ttl_get t k c : cache_ttl (cache_get t k c).2 = cache_ttl c;
  cache_ttl_insert t k v c : cache_ttl (cache_insert t k v c) = cache_ttl c;
  cache_ttl_set k v c : cache_ttl (cache_set k v c) = cache_ttl c;
  cache_max : cache K V -> Z;
  cache_max_new n ttl w : 0 <= n -> cache_max (new_cache n ttl w) = n;
  cache_max_get t k c : cache_max (cache_get t k c).2 = cache_max c;
  cache_max_insert t k v c : cache_max (cache_insert t k v c) = cache_max c;
  cache_max_set k v c : cache_max (cache_set k v c) = cache_max c;
  (** [recent n k v t c]: the last entry that was inserted for [k] is [v], at
      [t], and since then at most [n] entries for other keys were inserted, and
      the cache was not read when the entry was too old.  It is found if the cache
      has room for [n] more. *)
  recent : nat -> K -> V -> instant -> cache K V -> Prop;
  recent_insert t k v c : recent 0 k v t (cache_insert t k v c);
  recent_more n m k v t c : (n <= m)%nat -> recent n k v t c -> recent m k v t c;
  recent_other n k v t t' k' v' c : k' <> k -> recent n k v t c -> recent (S n) k v t (cache_insert t' k' v' c);
  recent_get n k v t t' k' c :
    dleb (since t' t) (cache_ttl c) = true -> recent n k v t c -> recent n k v t (cache_get t' k' c).2;
  get_recent n k v t t' c :
    recent n k v t c -> Z.of_nat n < cache_max c -> dleb (since t' t) (cache_ttl c) = true -> (cache_get t' k c).1 = Some v;
  get_new t k n ttl w : (cache_get t k (new_cache n ttl w)).1 = None;
  get_insert t t' k v c :
    dleb (since t' t) (cache_ttl c) = true -> (cache_get t' k (cache_insert t k v c)).1 = Some v;
  get_set t k v c :
    is_Some (cache_get t k c).1 -> (cache_get t k (cache_set k v (cache_get t k c).2)).1 = Some v;
  (** the entries that a cache may give *)
  cached : K -> V -> cache K V -> Prop;
  cached_new k v n ttl w : cached k v (new_cache n ttl w) -> False;
  cached_get t k v c : (cache_get t k c).1 = Some v -> cached k v c;
  cached_after_get t k k' v c : cached k v (cache_get t k' c).2 -> cached k v c;
  cached_insert t k k' v v' c : cached k v (cache_insert t k' v' c) -> k = k' /\ v = v' \/ cached k v c;
  cached_set k k' v v' c : cached k v (cache_set k' v' c) -> k = k' /\ v = v' \/ cached k v c;
}.

(** ** A list of entries, the newest first *)
Section ListCache.
Context {K V : Type} `{EqDecision K}.

Record list_entry := { le_key : K; le_value : V; le_time : @instant nano_time }.
Record list_cache := {
  lc_max : nat;
  lc_ttl : @duration nano_time;
  lc_entries : list list_entry;
}.

Definition lc_map (f : list list_entry -> list list_entry) (c : list_cache) : list_cache :=
  {| lc_max := lc_max c; lc_ttl := lc_ttl c; lc_entries := f (lc_entries c) |}.
Definition live_entry (t : @instant nano_time) (c : list_cache) (e : list_entry) : bool :=
  dleb (since t (le_time e)) (lc_ttl c).
Definition is_key (k : K) (e : list_entry) : bool := bool_decide (le_key e = k).
Definition set_entry (k : K) (v : V) (e : list_entry) : list_entry :=
  if is_key k e then {| le_key := k; le_value := v; le_time := le_time e |} else e.

#[export] Instance list_cache_lib : CacheLib (T := nano_time) K V := {|
  cache := list_cache;
  new_cache n ttl _ := {| lc_max := Z.to_nat n; lc_ttl := ttl; lc_entries := [] |};
  cache_get t k c :=
    let c := lc_map (List.filter (live_entry t c)) c in
    (le_value <$> List.find (is_key k) (lc_entries c), c);
  cache_insert t k v c :=
    lc_map (fun l => {| le_key := k; le_value := v; le_time := t |} :: take (pred (lc_max c)) l) c;
  cache_set k v c := lc_map (map (set_entry k v)) c;
|}.

Lemma is_key_set k v e : is_key k (set_entry k v e) = is_key k e.
Proof.
  unfold set_entry. destruct (is_key k e) eqn:He; [|done]. unfold is_key. cbn. by rewrite bool_decide_true.
Qed.

Lemma find_set k v l :
  is_Some (List.find (is_key k) l) -> le_value <$> List.find (is_key k) (map (set_entry k v) l) = Some v.
Proof.
  induction l as [|e l IH]; cbn [List.find map]; [by intros []|]. rewrite is_key_set.
  destruct (is_key k e) eqn:He; [|done]. intros _. unfold set_entry. by rewrite He.
Qed.

Lemma filter_set t k v c l :
  List.filter (live_entry t c) (map (set_entry k v) l) = map (set_entry k v) (List.filter (live_entry t c) l).
Proof.
  induction l as [|e l IH]; cbn; [done|].
  assert (live_entry t c (set_entry k v e) = live_entry t c e) as ->
    by (unfold set_entry; by destruct (is_key k e)).
  destruct (live_entry t c e); cbn; by rewrite IH.
Qed.

Lemma filter_twice {A} (f : A -> bool) l : List.filter f (List.filter f l) = List.filter f l.
Proof. induction l as [|a l IH]; cbn; [done|]. destruct (f a) eqn:E; cbn; [|done]. by rewrite E, IH. Qed.

Definition has_entry (k : K) (v : V) (c : list_cache) : Prop :=
  exists e, List.In e (lc_entries c) /\ le_key e = k /\ le_value e = v.

Lemma has_get t k v c : (cache_get (CacheLib := list_cache_lib) t k c).1 = Some v -> has_entry k v c.
Proof.
  cbn. intros (e & He & ->)%fmap_Some. apply List.find_some in He as [Hin Hk]. apply List.filter_In in Hin as [Hin _].
  exists e. split; [done|]. split; [by apply bool_decide_eq_true in Hk|done].
Qed.

Lemma has_insert t k k' v v' (c : list_cache) :
  has_entry k v (cache_insert (CacheLib := list_cache_lib) t k' v' c) -> k = k' /\ v = v' \/ has_entry k v c.
Proof.
  intros (e & [<-|Hin] & <- & <-); [by left|]. right. exists e. split; [|done].
  rewrite <- (take_drop (pred (lc_max c))). apply in_or_app. by left.
Qed.

Lemma has_set k k' v v' (c : list_cache) :
  has_entry k v (cache_set (CacheLib := list_cache_lib) k' v' c) -> k = k' /\ v = v' \/ has_entry k v c.
Proof.
  intros (e & (e' & <- & Hin)%in_map_iff & Hk & Hv). unfold set_entry in *.
  destruct (is_key k' e'); cbn in *; [by left|]. right. by exists e'.
Qed.

(** The entry is among the first [n + 1], and the first of its key. *)
Definition recent_entry (n : nat) (k : K) (v : V) (t : @instant nano_time) (c : list_cache) : Prop :=
  (n < lc_max c)%nat -> exists l1 l2, lc_entries c = l1 ++ {| le_key := k; le_value := v; le_time := t |} :: l2 /\
    Forall (fun e => is_key k e = false) l1 /\ (length l1 <= n)%nat.

Lemma recent_entry_other n k v t t' k' v' (c : list_cache) :
  k' <> k -> recent_entry n k v t c -> recent_entry (S n) k v t (cache_insert (CacheLib := list_cache_lib) t' k' v' c).
Proof.
  intros Hk H Hn. cbn in Hn. destruct H as (l1 & l2 & He & Hl & Hlen); [lia|].
  exists ({| le_key := k'; le_value := v'; le_time := t' |} :: l1). cbn. rewrite He, take_app, take_ge by lia.
  destruct (pred (lc_max c) - length l1)%nat as [|j] eqn:Ej; [lia|]. cbn. eexists. split; [done|]. split; [|lia].
  constructor; [|done]. unfold is_key. cbn. by rewrite bool_decide_false.
Qed.

Lemma recent_entry_get n k v t t' k' (c : list_cache) :
  dleb (since t' t) (lc_ttl c) = true -> recent_entry n k v t c -> recent_entry n k v t (cache_get (CacheLib := list_cache_lib) t' k' c).2.
Proof.
  intros Ht H Hn. cbn in Hn. destruct H as (l1 & l2 & He & Hl & Hlen); [done|]. cbn. rewrite He, List.filter_app. cbn.
  assert (live_entry t' c {| le_key := k; le_value := v; le_time := t |} = true) as -> by exact Ht. do 2 eexists. split; [done|]. split.
  - rewrite List.Forall_forall in Hl |- *. intros e [Hin _]%List.filter_In. by apply Hl.
  - etransitivity; [|exact Hlen]. apply List.filter_length_le.
Qed.

Lemma recent_entry_found n k v t t' (c : list_cache) :
  recent_entry n k v t c -> (n < lc_max c)%nat -> dleb (since t' t) (lc_ttl c) = true ->
  (cache_get (CacheLib := list_cache_lib) t' k c).1 = Some v.
Proof.
  intros H Hn Ht. destruct H as (l1 & l2 & He & Hl & _); [done|]. cbn. rewrite He. clear He. induction l1 as [|e l1 IH]; cbn.
  - assert (live_entry t' c {| le_key := k; le_value := v; le_time := t |} = true) as -> by exact Ht.
    cbn. unfold is_key. cbn. by rewrite bool_decide_true.
  - apply Forall_cons in Hl as [He Hl]. destruct (live_entry t' c e); [cbn; rewrite He|]; by apply IH.
Qed.

#[export] Instance list_cache_laws : CacheLaws list_cache_lib.
Proof.
  refine {| cache_ttl := lc_ttl : @cache nano_time K V _ -> @duration nano_time; cached := has_entry;
            cache_max := (fun c => Z.of_nat (lc_max c)) : @cache nano_time K V _ -> Z; recent := recent_entry |}; try done.
  - intros n ttl w Hn. cbn. lia.
  - intros t k v c _. exists [], (take (pred (lc_max c)) (lc_entries c)). by repeat split.
  - intros n m k v t c Hnm H Hm. destruct H as (l1 & l2 & He & Hl & Hlen); [lia|]. exists l1, l2. split; [done|]. split; [done|lia].
  - intros n k v t t' k' v' c. apply recent_entry_other.
  - intros n k v t t' k' c. apply recent_entry_get.
  - intros n k v t t' c H Hn. apply (recent_entry_found n k v t t' c H). lia.
  - intros t t' k v c Hlive. cbn. unfold live_entry at 1. cbn in *. rewrite Hlive. cbn.
    unfold is_key. cbn. by rewrite bool_decide_true.
  - intros t k v c [x Hx]. cbn in *. rewrite (filter_set t k v c), (filter_twice (live_entry t c)).
    apply find_set. apply fmap_Some in Hx as (e & He & _). by eexists.
  - by intros k v n ttl w (e & [] & _).
  - apply has_get.
  - intros t k k' v c (e & Hin & He). cbn in Hin. apply List.filter_In in Hin as [Hin _]. by exists e.
  - apply has_insert.
  - apply has_set.
Defined.
End ListCache.
