(* ===== verification/Resolver.v ===== *)
(** * Resolver

    [include/qunet/dns/Resolver.hpp], [src/dns/Resolver.cpp],
    [src/dns/ResolverAres.cpp], [src/dns/ResolverSimple.cpp]: queries for the A,
    AAAA and SRV records of a name, in front of a library that answers them
    later, with a cache per type.  The resolver calls the callback of a query;
    a method of the model returns the calls that it makes, in order. *)
From S2P Require Import Prelude Messages Time Address Sorting Cache.

(** [qsox::resolver::Error], the values that the source uses *)
Inductive ResolverError :=
  | RE_Success
  | RE_NoData
  | RE_TemporaryFailure
  | RE_UnknownHost
  | RE_OutOfMemory
  | RE_Other.
#[export] Instance ResolverError_eq_dec : EqDecision ResolverError.
Proof. solve_decision. Defined.
Abbreviation ResolverResult := (result ResolverError).

Record SRVEndpoint := {
  srv_target : list Z;
  srv_port : Z;
  srv_priority : Z;
  srv_weight : Z;
}.

Inductive DNSTransport := DT_Udp | DT_Tcp | DT_Tls | DT_Https.
#[export] Instance DNSTransport_eq_dec : EqDecision DNSTransport.
Proof. solve_decision. Defined.

(** ** What the resolver uses
    [c-ares], the types of IP addresses of the socket library, and the iterators
    that cut a string at its commas and put it together. *)
Inductive ares_status :=
  | ARES_SUCCESS
  | ARES_ENODATA
  | ARES_ESERVFAIL
  | ARES_ENOTFOUND
  | ARES_ENOMEM
  | ARES_ETIMEOUT
  | ARES_EOTHER (code : Z).
Inductive ares_type := ARES_REC_TYPE_A | ARES_REC_TYPE_AAAA | ARES_REC_TYPE_SRV | ARES_REC_TYPE_OTHER (type : Z).
#[export] Instance ares_type_eq_dec : EqDecision ares_type.
Proof. solve_decision. Defined.
Inductive ares_u16_key := ARES_RR_SRV_PORT | ARES_RR_SRV_PRIORITY | ARES_RR_SRV_WEIGHT.

Class DnsLib {AL : AddressLib} := {
  Ipv4Address : Type;
  Ipv6Address : Type;
  ipv4_LOCALHOST : Ipv4Address;
  ipv6_LOCALHOST : Ipv6Address;
  ipv4_octets : Z -> Z -> Z -> Z -> Ipv4Address;
  ip_of_v4 : Ipv4Address -> ip;
  ip_of_v6 : Ipv6Address -> ip;
  (** [qsox::SocketAddress::parse] *)
  address_parse : list Z -> option address;
  (** [asp::iter::split(s, ',')] and [join(",")] *)
  split_commas : list Z -> list (list Z);
  join_commas : list (list Z) -> list Z;
  (** the channel, the answers and the records in them *)
  ares_channel : Type;
  ares_dns_record : Type;
  ares_dns_rr : Type;
  rr_cnt : ares_dns_record -> nat;
  rr_get : ares_dns_record -> nat -> ares_dns_rr;
  rr_get_type : ares_dns_rr -> ares_type;
  rr_get_addr : ares_dns_rr -> option Ipv4Address;
  rr_get_addr6 : ares_dns_rr -> option Ipv6Address;
  rr_get_target : ares_dns_rr -> option (list Z);
  rr_get_u16 : ares_u16_key -> ares_dns_rr -> Z;
  (** A query gives a status; the library may answer before it returns. *)
  ares_query : ares_type -> list Z -> option ares_channel ->
               ares_status * option (ares_status * ares_dns_record) * option ares_channel;
  ares_set_servers_csv : list Z -> option ares_channel -> option ares_channel;
  ares_get_servers_csv : ares_channel -> list Z;
}.

(** What is written can be read back. *)
Class DnsLaws {AL : AddressLib} (D : DnsLib) := {
  parse_toString a : address_parse (addr_toString a) = Some a;
  toString_no_comma a : 44 ∉ addr_toString a;
  split_join l : Forall (fun s => 44 ∉ s) l -> l <> [] -> split_commas (join_commas l) = l;
}.

Definition errorFromStatus (status : ares_status) : ResolverError :=
  match status with
  | ARES_SUCCESS => RE_Success
  | ARES_ENODATA => RE_NoData
  | ARES_ESERVFAIL => RE_TemporaryFailure
  | ARES_ENOTFOUND => RE_UnknownHost
  | ARES_ENOMEM => RE_OutOfMemory
  | ARES_ETIMEOUT => RE_TemporaryFailure
  | ARES_EOTHER _ => RE_Other
  end.

Section Records.
Context {AL : AddressLib} {D : DnsLib}.

Record DNSRecordA := { a_addresses : list Ipv4Address }.
Record DNSRecordAAAA := { aaaa_addresses : list Ipv6Address }.
Record DNSRecordSRV := { srv_endpoints : list SRVEndpoint }.

(** ** Reading an answer *)
Definition rrs (result : ares_dns_record) : list ares_dns_rr := rr_get result <$> seq 0 (rr_cnt result).

Definition parseQueryA (result : ares_dns_record) : ResolverResult DNSRecordA :=
  let addresses := foldl (fun addresses rr =>
    if negb (bool_decide (rr_get_type rr = ARES_REC_TYPE_A)) then addresses
    else match rr_get_addr rr with Some addr => addresses ++ [addr] | None => addresses end) [] (rrs result) in
  if bool_decide (addresses = []) then Err RE_NoData else Ok {| a_addresses := addresses |}.

Definition parseQueryAAAA (result : ares_dns_record) : ResolverResult DNSRecordAAAA :=
  let addresses := foldl (fun addresses rr =>
    if negb (bool_decide (rr_get_type rr = ARES_REC_TYPE_AAAA)) then addresses
    else match rr_get_addr6 rr with Some addr => addresses ++ [addr] | None => addresses end) [] (rrs result) in
  if bool_decide (addresses = []) then Err RE_NoData else Ok {| aaaa_addresses := addresses |}.

Definition endpoint_less (a b : SRVEndpoint) : bool :=
  if negb (srv_priority a =? srv_priority b) then srv_priority a <? srv_priority b
  else srv_weight a <? srv_weight b.

Definition parseQuerySRV (result : ares_dns_record) : ResolverResult DNSRecordSRV :=
  let endpoints := foldl (fun endpoints rr =>
    if negb (bool_decide (rr_get_type rr = ARES_REC_TYPE_SRV)) then endpoints
    else match rr_get_target rr with
         | None => endpoints
         | Some target =>
             endpoints ++ [{| srv_target := target;
                              srv_port := rr_get_u16 ARES_RR_SRV_PORT rr;
                              srv_priority := rr_get_u16 ARES_RR_SRV_PRIORITY rr;
                              srv_weight := rr_get_u16 ARES_RR_SRV_WEIGHT rr |}]
         end) [] (rrs result) in
  if bool_decide (endpoints = []) then Err RE_NoData
  else Ok {| srv_endpoints := sort_by endpoint_less endpoints |}.
End Records.

Section Resolver.
Context {T : TimeLib} {AL : AddressLib} {D : DnsLib}.
Context {CA : CacheLib (list Z) DNSRecordA} {CAAAA : CacheLib (list Z) DNSRecordAAAA}
        {CSRV : CacheLib (list Z) DNSRecordSRV}.
(** What a caller passes as a callback. *)
Context {Callback : Type}.

(** ** The object
    [queries] are the [QueryData] that the library holds, the oldest first;
    [servers] is what the library was last told. *)
Inductive QueryKind := QueryA | QueryAAAA | QuerySRV.
#[export] Instance QueryKind_eq_dec : EqDecision QueryKind.
Proof. solve_decision. Defined.
Record QueryData := {
  q_kind : QueryKind;
  q_callback : Callback;
  q_name : list Z;
}.

(** A call of a callback. *)
Inductive Answer :=
  | AnswerA (res : ResolverResult DNSRecordA)
  | AnswerAAAA (res : ResolverResult DNSRecordAAAA)
  | AnswerSRV (res : ResolverResult DNSRecordSRV).
Definition Call : Type := Callback * Answer.

Record Resolver := {
  m_channel : option ares_channel;
  m_primaryNs : option ip;
  m_secondaryNs : option ip;
  m_transport : DNSTransport;
  m_systemDnsServers : list address;
  m_aCache : cache (list Z) DNSRecordA;
  m_aaaaCache : cache (list Z) DNSRecordAAAA;
  m_srvCache : cache (list Z) DNSRecordSRV;
  r_queries : list QueryData;
  r_servers : list Z;
}.

Definition r_set_channel ch (r : Resolver) : Resolver :=
  {| m_channel := ch; m_primaryNs := m_primaryNs r; m_secondaryNs := m_secondaryNs r; m_transport := m_transport r;
     m_systemDnsServers := m_systemDnsServers r; m_aCache := m_aCache r; m_aaaaCache := m_aaaaCache r;
     m_srvCache := m_srvCache r; r_queries := r_queries r; r_servers := r_servers r |}.
Definition r_set_servers ch csv (r : Resolver) : Resolver :=
  {| m_channel := ch; m_primaryNs := m_primaryNs r; m_secondaryNs := m_secondaryNs r; m_transport := m_transport r;
     m_systemDnsServers := m_systemDnsServers r; m_aCache := m_aCache r; m_aaaaCache := m_aaaaCache r;
     m_srvCache := m_srvCache r; r_queries := r_queries r; r_servers := csv |}.
Definition r_set_ns primary secondary (r : Resolver) : Resolver :=
  {| m_channel := m_channel r; m_primaryNs := primary; m_secondaryNs := secondary; m_transport := m_transport r;
     m_systemDnsServers := m_systemDnsServers r; m_aCache := m_aCache r; m_aaaaCache := m_aaaaCache r;
     m_srvCache := m_srvCache r; r_queries := r_queries r; r_servers := r_servers r |}.
Definition r_set_transport t (r : Resolver) : Resolver :=
  {| m_channel := m_channel r; m_primaryNs := m_primaryNs r; m_secondaryNs := m_secondaryNs r; m_transport := t;
     m_systemDnsServers := m_systemDnsServers r; m_aCache := m_aCache r; m_aaaaCache := m_aaaaCache r;
     m_srvCache := m_srvCache r; r_queries := r_queries r; r_servers := r_servers r |}.
Definition r_set_queries qs (r : Resolver) : Resolver :=
  {| m_channel := m_channel r; m_primaryNs := m_primaryNs r; m_secondaryNs := m_secondaryNs r;
     m_transport := m_transport r; m_systemDnsServers := m_systemDnsServers r; m_aCache := m_aCache r;
     m_aaaaCache := m_aaaaCache r; m_srvCache := m_srvCache r; r_queries := qs; r_servers := r_servers r |}.
Definition r_set_caches a aaaa srv (r : Resolver) : Resolver :=
  {| m_channel := m_channel r; m_primaryNs := m_primaryNs r; m_secondaryNs := m_secondaryNs r;
     m_transport := m_transport r; m_systemDnsServers := m_systemDnsServers r; m_aCache := a;
     m_aaaaCache := aaaa; m_srvCache := srv; r_queries := r_queries r; r_servers := r_servers r |}.

(** ** The name servers *)
Definition reloadServers (r : Resolver) : Resolver :=
  let servers := (fun addr => mk_address addr 53) <$> omap id [m_primaryNs r; m_secondaryNs r] in
  let servers := servers ++ m_systemDnsServers r in
  let servers := if bool_decide (servers = []) then [mk_address (ip_of_v4 (ipv4_octets 1 1 1 1)) 53] else servers in
  let csv := join_commas (addr_toString <$> servers) in
  r_set_servers (ares_set_servers_csv csv (m_channel r)) csv r.

Definition setCustomDnsServers (primary secondary : option ip) (r : Resolver) : Resolver :=
  reloadServers (r_set_ns primary secondary r).
Definition setCustomDnsServer (addr : ip) : Resolver -> Resolver := setCustomDnsServers (Some addr) None.

Definition unsupported_dns : list Z := str "DNS over HTTPS/TLS is not supported yet".
Definition setDnsTransport (transport : DNSTransport) (r : Resolver) : result (list Z) unit * Resolver :=
  if bool_decide (transport = DT_Https) || bool_decide (transport = DT_Tls) then (Err unsupported_dns, r)
  else (Ok tt, reloadServers (r_set_transport transport r)).

(** The constructor, from what [ares_init_options] gives.  The members are
    initialised before its body. *)
Definition Resolver_members (a : cache (list Z) DNSRecordA) (aaaa : cache (list Z) DNSRecordAAAA)
    (srv : cache (list Z) DNSRecordSRV) : Resolver :=
  {| m_channel := None; m_primaryNs := None; m_secondaryNs := None; m_transport := DT_Udp; m_systemDnsServers := [];
     m_aCache := a; m_aaaaCache := aaaa; m_srvCache := srv; r_queries := []; r_servers := [] |}.
Definition r_set_system ch servers (r : Resolver) : Resolver :=
  {| m_channel := Some ch; m_primaryNs := m_primaryNs r; m_secondaryNs := m_secondaryNs r; m_transport := m_transport r;
     m_systemDnsServers := servers; m_aCache := m_aCache r; m_aaaaCache := m_aaaaCache r; m_srvCache := m_srvCache r;
     r_queries := r_queries r; r_servers := r_servers r |}.
Definition setupCache {R} {CL : CacheLib (list Z) R} : cache (list Z) R := new_cache 128 (fromSecs 300) (fromSecs 60).
Definition new_Resolver (init : option ares_channel) (members : Resolver) : Resolver :=
  match init with
  | None => members
  | Some ch =>
      let servers := omap address_parse (split_commas (ares_get_servers_csv ch)) in
      let r := reloadServers (r_set_system ch servers members) in
      r_set_caches setupCache setupCache setupCache r
  end.

(** ** The queries
    What the templates of the source use of a type of records. *)
Class DnsRecord (R : Type) := {
  dr_kind : QueryKind;
  dr_type : ares_type;
  dr_parse : ares_dns_record -> ResolverResult R;
  dr_answer : ResolverResult R -> Answer;
  dr_answered : Answer -> option (ResolverResult R);
  dr_lib : CacheLib (list Z) R;
  dr_cache : Resolver -> cache (list Z) R;
  dr_set_cache : cache (list Z) R -> Resolver -> Resolver;
  (** the record of [localhost], if it has one *)
  dr_localhost : option R;
}.

#[export] Instance record_a : DnsRecord DNSRecordA := {|
  dr_kind := QueryA;
  dr_type := ARES_REC_TYPE_A;
  dr_parse := parseQueryA;
  dr_answer := AnswerA;
  dr_answered a := match a with AnswerA res => Some res | _ => None end;
  dr_lib := CA;
  dr_cache := m_aCache;
  dr_set_cache c r := r_set_caches c (m_aaaaCache r) (m_srvCache r) r;
  dr_localhost := Some {| a_addresses := [ipv4_LOCALHOST] |};
|}.
#[export] Instance record_aaaa : DnsRecord DNSRecordAAAA := {|
  dr_kind := QueryAAAA;
  dr_type := ARES_REC_TYPE_AAAA;
  dr_parse := parseQueryAAAA;
  dr_answer := AnswerAAAA;
  dr_answered a := match a with AnswerAAAA res => Some res | _ => None end;
  dr_lib := CAAAA;
  dr_cache := m_aaaaCache;
  dr_set_cache c r := r_set_caches (m_aCache r) c (m_srvCache r) r;
  dr_localhost := Some {| aaaa_addresses := [ipv6_LOCALHOST] |};
|}.
#[export] Instance record_srv : DnsRecord DNSRecordSRV := {|
  dr_kind := QuerySRV;
  dr_type := ARES_REC_TYPE_SRV;
  dr_parse := parseQuerySRV;
  dr_answer := AnswerSRV;
  dr_answered a := match a with AnswerSRV res => Some res | _ => None end;
  dr_lib := CSRV;
  dr_cache := m_srvCache;
  dr_set_cache c r := r_set_caches (m_aCache r) (m_aaaaCache r) c r;
  dr_localhost := None;
|}.

Section Query.
Context (R : Type) {DR : DnsRecord R}.

Definition cacheRecord (now : instant) (name : list Z) (record : R) (r : Resolver) : Resolver :=
  dr_set_cache (cache_insert (CacheLib := dr_lib) now name record (dr_cache r)) r.

Definition getCached (now : instant) (name : list Z) (r : Resolver) : option R * Resolver :=
  match dr_localhost with
  | Some record =>
      if bool_decide (name = str "localhost") then (Some record, r)
      else let '(v, c) := cache_get (CacheLib := dr_lib) now name (dr_cache r) in (v, dr_set_cache c r)
  | None => let '(v, c) := cache_get (CacheLib := dr_lib) now name (dr_cache r) in (v, dr_set_cache c r)
  end.

(** [queryCallback<T>], with the query that [arg] points to *)
Definition queryCallback (now : instant) (qdata : QueryData) (status : ares_status) (result : ares_dns_record)
    (r : Resolver) : list Call * Resolver :=
  match status with
  | ARES_SUCCESS =>
      let res := dr_parse result in
      let r := match res with Ok record => cacheRecord now (q_name qdata) record r | _ => r end in
      ([(q_callback qdata, dr_answer res)], r)
  | _ => ([(q_callback qdata, dr_answer (Err (errorFromStatus status)))], r)
  end.

(** [queryA], [queryAAAA] and [querySRV].  [now'] is when an answer that the
    library gives at once is stored. *)
Definition query (now now' : instant) (name : list Z) (callback : Callback) (r : Resolver) :
    result ResolverError unit * list Call * Resolver :=
  match getCached now name r with
  | (Some record, r) => (Ok tt, [(callback, dr_answer (Ok record))], r)
  | (None, r) =>
      let qdata := {| q_kind := dr_kind; q_callback := callback; q_name := name |} in
      let '(res, answer, ch) := ares_query dr_type name (m_channel r) in
      let r := r_set_channel ch r in
      let '(calls, r) :=
        match answer with
        | Some (status, result) => queryCallback now' qdata status result r
        | None => ([], r_set_queries (r_queries r ++ [qdata]) r)
        end in
      match res with
      | ARES_SUCCESS => (Ok tt, calls, r)
      | _ => (Err (errorFromStatus res), calls, r)
      end
  end.
End Query.

Definition getCachedA := getCached DNSRecordA.
Definition getCachedAAAA := getCached DNSRecordAAAA.
Definition getCachedSRV := getCached DNSRecordSRV.
Definition queryA := query DNSRecordA.
Definition queryAAAA := query DNSRecordAAAA.
Definition querySRV := query DNSRecordSRV.

(** The library answers the [i]-th query that it holds. *)
Definition ares_answers (now : instant) (i : nat) (status : ares_status) (result : ares_dns_record) (r : Resolver) :
    list Call * Resolver :=
  match r_queries r !! i with
  | None => ([], r)
  | Some qdata =>
      let r := r_set_queries (delete i (r_queries r)) r in
      match q_kind qdata with
      | QueryA => queryCallback DNSRecordA now qdata status result r
      | QueryAAAA => queryCallback DNSRecordAAAA now qdata status result r
      | QuerySRV => queryCallback DNSRecordSRV now qdata status result r
      end
  end.

(** What happens to a resolver; the calls that it makes. *)
Inductive ResolverOp :=
  | OpQueryA (now now' : instant) (name : list Z) (callback : Callback)
  | OpQueryAAAA (now now' : instant) (name : list Z) (callback : Callback)
  | OpQuerySRV (now now' : instant) (name : list Z) (callback : Callback)
  | OpAnswer (now : instant) (i : nat) (status : ares_status) (result : ares_dns_record)
  | OpServers (primary secondary : option ip)
  | OpTransport (transport : DNSTransport).

Definition resolver_step (op : ResolverOp) (r : Resolver) : list Call * Resolver :=
  match op with
  | OpQueryA now now' name callback => let '(_, calls, r) := queryA now now' name callback r in (calls, r)
  | OpQueryAAAA now now' name callback => let '(_, calls, r) := queryAAAA now now' name callback r in (calls, r)
  | OpQuerySRV now now' name callback => let '(_, calls, r) := querySRV now now' name callback r in (calls, r)
  | OpAnswer now i status result => ares_answers now i status result r
  | OpServers primary secondary => ([], setCustomDnsServers primary secondary r)
  | OpTransport transport => ([], (setDnsTransport transport r).2)
  end.

Fixpoint resolver_run (ops : list ResolverOp) (r : Resolver) : list Call * Resolver :=
  match ops with
  | [] => ([], r)
  | op :: ops =>
      let '(calls, r) := resolver_step op r in
      let '(calls', r) := resolver_run ops r in
      (calls ++ calls', r)
  end.

(** ** Waiting for an answer
    [wrapSync] passes a callback that puts the answer in a channel, and waits
    for 10 seconds.  [meanwhile] is what happens to the resolver in that time. *)
Definition call_of `{EqDecision Callback} (callback : Callback) (calls : list Call) : option Answer :=
  snd <$> List.find (fun call => bool_decide (call.1 = callback)) calls.

Definition wrapSync `{EqDecision Callback} (R : Type) {DR : DnsRecord R} (now now' : instant) (name : list Z)
    (callback : Callback) (meanwhile : list ResolverOp) (r : Resolver) : ResolverResult R * Resolver :=
  let '(res, calls, r) := query R now now' name callback r in
  match res with
  | Err e => (Err e, r)
  | Fault f => (Fault f, r)
  | Ok _ =>
      let '(calls', r) := resolver_run meanwhile r in
      match call_of callback (calls ++ calls') ≫= dr_answered with
      | None => (Err RE_Other, r)
      | Some record => (record, r)
      end
  end.
Definition asyncQueryA `{EqDecision Callback} := wrapSync DNSRecordA.
Definition asyncQueryAAAA `{EqDecision Callback} := wrapSync DNSRecordAAAA.
Definition asyncQuerySRV `{EqDecision Callback} := wrapSync DNSRecordSRV.
End Resolver.
Arguments Resolver {T AL D CA CAAAA CSRV} Callback.

(** ** The resolver without c-ares
    A thread takes the queries one after the other and asks the system. *)
Module Simple.
Section Simple.
Context {AL : AddressLib} {D : DnsLib} {Callback : Type}.
(** [qsox::resolver::resolveIpv4] and [resolveIpv6] *)
Variable resolveIpv4 : list Z -> ResolverResult Ipv4Address.
Variable resolveIpv6 : list Z -> ResolverResult Ipv6Address.

Record ResolverQuery := {
  rq_aaaa : bool;
  rq_name : list Z;
  rq_callback : Callback;
}.
Inductive SimpleAnswer :=
  | SimpleA (res : ResolverResult DNSRecordA)
  | SimpleAAAA (res : ResolverResult DNSRecordAAAA).

(** The channel of the queries, if the constructor could initialise the sockets. *)
Definition ResolverData : Type := list ResolverQuery.
Definition simple_new (initSockets : bool) : option ResolverData := if initSockets then Some [] else None.

(** The pointer to the channel is not checked. *)
Definition simple_push (q : ResolverQuery) (m_data : option ResolverData) : ResolverResult unit * option ResolverData :=
  match m_data with
  | None => (Fault NullDereference, m_data)
  | Some data => (Ok tt, Some (data ++ [q]))
  end.
Definition simple_queryA (name : list Z) (callback : Callback) :=
  simple_push {| rq_aaaa := false; rq_name := name; rq_callback := callback |}.
Definition simple_queryAAAA (name : list Z) (callback : Callback) :=
  simple_push {| rq_aaaa := true; rq_name := name; rq_callback := callback |}.
Definition simple_querySRV (name : list Z) (callback : Callback) (m_data : option ResolverData) :
    ResolverResult unit * option ResolverData := (Err RE_Other, m_data).
Definition simple_setDnsTransport (transport : DNSTransport) : result (list Z) unit :=
  Err (str "not supported in simple resolver").

(** A turn of the thread *)
Definition simple_turn (data : ResolverData) : list (Callback * SimpleAnswer) * ResolverData :=
  match data with
  | [] => ([], [])
  | q :: data =>
      if rq_aaaa q then
        ([(rq_callback q, SimpleAAAA ((fun ip => {| aaaa_addresses := [ip] |}) <$> resolveIpv6 (rq_name q)))], data)
      else ([(rq_callback q, SimpleA ((fun ip => {| a_addresses := [ip] |}) <$> resolveIpv4 (rq_name q)))], data)
  end.
End Simple.
End Simple.
