(* ===== verification/ResolverSpec.v ===== *)
(** * What the resolver promises

    The records that it gives, from an answer or from the cache, are never
    empty, and endpoints are in the order of their priorities; each callback is
    called once; an answer is kept for five minutes. *)
From stdpp Require Import sorting.
From S2P Require Import Prelude Messages Time Address Sorting Cache Resolver.

Open Scope Z_scope.

(** ** The answers *)
Section Records.
Context {AL : AddressLib} {D : DnsLib}.

Definition priority_key (e : SRVEndpoint) : list Z := [srv_priority e; srv_weight e].

Lemma endpoint_less_key a b : endpoint_less a b = octets_less (priority_key a) (priority_key b).
Proof.
  unfold endpoint_less, priority_key. cbn.
  destruct (Z.eqb_spec (srv_priority a) (srv_priority b)) as [->|]; cbn.
  - rewrite Z.ltb_irrefl. destruct (Z.ltb_spec (srv_weight a) (srv_weight b)); [done|]. by destruct (_ <? _).
  - destruct (Z.ltb_spec (srv_priority a) (srv_priority b)); [done|].
    by rewrite (proj2 (Z.ltb_lt _ _)) by lia.
Qed.

(** By priority, then by weight. *)
Definition endpoints_sorted : list SRVEndpoint -> Prop := StronglySorted (not_after endpoint_less).

Definition a_good (r : DNSRecordA) : Prop := a_addresses r <> [].
Definition aaaa_good (r : DNSRecordAAAA) : Prop := aaaa_addresses r <> [].
Definition srv_good (r : DNSRecordSRV) : Prop := srv_endpoints r <> [] /\ endpoints_sorted (srv_endpoints r).

Lemma parseQueryA_good result r : parseQueryA result = Ok r -> a_good r.
Proof. unfold parseQueryA. intros H. case_bool_decide; [done|]. by simplify_eq. Qed.
Lemma parseQueryAAAA_good result r : parseQueryAAAA result = Ok r -> aaaa_good r.
Proof. unfold parseQueryAAAA. intros H. case_bool_decide; [done|]. by simplify_eq. Qed.
Lemma parseQuerySRV_good result r : parseQuerySRV result = Ok r -> srv_good r.
Proof.
  unfold parseQuerySRV. intros H. case_bool_decide; [done|]. simplify_eq. split; cbn.
  - by apply sorted_nonempty.
  - apply (sort_by_sorted _ priority_key), endpoint_less_key.
Qed.

(** The endpoints of an answer: the records that have a target. *)
Definition rr_endpoint (rr : ares_dns_rr) : option SRVEndpoint :=
  if bool_decide (rr_get_type rr = ARES_REC_TYPE_SRV)
  then (fun target => {| srv_target := target; srv_port := rr_get_u16 ARES_RR_SRV_PORT rr;
                         srv_priority := rr_get_u16 ARES_RR_SRV_PRIORITY rr;
                         srv_weight := rr_get_u16 ARES_RR_SRV_WEIGHT rr |}) <$> rr_get_target rr
  else None.

Lemma parseQuerySRV_endpoints result r :
  parseQuerySRV result = Ok r -> srv_endpoints r ≡ₚ omap rr_endpoint (rrs result).
Proof.
  unfold parseQuerySRV. intros H. case_bool_decide; [done|]. simplify_eq. cbn. rewrite sort_by_perm.
  match goal with |- foldl ?f [] ?l ≡ₚ _ => assert (forall acc, foldl f acc l = acc ++ omap rr_endpoint l) as Hf end.
  { clear. induction (rrs result) as [|rr l IH]; intros acc; cbn [foldl]; [by rewrite app_nil_r|].
    rewrite IH. cbn [omap list_omap]. unfold rr_endpoint at 2. case_bool_decide; cbn [negb]; [|done].
    destruct (rr_get_target rr); cbn; [by rewrite <- app_assoc|done]. }
  by rewrite Hf.
Qed.
End Records.

Section Spec.
Context {T : TimeLib} {AL : AddressLib} {D : DnsLib}.
Context {CA : CacheLib (list Z) DNSRecordA} {CAAAA : CacheLib (list Z) DNSRecordAAAA}
        {CSRV : CacheLib (list Z) DNSRecordSRV}.
Context {LA : CacheLaws CA} {LAAAA : CacheLaws CAAAA} {LSRV : CacheLaws CSRV}.
Context {Callback : Type}.
Abbreviation Resolver := (Resolver Callback).

(** ** The invariant: what the caches hold and for how long *)
Definition five_minutes : duration := fromSecs 300.
Definition cache_wf {R} {CL : CacheLib (list Z) R} {L : CacheLaws CL} (good : R -> Prop) (c : cache (list Z) R) : Prop :=
  cache_ttl c = five_minutes /\ cache_max c = 128 /\ (forall k v, cached k v c -> good v).
Definition resolver_wf (r : Resolver) : Prop :=
  cache_wf a_good (m_aCache r) /\ cache_wf aaaa_good (m_aaaaCache r) /\ cache_wf srv_good (m_srvCache r).

Lemma setupCache_wf {R} {CL : CacheLib (list Z) R} {L : CacheLaws CL} good : cache_wf good setupCache.
Proof. split; [apply cache_ttl_new|]. split; [by apply cache_max_new|]. intros k v []%cached_new. Qed.

(** What a callback may be given. *)
Definition answer_good (a : Answer) : Prop :=
  match a with
  | AnswerA (Ok r) => a_good r
  | AnswerAAAA (Ok r) => aaaa_good r
  | AnswerSRV (Ok r) => srv_good r
  | AnswerA (Err _) | AnswerAAAA (Err _) | AnswerSRV (Err _) => True
  | _ => False
  end.

(** What a step asks for: the type, when, the name and the callback. *)
Definition op_query (op : ResolverOp (Callback := Callback)) : option (QueryKind * instant * instant * list Z * Callback) :=
  match op with
  | OpQueryA now now' name callback => Some (QueryA, now, now', name, callback)
  | OpQueryAAAA now now' name callback => Some (QueryAAAA, now, now', name, callback)
  | OpQuerySRV now now' name callback => Some (QuerySRV, now, now', name, callback)
  | _ => None
  end.

(** What the records of a type promise. *)
Class DnsRecordLaws (R : Type) {DR : DnsRecord (Callback := Callback) R} := {
  dr_good : R -> Prop;
  dr_laws : CacheLaws (dr_lib (R := R));
  dr_parse_good result record : dr_parse (R := R) result = Ok record -> dr_good record;
  dr_localhost_good record : dr_localhost (R := R) = Some record -> dr_good record;
  dr_wf r : resolver_wf r -> cache_wf (CL := dr_lib) (L := dr_laws) dr_good (dr_cache r);
  dr_set_wf c r : resolver_wf r -> cache_wf (CL := dr_lib) (L := dr_laws) dr_good c -> resolver_wf (dr_set_cache (R := R) c r);
  dr_get_set c r : dr_cache (dr_set_cache (R := R) c r) = c;
  dr_set_rest c r : r_queries (dr_set_cache (R := R) c r) = r_queries r /\ m_channel (dr_set_cache (R := R) c r) = m_channel r;
  dr_parse_total result : is_fault (dr_parse (R := R) result) = false;
  dr_answer_good (res : ResolverResult R) : is_fault res = false -> (forall record, res = Ok record -> dr_good record) -> answer_good (dr_answer res);
  dr_answered_total a res : dr_answered (R := R) a = Some res -> answer_good a -> is_fault res = false;
  dr_answered_good a record : dr_answered (R := R) a = Some (Ok record) -> answer_good a -> dr_good record;
  dr_dispatch now i status result r qdata :
    r_queries r !! i = Some qdata -> q_kind qdata = dr_kind (R := R) ->
    ares_answers now i status result r = queryCallback R now qdata status result (r_set_queries (delete i (r_queries r)) r);
  dr_asked op now now' name callback r :
    op_query op = Some (dr_kind (R := R), now, now', name, callback) ->
    resolver_step op r = (let '(_, calls, r) := query R now now' name callback r in (calls, r));
  dr_cache_own r r' :
    (dr_kind (R := R) = QueryA -> m_aCache r = m_aCache r') -> (dr_kind (R := R) = QueryAAAA -> m_aaaaCache r = m_aaaaCache r') ->
    (dr_kind (R := R) = QuerySRV -> m_srvCache r = m_srvCache r') -> dr_cache (R := R) r = dr_cache r';
}.

#[export] Instance record_a_laws : DnsRecordLaws DNSRecordA.
Proof.
  refine {| dr_good := a_good; dr_laws := LA |}; try done.
  - apply parseQueryA_good.
  - by intros r [= <-].
  - by intros r (? & ? & ?).
  - by intros c r (? & ? & ?) ?.
  - intros result. cbn. unfold parseQueryA. by case_bool_decide.
  - intros [a|e|f] Hf H; [by apply H|done|done].
  - intros [r|r|r] res [= <-]; by destruct r.
  - intros [res|res|res] record [= ->]; done.
  - intros now i status result r qdata Hi Hk. unfold ares_answers. by rewrite Hi, Hk.
  - by intros [] ????? [= <- <- <- <-].
  - intros r r' ???. by auto.
Defined.
#[export] Instance record_aaaa_laws : DnsRecordLaws DNSRecordAAAA.
Proof.
  refine {| dr_good := aaaa_good; dr_laws := LAAAA |}; try done.
  - apply parseQueryAAAA_good.
  - by intros r [= <-].
  - by intros r (? & ? & ?).
  - by intros c r (? & ? & ?) ?.
  - intros result. cbn. unfold parseQueryAAAA. by case_bool_decide.
  - intros [a|e|f] Hf H; [by apply H|done|done].
  - intros [r|r|r] res [= <-]; by destruct r.
  - intros [res|res|res] record [= ->]; done.
  - intros now i status result r qdata Hi Hk. unfold ares_answers. by rewrite Hi, Hk.
  - by intros [] ????? [= <- <- <- <-].
  - intros r r' ???. by auto.
Defined.
#[export] Instance record_srv_laws : DnsRecordLaws DNSRecordSRV.
Proof.
  refine {| dr_good := srv_good; dr_laws := LSRV |}; try done.
  - apply parseQuerySRV_good.
  - by intros r (? & ? & ?).
  - by intros c r (? & ? & ?) ?.
  - intros result. cbn. unfold parseQuerySRV. by case_bool_decide.
  - intros [a|e|f] Hf H; [by apply H|done|done].
  - intros [r|r|r] res [= <-]; by destruct r.
  - intros [res|res|res] record [= ->]; done.
  - intros now i status result r qdata Hi Hk. unfold ares_answers. by rewrite Hi, Hk.
  - by intros [] ????? [= <- <- <- <-].
  - intros r r' ???. by auto.
Defined.

(** ** The operations keep the invariant *)
Section Generic.
Context (R : Type) {DR : DnsRecord (Callback := Callback) R} {L : DnsRecordLaws R}.

Lemma getCached_wf now name r :
  resolver_wf r ->
  resolver_wf (getCached R now name r).2 /\ (forall v, (getCached R now name r).1 = Some v -> dr_good v).
Proof.
  intros Hr. pose proof (dr_wf r Hr) as (Httl & Hmax & Hc).
  assert (let '(v, c) := cache_get (CacheLib := dr_lib) now name (dr_cache r) in
          resolver_wf (dr_set_cache c r) /\ (forall v', v = Some v' -> dr_good v')) as H.
  { destruct (cache_get now name (dr_cache r)) as [v c] eqn:E. split.
    - apply dr_set_wf; [done|]. split; [|split].
      + pose proof (cache_ttl_get (CacheLaws := dr_laws) now name (dr_cache r)) as H. rewrite E in H. cbn in H. congruence.
      + pose proof (cache_max_get (CacheLaws := dr_laws) now name (dr_cache r)) as H. rewrite E in H. cbn in H. congruence.
      + intros k v' Hv. apply (Hc k), (cached_after_get (CacheLaws := dr_laws) now k name). by rewrite E.
    - intros v' ->. apply (Hc name), (cached_get (CacheLaws := dr_laws) now). by rewrite E. }
  unfold getCached. destruct dr_localhost as [record|] eqn:El.
  - case_bool_decide.
    + split; [done|]. intros v [= <-]. by apply dr_localhost_good.
    + by destruct (cache_get now name (dr_cache r)).
  - by destruct (cache_get now name (dr_cache r)).
Qed.

Lemma cacheRecord_wf now name record r : resolver_wf r -> dr_good record -> resolver_wf (cacheRecord R now name record r).
Proof.
  intros Hr Hg. pose proof (dr_wf r Hr) as (Httl & Hmax & Hc). apply dr_set_wf; [done|]. split; [|split].
  - by rewrite cache_ttl_insert.
  - by rewrite cache_max_insert.
  - intros k v [[-> ->]|H]%cached_insert; [done|]. by apply (Hc k).
Qed.

Lemma queryCallback_wf now qdata status result r :
  resolver_wf r ->
  resolver_wf (queryCallback R now qdata status result r).2 /\
  Forall (fun call => answer_good call.2) (queryCallback R now qdata status result r).1.
Proof.
  intros Hr.
  assert (forall res : ResolverResult R, is_fault res = false -> (forall record, res = Ok record -> dr_good record) ->
    Forall (fun call : Call => answer_good call.2) [(q_callback qdata, dr_answer res)]) as Ha
    by (intros res Hf H; repeat constructor; by apply dr_answer_good).
  unfold queryCallback. destruct status; cbn [fst snd]; [|by split; [|apply Ha]..].
  destruct (dr_parse result) as [record|e|f] eqn:E; cbn [fst snd].
  - apply dr_parse_good in E. split; [by apply cacheRecord_wf|]. apply Ha; [done|]. by intros ? [= <-].
  - by split; [|apply Ha].
  - pose proof (dr_parse_total result) as Hf. by rewrite E in Hf.
Qed.

(** One call of the callback that was given to the query. *)
Lemma queryCallback_calls now qdata status result r :
  (queryCallback R now qdata status result r).1.*1 = [q_callback qdata] /\
  r_queries (queryCallback R now qdata status result r).2 = r_queries r.
Proof.
  unfold queryCallback. destruct status; cbn [fst snd]; try done. split; [done|].
  destruct (dr_parse result); [|done..]. apply dr_set_rest.
Qed.

Lemma getCached_rest now name r :
  r_queries (getCached R now name r).2 = r_queries r /\ m_channel (getCached R now name r).2 = m_channel r.
Proof.
  unfold getCached. destruct dr_localhost; [case_bool_decide; [done|]|];
    destruct (cache_get now name (dr_cache r)); apply dr_set_rest.
Qed.

Lemma query_wf now now' name callback r :
  resolver_wf r ->
  resolver_wf (query R now now' name callback r).2 /\
  Forall (fun call => answer_good call.2) (query R now now' name callback r).1.2.
Proof.
  intros Hr. pose proof (getCached_wf now name r Hr) as [Hw Hg]. unfold query.
  destruct (getCached R now name r) as [[record|] r1]; cbn [fst snd] in *.
  - split; [done|]. repeat constructor. cbn. apply dr_answer_good; [done|]. intros ? [= <-]. by apply Hg.
  - destruct (ares_query dr_type name (m_channel r1)) as [[res answer] ch].
    set (r2 := r_set_channel ch r1). assert (resolver_wf r2) as Hw2 by done.
    destruct answer as [[status result]|].
    + pose proof (queryCallback_wf now' (Build_QueryData dr_kind callback name) status result r2 Hw2) as [Hw3 Hcalls].
      destruct (queryCallback R now' _ status result r2) as [calls r3]. by destruct res.
    + by destruct res; cbn.
Qed.

Lemma query_calls now now' name callback r :
  (query R now now' name callback r).1.2.*1 ++ (q_callback <$> r_queries (query R now now' name callback r).2)
  ≡ₚ (q_callback <$> r_queries r) ++ [callback].
Proof.
  pose proof (getCached_rest now name r) as [Hq _]. unfold query.
  destruct (getCached R now name r) as [[record|] r1]; cbn [fst snd] in *.
  - rewrite Hq. by rewrite Permutation_app_comm.
  - destruct (ares_query dr_type name (m_channel r1)) as [[res answer] ch].
    set (r2 := r_set_channel ch r1). assert (r_queries r2 = r_queries r) as Hq2 by done.
    destruct answer as [[status result]|].
    + pose proof (queryCallback_calls now' (Build_QueryData dr_kind callback name) status result r2) as [Hc Hr].
      destruct (queryCallback R now' _ status result r2) as [calls r3]. cbn [fst snd] in *.
      destruct res; cbn [fst snd]; rewrite Hc, Hr, Hq2; by rewrite Permutation_app_comm.
    + destruct res; cbn [fst snd]; cbn [r_set_queries r_queries]; by rewrite Hq2, fmap_app.
Qed.
End Generic.

Lemma ares_answers_wf now i status result (r : Resolver) :
  resolver_wf r ->
  resolver_wf (ares_answers now i status result r).2 /\
  Forall (fun call => answer_good call.2) (ares_answers now i status result r).1.
Proof.
  intros Hr. unfold ares_answers. destruct (r_queries r !! i) as [qdata|]; [|done].
  destruct (q_kind qdata);
    [by apply (queryCallback_wf DNSRecordA)|by apply (queryCallback_wf DNSRecordAAAA)|by apply (queryCallback_wf DNSRecordSRV)].
Qed.

Lemma resolver_step_wf op (r : Resolver) :
  resolver_wf r ->
  resolver_wf (resolver_step op r).2 /\ Forall (fun call => answer_good call.2) (resolver_step op r).1.
Proof.
  intros Hr. destruct op as [now now' name cb|now now' name cb|now now' name cb|now i status result|p s|t]; cbn [resolver_step].
  - pose proof (query_wf DNSRecordA now now' name cb r Hr) as H. unfold queryA. by destruct query as [[??]?].
  - pose proof (query_wf DNSRecordAAAA now now' name cb r Hr) as H. unfold queryAAAA. by destruct query as [[??]?].
  - pose proof (query_wf DNSRecordSRV now now' name cb r Hr) as H. unfold querySRV. by destruct query as [[??]?].
  - by apply ares_answers_wf.
  - done.
  - unfold setDnsTransport. by destruct (_ || _).
Qed.

Lemma resolver_run_wf ops (r : Resolver) :
  resolver_wf r ->
  resolver_wf (resolver_run ops r).2 /\ Forall (fun call => answer_good call.2) (resolver_run ops r).1.
Proof.
  revert r. induction ops as [|op ops IH]; intros r Hr; [done|]. cbn [resolver_run].
  pose proof (resolver_step_wf op r Hr) as [Hw Hc]. destruct (resolver_step op r) as [calls r1].
  pose proof (IH r1 Hw) as [Hw2 Hc2]. destruct (resolver_run ops r1) as [calls' r2]. split; [done|].
  by apply Forall_app.
Qed.

(** C34. From its construction on, whatever is asked and whatever the library
    answers, the resolver gives only records that are not empty, SRV endpoints
    in the order of their priorities and weights, and keeps to its invariant. *)
Theorem answers_well_formed ch members ops :
  let '(calls, r) := resolver_run ops (new_Resolver (Some ch) members) in
  resolver_wf r /\ Forall (fun call => answer_good call.2) calls.
Proof.
  pose proof (resolver_run_wf ops (new_Resolver (Some ch) members)) as H.
  destruct resolver_run as [calls r]. apply H. split_and!; apply setupCache_wf.
Qed.

(** ** Each callback once *)
Definition op_callbacks (op : ResolverOp (Callback := Callback)) : list Callback :=
  match op with OpQueryA _ _ _ cb | OpQueryAAAA _ _ _ cb | OpQuerySRV _ _ _ cb => [cb] | _ => [] end.

Lemma resolver_step_calls op (r : Resolver) :
  (resolver_step op r).1.*1 ++ (q_callback <$> r_queries (resolver_step op r).2)
  ≡ₚ (q_callback <$> r_queries r) ++ op_callbacks op.
Proof.
  destruct op as [now now' name cb|now now' name cb|now now' name cb|now i status result|p s|t]; cbn [resolver_step op_callbacks].
  - pose proof (query_calls DNSRecordA now now' name cb r) as H. unfold queryA. by destruct query as [[??]?].
  - pose proof (query_calls DNSRecordAAAA now now' name cb r) as H. unfold queryAAAA. by destruct query as [[??]?].
  - pose proof (query_calls DNSRecordSRV now now' name cb r) as H. unfold querySRV. by destruct query as [[??]?].
  - rewrite app_nil_r. unfold ares_answers. destruct (r_queries r !! i) as [qdata|] eqn:E; [|done].
    set (r1 := r_set_queries (delete i (r_queries r)) r).
    assert (q_callback <$> r_queries r ≡ₚ q_callback qdata :: (q_callback <$> r_queries r1)) as ->
      by (by rewrite (delete_Permutation (r_queries r) i qdata) at 1).
    destruct (q_kind qdata).
    + pose proof (queryCallback_calls DNSRecordA now qdata status result r1) as [-> ->]. done.
    + pose proof (queryCallback_calls DNSRecordAAAA now qdata status result r1) as [-> ->]. done.
    + pose proof (queryCallback_calls DNSRecordSRV now qdata status result r1) as [-> ->]. done.
  - by rewrite app_nil_r.
  - rewrite app_nil_r. unfold setDnsTransport. by destruct (_ || _).
Qed.

(** Each callback that was given to a query was called exactly once, or the
    library still holds its query, whatever is asked, answered and set
    meanwhile. *)
Theorem callbacks_called_once ops (r : Resolver) :
  let '(calls, r') := resolver_run ops r in
  calls.*1 ++ (q_callback <$> r_queries r') ≡ₚ (q_callback <$> r_queries r) ++ (ops ≫= op_callbacks).
Proof.
  revert r. induction ops as [|op ops IH]; intros r; cbn [resolver_run]; [by rewrite app_nil_r|].
  pose proof (resolver_step_calls op r) as H. destruct (resolver_step op r) as [calls r1]. cbn [fst snd] in H.
  specialize (IH r1). destruct (resolver_run ops r1) as [calls' r2].
  rewrite fmap_app, <- app_assoc, IH, app_assoc, H. by rewrite <- app_assoc.
Qed.
(** ** Answers from the cache *)
Section Cached.
Context (R : Type) {DR : DnsRecord (Callback := Callback) R} {L : DnsRecordLaws R}.

(** A query of another name, of this type. *)
Definition other_query (name : list Z) (kind : QueryKind) (name' : list Z) : bool :=
  bool_decide (kind = dr_kind (R := R)) && negb (bool_decide (name' = name)).
(** How many of those the library holds, and how many are asked. *)
Definition others_pending (name : list Z) (r : Resolver) : nat :=
  length (List.filter (fun q => other_query name (q_kind q) (q_name q)) (r_queries r)).
Definition others_asked (name : list Z) (ops : list (ResolverOp (Callback := Callback))) : nat :=
  length (List.filter (fun op => match op_query op with Some (kind, _, _, name', _) => other_query name kind name' | None => false end) ops).

(** The record of [name] was stored at [t]; at most [m] records of other names
    were stored since, or may be when the library answers what it holds, which
    is no query of [name]. *)
Definition fresh (name : list Z) (record : R) (t : instant) (m : nat) (r : Resolver) : Prop :=
  exists n, recent (CacheLaws := dr_laws) n name record t (dr_cache r) /\ (n + others_pending name r <= m)%nat /\
    Forall (fun q => q_kind q = dr_kind (R := R) -> q_name q <> name) (r_queries r).

(** What asks, asks within five minutes of [t]. *)
Definition asks_within (t : instant) (op : ResolverOp (Callback := Callback)) : Prop :=
  match op_query op with Some (_, now, _, _, _) => dleb (since now t) five_minutes = true | None => True end.

Lemma fresh_same name record t m r r' :
  dr_cache (R := R) r = dr_cache (R := R) r' -> r_queries r = r_queries r' -> fresh name record t m r -> fresh name record t m r'.
Proof. intros Hc Hq. unfold fresh, others_pending. by rewrite Hc, Hq. Qed.

Lemma fresh_more name record t m m' r : (m <= m')%nat -> fresh name record t m r -> fresh name record t m' r.
Proof. intros Hm (n & Hn & Hle & Hq). exists n. split_and!; [done|lia|done]. Qed.

(** A query that the library keeps. *)
Lemma fresh_pushed name record t m r qdata :
  (q_kind qdata = dr_kind (R := R) -> q_name qdata <> name) -> fresh name record t m r ->
  fresh name record t ((if other_query name (q_kind qdata) (q_name qdata) then 1 else 0) + m) (r_set_queries (r_queries r ++ [qdata]) r).
Proof.
  intros Hq (n & Hn & Hle & Hqs). exists n. rewrite (dr_cache_own (R := R) (r_set_queries _ r) r) by done. split; [done|].
  unfold others_pending in *. cbn [r_set_queries r_queries]. rewrite List.filter_app, length_app. cbn.
  split; [by destruct other_query; cbn; lia|]. by apply Forall_app; split; [|constructor].
Qed.

(** A query that the library forgets. *)
Lemma fresh_popped name record t m r i qdata :
  r_queries r !! i = Some qdata -> fresh name record t m r ->
  fresh name record t (m - (if other_query name (q_kind qdata) (q_name qdata) then 1 else 0)) (r_set_queries (delete i (r_queries r)) r) /\
  (q_kind qdata = dr_kind (R := R) -> q_name qdata <> name) /\
  ((if other_query name (q_kind qdata) (q_name qdata) then 1 else 0) <= m)%nat.
Proof.
  intros Hi (n & Hn & Hle & Hqs). pose proof (delete_Permutation _ _ _ Hi) as Hp. rewrite Hp in Hqs. apply Forall_cons in Hqs as [Hq Hqs].
  assert (others_pending name r = (if other_query name (q_kind qdata) (q_name qdata) then 1 else 0) +
            others_pending name (r_set_queries (delete i (r_queries r)) r))%nat as Hlen.
  { unfold others_pending. cbn [r_set_queries r_queries]. rewrite delete_take_drop.
    rewrite <- (take_drop_middle _ _ _ Hi) at 1. rewrite !List.filter_app, !length_app. cbn [List.filter].
    destruct other_query; cbn [length]; lia. }
  split; [|by split; [|lia]]. exists n. rewrite (dr_cache_own (R := R) (r_set_queries _ r) r) by done.
  split_and!; [done|lia|done].
Qed.

(** Reading the cache of this type. *)
Lemma getCached_fresh now t name name' record m r :
  resolver_wf r -> dleb (since now t) five_minutes = true -> fresh name record t m r ->
  fresh name record t m (getCached R now name' r).2.
Proof.
  intros Hr Ht Hf. destruct (dr_wf (R := R) r Hr) as (Httl & _ & _).
  assert (let '(v, c) := cache_get (CacheLib := dr_lib) now name' (dr_cache r) in fresh name record t m (dr_set_cache c r)) as H.
  { pose proof (cache_ttl_get (CacheLaws := dr_laws) now name' (dr_cache r)) as Htg.
    destruct Hf as (n & Hn & Hle & Hq). rewrite <- Httl in Ht.
    pose proof (recent_get (CacheLaws := dr_laws) n name record t now name' (dr_cache r) Ht Hn) as Hn'.
    destruct (cache_get now name' (dr_cache r)) as [v c]. exists n. unfold others_pending.
    rewrite dr_get_set, (proj1 (dr_set_rest c r)). done. }
  unfold getCached. destruct dr_localhost; [case_bool_decide; [done|]|]; by destruct cache_get.
Qed.

Lemma getCached_found now t name record m r :
  resolver_wf r -> name <> str "localhost" -> dleb (since now t) five_minutes = true -> (m < 128)%nat ->
  fresh name record t m r -> (getCached R now name r).1 = Some record.
Proof.
  intros Hr Hname Ht Hm (n & Hn & Hle & _). destruct (dr_wf (R := R) r Hr) as (Httl & Hmax & _).
  assert ((cache_get (CacheLib := dr_lib) now name (dr_cache r)).1 = Some record) as H.
  { apply (get_recent (CacheLaws := dr_laws) n name record t); [done|lia|by rewrite Httl]. }
  unfold getCached. destruct dr_localhost; [rewrite bool_decide_false by done|]; by destruct cache_get.
Qed.

Lemma others_pending_delete name i r :
  (others_pending name (r_set_queries (delete i (r_queries r)) r) <= others_pending name r)%nat.
Proof.
  unfold others_pending. cbn [r_set_queries r_queries]. destruct (r_queries r !! i) as [q|] eqn:Hi.
  - rewrite delete_take_drop. rewrite <- (take_drop_middle _ _ _ Hi) at 3.
    rewrite !List.filter_app, !length_app. cbn [List.filter].
    destruct other_query; cbn [length]; lia.
  - apply lookup_ge_None in Hi. by rewrite delete_take_drop, take_ge, drop_ge, app_nil_r by lia.
Qed.

(** An answer with records stores them, and is told. *)
Lemma queryCallback_stores now qdata result record r :
  dr_parse result = Ok record ->
  Forall (fun q => q_kind q = dr_kind (R := R) -> q_name q <> q_name qdata) (r_queries r) ->
  fresh (q_name qdata) record now (others_pending (q_name qdata) r) (queryCallback R now qdata ARES_SUCCESS result r).2 /\
  (queryCallback R now qdata ARES_SUCCESS result r).1 = [(q_callback qdata, dr_answer (Ok record))] /\
  r_queries (queryCallback R now qdata ARES_SUCCESS result r).2 = r_queries r.
Proof.
  intros Hparse Hq. unfold queryCallback. rewrite Hparse. cbn [fst snd]. unfold cacheRecord. split_and!; [|done|apply dr_set_rest].
  exists 0%nat. unfold others_pending. rewrite dr_get_set, (proj1 (dr_set_rest _ r)). split_and!; [|lia|done].
  apply (recent_insert (CacheLaws := dr_laws)).
Qed.

(** An answer to a query of another name stores one record at most. *)
Lemma queryCallback_fresh now t name record m qdata status result r :
  q_kind qdata = dr_kind (R := R) -> q_name qdata <> name -> fresh name record t m r ->
  fresh name record t (S m) (queryCallback R now qdata status result r).2.
Proof.
  intros Hk Hq Hf. pose proof (fresh_more name record t m (S m) r ltac:(lia) Hf) as Hf'. unfold queryCallback.
  destruct status; try done. destruct (dr_parse result) as [record'| |]; [|done..]. cbn [snd].
  destruct Hf as (n & Hn & Hle & Hqs). exists (S n). unfold cacheRecord, others_pending.
  rewrite dr_get_set, (proj1 (dr_set_rest _ r)). split_and!; [|unfold others_pending in Hle; lia|done].
  by apply (recent_other (CacheLaws := dr_laws)).
Qed.

Lemma query_fresh now now' t name name' callback record m r :
  resolver_wf r -> name <> str "localhost" -> dleb (since now t) five_minutes = true -> (m < 128)%nat ->
  fresh name record t m r ->
  fresh name record t ((if other_query name (dr_kind (R := R)) name' then 1 else 0) + m) (query R now now' name' callback r).2.
Proof.
  intros Hr Hname Ht Hm Hf. pose proof (getCached_fresh now t name name' record m r Hr Ht Hf) as Hf1.
  assert (name' = name -> (getCached R now name' r).1 = Some record) as Hown by (intros ->; by eapply getCached_found).
  unfold query. destruct (getCached R now name' r) as [v r1]. cbn [fst snd] in *.
  destruct v as [v|]; [cbn [snd]; eapply fresh_more; [|done]; lia|].
  assert (name' <> name) as Hn by (intros ->; by discriminate Hown).
  destruct (ares_query dr_type name' (m_channel r1)) as [[res answer] ch].
  set (qdata := {| q_kind := dr_kind (R := R); q_callback := callback; q_name := name' |}).
  assert (fresh name record t m (r_set_channel ch r1)) as Hf2
    by (apply (fresh_same name record t m r1); [by apply dr_cache_own|done|done]).
  destruct answer as [[status result]|].
  - pose proof (queryCallback_fresh now' t name record m qdata status result _ eq_refl Hn Hf2) as Hf3.
    unfold other_query. rewrite bool_decide_true, bool_decide_false by done. cbn [negb andb Nat.add].
    destruct queryCallback as [calls r3]. by destruct res.
  - pose proof (fresh_pushed name record t m _ qdata (fun _ => Hn) Hf2) as Hf3. by destruct res.
Qed.

(** The queries of another type leave the cache alone. *)
Section Other.
Context (R' : Type) {DR' : DnsRecord (Callback := Callback) R'} {L' : DnsRecordLaws R'}.
Hypothesis other_kind : dr_kind (R := R') <> dr_kind (R := R).
Hypothesis other_cache : forall c r, dr_cache (R := R) (dr_set_cache (R := R') c r) = dr_cache (R := R) r.

Lemma queryCallback_other now t name record m qdata status result r :
  fresh name record t m r -> fresh name record t m (queryCallback R' now qdata status result r).2.
Proof.
  unfold queryCallback, cacheRecord. destruct status; try done. destruct (dr_parse result) as [record'| |]; try done. cbn [snd].
  apply fresh_same; [by rewrite other_cache|]. by rewrite (proj1 (dr_set_rest _ r)).
Qed.

Lemma getCached_other now t name name' record m r :
  fresh name record t m r -> fresh name record t m (getCached R' now name' r).2.
Proof.
  assert (forall c, fresh name record t m r -> fresh name record t m (dr_set_cache (R := R') c r)) as H.
  { intros c. apply fresh_same; [by rewrite other_cache|]. by rewrite (proj1 (dr_set_rest _ r)). }
  unfold getCached. intros Hf. destruct dr_localhost; [case_bool_decide; [done|]|]; destruct cache_get; by apply H.
Qed.

Lemma query_other now now' t name name' callback record m r :
  fresh name record t m r -> fresh name record t m (query R' now now' name' callback r).2.
Proof.
  intros Hf. apply (getCached_other now t name name') in Hf. unfold query.
  destruct (getCached R' now name' r) as [v r1]. cbn [snd] in Hf. destruct v; [done|].
  destruct (ares_query dr_type name' (m_channel r1)) as [[res answer] ch].
  apply (fresh_same name record t m r1 (r_set_channel ch r1)) in Hf; [|by apply dr_cache_own|done].
  set (qdata := {| q_kind := dr_kind (R := R'); q_callback := callback; q_name := name' |}).
  destruct answer as [[status result]|].
  - apply (queryCallback_other now' t name record m qdata status result) in Hf.
    destruct queryCallback as [calls r3]. by destruct res.
  - pose proof (fresh_pushed name record t m (r_set_channel ch r1) qdata (fun H => match other_kind H with end) Hf) as Hf2.
    unfold other_query in Hf2. rewrite bool_decide_false in Hf2 by done. by destruct res.
Qed.
End Other.

Ltac other_type := intros ??; apply dr_cache_own; intros ?; first [done | congruence].

Lemma resolver_step_fresh op t name record m r :
  resolver_wf r -> name <> str "localhost" -> asks_within t op -> (m < 128)%nat -> fresh name record t m r ->
  fresh name record t (others_asked name [op] + m) (resolver_step op r).2.
Proof.
  intros Hr Hname Ht Hm Hf. unfold asks_within, others_asked in *. cbn [List.filter].
  destruct (op_query op) as [[[[[kind now] now'] name'] callback]|] eqn:Eq.
  - destruct (decide (kind = dr_kind (R := R))) as [->|Hk].
    + rewrite (dr_asked op now now' name' callback r Eq).
      pose proof (query_fresh now now' t name name' callback record m r Hr Hname Ht Hm Hf) as H.
      destruct query as [[? ?] ?]. by destruct other_query.
    + unfold other_query. rewrite bool_decide_false by done. cbn [andb length Nat.add].
      destruct op as [? ? ? ?|? ? ? ?|? ? ? ?|? ? ? ?|? ?|?]; try done; injection Eq as <- -> -> -> ->; cbn [resolver_step].
      * pose proof (query_other DNSRecordA Hk ltac:(other_type) now now' t name name' callback record m r Hf) as H. unfold queryA.
        by destruct query as [[? ?] ?].
      * pose proof (query_other DNSRecordAAAA Hk ltac:(other_type) now now' t name name' callback record m r Hf) as H. unfold queryAAAA.
        by destruct query as [[? ?] ?].
      * pose proof (query_other DNSRecordSRV Hk ltac:(other_type) now now' t name name' callback record m r Hf) as H. unfold querySRV.
        by destruct query as [[? ?] ?].
  - cbn [length Nat.add]. destruct op as [? ? ? ?|? ? ? ?|? ? ? ?|now i status result|p s|tr]; try done; cbn [resolver_step snd].
    + destruct (r_queries r !! i) as [qdata|] eqn:Ei; [|unfold ares_answers; by rewrite Ei].
      pose proof (fresh_popped name record t m r i qdata Ei Hf) as (Hf1 & Hq & Hle).
      destruct (decide (q_kind qdata = dr_kind (R := R))) as [Hk|Hk].
      * rewrite (dr_dispatch _ _ _ _ _ _ Ei Hk). specialize (Hq Hk).
        apply (queryCallback_fresh now t name record _ qdata status result _ Hk Hq) in Hf1.
        eapply fresh_more; [|exact Hf1]. unfold other_query in *. rewrite bool_decide_true, bool_decide_false in * by done.
        cbn in *. lia.
      * unfold other_query in Hf1. rewrite bool_decide_false in Hf1 by done. cbn [andb] in Hf1. rewrite Nat.sub_0_r in Hf1.
        unfold ares_answers. rewrite Ei. destruct (q_kind qdata) eqn:E.
        -- apply (queryCallback_other DNSRecordA); [other_type|done].
        -- apply (queryCallback_other DNSRecordAAAA); [other_type|done].
        -- apply (queryCallback_other DNSRecordSRV); [other_type|done].
    + apply (fresh_same name record t m r); [by apply dr_cache_own|done|done].
    + apply (fresh_same name record t m r); [|by unfold setDnsTransport; destruct (_ || _)|done].
      unfold setDnsTransport. destruct (_ || _); [done|]. by apply dr_cache_own.
Qed.

Lemma resolver_run_fresh ops t name record m r :
  resolver_wf r -> name <> str "localhost" -> Forall (asks_within t) ops -> (others_asked name ops + m < 128)%nat ->
  fresh name record t m r ->
  fresh name record t (others_asked name ops + m) (resolver_run ops r).2.
Proof.
  intros Hr Hname Hops. revert m r Hr. induction Hops as [|op ops Hop Hops IH]; intros m r Hr Hm Hf; [done|].
  assert (others_asked name (op :: ops) = others_asked name [op] + others_asked name ops)%nat as Hlen.
  { unfold others_asked. cbn [List.filter]. by destruct (match op_query op with Some _ => _ | None => _ end). }
  pose proof (resolver_step_fresh op t name record m r Hr Hname Hop ltac:(lia) Hf) as Hf1.
  pose proof (resolver_step_wf op r Hr) as [Hr1 _]. cbn [resolver_run]. destruct (resolver_step op r) as [calls r1]. cbn [snd] in *.
  pose proof (IH (others_asked name [op] + m)%nat r1 Hr1 ltac:(lia) Hf1) as Hf2. destruct (resolver_run ops r1) as [calls' r2].
  cbn [snd] in *. by replace (others_asked name (op :: ops) + m)%nat with (others_asked name ops + (others_asked name [op] + m))%nat by lia.
Qed.

Lemma query_found now now' t name callback record m r :
  resolver_wf r -> name <> str "localhost" -> dleb (since now t) five_minutes = true -> (m < 128)%nat ->
  fresh name record t m r ->
  let '(res, calls, r') := query R now now' name callback r in
  res = Ok tt /\ calls = [(callback, dr_answer (Ok record))] /\ r_queries r' = r_queries r /\ m_channel r' = m_channel r.
Proof.
  intros Hr Hname Ht Hm Hf. pose proof (getCached_found now t name record m r Hr Hname Ht Hm Hf) as Hc.
  pose proof (getCached_rest R now name r) as [Hq Hch]. unfold query.
  by destruct (getCached R now name r) as [v r1]; cbn [fst snd] in *; subst v.
Qed.

(** C33. The library answers a query, at [now], with records, and holds no other
    query of that name and type.  The callback of the query is given the records,
    and until five minutes after [now] each query of the name and type is answered with
    them at once, without asking the library, whatever is asked, answered and
    set in between, as long as fewer than 128 queries of that type for other
    names are held by the library then or asked in between (the cache has 128
    entries). *)
Theorem answered_from_cache now i qdata result record (r : Resolver) ops t t' callback :
  resolver_wf r -> r_queries r !! i = Some qdata -> q_kind qdata = dr_kind (R := R) ->
  q_name qdata <> str "localhost" -> dr_parse result = Ok record ->
  Forall (fun q => q_kind q = dr_kind (R := R) -> q_name q <> q_name qdata) (delete i (r_queries r)) ->
  Forall (asks_within now) ops -> dleb (since t now) five_minutes = true ->
  (others_pending (q_name qdata) r + others_asked (q_name qdata) ops < 128)%nat ->
  let '(calls, r1) := ares_answers now i ARES_SUCCESS result r in
  let '(_, r2) := resolver_run ops r1 in
  let '(res, calls', r3) := query R t t' (q_name qdata) callback r2 in
  calls = [(q_callback qdata, dr_answer (Ok record))] /\ r_queries r1 = delete i (r_queries r) /\
  res = Ok tt /\ calls' = [(callback, dr_answer (Ok record))] /\
  r_queries r3 = r_queries r2 /\ m_channel r3 = m_channel r2.
Proof.
  intros Hr Hi Hk Hname Hparse Hother Hops Ht Hm. rewrite (dr_dispatch _ _ _ _ _ _ Hi Hk).
  set (r0 := r_set_queries (delete i (r_queries r)) r). assert (resolver_wf r0) as Hr0 by done.
  assert (others_pending (q_name qdata) r0 <= others_pending (q_name qdata) r)%nat as Hle by apply others_pending_delete.
  pose proof (queryCallback_wf R now qdata ARES_SUCCESS result r0 Hr0) as [Hr1 _].
  pose proof (queryCallback_stores now qdata result record r0 Hparse Hother) as (Hf & Hc & Hq).
  destruct queryCallback as [calls r1]. cbn [fst snd] in *.
  pose proof (resolver_run_fresh ops now (q_name qdata) record (others_pending (q_name qdata) r0) r1 Hr1 Hname Hops ltac:(lia) Hf) as Hf2.
  pose proof (resolver_run_wf ops r1 Hr1) as [Hr2 _]. destruct (resolver_run ops r1) as [between r2]. cbn [fst snd] in *.
  pose proof (query_found t t' now (q_name qdata) callback record
    (others_asked (q_name qdata) ops + others_pending (q_name qdata) r0) r2 Hr2 Hname Ht ltac:(lia) Hf2) as H.
  destruct (query R t t' (q_name qdata) callback r2) as [[res calls'] r3]. by destruct H as (? & ? & ? & ?).
Qed.

Lemma call_of_good `{EqDecision Callback} callback (calls : list (Call (Callback := Callback))) a :
  Forall (fun call => answer_good call.2) calls -> call_of callback calls = Some a -> answer_good a.
Proof.
  intros HF Ha. unfold call_of in Ha. apply fmap_Some in Ha as (call & Hf & ->). apply List.find_some in Hf as [Hin _].
  rewrite List.Forall_forall in HF. by apply HF.
Qed.

Lemma query_total now now' name callback (r : Resolver) : is_fault (query R now now' name callback r).1.1 = false.
Proof.
  unfold query. destruct getCached as [[record|] r1]; [done|]. destruct ares_query as [[res answer] ch].
  destruct answer as [[status result]|]; [destruct queryCallback|]; by destruct res.
Qed.

Lemma wrapSync_wf `{EqDecision Callback} now now' name callback meanwhile (r : Resolver) :
  resolver_wf r -> resolver_wf (wrapSync R now now' name callback meanwhile r).2.
Proof.
  intros Hr. unfold wrapSync. pose proof (query_wf R now now' name callback r Hr) as [Hw _].
  destruct (query R now now' name callback r) as [[res calls] r1]. cbn [fst snd] in *.
  destruct res as [[]|e|f]; [|done..]. pose proof (resolver_run_wf meanwhile r1 Hw) as [Hw' _].
  destruct (resolver_run meanwhile r1) as [calls' r2]. by destruct (call_of callback (calls ++ calls') ≫= dr_answered).
Qed.

(** What waits for an answer gets one or an error. *)
Lemma wrapSync_total `{EqDecision Callback} now now' name callback meanwhile (r : Resolver) :
  resolver_wf r -> is_fault (wrapSync R now now' name callback meanwhile r).1 = false.
Proof.
  intros Hr. unfold wrapSync. pose proof (query_wf R now now' name callback r Hr) as [Hw Hc].
  assert (is_fault (query R now now' name callback r).1.1 = false) as Hf by apply query_total.
  destruct (query R now now' name callback r) as [[res calls] r1]. cbn [fst snd] in *.
  destruct res as [[]|e|f]; [|done..]. pose proof (resolver_run_wf meanwhile r1 Hw) as [_ Hc'].
  destruct (resolver_run meanwhile r1) as [calls' r2]. cbn [fst snd] in *.
  destruct (call_of callback (calls ++ calls') ≫= dr_answered) as [res|] eqn:E; [|done].
  apply bind_Some in E as (a & Ha & Hres). apply (dr_answered_total a res Hres).
  by apply (call_of_good callback (calls ++ calls')); [apply Forall_app|].
Qed.

(** What waits for an answer gets a record that keeps the promise of its type. *)
Lemma wrapSync_good `{EqDecision Callback} now now' name callback meanwhile (r : Resolver) record r' :
  resolver_wf r -> wrapSync R now now' name callback meanwhile r = (Ok record, r') -> dr_good record.
Proof.
  intros Hr. unfold wrapSync. pose proof (query_wf R now now' name callback r Hr) as [Hw Hc].
  destruct (query R now now' name callback r) as [[res calls] r1]. cbn [fst snd] in *.
  destruct res as [[]|e|f]; [|done..]. pose proof (resolver_run_wf meanwhile r1 Hw) as [_ Hc'].
  destruct (resolver_run meanwhile r1) as [calls' r2]. cbn [fst snd] in *.
  destruct (call_of callback (calls ++ calls') ≫= dr_answered) as [res|] eqn:E; [|done]. intros [= -> ->].
  apply bind_Some in E as (a & Ha & Hres). apply (dr_answered_good a record Hres).
  by apply (call_of_good callback (calls ++ calls')); [apply Forall_app|].
Qed.
End Cached.

(** ** The name servers *)
Section Servers.
Context {DL : DnsLaws D}.

Lemma omap_parse (l : list address) : omap address_parse (addr_toString <$> l) = l.
Proof. induction l as [|a l IH]; [done|]. cbn. by rewrite parse_toString, IH. Qed.

(** The library is told the addresses that were set, in order, then those of
    the system, and never none. *)
Lemma setCustomDnsServers_spec primary secondary (r : Resolver) :
  let custom := (fun addr => mk_address addr 53) <$> omap id [primary; secondary] in
  let servers := omap address_parse (split_commas (r_servers (setCustomDnsServers primary secondary r))) in
  servers = match custom ++ m_systemDnsServers r with
            | [] => [mk_address (ip_of_v4 (ipv4_octets 1 1 1 1)) 53]
            | servers => servers
            end.
Proof.
  cbn zeta. unfold setCustomDnsServers, reloadServers. cbn [r_set_servers r_servers r_set_ns m_primaryNs m_secondaryNs m_systemDnsServers].
  set (l := _ ++ m_systemDnsServers r).
  assert ((if bool_decide (l = []) then [mk_address (ip_of_v4 (ipv4_octets 1 1 1 1)) 53] else l)
          = match l with [] => [mk_address (ip_of_v4 (ipv4_octets 1 1 1 1)) 53] | servers => servers end) as ->
    by (by destruct l).
  rewrite split_join.
  - rewrite omap_parse. by destruct l.
  - apply Forall_fmap, Forall_true. intros a. apply toString_no_comma.
  - by destruct l.
Qed.
End Servers.

(** The transport that is set is nowhere used. *)
Lemma setDnsTransport_ignored transport (r : Resolver) :
  let r' := (setDnsTransport transport r).2 in
  transport = DT_Udp \/ transport = DT_Tcp ->
  r_servers r' = r_servers (reloadServers r) /\ m_channel r' = m_channel (reloadServers r).
Proof. intros r' [-> | ->]; done. Qed.
End Spec.
