(* ===== verification/ResolverEx.v ===== *)
(** * Examples of the resolver

    A library that takes every query and answers later, addresses whose text can
    be parsed, and runs of the resolver with them. *)
From S2P Require Import Prelude Messages Time Address Sorting Cache Resolver ResolverSpec.

Open Scope Z_scope.

(** ** Texts with commas *)
Fixpoint split_on (c : Z) (s : list Z) : list (list Z) :=
  match s with
  | [] => [[]]
  | x :: s =>
      if x =? c then [] :: split_on c s
      else match split_on c s with p :: ps => (x :: p) :: ps | [] => [[x]] end
  end.
Fixpoint join_with (c : Z) (l : list (list Z)) : list Z :=
  match l with
  | [] => []
  | [s] => s
  | s :: l => s ++ c :: join_with c l
  end.

Lemma split_plain c s : c ∉ s -> split_on c s = [s].
Proof.
  induction s as [|x s IH]; intros Hs; cbn; [done|]. apply not_elem_of_cons in Hs as [Hx Hs].
  by rewrite (proj2 (Z.eqb_neq _ _)), IH by congruence.
Qed.

Lemma split_app c s tl : c ∉ s -> split_on c (s ++ c :: tl) = s :: split_on c tl.
Proof.
  induction s as [|x s IH]; intros Hs; cbn; [by rewrite Z.eqb_refl|]. apply not_elem_of_cons in Hs as [Hx Hs].
  by rewrite (proj2 (Z.eqb_neq _ _)), IH by congruence.
Qed.

Lemma split_join_with c l : Forall (fun s => c ∉ s) l -> l <> [] -> split_on c (join_with c l) = l.
Proof.
  induction 1 as [|s l Hs Hl IH]; intros Hne; [done|]. destruct l as [|s' l]; [by apply split_plain|].
  change (join_with c (s :: s' :: l)) with (s ++ c :: join_with c (s' :: l)). by rewrite split_app, IH.
Qed.

(** ** Addresses whose text has no comma and can be parsed *)
Definition skip_comma (z : Z) : Z := if z <? 44 then z else z + 1.
Definition unskip_comma (z : Z) : Z := if z <? 44 then z else z - 1.

Lemma unskip_skip z : unskip_comma (skip_comma z) = z.
Proof. unfold unskip_comma, skip_comma. repeat case_match; lia. Qed.

Definition address_text (a : simple_address) : list Z :=
  skip_comma <$> match sa_ip a with inl bits => [0; sa_port a; bits] | inr octets => 1 :: sa_port a :: octets end.
Definition text_address (s : list Z) : option simple_address :=
  match unskip_comma <$> s with
  | [0; port; bits] => Some {| sa_ip := inl bits; sa_port := port |}
  | 1 :: port :: octets => Some {| sa_ip := inr octets; sa_port := port |}
  | _ => None
  end.

Lemma text_address_text a : text_address (address_text a) = Some a.
Proof.
  unfold text_address, address_text. rewrite <- list_fmap_compose.
  rewrite (list_fmap_ext _ id) by (intros ? ? _; apply unskip_skip). rewrite list_fmap_id. by destruct a as [[bits|octets] p].
Qed.

Definition text_addresses : AddressLib := {|
  ip := Z + list Z;
  address := simple_address;
  mk_address := mk_address (AddressLib := simple_addresses);
  addr_isV6 := addr_isV6 (AddressLib := simple_addresses);
  addr_bits := addr_bits (AddressLib := simple_addresses);
  addr_octets := addr_octets (AddressLib := simple_addresses);
  addr_port := addr_port (AddressLib := simple_addresses);
  addr_setPort := addr_setPort (AddressLib := simple_addresses);
  addr_toString := address_text;
|}.

(** ** A library that answers later
    A channel is the queries that were sent; a record of an answer is a list of
    what it says. *)
Record example_rr := {
  ex_type : ares_type;
  ex_addr : Z;
  ex_target : list Z;
  ex_u16 : ares_u16_key -> Z;
}.

#[export] Instance example_dns : DnsLib (AL := text_addresses) := {|
  Ipv4Address := Z;
  Ipv6Address := list Z;
  ipv4_LOCALHOST := 2130706433;
  ipv6_LOCALHOST := repeat 0 15 ++ [1];
  ipv4_octets a b c d := ((a * 256 + b) * 256 + c) * 256 + d;
  ip_of_v4 := inl : Z -> @ip text_addresses;
  ip_of_v6 := inr : list Z -> @ip text_addresses;
  address_parse := text_address : list Z -> option (@address text_addresses);
  split_commas := split_on 44;
  join_commas := join_with 44;
  ares_channel := list (list Z);
  ares_dns_record := list example_rr;
  ares_dns_rr := option example_rr;
  rr_cnt := length;
  rr_get result i := result !! i;
  rr_get_type rr := default (ARES_REC_TYPE_OTHER 0) (ex_type <$> rr);
  rr_get_addr rr := ex_addr <$> rr;
  rr_get_addr6 rr := (fun rr => repeat 0 15 ++ [ex_addr rr]) <$> rr;
  rr_get_target rr := ex_target <$> rr;
  rr_get_u16 key rr := default 0 ((fun rr => ex_u16 rr key) <$> rr);
  ares_query type name ch := (ARES_SUCCESS, None, (fun sent => sent ++ [name]) <$> ch);
  ares_set_servers_csv csv ch := ch;
  ares_get_servers_csv ch := address_text {| sa_ip := inl 134744072; sa_port := 53 |};
|}.

#[export] Instance example_dns_laws : DnsLaws example_dns.
Proof.
  split.
  - apply text_address_text.
  - intros a. cbn. unfold address_text. intros (z & Hz & _)%list_elem_of_fmap. revert Hz. unfold skip_comma.
    case_match; lia.
  - apply split_join_with.
Qed.

(** ** A run *)
Definition answer (l : list example_rr) : @ares_dns_record _ example_dns := l.
Definition example_resolver : Resolver (D := example_dns) nat := new_Resolver (D := example_dns) (Some ([] : list (list Z))) (Resolver_members setupCache setupCache setupCache).

Definition srv_rr (target : string) (priority weight : Z) : example_rr :=
  {| ex_type := ARES_REC_TYPE_SRV; ex_addr := 0; ex_target := str target;
     ex_u16 key := match key with ARES_RR_SRV_PORT => 4340 | ARES_RR_SRV_PRIORITY => priority | ARES_RR_SRV_WEIGHT => weight end |}.

Definition v4s (l : list Z) : list (@Ipv4Address _ example_dns) := l.

(** The endpoints come back by priority, then by weight. *)
Example srv_run :
  (resolver_run [OpQuerySRV 0 0 (str "_qunet.host") 7%nat;
                 OpAnswer 5 0 ARES_SUCCESS (answer [srv_rr "b" 2 1; srv_rr "c" 1 9; srv_rr "a" 1 3])] example_resolver).1
  = [(7%nat, AnswerSRV (Ok {| srv_endpoints :=
       (fun '(t, p, w) => {| srv_target := str t; srv_port := 4340; srv_priority := p; srv_weight := w |})
       <$> [("a"%string, 1, 3); ("c"%string, 1, 9); ("b"%string, 2, 1)] |}))].
Proof. vm_compute. reflexivity. Qed.

(** An answer without a record of the type, and a failure; both are told. *)
Example failing_run :
  (resolver_run [OpQueryA 0 0 (str "a") 1%nat; OpQueryAAAA 0 0 (str "a") 2%nat;
                 OpAnswer 5 1 ARES_ETIMEOUT (answer []); OpAnswer 6 0 ARES_SUCCESS (answer [srv_rr "b" 2 1])] example_resolver).1
  = [(2%nat, AnswerAAAA (Err RE_TemporaryFailure)); (1%nat, AnswerA (Err RE_NoData))].
Proof. vm_compute. reflexivity. Qed.

(** The names of the own machine are not asked for. *)
Example localhost_run :
  (wrapSync (T := nano_time) (D := example_dns) DNSRecordA 0 0 (str "localhost") 1%nat [] example_resolver).1 = Ok {| a_addresses := v4s [2130706433] |}.
Proof. vm_compute. reflexivity. Qed.

(** A query that is not answered in ten seconds. *)
Example silent_run : (wrapSync (T := nano_time) (DNSRecordA (D := example_dns)) 0 0 (str "host") 1%nat [] example_resolver).1 = Err RE_Other.
Proof. vm_compute. reflexivity. Qed.

Definition a_rr (addr : Z) : example_rr :=
  {| ex_type := ARES_REC_TYPE_A; ex_addr := addr; ex_target := []; ex_u16 _ := 0 |}.
Definition asked_resolver : Resolver (D := example_dns) nat :=
  (resolver_run [OpQueryA 0 0 (str "host") 1%nat] example_resolver).2.

Lemma asked_resolver_wf : resolver_wf asked_resolver.
Proof. unfold asked_resolver. apply resolver_run_wf. split_and!; apply setupCache_wf. Qed.

Definition asked_query : QueryData (Callback := nat) := {| q_kind := QueryA; q_callback := 1%nat; q_name := str "host" |}.
Definition host_record : DNSRecordA (D := example_dns) := {| a_addresses := v4s [5; 6] |}.

(** Between the answer and the next query of the name: the name of the servers is set,
    other names are asked for and answered, and the same name with another type. *)
Definition meanwhile_ops : list (ResolverOp (D := example_dns) (T := nano_time) (Callback := nat)) :=
  [OpServers (Some (inl 5 : @ip text_addresses)) None; OpQueryA 12 12 (str "other") 3%nat; OpQueryAAAA 13 13 (str "host") 4%nat;
   OpAnswer 14 0 ARES_SUCCESS (answer [a_rr 9]); OpQueryA 15 15 (str "host") 5%nat].

Lemma answered_from_cache_witness :
  let '(calls, r1) := ares_answers (T := nano_time) 10 0 ARES_SUCCESS (answer [a_rr 5; a_rr 6]) asked_resolver in
  let '(_, r2) := resolver_run meanwhile_ops r1 in
  let '(res, calls', r3) := query (T := nano_time) (DNSRecordA (D := example_dns)) 20 20 (q_name asked_query) 2%nat r2 in
  calls = [(1%nat, AnswerA (Ok host_record))] /\ r_queries r1 = delete 0%nat (r_queries asked_resolver) /\
  res = Ok tt /\ calls' = [(2%nat, AnswerA (Ok host_record))] /\
  r_queries r3 = r_queries r2 /\ m_channel r3 = m_channel r2.
Proof.
  pose proof (answered_from_cache (T := nano_time) (DNSRecordA (D := example_dns)) 10 0 asked_query (answer [a_rr 5; a_rr 6]) host_record
           asked_resolver meanwhile_ops 20 20 2%nat asked_resolver_wf eq_refl eq_refl ltac:(discriminate) eq_refl
           ltac:(constructor) ltac:(repeat constructor) eq_refl ltac:(vm_compute; lia)) as H.
  exact H.
Defined.
