(* ===== verification/Pinger.v ===== *)
(** * Pinger

    [include/qunet/Pinger.hpp], [src/Pinger.cpp]: pings addresses over a socket
    of its own.  The application puts requests in a channel; a worker takes
    them, sends, receives the answers, and gives up on pings that are not
    answered in time.  A request is a callback; a method of the model returns
    what becomes of the callbacks. *)
From S2P Require Import Prelude Dbuf Messages Time Errors Effects Padding Url Address Cache Resolver.

Record SupportedProtocol := { sp_protocolId : Z; sp_port : Z }.

Record PingResult {T : TimeLib} := {
  pr_pingId : Z;
  pr_responseTime : duration;
  pr_protocols : list SupportedProtocol;
  pr_extraData : list Z;
  pr_timedOut : bool;
  pr_errored : bool;
}.

Definition ping_result {T : TimeLib} (pingId : Z) (timedOut errored : bool) : PingResult :=
  {| pr_pingId := pingId; pr_responseTime := zero; pr_protocols := []; pr_extraData := [];
     pr_timedOut := timedOut; pr_errored := errored |}.

(** ** What the pinger uses
    The IPv6 addresses, with a port, that the cache is keyed by. *)
Class PingerLib {AL : AddressLib} {D : DnsLib} := {
  SocketAddressV6 : Type;
  SocketAddressV6_eq_dec :: EqDecision SocketAddressV6;
  (** [addr.toV6()], [addr.toV4().address()], and the constructor *)
  addr_toV6 : address -> SocketAddressV6;
  addr_toV4 : address -> Ipv4Address;
  fromIpv4Mapped : Ipv4Address -> Ipv6Address;
  mk_addressV6 : Ipv6Address -> Z -> SocketAddressV6;
  (** [err == qsox::Error::ConnectionReset] *)
  isConnectionReset : SocketError -> bool;
  (** [fmt] of the error of a query *)
  fmt_resolver_error : ResolverError -> list Z;
}.

Inductive PongError := NotPong (code : Z) | PongRead (e : read_error).

Definition PING_QUEUE : nat := 128.
Definition PING_RESPONSE_SIZE : Z := 256.

(** ** The answers *)
Section Pong.
Context {T : TimeLib} {BR : ByteReader}.

Fixpoint read_protocols (n : nat) (r : reader) : result read_error (list SupportedProtocol * reader) :=
  match n with
  | O => Ok ([], r)
  | S n =>
      '(protocolId, r) ← readU8 r;
      '(port, r) ← readU16 r;
      '(protocols, r) ← read_protocols n r;
      Ok ({| sp_protocolId := protocolId; sp_port := port |} :: protocols, r)
  end.

(** What follows the code. *)
Definition read_pong (reader : reader) : result read_error (PingResult * Dbuf.reader) :=
  '(pingId, reader) ← readU32 reader;
  '(protocolCount, reader) ← readU8 reader;
  '(protocols, reader) ← read_protocols (Z.to_nat protocolCount) reader;
  '(extraDataSize, reader) ← readU16 reader;
  '(extraData, reader) ← (if 0 <? extraDataSize then readBytes extraDataSize reader else Ok ([], reader));
  Ok ({| pr_pingId := pingId; pr_responseTime := zero; pr_protocols := protocols; pr_extraData := extraData;
         pr_timedOut := false; pr_errored := false |}, reader).

Definition thrParsePingResponse (data : list Z) : result PongError PingResult :=
  let reader := reader_of data in
  let '(code, reader) := match readU8 reader with Ok cr => cr | _ => (0, reader) end in
  if negb (code =? MSG_PONG) then Err (NotPong code) else map_err PongRead (fst <$> read_pong reader).
End Pong.

Section Pinger.
Context {T : TimeLib} {AL : AddressLib} {D : DnsLib} {PL : PingerLib} {W : ByteWriter} {BR : ByteReader}.

Definition PING_TIMEOUT : duration := fromMillis 1500.

Definition toV6 (addr : address) : SocketAddressV6 :=
  if addr_isV6 addr then addr_toV6 addr
  else mk_addressV6 (fromIpv4Mapped (addr_toV4 addr)) (addr_port addr).

Record CachedPing := {
  cp_responseTime : duration;
  cp_protocols : list SupportedProtocol;
}.
Context {CP : CacheLib SocketAddressV6 CachedPing}.
Context {Callback : Type}.

(** ** The object
    The channel and the socket are with it: a socket is the errors that its next
    sends will have, and [p_sent] is what was sent over all of them.  The
    generator of the padding is one per thread. *)
Record OutgoingPing := {
  og_sentAt : instant;
  og_callback : Callback;
  og_pingId : Z;
}.

Record Pinger := {
  p_queue : list (address * Callback);
  p_socket : option (list (option SocketError));
  p_sent : list (address * list Z);
  p_outgoingPings : list OutgoingPing;
  p_nextPingId : Z;
  p_cache : cache SocketAddressV6 CachedPing;
  p_rng : QunetPadRNG;
}.

Definition p_set_queue q (p : Pinger) : Pinger :=
  {| p_queue := q; p_socket := p_socket p; p_sent := p_sent p; p_outgoingPings := p_outgoingPings p;
     p_nextPingId := p_nextPingId p; p_cache := p_cache p; p_rng := p_rng p |}.
Definition p_set_socket s sent (p : Pinger) : Pinger :=
  {| p_queue := p_queue p; p_socket := s; p_sent := sent; p_outgoingPings := p_outgoingPings p;
     p_nextPingId := p_nextPingId p; p_cache := p_cache p; p_rng := p_rng p |}.
Definition p_set_outgoing l (p : Pinger) : Pinger :=
  {| p_queue := p_queue p; p_socket := p_socket p; p_sent := p_sent p; p_outgoingPings := l;
     p_nextPingId := p_nextPingId p; p_cache := p_cache p; p_rng := p_rng p |}.
Definition p_set_next id (p : Pinger) : Pinger :=
  {| p_queue := p_queue p; p_socket := p_socket p; p_sent := p_sent p; p_outgoingPings := p_outgoingPings p;
     p_nextPingId := id; p_cache := p_cache p; p_rng := p_rng p |}.
Definition p_set_cache c (p : Pinger) : Pinger :=
  {| p_queue := p_queue p; p_socket := p_socket p; p_sent := p_sent p; p_outgoingPings := p_outgoingPings p;
     p_nextPingId := p_nextPingId p; p_cache := c; p_rng := p_rng p |}.
Definition p_set_rng g (p : Pinger) : Pinger :=
  {| p_queue := p_queue p; p_socket := p_socket p; p_sent := p_sent p; p_outgoingPings := p_outgoingPings p;
     p_nextPingId := p_nextPingId p; p_cache := p_cache p; p_rng := g |}.

(** The constructor *)
Definition new_Pinger (g : QunetPadRNG) : Pinger :=
  {| p_queue := []; p_socket := None; p_sent := []; p_outgoingPings := []; p_nextPingId := 0;
     p_cache := new_cache 128 (fromSecs 900) (fromSecs 60); p_rng := g |}.

(** What becomes of a callback: it is called, with the mutex of the cache held
    or not, or destroyed without a call. *)
Inductive PingOutcome :=
  | Called (callback : Callback) (result : PingResult) (cache_locked : bool)
  | Dropped (callback : Callback).

Abbreviation SP := (STE Empty_set Pinger).

(** ** The calls of the application *)
Definition ping (addr : address) (callback : Callback) : SP (list PingOutcome) :=
  queue ← get p_queue;
  if (length queue <? PING_QUEUE)%nat then modify (p_set_queue (queue ++ [(addr, callback)])) ;; mret []
  else mret [Dropped callback].

Definition Pinger_getCached (now : instant) (addr : address) (p : Pinger) : option PingResult * Pinger :=
  let '(entry, c) := cache_get now (toV6 addr) (p_cache p) in
  ((fun entry => {| pr_pingId := 0; pr_responseTime := cp_responseTime entry; pr_protocols := cp_protocols entry;
                    pr_extraData := []; pr_timedOut := false; pr_errored := false |}) <$> entry,
   p_set_cache c p).

Definition isCached (now : instant) (addr : address) (p : Pinger) : bool * Pinger :=
  let '(entry, p) := Pinger_getCached now addr p in (bool_decide (is_Some entry), p).

(** ** The worker *)
(** The error, if there is one. *)
Definition sendTo (data : list Z) (addr : address) : SP (option SocketError) := fun p =>
  match p_socket p with
  | None => (Fault NullDereference, p)
  | Some (Some e :: errors) => (Ok (Some e), p_set_socket (Some errors) (p_sent p) p)
  | Some errors => (Ok None, p_set_socket (Some (tail errors)) (p_sent p ++ [(addr, data)]) p)
  end.

Definition ping_padding (w : writer) : SP writer := fun p =>
  match padMessageToMinimum (p_rng p) w with
  | Ok (w, g) => (Ok w, p_set_rng g p)
  | Err e => (Err e, p)
  | Fault f => (Fault f, p)
  end.

(** [now] is when the cache is read, [sentAt] when the ping was sent. *)
Definition thrDoPing (now sentAt : instant) (addr : address) (callback : Callback) : SP (list PingOutcome) :=
  pingId ← state (fun p => let id := u32 (p_nextPingId p + 1) in (id, p_set_next id p));
  let w := writeU32 pingId (writeU8 MSG_PING new_writer) in
  cached ← state (isCached now addr);
  w ← ping_padding (writeU8 (if cached : bool then 1 else 0) w);
  res ← sendTo (written w) addr;
  match res with
  | Some _ => mret [Called callback (ping_result pingId false true) false]
  | None =>
      modify (fun p => p_set_outgoing (p_outgoingPings p ++
                [{| og_sentAt := sentAt; og_callback := callback; og_pingId := pingId |}]) p) ;;
      mret []
  end.

(** [elapsed] is when the response time is taken, [now] and [now'] are when the
    cache is read and filled. *)
Definition thrDispatchResult (elapsed now now' : instant) (result : PingResult) (addr : address) (p : Pinger) :
    list PingOutcome * Pinger :=
  match list_find (fun ping => og_pingId ping = pr_pingId result) (p_outgoingPings p) with
  | None => ([], p)
  | Some (it, ping) =>
      let responseTime := since elapsed (og_sentAt ping) in
      let v6 := toV6 addr in
      let '(cacheEntry, c) := cache_get now v6 (p_cache p) in
      let protocols :=
        match cacheEntry with
        | Some entry => if bool_decide (pr_protocols result = []) then cp_protocols entry else pr_protocols result
        | None => pr_protocols result
        end in
      let result := {| pr_pingId := pr_pingId result; pr_responseTime := responseTime; pr_protocols := protocols;
                       pr_extraData := pr_extraData result; pr_timedOut := pr_timedOut result;
                       pr_errored := pr_errored result |} in
      let entry := {| cp_responseTime := responseTime; cp_protocols := protocols |} in
      let c := match cacheEntry with None => cache_insert now' v6 entry c | Some _ => cache_set v6 entry c end in
      ([Called (og_callback ping) result true],
       p_set_outgoing (delete it (p_outgoingPings p)) (p_set_cache c p))
  end.

Definition timed_out (now : instant) (ping : OutgoingPing) : bool := dltb PING_TIMEOUT (since now (og_sentAt ping)).

(** The loop: what is called, and what is left. *)
Fixpoint remove_timed_out (now : instant) (pings : list OutgoingPing) : list PingOutcome * list OutgoingPing :=
  match pings with
  | [] => ([], [])
  | ping :: pings =>
      let '(calls, rest) := remove_timed_out now pings in
      if timed_out now ping then (Called (og_callback ping) (ping_result (og_pingId ping) true false) false :: calls, rest)
      else (calls, ping :: rest)
  end.
Definition thrRemoveTimedOutPings (now : instant) (p : Pinger) : list PingOutcome * Pinger :=
  let '(calls, rest) := remove_timed_out now (p_outgoingPings p) in (calls, p_set_outgoing rest p).

(** The instant until which the worker sleeps; none is the far future. *)
Definition imin (t : option instant) (t' : instant) : option instant :=
  match t with Some t => Some (if igeb t' t then t else t') | None => Some t' end.
Definition nextTimeout (p : Pinger) : option instant :=
  foldl (fun t ping => imin t (iadd (og_sentAt ping) PING_TIMEOUT)) None (p_outgoingPings p).

(** What ends a wait of the worker, or of the application's call of [ping]. *)
Inductive PingEvent :=
  | EvPing (addr : address) (callback : Callback)
  | EvBind (socket : option (list (option SocketError)))
  | EvRequest (now sentAt : instant)
  | EvDatagram (data : list Z) (src : address) (elapsed now now' : instant)
  | EvRecvError (e : SocketError)
  | EvTimer (now : instant).

(** The worker waits for a socket, or for one of three things. *)
Definition worker_event (ev : PingEvent) : SP (list PingOutcome) :=
  socket ← get p_socket;
  match ev, socket with
  | EvPing addr callback, _ => ping addr callback
  | EvBind bound, None => modify (fun p => p_set_socket bound (p_sent p) p) ;; mret []
  | EvRequest now sentAt, Some _ =>
      queue ← get p_queue;
      match queue with
      | [] => mret []
      | (addr, callback) :: queue => modify (p_set_queue queue) ;; thrDoPing now sentAt addr callback
      end
  | EvDatagram data src elapsed now now', Some _ =>
      match thrParsePingResponse (ztake PING_RESPONSE_SIZE data) with
      | Err _ => mret []
      | Fault f => lift (Fault f)
      | Ok result => state (thrDispatchResult elapsed now now' result src)
      end
  | EvRecvError e, Some _ =>
      if isConnectionReset e then mret [] else modify (fun p => p_set_socket None (p_sent p) p) ;; mret []
  | EvTimer now, Some _ =>
      timeout ← get nextTimeout;
      match timeout with
      | Some t => if igeb now t then state (thrRemoveTimedOutPings now) else mret []
      | None => mret []
      end
  | _, _ => mret []
  end.

Fixpoint worker_events (evs : list PingEvent) : SP (list PingOutcome) :=
  match evs with
  | [] => mret []
  | ev :: evs =>
      outcomes ← worker_event ev;
      outcomes' ← worker_events evs;
      mret (outcomes ++ outcomes')
  end.
End Pinger.
Arguments Pinger {T AL D PL CP} Callback.
Arguments OutgoingPing {T} Callback.
Arguments PingOutcome {T} Callback.
Arguments PingEvent {T AL} Callback.

(** ** Pinging a URL
    The callback that [resolveAndPing] gives to the resolver holds the port and
    the callback of the application. *)
Section PingUrl.
Context {T : TimeLib} {AL : AddressLib} {D : DnsLib} {PL : PingerLib} {W : ByteWriter} {BR : ByteReader}.
Context {CP : CacheLib SocketAddressV6 CachedPing} {CA : CacheLib (list Z) DNSRecordA}
        {CAAAA : CacheLib (list Z) DNSRecordAAAA} {CSRV : CacheLib (list Z) DNSRecordSRV}.
Context {Callback : Type}.
(** [qsox::Ipv6Address::parse] succeeds; [qsox::IpAddress::parse] *)
Variable Ipv6_parse : list Z -> bool.
Variable Ip_parse : list Z -> option ip.

Record ResolvePing := {
  rp_port : Z;
  rp_callback : Callback;
}.
Record PingSystem := {
  sy_pinger : Pinger Callback;
  sy_resolver : Resolver ResolvePing;
}.
Definition sy_set_pinger (p : Pinger Callback) (s : PingSystem) : PingSystem :=
  {| sy_pinger := p; sy_resolver := sy_resolver s |}.
Definition sy_set_resolver (r : Resolver ResolvePing) (s : PingSystem) : PingSystem :=
  {| sy_pinger := sy_pinger s; sy_resolver := r |}.

Abbreviation SY := (STE Empty_set PingSystem).
Abbreviation outcomes := (list (PingOutcome Callback)).

(** The callback that the resolver calls *)
Definition resolved (record : ResolverResult DNSRecordA) (rp : ResolvePing) : SY outcomes :=
  match record with
  | Err _ => mret [Dropped (rp_callback rp)]
  | Fault f => lift (Fault f)
  | Ok record =>
      match a_addresses record with
      | [] => lift (Fault AssertionFailed)
      | addr :: _ => focus sy_pinger sy_set_pinger (ping (mk_address (ip_of_v4 addr) (rp_port rp)) (rp_callback rp))
      end
  end.

(** It is given to queries for A records only. *)
Fixpoint deliver (calls : list (Call (Callback := ResolvePing))) : SY outcomes :=
  match calls with
  | [] => mret []
  | (rp, answer) :: calls =>
      out ← match answer with AnswerA record => resolved record rp | _ => mret [Dropped (rp_callback rp)] end;
      out' ← deliver calls;
      mret (out ++ out')
  end.

Definition query_failed (domain : list Z) (e : ResolverError) : list Z :=
  str "Failed to query A record for '" ++ domain ++ str "': " ++ fmt_resolver_error e.

(** What the application is told, and what becomes of its callback. *)
Definition resolveAndPing (now now' : instant) (domain : list Z) (port : Z) (callback : Callback) :
    SY (result (list Z) unit * outcomes) :=
  '(res, calls) ← state (fun s =>
    let '(res, calls, r) := queryA now now' domain {| rp_port := port; rp_callback := callback |} (sy_resolver s) in
    ((res, calls), sy_set_resolver r s));
  out ← deliver calls;
  mret (map_err (query_failed domain) res, out).

Definition ping_now (addr : address) (callback : Callback) : SY (result (list Z) unit * outcomes) :=
  out ← focus sy_pinger sy_set_pinger (ping addr callback);
  mret (Ok tt, out).

Definition pingUrl (now now' : instant) (url : list Z) (callback : Callback) : SY (result (list Z) unit * outcomes) :=
  parser ← lift (UrlParser_parse Ipv6_parse Ip_parse url);
  match up_result parser with
  | InvalidProtocol => mret (Err (str "Invalid protocol in URL"), [Dropped callback])
  | InvalidPort => mret (Err (str "Invalid port in URL"), [Dropped callback])
  | Success =>
      match up_value parser with
      | Some (SocketAddress addr port) => ping_now (mk_address addr port) callback
      | Some (Ip addr) => ping_now (mk_address addr (defaultPort Udp)) callback
      | Some (DomainWithPort domain port) => resolveAndPing now now' domain port callback
      | Some (Domain domain) => resolveAndPing now now' domain (defaultPort Udp) callback
      | None => lift (Fault AssertionFailed)
      end
  end.

(** What happens to the pinger and the resolver together *)
Inductive PingSystemEvent :=
  | SyPingUrl (now now' : instant) (url : list Z) (callback : Callback)
  | SyWorker (ev : PingEvent Callback)
  | SyAnswer (now : instant) (i : nat) (status : ares_status) (result : ares_dns_record)
  | SyServers (primary secondary : option ip).

Definition system_event (ev : PingSystemEvent) : SY outcomes :=
  match ev with
  | SyPingUrl now now' url callback => '(_, out) ← pingUrl now now' url callback; mret out
  | SyWorker ev => focus sy_pinger sy_set_pinger (worker_event ev)
  | SyAnswer now i status result =>
      calls ← state (fun s => let '(calls, r) := ares_answers now i status result (sy_resolver s) in
                              (calls, sy_set_resolver r s));
      deliver calls
  | SyServers primary secondary =>
      modify (fun s => sy_set_resolver (setCustomDnsServers primary secondary (sy_resolver s)) s) ;; mret []
  end.

Fixpoint system_events (evs : list PingSystemEvent) : SY outcomes :=
  match evs with
  | [] => mret []
  | ev :: evs =>
      out ← system_event ev;
      out' ← system_events evs;
      mret (out ++ out')
  end.
End PingUrl.
Arguments ResolvePing Callback : clear implicits.
Arguments PingSystem {T AL D PL CP CA CAAAA CSRV} Callback.
