(* ===== verification/PingerSpec.v ===== *)
(** * What the pinger promises

    An answer is read as it was written; the worker never throws; each callback
    is called or dropped once, or the pinger still holds it; pings that were not
    answered in time are given up. *)
From S2P Require Import Prelude Dbuf Messages Time Errors Effects Padding Url Address Cache Resolver ResolverSpec Pinger.

Open Scope Z_scope.

(** ** The answer of a server *)
Definition protocol_bytes (p : SupportedProtocol) : list Z := le_split 1 (sp_protocolId p) ++ le_split 2 (sp_port p).
Definition pong_bytes (id : Z) (protocols : list SupportedProtocol) (extra : list Z) : list Z :=
  le_split 1 MSG_PONG ++ le_split 4 id ++ le_split 1 (len protocols) ++ concat (protocol_bytes <$> protocols) ++
  le_split 2 (len extra) ++ extra.

Definition protocol_ok (p : SupportedProtocol) : Prop := 0 <= sp_protocolId p < 2 ^ 8 /\ u16_ok (sp_port p).
Definition pong_ok (id : Z) (protocols : list SupportedProtocol) (extra : list Z) : Prop :=
  0 <= id < 2 ^ 32 /\ Forall protocol_ok protocols /\ len protocols < 2 ^ 8 /\ len extra < 2 ^ 16.

Section Pong.
Context {T : TimeLib} {BR : ByteReader} {RL : ByteReaderLaws BR}.

Lemma parses_protocols ps :
  Forall protocol_ok ps -> parses (read_protocols (length ps)) (concat (protocol_bytes <$> ps)) ps.
Proof.
  induction 1 as [|[id port] ps [Hid Hport] _ IH]; [apply parses_ret|]. cbn [length read_protocols fmap list_fmap concat].
  unfold protocol_bytes at 1. cbn [sp_protocolId sp_port] in *. rewrite <- app_assoc.
  eapply parses_bind; [by apply parses_u8|]. cbv beta.
  eapply parses_bind; [by apply parses_u16|]. cbv beta.
  rewrite <- (app_nil_r (concat _)). eapply parses_bind; [exact IH|]. apply parses_ret.
Qed.

Definition pong_result (id : Z) (protocols : list SupportedProtocol) (extra : list Z) : PingResult :=
  {| pr_pingId := id; pr_responseTime := zero; pr_protocols := protocols; pr_extraData := extra;
     pr_timedOut := false; pr_errored := false |}.

(** What the reader of the answer takes, and that it takes all of it. *)
Definition pong_rest (id : Z) (ps : list SupportedProtocol) (extra : list Z) : list Z :=
  le_split 4 id ++ le_split 1 (len ps) ++ concat (protocol_bytes <$> ps) ++ le_split 2 (len extra) ++ extra.

Lemma parses_extra extra :
  let d r := if 0 <? len extra then readBytes (len extra) r else Ok ([], r) in
  parses d extra extra /\ cut_short d extra.
Proof.
  cbn zeta. destruct extra as [|x extra]; [split; [apply parses_ret|apply cut_ret]|].
  split; [by apply parses_bytes|]. eapply cut_reads; [apply readBytes_law|done].
Qed.

Lemma cut_uint n bs d : (forall r, d r = reads unread advance (Z.of_nat n) le_combine r) -> len bs = Z.of_nat n -> cut_short d bs.
Proof. intros Hd Hl. by eapply cut_reads. Qed.

Lemma cut_protocols ps : Forall protocol_ok ps -> cut_short (read_protocols (length ps)) (concat (protocol_bytes <$> ps)).
Proof.
  induction 1 as [|[id port] ps [Hid Hport] Hps IH]; [apply cut_ret|]. cbn [length read_protocols fmap list_fmap concat].
  unfold protocol_bytes at 1. cbn [sp_protocolId sp_port] in *. rewrite <- app_assoc.
  eapply cut_bind; [by apply parses_u8|apply (cut_uint 1); [apply readU8_law|done]|]. cbv beta.
  eapply cut_bind; [by apply parses_u16|apply (cut_uint 2); [apply readU16_law|done]|]. cbv beta.
  rewrite <- (app_nil_r (concat _)). eapply cut_bind; [by apply parses_protocols|exact IH|apply cut_ret].
Qed.

Lemma read_pong_spec id ps extra :
  pong_ok id ps extra ->
  parses read_pong (pong_rest id ps extra) (pong_result id ps extra) /\ cut_short read_pong (pong_rest id ps extra).
Proof.
  intros (Hid & Hps & Hn & Hx). destruct (parses_extra extra) as [Hpx Hcx]. cbn zeta in *.
  unfold read_pong, pong_rest. split.
  - eapply parses_bind; [by apply parses_u32|]. cbv beta.
    eapply parses_bind; [apply parses_u8; lia|]. cbv beta. rewrite Nat2Z.id.
    eapply parses_bind; [by apply parses_protocols|]. cbv beta.
    eapply parses_bind; [apply parses_u16; lia|]. cbv beta.
    match goal with |- parses ?f _ ?v => enough (parses f (extra ++ []) v) as H by (by rewrite app_nil_r in H) end.
    eapply parses_bind; [exact Hpx|apply parses_ret].
  - eapply cut_bind; [by apply parses_u32|apply (cut_uint 4); [apply readU32_law|done]|]. cbv beta.
    eapply cut_bind; [apply parses_u8; lia|apply (cut_uint 1); [apply readU8_law|done]|]. cbv beta. rewrite Nat2Z.id.
    eapply cut_bind; [by apply parses_protocols|by apply cut_protocols|]. cbv beta.
    eapply cut_bind; [apply parses_u16; lia|apply (cut_uint 2); [apply readU16_law|done]|]. cbv beta.
    match goal with |- cut_short ?f _ => enough (cut_short f (extra ++ [])) as H by (by rewrite app_nil_r in H) end.
    eapply cut_bind; [exact Hpx|exact Hcx|apply cut_ret].
Qed.

(** After the code. *)
Lemma parse_pong_code data :
  exists r, unread r = data /\
    thrParsePingResponse (MSG_PONG :: data) = map_err PongRead (fst <$> read_pong r).
Proof.
  unfold thrParsePingResponse.
  destruct (parses_u8 MSG_PONG ltac:(done) (reader_of (MSG_PONG :: data)) data (unread_of _)) as (r & Hr & Hu).
  exists r. split; [done|]. by rewrite Hr.
Qed.

Lemma pong_parses id ps extra tl :
  pong_ok id ps extra -> thrParsePingResponse (pong_bytes id ps extra ++ tl) = Ok (pong_result id ps extra).
Proof.
  intros Hok. destruct (read_pong_spec id ps extra Hok) as [Hp _].
  destruct (parse_pong_code (pong_rest id ps extra ++ tl)) as (r & Hr & H).
  change (pong_bytes id ps extra ++ tl) with (MSG_PONG :: pong_rest id ps extra ++ tl). rewrite H.
  destruct (Hp r tl Hr) as (r' & -> & _). done.
Qed.

Lemma cut_pong_fails id ps extra n :
  pong_ok id ps extra -> 1 <= n < len (pong_bytes id ps extra) ->
  exists e, thrParsePingResponse (ztake n (pong_bytes id ps extra)) = Err e.
Proof.
  intros Hok Hn. destruct (read_pong_spec id ps extra Hok) as [_ Hcut].
  change (pong_bytes id ps extra) with (MSG_PONG :: pong_rest id ps extra) in *. cbn [length] in Hn.
  assert (ztake n (MSG_PONG :: pong_rest id ps extra) = MSG_PONG :: ztake (n - 1) (pong_rest id ps extra)) as ->.
  { unfold ztake. by replace (Z.to_nat n) with (S (Z.to_nat (n - 1))) by lia. }
  destruct (parse_pong_code (ztake (n - 1) (pong_rest id ps extra))) as (r & Hr & ->).
  destruct (Hcut r (zdrop (n - 1) (pong_rest id ps extra))) as [e He].
  - rewrite Hr. apply take_drop.
  - intros H. apply (f_equal length) in H. pose proof (len_zdrop (n - 1) (pong_rest id ps extra)). cbn in H. lia.
  - rewrite He. by eexists.
Qed.

Lemma read_protocols_total n r : is_fault (read_protocols n r) = false.
Proof.
  revert r. induction n as [|n IH]; intros r; [done|]. cbn [read_protocols].
  apply bind_not_fault; [rewrite readU8_law; apply reads_total|]. intros [id r1] _.
  apply bind_not_fault; [rewrite readU16_law; apply reads_total|]. intros [port r2] _.
  apply bind_not_fault; [apply IH|]. by intros [ps r3] _.
Qed.

Lemma parse_total data : is_fault (thrParsePingResponse data) = false.
Proof.
  unfold thrParsePingResponse. destruct (match readU8 (reader_of data) with Ok cr => cr | _ => _ end) as [code r].
  destruct (negb _); [done|]. rewrite map_err_fault.
  enough (is_fault (read_pong r) = false) as H by (by destruct (read_pong r)). unfold read_pong.
  apply bind_not_fault; [rewrite readU32_law; apply reads_total|]. intros [id r1] _.
  apply bind_not_fault; [rewrite readU8_law; apply reads_total|]. intros [n r2] _.
  apply bind_not_fault; [apply read_protocols_total|]. intros [ps r3] _.
  apply bind_not_fault; [rewrite readU16_law; apply reads_total|]. intros [k r4] _.
  apply bind_not_fault; [destruct (0 <? k); [rewrite readBytes_law; apply reads_total|done]|]. by intros [x r5] _.
Qed.
End Pong.

Section Worker.
Context {T : TimeLib} {AL : AddressLib} {D : DnsLib} {PL : PingerLib}.
Context {W : ByteWriter} {WL : ByteWriterLaws W} {BR : ByteReader} {RL : ByteReaderLaws BR}.
Context {CP : CacheLib SocketAddressV6 CachedPing}.
Context {Callback : Type}.
Abbreviation Pinger := (Pinger Callback).

(** ** Each callback once *)
Definition out_callback (o : PingOutcome Callback) : Callback :=
  match o with Called cb _ _ | Dropped cb => cb end.
Definition held (p : Pinger) : list Callback := (og_callback <$> p_outgoingPings p) ++ (snd <$> p_queue p).
Definition ev_callbacks (ev : PingEvent Callback) : list Callback := match ev with EvPing _ cb => [cb] | _ => [] end.

(** A method that ends with outcomes, and accounts for the callbacks. *)
Definition accounts (new : list Callback) (m : STE Empty_set Pinger (list (PingOutcome Callback))) (p : Pinger) : Prop :=
  exists out p', m p = (Ok out, p') /\ (out_callback <$> out) ++ held p' ≡ₚ held p ++ new.

Lemma ping_accounts addr cb p : accounts [cb] (ping addr cb) p.
Proof.
  unfold accounts, ping, mbind, ST_bind, get. destruct (length (p_queue p) <? PING_QUEUE)%nat; cbn.
  - do 2 eexists. split; [done|]. unfold held. cbn. by rewrite fmap_app, app_assoc.
  - do 2 eexists. split; [done|]. cbn. by rewrite Permutation_app_comm.
Qed.

Lemma ping_padding_run w (p : Pinger) :
  exists w' g pad, ping_padding w p = (Ok w', p_set_rng g p) /\ written w' = written w ++ pad /\
                   MINIMUM_UDP_PAYLOAD <= len (written w').
Proof.
  unfold ping_padding. destruct (pad_spec (E := Empty_set) (p_rng p) w) as (w' & g' & bs & -> & Hw & Hbs).
  exists w', g', bs. split; [done|]. split; [done|]. destruct Hbs as [[-> ?]|(pad & _ & ->)]; [|done].
  by rewrite Hw, app_nil_r.
Qed.

(** The ping that is sent, or the error that is told. *)
Lemma thrDoPing_run now sentAt addr cb (p : Pinger) errors :
  p_socket p = Some errors ->
  let id := u32 (p_nextPingId p + 1) in
  exists cached pad c g,
    let p' := {| p_queue := p_queue p; p_socket := Some (tail errors); p_sent := p_sent p;
                 p_outgoingPings := p_outgoingPings p; p_nextPingId := id; p_cache := c; p_rng := g |} in
    cached = bool_decide (is_Some (cache_get now (toV6 addr) (p_cache p)).1) /\
    match errors with
    | Some e :: _ => thrDoPing now sentAt addr cb p = (Ok [Called cb (ping_result id false true) false], p')
    | _ =>
        let bytes := le_split 1 MSG_PING ++ le_split 4 id ++ le_split 1 (if cached then 1 else 0) ++ pad in
        MINIMUM_UDP_PAYLOAD <= len bytes /\
        thrDoPing now sentAt addr cb p
        = (Ok [], p_set_outgoing (p_outgoingPings p ++ [{| og_sentAt := sentAt; og_callback := cb; og_pingId := id |}])
                    (p_set_socket (Some (tail errors)) (p_sent p ++ [(addr, bytes)]) p'))
    end.
Proof.
  intros Hs id. destruct (cache_get now (toV6 addr) (p_cache p)) as [entry c] eqn:Ec.
  set (cached := bool_decide (is_Some entry)).
  assert (isCached now addr (p_set_next id p) = (cached, p_set_cache c (p_set_next id p))) as Hc.
  { unfold isCached, Pinger_getCached. cbn [p_cache p_set_next]. rewrite Ec. unfold cached. by destruct entry. }
  destruct (ping_padding_run (writeU8 (if cached then 1 else 0) (writeU32 id (writeU8 MSG_PING new_writer)))
              (p_set_cache c (p_set_next id p))) as (w & g & pad & Hpad & Hw & Hmin).
  rewrite !writeU8_law, writeU32_law, writeU8_law, written_new, <- !app_assoc in Hw. cbn [app] in Hw.
  exists cached, pad, c, g. cbn zeta. split; [done|]. unfold thrDoPing.
  rewrite (bind_run _ _ p id (p_set_next id p)) by done. cbv beta zeta.
  rewrite (bind_run _ _ _ cached (p_set_cache c (p_set_next id p))) by (unfold state; by rewrite Hc). cbv beta zeta.
  rewrite (bind_run _ _ _ _ _ Hpad), Hw.
  set (p1 := p_set_rng g (p_set_cache c (p_set_next id p))).
  assert (p_socket p1 = Some errors) as Hs1 by done. unfold mbind, ST_bind, sendTo. rewrite Hs1.
  destruct errors as [|[e|] errors]; [|done|]; (split; [by rewrite <- Hw|done]).
Qed.

Lemma dispatch_accounts elapsed now now' result addr (p : Pinger) :
  (out_callback <$> (thrDispatchResult elapsed now now' result addr p).1) ++
    held (thrDispatchResult elapsed now now' result addr p).2 ≡ₚ held p.
Proof.
  unfold thrDispatchResult. destruct (list_find _ _) as [[it pg]|] eqn:E; [|done].
  apply list_find_Some in E as (Hit & _ & _). destruct (cache_get now (toV6 addr) (p_cache p)) as [entry c].
  cbn. unfold held. cbn. by rewrite (delete_Permutation (p_outgoingPings p) it pg) at 2 by done.
Qed.

Lemma remove_timed_out_spec now (pings : list (OutgoingPing Callback)) :
  remove_timed_out now pings =
  ((fun pg : OutgoingPing Callback => Called (og_callback pg) (ping_result (og_pingId pg) true false) false) <$>
     List.filter (timed_out now) pings,
   List.filter (fun pg => negb (timed_out now pg)) pings).
Proof.
  induction pings as [|pg pings IH]; cbn; [done|]. rewrite IH. by destruct (timed_out now pg).
Qed.

Lemma remove_accounts now (p : Pinger) :
  (out_callback <$> (thrRemoveTimedOutPings now p).1) ++ held (thrRemoveTimedOutPings now p).2 ≡ₚ held p.
Proof.
  unfold thrRemoveTimedOutPings. rewrite remove_timed_out_spec. cbn. rewrite <- list_fmap_compose. unfold held. cbn.
  rewrite app_assoc. f_equiv. induction (p_outgoingPings p) as [|pg pings IH]; [done|]. cbn.
  destruct (timed_out now pg); cbn; [by rewrite IH|]. by rewrite <- Permutation_middle, IH.
Qed.

Lemma thrDoPing_accounts now sentAt addr cb (p : Pinger) errors :
  p_socket p = Some errors -> accounts [cb] (thrDoPing now sentAt addr cb) p.
Proof.
  intros Hs. destruct (thrDoPing_run now sentAt addr cb p errors Hs) as (cached & pad & c & g & _ & H).
  cbn zeta in H. unfold accounts. destruct errors as [|[e|] errors].
  - destruct H as [_ H]. rewrite H. do 2 eexists. split; [done|]. unfold held. cbn. rewrite fmap_app, <- !app_assoc. cbn.
    by rewrite <- Permutation_cons_append.
  - rewrite H. do 2 eexists. split; [done|]. unfold held. cbn. by rewrite (Permutation_app_comm _ [cb]).
  - destruct H as [_ H]. rewrite H. do 2 eexists. split; [done|]. unfold held. cbn. rewrite fmap_app, <- !app_assoc. cbn.
    by rewrite <- Permutation_cons_append.
Qed.

Lemma accounts_ret (p : Pinger) : accounts [] (mret []) p.
Proof. exists [], p. split; [done|]. cbn. by rewrite app_nil_r. Qed.

Lemma worker_event_accounts ev (p : Pinger) : accounts (ev_callbacks ev) (worker_event ev) p.
Proof.
  destruct ev as [addr cb|socket|now sentAt|data src elapsed now now'|e|now]; unfold accounts, worker_event;
    rewrite (bind_run _ _ p (p_socket p) p) by done; cbv beta.
  - apply ping_accounts.
  - destruct (p_socket p); [apply accounts_ret|]. eexists [], _. split; [done|]. by rewrite app_nil_r.
  - destruct (p_socket p) as [errors|] eqn:Hs; [|apply accounts_ret].
    rewrite (bind_run _ _ p (p_queue p) p) by done. destruct (p_queue p) as [|[addr cb] queue] eqn:Hq; [apply accounts_ret|].
    rewrite (bind_run _ _ p tt (p_set_queue queue p)) by done.
    destruct (thrDoPing_accounts now sentAt addr cb (p_set_queue queue p) errors Hs) as (out & p' & -> & H).
    do 2 eexists. split; [done|]. rewrite H, app_nil_r. unfold held. cbn. rewrite Hq. cbn.
    by rewrite <- app_assoc, <- Permutation_cons_append.
  - destruct (p_socket p); [|apply accounts_ret].
    pose proof (parse_total (ztake PING_RESPONSE_SIZE data)) as Hf.
    destruct (thrParsePingResponse _) as [result|e|f]; [|apply accounts_ret|done].
    pose proof (dispatch_accounts elapsed now now' result src p) as H. unfold state.
    destruct (thrDispatchResult _ _ _ _ _ p) as [out p']. do 2 eexists. split; [done|]. by rewrite app_nil_r.
  - destruct (p_socket p); [|apply accounts_ret]. destruct (isConnectionReset e); [apply accounts_ret|].
    eexists [], _. split; [done|]. by rewrite app_nil_r.
  - destruct (p_socket p); [|apply accounts_ret]. rewrite (bind_run _ _ p (nextTimeout p) p) by done.
    destruct (nextTimeout p) as [t|]; [|apply accounts_ret]. destruct (igeb now t); [|apply accounts_ret].
    pose proof (remove_accounts now p) as H. unfold state.
    destruct (thrRemoveTimedOutPings now p) as [out p']. do 2 eexists. split; [done|]. by rewrite app_nil_r.
Qed.

(** Whatever is asked and whatever arrives, the worker does not throw, and
    each callback was called once, or dropped once because the channel was full,
    or is in the channel or with an outstanding ping. *)
Theorem ping_callbacks_once evs (p : Pinger) :
  exists (out : list (PingOutcome Callback)) (p' : Pinger), worker_events evs p = (Ok out, p') /\
    (out_callback <$> out) ++ held p' ≡ₚ held p ++ (evs ≫= ev_callbacks).
Proof.
  revert p. induction evs as [|ev evs IH]; intros p; [apply (accounts_ret p)|]. cbn [worker_events].
  destruct (worker_event_accounts ev p) as (out & p1 & H1 & Hacc). rewrite (bind_run _ _ _ _ _ H1).
  destruct (IH p1) as (out' & p2 & H2 & Hacc'). rewrite (bind_run _ _ _ _ _ H2).
  do 2 eexists. split; [done|]. cbn [mbind list_bind]. by rewrite fmap_app, <- app_assoc, Hacc', !app_assoc, Hacc.
Qed.

(** ** Answers *)
Definition pinger_cached (now : instant) (addr : address) (p : Pinger) : option PingResult :=
  (Pinger_getCached now addr p).1.

(** C30. An answer of up to 256 bytes ends the outstanding ping with its
    identifier: the callback is called once, with the response time since the
    ping was sent, the data of the answer, and its protocols, or those of the
    cache when the answer has none; the cache then has them under the address the
    answer came from. *)
Theorem pong_answered {CL : CacheLaws CP} id ps extra src elapsed now now' (p : Pinger) errors it pg :
  p_socket p = Some errors -> pong_ok id ps extra -> len (pong_bytes id ps extra) <= PING_RESPONSE_SIZE ->
  list_find (fun pg => og_pingId pg = id) (p_outgoingPings p) = Some (it, pg) ->
  dleb (since now now') (cache_ttl (p_cache p)) = true ->
  exists p',
    let known := pinger_cached now src p in
    let protocols := if bool_decide (ps = []) then from_option pr_protocols [] known else ps in
    let time := since elapsed (og_sentAt pg) in
    worker_event (EvDatagram (pong_bytes id ps extra) src elapsed now now') p
    = (Ok [Called (og_callback pg)
             {| pr_pingId := id; pr_responseTime := time; pr_protocols := protocols; pr_extraData := extra;
                pr_timedOut := false; pr_errored := false |} true], p') /\
    p_outgoingPings p' = delete it (p_outgoingPings p) /\
    (pr_protocols <$> pinger_cached now src p') = Some protocols /\
    (pr_responseTime <$> pinger_cached now src p') = Some time.
Proof.
  intros Hs Hok Hlen Hf Httl. unfold worker_event. rewrite (bind_run _ _ p (p_socket p) p) by done. rewrite Hs. cbv beta.
  rewrite ztake_ge by done. pose proof (pong_parses id ps extra [] Hok) as Hp. rewrite app_nil_r in Hp. rewrite Hp.
  unfold state, thrDispatchResult, pinger_cached, Pinger_getCached. cbn [pong_result pr_pingId pr_protocols].
  rewrite Hf. pose proof (cache_ttl_get now (toV6 src) (p_cache p)) as Httl'.
  pose proof (get_set now (toV6 src)) as Hset. specialize (Hset) with (c := p_cache p).
  destruct (cache_get now (toV6 src) (p_cache p)) as [entry c]. cbn [fst snd] in *. eexists. cbn zeta.
  set (protocols := if bool_decide (ps = []) then _ else ps).
  assert ((match entry with Some entry => if bool_decide (ps = []) then cp_protocols entry else ps | None => ps end)
          = protocols) as -> by (unfold protocols; case_bool_decide; subst; by destruct entry).
  split; [done|]. split; [done|]. cbn [p_cache p_set_outgoing p_set_cache].
  set (fresh := {| cp_responseTime := since elapsed (og_sentAt pg); cp_protocols := protocols |}).
  assert ((cache_get now (toV6 src) (match entry with None => cache_insert now' (toV6 src) fresh c
            | Some _ => cache_set (toV6 src) fresh c end)).1 = Some fresh) as H.
  { destruct entry; [by apply Hset|]. apply get_insert. by rewrite Httl'. }
  destruct (cache_get now (toV6 src) _) as [v c']. cbn [fst] in H. by rewrite H.
Qed.

(** ** Pings that are not answered *)
Section Timeouts.
Context {IL : InstantLaws T}.

Lemma imin_spec now t t' :
  (exists u, imin t t' = Some u /\ (igeb now t' = true -> igeb now u = true) /\
             (forall u', t = Some u' -> igeb now u' = true -> igeb now u = true)).
Proof.
  destruct t as [t|]; cbn; [|by eexists]. eexists. split; [done|]. destruct (igeb t' t) eqn:E.
  - split; [|by intros ? [= ->]]. intros H. by eapply igeb_trans.
  - split; [done|]. intros u' [= <-] H. destruct (igeb_total t t') as [Ht|Ht]; [by eapply igeb_trans|congruence].
Qed.

(** The worker does not sleep past the timeout of a ping. *)
Lemma nextTimeout_due now pg (p : Pinger) :
  pg ∈ p_outgoingPings p -> timed_out now pg = true -> exists t, nextTimeout p = Some t /\ igeb now t = true.
Proof.
  intros Hin Hto. apply igeb_elapsed in Hto. unfold nextTimeout.
  assert (forall l acc, (exists t, acc = Some t /\ igeb now t = true) \/ pg ∈ l ->
    exists t, foldl (fun t pg => imin t (iadd (og_sentAt pg) PING_TIMEOUT)) acc l = Some t /\ igeb now t = true) as H;
    [|by apply H; right].
  clear Hin. induction l as [|x l IH]; intros acc Hacc; cbn [foldl].
  { destruct Hacc as [H|[]%elem_of_nil]. done. }
  destruct (imin_spec now acc (iadd (og_sentAt x) PING_TIMEOUT)) as (u & -> & Hu & Hu'). apply IH.
  destruct Hacc as [(t & Ht & Hle)|[-> |Hl]%elem_of_cons]; [left; eauto|left; eauto|by right].
Qed.

(** C32. When more than a second and a half has passed since a ping was sent, the
    timer of the worker is due; it tells every ping for which this is so, and no
    other, that it timed out, and forgets exactly these. *)
Theorem pings_time_out now pg (p : Pinger) errors :
  p_socket p = Some errors -> pg ∈ p_outgoingPings p -> timed_out now pg = true ->
  let expired := List.filter (timed_out now) (p_outgoingPings p) in
  pg ∈ expired /\
  worker_event (EvTimer now) p
  = (Ok ((fun pg : OutgoingPing Callback => Called (og_callback pg) (ping_result (og_pingId pg) true false) false) <$> expired),
     p_set_outgoing (List.filter (fun pg => negb (timed_out now pg)) (p_outgoingPings p)) p).
Proof.
  intros Hs Hin Hto. cbn zeta. split.
  { apply list_elem_of_In, List.filter_In. by rewrite <- list_elem_of_In. }
  destruct (nextTimeout_due now pg p Hin Hto) as (t & Ht & Hle).
  unfold worker_event. rewrite (bind_run _ _ p (p_socket p) p) by done. rewrite Hs. cbv beta.
  rewrite (bind_run _ _ p (nextTimeout p) p) by done. rewrite Ht, Hle. unfold state, thrRemoveTimedOutPings.
  by rewrite remove_timed_out_spec.
Qed.
End Timeouts.

(** An answer of more than 256 bytes is cut by the buffer of the worker and
    dropped: nothing is told of it, and the ping stays outstanding. *)
Theorem long_pong_dropped id ps extra src elapsed now now' (p : Pinger) :
  pong_ok id ps extra -> PING_RESPONSE_SIZE < len (pong_bytes id ps extra) ->
  worker_event (EvDatagram (pong_bytes id ps extra) src elapsed now now') p = (Ok [], p).
Proof.
  intros Hok Hlen. unfold worker_event. rewrite (bind_run _ _ p (p_socket p) p) by done. cbv beta.
  destruct (p_socket p); [|done].
  destruct (cut_pong_fails id ps extra PING_RESPONSE_SIZE Hok ltac:(unfold PING_RESPONSE_SIZE in *; lia)) as [e ->]. done.
Qed.
End Worker.

(** ** With the resolver *)
Section System.
Context {T : TimeLib} {AL : AddressLib} {D : DnsLib} {PL : PingerLib}.
Context {W : ByteWriter} {WL : ByteWriterLaws W} {BR : ByteReader} {RL : ByteReaderLaws BR}.
Context {CP : CacheLib SocketAddressV6 CachedPing} {CA : CacheLib (list Z) DNSRecordA}
        {CAAAA : CacheLib (list Z) DNSRecordAAAA} {CSRV : CacheLib (list Z) DNSRecordSRV}.
Context {LA : CacheLaws CA} {LAAAA : CacheLaws CAAAA} {LSRV : CacheLaws CSRV}.
Context {Callback : Type}.
Variable Ipv6_parse : list Z -> bool.
Variable Ip_parse : list Z -> option ip.
Abbreviation PingSystem := (PingSystem Callback).
Abbreviation parse := (UrlParser_parse (E := Empty_set) Ipv6_parse Ip_parse).

(** The callbacks that the pinger or, for it, the resolver holds. *)
Definition pending (s : PingSystem) : list Callback :=
  held (sy_pinger s) ++ (rp_callback <$> (q_callback <$> r_queries (sy_resolver s))).

Definition sy_accounts (new : list Callback) (res : result Empty_set (list (PingOutcome Callback)) * PingSystem)
    (s : PingSystem) : Prop :=
  exists (out : list (PingOutcome Callback)) s',
    res = (Ok out, s') /\ resolver_wf (sy_resolver s') /\ (out_callback <$> out) ++ pending s' ≡ₚ pending s ++ new.

Lemma focus_ping addr cb (s : PingSystem) :
  exists out p', focus sy_pinger sy_set_pinger (ping addr cb) s = (Ok out, sy_set_pinger p' s) /\
    (out_callback <$> out) ++ held p' ≡ₚ held (sy_pinger s) ++ [cb].
Proof.
  destruct (ping_accounts addr cb (sy_pinger s)) as (out & p' & H & Hacc).
  exists out, p'. split; [|done]. unfold focus. by rewrite H.
Qed.

(** The assertion of [resolveAndPing] holds: an answer has an address. *)
Lemma deliver_accounts calls (s : PingSystem) :
  Forall (fun call : Call => answer_good call.2) calls ->
  exists out p', deliver calls s = (Ok out, sy_set_pinger p' s) /\
    (out_callback <$> out) ++ held p' ≡ₚ held (sy_pinger s) ++ (rp_callback <$> calls.*1).
Proof.
  intros Hc. revert s. induction Hc as [|[rp answer] calls Hgood _ IH]; intros s.
  { exists [], (sy_pinger s). split; [by destruct s|]. cbn. by rewrite app_nil_r. }
  assert (exists out p', match answer with AnswerA record => resolved record rp | _ => mret [Dropped (rp_callback rp)] end s
            = (Ok out, sy_set_pinger p' s) /\ (out_callback <$> out) ++ held p' ≡ₚ held (sy_pinger s) ++ [rp_callback rp])
    as (out & p1 & H1 & Hacc1).
  { assert (exists out p', (mret [Dropped (rp_callback rp)] : STE Empty_set PingSystem _) s = (Ok out, sy_set_pinger p' s) /\
              (out_callback <$> out) ++ held p' ≡ₚ held (sy_pinger s) ++ [rp_callback rp]) as Hdrop.
    { exists [Dropped (rp_callback rp)], (sy_pinger s). split; [by destruct s|]. cbn. by rewrite Permutation_app_comm. }
    destruct answer as [[record|e|f]|res|res]; try done.
    cbn in Hgood. unfold resolved. destruct (a_addresses record) as [|addr addrs] eqn:Ha; [by destruct Hgood|].
    apply focus_ping. }
  cbn [deliver]. rewrite (bind_run _ _ _ _ _ H1).
  destruct (IH (sy_set_pinger p1 s)) as (out' & p2 & H2 & Hacc2). rewrite (bind_run _ _ _ _ _ H2).
  exists (out ++ out'), p2. split; [done|]. cbn [sy_pinger sy_set_pinger] in Hacc2.
  rewrite fmap_app, <- app_assoc, Hacc2, app_assoc, Hacc1. by rewrite <- app_assoc.
Qed.

(** What the resolver does to the pending callbacks, before its calls are made. *)
Lemma resolver_pending calls r' new (s : PingSystem) :
  resolver_wf r' -> Forall (fun call : Call => answer_good call.2) calls ->
  calls.*1 ++ (q_callback <$> r_queries r') ≡ₚ (q_callback <$> r_queries (sy_resolver s)) ++ new ->
  sy_accounts (rp_callback <$> new) (deliver calls (sy_set_resolver r' s)) s.
Proof.
  intros Hwf Hgood Hp. destruct (deliver_accounts calls (sy_set_resolver r' s) Hgood) as (out & p' & H & Hacc).
  unfold sy_accounts. rewrite H. do 2 eexists. split; [done|]. split; [done|].
  unfold pending. cbn [sy_pinger sy_resolver sy_set_pinger sy_set_resolver] in *.
  rewrite app_assoc, Hacc, <- !app_assoc, <- !fmap_app. by rewrite Hp.
Qed.

Lemma ping_now_accounts addr cb (s : PingSystem) :
  resolver_wf (sy_resolver s) ->
  exists res out s', ping_now addr cb s = (Ok (res, out), s') /\ sy_accounts [cb] (Ok out, s') s.
Proof.
  intros Hwf. unfold ping_now. destruct (focus_ping addr cb s) as (out & p' & H & Hacc).
  rewrite (bind_run _ _ _ _ _ H). do 3 eexists. split; [done|]. do 2 eexists. split; [done|]. split; [done|].
  unfold pending. cbn [sy_pinger sy_resolver sy_set_pinger]. rewrite app_assoc, Hacc, <- !app_assoc.
  by rewrite (Permutation_app_comm [cb]).
Qed.

Lemma resolveAndPing_accounts now now' domain port cb (s : PingSystem) :
  resolver_wf (sy_resolver s) ->
  exists res out s', resolveAndPing now now' domain port cb s = (Ok (res, out), s') /\ sy_accounts [cb] (Ok out, s') s.
Proof.
  intros Hwf. unfold resolveAndPing, queryA.
  pose proof (query_wf DNSRecordA now now' domain {| rp_port := port; rp_callback := cb |} (sy_resolver s) Hwf) as [Hwf' Hgood].
  pose proof (query_calls DNSRecordA now now' domain {| rp_port := port; rp_callback := cb |} (sy_resolver s)) as Hc.
  unfold state. unfold mbind at 1, ST_bind at 1.
  destruct (query DNSRecordA now now' domain _ (sy_resolver s)) as [[res calls] r']. cbn [fst snd] in *.
  destruct (resolver_pending calls r' _ s Hwf' Hgood Hc) as (out & s' & H & Hacc).
  rewrite (bind_run _ _ _ _ _ H). do 3 eexists. split; [done|]. by exists out, s'.
Qed.

Lemma parse_value url parser : parse url = Ok parser -> up_result parser = Success -> is_Some (up_value parser).
Proof.
  unfold UrlParser_parse. destruct (split_protocol url) as [[type rest]|]; [|by intros [= <-]].
  destruct (split_path rest) as [u path]. intros (colon & _ & H)%bind_ok.
  destruct colon as [pos|]; [|injection H as <-; by eexists].
  destruct (from_chars_u16 _); injection H as <-; [by eexists|done].
Qed.

Lemma pingUrl_accounts now now' url cb (s : PingSystem) :
  resolver_wf (sy_resolver s) -> is_ok (parse url) = true ->
  exists res out s', pingUrl Ipv6_parse Ip_parse now now' url cb s = (Ok (res, out), s') /\ sy_accounts [cb] (Ok out, s') s.
Proof.
  intros Hwf Hparse. unfold pingUrl. destruct (parse url) as [parser|e|f] eqn:E; [|done..].
  rewrite (bind_run _ _ s parser s) by done.
  assert (forall err : list Z, exists res out s',
    (mret (Err err, [Dropped cb]) : STE Empty_set PingSystem (result (list Z) unit * list (PingOutcome Callback))) s
    = (Ok (res, out), s') /\ sy_accounts [cb] (Ok out, s') s) as Hdrop.
  { intros err. do 3 eexists. split; [done|]. do 2 eexists. split; [done|]. split; [done|]. cbn.
    by rewrite Permutation_app_comm. }
  destruct (up_result parser) eqn:Er; [|apply Hdrop..].
  destruct (parse_value url parser E Er) as [[addr port|addr|domain|domain port] ->];
    by (apply ping_now_accounts || apply resolveAndPing_accounts).
Qed.

Definition sy_callbacks (ev : PingSystemEvent (Callback := Callback)) : list Callback :=
  match ev with SyPingUrl _ _ _ cb => [cb] | SyWorker ev => ev_callbacks ev | _ => [] end.
(** A URL that the parser does not read out of the bounds of. *)
Definition sy_readable (ev : PingSystemEvent (Callback := Callback)) : bool :=
  match ev with SyPingUrl _ _ url _ => is_ok (parse url) | _ => true end.

Lemma system_event_accounts ev (s : PingSystem) :
  resolver_wf (sy_resolver s) -> sy_readable ev = true ->
  sy_accounts (sy_callbacks ev) (system_event Ipv6_parse Ip_parse ev s) s.
Proof.
  intros Hwf Hr. destruct ev as [now now' url cb|ev|now i status result|primary secondary]; cbn [system_event sy_callbacks].
  - destruct (pingUrl_accounts now now' url cb s Hwf Hr) as (res & out & s' & H & Hacc).
    by rewrite (bind_run _ _ _ _ _ H).
  - destruct (worker_event_accounts ev (sy_pinger s)) as (out & p' & H & Hacc). unfold focus. rewrite H.
    do 2 eexists. split; [done|]. split; [done|]. unfold pending. cbn [sy_pinger sy_resolver sy_set_pinger].
    rewrite app_assoc, Hacc, <- !app_assoc. by rewrite (Permutation_app_comm (ev_callbacks ev)).
  - pose proof (ares_answers_wf now i status result (sy_resolver s) Hwf) as [Hwf' Hgood].
    pose proof (resolver_step_calls (OpAnswer now i status result) (sy_resolver s)) as Hc. cbn [resolver_step op_callbacks] in Hc.
    unfold state, mbind, ST_bind. destruct (ares_answers now i status result (sy_resolver s)) as [calls r'].
    by apply (resolver_pending calls r' [] s).
  - do 2 eexists. split; [done|]. split; [done|]. by rewrite app_nil_r.
Qed.

(** C29. The pinger and the resolver together: whatever addresses are pinged, and
    URLs that the parser does not read out of bounds of ([sy_readable]: no host that
    begins with its only colon, as in [:80]), whatever the resolver's library answers
    and whatever arrives, nothing throws - an answered name has an address -, and each
    callback was called or dropped once, or one of the two still holds it. *)
Theorem ping_system_safe evs (s : PingSystem) :
  resolver_wf (sy_resolver s) -> Forall (fun ev => sy_readable ev = true) evs ->
  sy_accounts (evs ≫= sy_callbacks) (system_events Ipv6_parse Ip_parse evs s) s.
Proof.
  intros Hwf Hr. revert s Hwf. induction Hr as [|ev evs Hev _ IH]; intros s Hwf.
  { exists [], s. split; [done|]. split; [done|]. cbn. by rewrite app_nil_r. }
  cbn [system_events]. destruct (system_event_accounts ev s Hwf Hev) as (out & s1 & H1 & Hwf1 & Hacc1).
  rewrite (bind_run _ _ _ _ _ H1). destruct (IH s1 Hwf1) as (out' & s2 & H2 & Hwf2 & Hacc2).
  rewrite (bind_run _ _ _ _ _ H2). exists (out ++ out'), s2. split; [done|]. split; [done|]. cbn [mbind list_bind].
  by rewrite fmap_app, <- app_assoc, Hacc2, !app_assoc, Hacc1.
Qed.
End System.
