(* ===== verification/PingerEx.v ===== *)
(** * Examples of the pinger

    Runs of the worker with its own addresses and readers of lists, and what
    they show of answers that the code does not expect. *)
From S2P Require Import Prelude Dbuf Messages Time Errors Effects Padding Url Address Cache Resolver ResolverSpec ResolverEx Pinger PingerSpec.

Open Scope Z_scope.

#[export] Instance example_pinger : PingerLib (D := example_dns) := {|
  SocketAddressV6 := list Z * Z;
  addr_toV6 a := (addr_octets (AddressLib := text_addresses) a, addr_port (AddressLib := text_addresses) a);
  addr_toV4 a := addr_bits (AddressLib := text_addresses) a;
  fromIpv4Mapped bits := repeat 0 10 ++ [255; 255] ++ rev (le_split 4 bits);
  mk_addressV6 octets port := (octets, port);
  isConnectionReset e := bool_decide (se_text e = str "reset");
  fmt_resolver_error _ := str "error";
|}.

Definition server : @address text_addresses := {| sa_ip := inl 16843009; sa_port := 4340 |}.
Definition mapped_server : @address text_addresses :=
  {| sa_ip := inr (repeat 0 10 ++ [255; 255; 1; 1; 1; 1]); sa_port := 4340 |}.

(** An IPv4 address and its mapped form are one key of the cache. *)
Example mapped_key : toV6 server = toV6 mapped_server.
Proof. reflexivity. Qed.

Abbreviation event := (PingEvent (T := nano_time) (AL := text_addresses) nat).
Definition idle : Pinger (D := example_dns) nat := p_set_socket (Some []) [] (new_Pinger {| m_x := 1; m_y := 2; m_z := 3 |}).
Definition after (evs : list event) : Pinger (D := example_dns) nat := (worker_events evs idle).2.
Definition told (evs : list event) : result Empty_set (list (PingOutcome nat)) :=
  (worker_events evs (idle : Pinger (D := example_dns) nat)).1.

(** The time in milliseconds. *)
Definition at_ms (ms : Z) : @instant nano_time := ms * 1000000.
Definition asks (cb : nat) (t : Z) : list event := [EvPing server cb; EvRequest (at_ms t) (at_ms t)].
Definition answers (bytes : list Z) (src : @address text_addresses) (t : Z) : event :=
  EvDatagram bytes src (at_ms t) (at_ms t) (at_ms t).
Definition tcp_4340 : list SupportedProtocol := [{| sp_protocolId := 2; sp_port := 4340 |}].

(** ** Witnesses *)
Lemma pong_answered_witness :
  exists p',
    let known := pinger_cached (at_ms 30) mapped_server (after (asks 7 0)) in
    let protocols := if bool_decide (tcp_4340 = []) then from_option pr_protocols [] known else tcp_4340 in
    let time := since (at_ms 30) (at_ms 0) in
    worker_event (EvDatagram (pong_bytes 1 tcp_4340 [9]) mapped_server (at_ms 30) (at_ms 30) (at_ms 30)) (after (asks 7 0))
    = (Ok [Called 7%nat
             {| pr_pingId := 1; pr_responseTime := time; pr_protocols := protocols; pr_extraData := [9];
                pr_timedOut := false; pr_errored := false |} true], p') /\
    p_outgoingPings p' = delete 0%nat (p_outgoingPings (after (asks 7 0))) /\
    (pr_protocols <$> pinger_cached (at_ms 30) mapped_server p') = Some protocols /\
    (pr_responseTime <$> pinger_cached (at_ms 30) mapped_server p') = Some time.
Proof.
  apply (pong_answered 1 tcp_4340 [9] mapped_server (at_ms 30) (at_ms 30) (at_ms 30) (after (asks 7 0)) [] 0%nat
           {| og_sentAt := at_ms 0; og_callback := 7%nat; og_pingId := 1 |}).
  - reflexivity.
  - split_and!; [lia|lia| |reflexivity|reflexivity]. repeat constructor; cbn; lia.
  - intros H. discriminate H.
  - reflexivity.
  - reflexivity.
Defined.

Definition first_ping : OutgoingPing (T := nano_time) nat := {| og_sentAt := at_ms 0; og_callback := 7%nat; og_pingId := 1 |}.
Definition second_ping : OutgoingPing (T := nano_time) nat := {| og_sentAt := at_ms 1000; og_callback := 8%nat; og_pingId := 2 |}.

Lemma pings_time_out_witness :
  let p : Pinger (D := example_dns) nat := p_set_outgoing [first_ping; second_ping] idle in
  let expired := List.filter (timed_out (at_ms 1501)) (p_outgoingPings p) in
  first_ping ∈ expired /\
  worker_event (EvTimer (at_ms 1501)) p
  = (Ok ((fun pg : OutgoingPing nat => Called (og_callback pg) (ping_result (og_pingId pg) true false) false) <$> expired),
     p_set_outgoing (List.filter (fun pg => negb (timed_out (at_ms 1501) pg)) (p_outgoingPings p)) p).
Proof.
  apply (pings_time_out (at_ms 1501) first_ping (p_set_outgoing [first_ping; second_ping] idle) []).
  - reflexivity.
  - apply list_elem_of_In. left. reflexivity.
  - reflexivity.
Defined.

Lemma long_pong_dropped_witness :
  worker_event (answers (pong_bytes 1 tcp_4340 (repeat 0 250)) server 30) (after (asks 7 0)) = (Ok [], after (asks 7 0)).
Proof.
  apply (long_pong_dropped 1 tcp_4340 (repeat 0 250) server (at_ms 30) (at_ms 30) (at_ms 30) (after (asks 7 0))).
  - split_and!; [lia|lia| |reflexivity|reflexivity]. repeat constructor; cbn; lia.
  - reflexivity.
Defined.

Definition example_system : PingSystem (D := example_dns) nat :=
  {| sy_pinger := idle;
     sy_resolver := new_Resolver (D := example_dns) (Some ([] : list (list Z))) (Resolver_members setupCache setupCache setupCache) |}.
Definition system_run : list (PingSystemEvent (D := example_dns) (Callback := nat)) :=
  [SyPingUrl (at_ms 0) (at_ms 0) (str "udp://host:5") 1%nat; SyAnswer (at_ms 5) 0 ARES_SUCCESS (answer [a_rr 16843009]);
   SyPingUrl (at_ms 6) (at_ms 6) (str "http://host") 2%nat; SyWorker (EvRequest (at_ms 7) (at_ms 7));
   SyPingUrl (at_ms 8) (at_ms 8) (str "host2") 3%nat; SyAnswer (at_ms 9) 0 ARES_ENOTFOUND (answer []);
   SyWorker (answers (pong_bytes 1 tcp_4340 []) server 20); SyPingUrl (at_ms 30) (at_ms 30) (str "host") 4%nat].
Definition no_ipv6 (_ : list Z) : bool := false.
Definition no_ip (_ : list Z) : option (@ip text_addresses) := None.

Lemma ping_system_safe_witness :
  sy_accounts [1; 2; 3; 4]%nat (system_events no_ipv6 no_ip system_run example_system) example_system.
Proof.
  apply (ping_system_safe no_ipv6 no_ip system_run example_system).
  - split_and!; apply setupCache_wf.
  - repeat constructor.
Defined.

Definition briefly (out : list (PingOutcome (T := nano_time) nat)) : list (nat * bool) :=
  map (fun o => match o with Called cb _ _ => (cb, true) | Dropped cb => (cb, false) end) out.

(** Two names are pinged, one of them twice and then found in the cache of the
    resolver; one is not found and its callback dropped; one URL is not valid. *)
Example system_told :
  let '(res, s) := system_events no_ipv6 no_ip system_run example_system in
  match res with Ok out => briefly out | _ => [] end = [(2, false); (3, false); (1, true)]%nat /\
  held (sy_pinger s) = [4%nat].
Proof. vm_compute. split; reflexivity. Qed.

(** ** What goes wrong *)
Definition protocols_told (r : result Empty_set (list (PingOutcome (T := nano_time) nat))) : list (nat * list SupportedProtocol) :=
  match r with
  | Ok out => omap (fun o => match o with Called cb res _ => Some (cb, pr_protocols res) | Dropped _ => None end) out
  | _ => []
  end.
Definition flag_sent (p : Pinger (D := example_dns) nat) : option Z := last (p_sent p) ≫= fun '(_, bytes) => bytes !! 5%nat.

(** The 129th request is dropped without a word. *)
Example request_dropped :
  match told (map (fun cb => EvPing server cb) (seq 0 129)) with Ok out => briefly out | _ => [] end = [(128%nat, false)].
Proof. vm_compute. reflexivity. Qed.

(** An answer from another address is taken, and what it says is kept for that
    address. *)
Definition stranger : @address text_addresses := {| sa_ip := inl 33686018; sa_port := 1 |}.
Example stranger_answers :
  let evs := asks 7 0 ++ [answers (pong_bytes 1 tcp_4340 []) stranger 30] in
  protocols_told (told evs) = [(7%nat, tcp_4340)] /\
  pr_protocols <$> pinger_cached (at_ms 40) stranger (after evs) = Some tcp_4340 /\
  pr_protocols <$> pinger_cached (at_ms 40) server (after evs) = None.
Proof. vm_compute. split_and!; reflexivity. Qed.

(** A ping that said that the protocols are known is answered after they were
    forgotten: the answer has none, none are told, and none is what is known from
    then on, so that the next ping says again that they are known. *)
Definition forgetful : list event :=
  asks 7 0 ++ [answers (pong_bytes 1 tcp_4340 []) server 30] ++
  asks 8 899900 ++ [answers (pong_bytes 2 [] []) server 900100].
Example known_protocols_forgotten :
  protocols_told (told forgetful) = [(7%nat, tcp_4340); (8%nat, [])] /\
  flag_sent (after (forgetful ++ asks 9 900200)) = Some 1.
Proof. vm_compute. split; reflexivity. Qed.

(** The callback of an answer is called with the cache locked, which [isCached]
    and [getCached] lock. *)
Example answer_with_lock :
  match told (asks 7 0 ++ [answers (pong_bytes 1 tcp_4340 []) server 30]) with
  | Ok [Called _ _ locked] => locked
  | _ => false
  end = true.
Proof. vm_compute. reflexivity. Qed.

(** An unanswered ping at exactly its timeout: the timer is due, and tells
    nothing. *)
Example timer_early :
  match nextTimeout (after (asks 7 0)) with Some t => t =? at_ms 1500 | None => false end = true /\
  protocols_told (worker_event (EvTimer (at_ms 1500)) (after (asks 7 0))).1 = [].
Proof. vm_compute. split; reflexivity. Qed.
