(* ===== verification/ConnError.v ===== *)
(** * The errors of a connection

    [include/qunet/Connection.hpp] and [src/Connection.cpp]: [ConnectionError],
    its texts, its comparisons, and which errors end a connection. *)
From S2P Require Import Prelude Messages Errors Address Url.

(** [ConnectionError::Code] *)
Inductive Code :=
  | CodeSuccess
  | CodeInvalidProtocol
  | CodeInvalidPort
  | CodeInProgress
  | CodeNotConnected
  | CodeAlreadyConnected
  | CodeAlreadyClosing
  | CodeIpProtocolDisabled
  | CodeConnectionTypeDisabled
  | CodeNoConnectionTypeFound
  | CodeNoAddresses
  | CodeInternalError
  | CodeTlsInitFailed
  | CodeDnsResolutionFailed
  | CodeDomainNotFound.
#[export] Instance Code_eq_dec : EqDecision Code.
Proof. solve_decision. Defined.

Section Errors.
Context {AL : AddressLib}.

(** The alternatives of [m_err]; [CE_AllAddressesFailed] holds the [addresses]
    of [AllAddressesFailed], [CE_ServerClosed] the [reason] of
    [ServerClosedError]. *)
Inductive ConnectionError :=
  | CE_Code (code : Code)
  | CE_Transport (e : TransportError)
  | CE_AllAddressesFailed (addresses : list (address * ConnectionType * ConnectionError))
  | CE_ServerClosed (reason : list Z).

(** [fmt] of a number. *)
Variable fmt_dec : Z -> list Z.

Definition connTypeToString (type : ConnectionType) : list Z :=
  match type with
  | Udp => str "udp"
  | Tcp => str "tcp"
  | Quic => str "quic"
  | WebSocket | WebSocketTls => str "ws"
  | Unknown => str "unknown"
  end.

Definition ServerClosedError_message (reason : list Z) : list Z :=
  match reason with [] => str "Server closed the connection" | _ => reason end.

Definition Code_message (code : Code) : list Z :=
  match code with
  | CodeSuccess => str "Success"
  | CodeInvalidProtocol => str "Invalid protocol specified"
  | CodeInvalidPort => str "Invalid port specified"
  | CodeInProgress => str "Connection is already in progress"
  | CodeNotConnected => str "Not connected to a server"
  | CodeAlreadyConnected => str "Already connected to a server"
  | CodeAlreadyClosing => str "Connection is already closing"
  | CodeIpProtocolDisabled =>
      str "The used protocol (IPv4/IPv6) is disabled, or both are disabled, connection cannot proceed"
  | CodeConnectionTypeDisabled =>
      str "The support for the requested connection type is disabled at compile time, cannot proceed"
  | CodeNoConnectionTypeFound => str "Failed to determine a suitable protocol for the connection"
  | CodeNoAddresses => str "No addresses were given, cannot connect"
  | CodeInternalError => str "An internal error occurred"
  | CodeTlsInitFailed => str "Failed to initialize TLS context"
  | CodeDnsResolutionFailed => str "DNS resolution failed (resolver error, see logs for more details)"
  | CodeDomainNotFound => str "Could not resolve the requested hostname"
  end.

(** With the text of [AllAddressesFailed], whose one address has an error of
    its own. *)
Fixpoint ConnectionError_message (e : ConnectionError) : list Z :=
  match e with
  | CE_Transport e => TransportError_message e
  | CE_ServerClosed reason => ServerClosedError_message reason
  | CE_AllAddressesFailed [(addr, ctype, err)] =>
      str "Failed to connect to " ++ addr_toString addr ++ str " (" ++ connTypeToString ctype ++ str "): " ++
      ConnectionError_message err
  | CE_AllAddressesFailed addresses =>
      str "Failed to connect to all (" ++ fmt_dec (len addresses) ++ str ") resolved addresses"
  | CE_Code code => Code_message code
  end.

(** ** Comparisons *)
Fixpoint ConnectionError_eqb (a b : ConnectionError) : bool :=
  match a, b with
  | CE_Code c, CE_Code d => bool_decide (c = d)
  | CE_Transport e, CE_Transport f => bool_decide (e = f)
  | CE_AllAddressesFailed l, CE_AllAddressesFailed k =>
      (fix same (l k : list (address * ConnectionType * ConnectionError)) : bool :=
         match l, k with
         | [], [] => true
         | (a, t, e) :: l, (b, u, f) :: k =>
             bool_decide (a = b) && bool_decide (t = u) && ConnectionError_eqb e f && same l k
         | _, _ => false
         end) l k
  | CE_ServerClosed r, CE_ServerClosed s => bool_decide (r = s)
  | _, _ => false
  end.

Definition is_code (e : ConnectionError) (code : Code) : bool :=
  match e with CE_Code c => bool_decide (c = code) | _ => false end.
Definition is_transport (e : ConnectionError) (err : TransportError) : bool :=
  match e with CE_Transport e => bool_decide (e = err) | _ => false end.
Definition is_server_closed (e : ConnectionError) (reason : list Z) : bool :=
  match e with CE_ServerClosed r => bool_decide (r = reason) | _ => false end.

(** ** Which errors end the connection
    [is_success] is the comparison with [qsox::Error::Success]. *)
Variable is_success : SocketError -> bool.

Definition isFatalError (err : ConnectionError) : bool :=
  match err with
  | CE_ServerClosed _ => true
  | CE_Transport (TE_Socket e) => negb (is_success e)
  | CE_Transport terr =>
      bool_decide (terr = TE_Custom ConnectionTimedOut) || bool_decide (terr = TE_Custom TooUnreliable) ||
      bool_decide (terr = TE_Custom TimedOut) || bool_decide (terr = TE_Custom Closed) ||
      bool_decide (terr = TE_Custom Cancelled)
  | CE_Code code => negb (bool_decide (code = CodeSuccess))
  | CE_AllAddressesFailed _ => false
  end.

(** Equality of errors, which [operator==] decides. *)
Lemma ConnectionError_eqb_spec a b : ConnectionError_eqb a b = true <-> a = b.
Proof.
  revert a b. fix IH 1. intros [c|e|l|r] [d|f|k|s]; cbn; try (rewrite bool_decide_eq_true); try (split; congruence).
  transitivity (l = k); [|split; congruence]. revert k. induction l as [|[[x t] e] l IHl]; intros [|[[y u] f] k];
    try (split; congruence).
  rewrite !andb_true_iff, !bool_decide_eq_true, (IH e f), IHl. split; [intros [[[-> ->] ->] ->]; done|].
  by intros [= -> -> -> ->].
Qed.
End Errors.
