(* ===== verification/Connection.v ===== *)
(** * Connection

    [include/qunet/Connection.hpp], [src/Connection.cpp]: the object that the
    application uses.  A worker task runs [workerThreadLoop] again and again; the
    application calls [connect], [disconnect], [sendData] and the setters from
    other tasks.  The tasks share the object: whatever the application does
    happens while the worker waits.  [await] is the only place where the worker
    waits, and takes what the application does meanwhile from a script, so that a
    theorem for all scripts is one for all such interleavings. *)
From S2P Require Import Prelude Messages Time Errors Effects Transport Address Url Socket Sorting Cache Resolver Pinger ConnError.

Inductive ConnectionState :=
  | Disconnected
  | DnsResolving
  | Pinging
  | Connecting
  | Connected
  | Closing
  | Reconnecting.
#[export] Instance ConnectionState_eq_dec : EqDecision ConnectionState.
Proof. solve_decision. Defined.

Inductive ContextType := Client1_3 | Client.

(** ** What the connection uses
    The socket, the resolver, the pinger, the TLS library and the clock, with
    the state [world] of all that. *)
Class ConnectionEnv {T : TimeLib} {AL : AddressLib} := {
  socket : Type;
  TlsContext : Type;
  world : Type;
  env_connect : TransportOptions TlsContext -> option (list Z) -> ST world socket;
  (** [Socket::reconnect]: the previous socket is dropped after a success. *)
  env_reconnect : TransportOptions TlsContext -> socket -> ST world socket;
  env_sendMessage : OutgoingMessage -> ST (socket * world) unit;
  env_receiveMessage : ST (socket * world) QunetMessage;
  env_handleTimerExpiry : ST (socket * world) unit;
  env_close : ST (socket * world) unit;
  env_closeSync : ST (socket * world) unit;
  env_isClosed : socket -> world -> bool;
  env_getLatency : socket -> duration;
  env_getJitter : socket -> duration;
  env_updateLatency : duration -> socket -> socket;
  (** [asyncQueryA], [asyncQueryAAAA], [asyncQuerySRV]: nothing on an error *)
  env_queryA : list Z -> world -> option (list ip) * world;
  env_queryAAAA : list Z -> world -> option (list ip) * world;
  env_querySRV : list Z -> world -> option (list SRVEndpoint) * world;
  (** whether the AAAA query was answered before the A query *)
  env_firstAAAA : world -> bool;
  env_now : world -> instant;
  (** a new channel, that the callbacks of the pings to come will send to *)
  env_openPings : world -> world;
  (** a look into the cache forgets what has expired *)
  env_getCached : address -> world -> option PingResult * world;
  (** a ping whose callback holds the index of the address *)
  env_ping : nat -> address -> world -> world;
  (** the results that have come over the channel, with the index of the address *)
  env_pings : world -> list (nat * PingResult) * world;
  env_createContext : ContextType -> world -> option TlsContext * world;
  (** [loadSystemCACerts] and [setupQuicContext] change the context *)
  env_loadSystemCACerts : TlsContext -> world -> bool * TlsContext * world;
  env_setupQuicContext : TlsContext -> world -> bool * TlsContext * world;
  (** [qsox::IpAddress::parse] and [qsox::Ipv6Address::parse] *)
  env_parse : list Z -> option ip;
  env_isIpv6 : list Z -> bool;
  (** [fmt] of a number *)
  env_fmt_dec : Z -> list Z;
  (** [err == qsox::Error::Success] *)
  env_isSuccess : SocketError -> bool;
  (** [QUNET_QUIC_SUPPORT], [QUNET_WS_SUPPORT], [QUNET_TLS_SUPPORT], and whether
      the debug assertions are compiled in *)
  quic_support : bool;
  ws_support : bool;
  tls_support : bool;
  debug_build : bool;
}.

Section Connection.
Context {T : TimeLib} {AL : AddressLib} {E : ConnectionEnv}.

(** ** The object *)
Record ConnectionSettings := {
  s_srvPrefix : list Z;
  s_preferredConnType : ConnectionType;
  s_connOptions : ConnectionOptions;
  s_preferIpv6 : bool;
  s_ipv4Enabled : bool;
  s_ipv6Enabled : bool;
  s_connTimeout : duration;
  s_qdbFolder : option (list Z);
}.

Definition default_settings : ConnectionSettings := {|
  s_srvPrefix := str "_qunet";
  s_preferredConnType := Tcp;
  s_connOptions := {| co_debug := {| cd_verboseSsl := false; cd_verboseQuic := false; cd_recordStats := false;
                                     cd_packetLossSimulation := SpecFloat.S754_zero false |};
                      co_activeKeepaliveInterval := None |};
  s_preferIpv6 := true;
  s_ipv4Enabled := true;
  s_ipv6Enabled := true;
  s_connTimeout := fromSecs 5;
  s_qdbFolder := None;
|}.

Record ConnectionData := {
  d_address : option address;
  d_connType : ConnectionType;
  d_reconnectAttempt : Z;
  d_tryStatelessReconnect : bool;
}.
Definition new_ConnectionData : ConnectionData :=
  {| d_address := None; d_connType := Unknown; d_reconnectAttempt := 0; d_tryStatelessReconnect := false |}.

(** What the application calls, from a callback too. *)
Inductive Op :=
  | OpConnect (destination : list Z)
  | OpDisconnect
  | OpSend (message : OutgoingMessage).

(** A callback is what it does; the decision whether to reconnect is a
    function. *)
Record ConnectionCallbacks := {
  cb_connState : option (ConnectionState -> list Op);
  cb_data : option (list Z -> list Op);
  cb_stateReset : option (list Op);
  cb_shouldReconnect : option (ConnectionError -> bool);
}.
Definition no_callbacks : ConnectionCallbacks :=
  {| cb_connState := None; cb_data := None; cb_stateReset := None; cb_shouldReconnect := None |}.

(** What only another task calls. *)
Inductive UserOp :=
  | UserCall (op : Op)
  | SetCallbacks (f : ConnectionCallbacks -> ConnectionCallbacks)
  | ChangeSettings (f : ConnectionSettings -> ConnectionSettings)
  | UpdateLatency (rtt : duration)
  | SetTlsContext (context : option TlsContext)
  | SetQuicTlsContext (context : option TlsContext)
  | SimulateConnectionDrop
  | Destroy.

(** What ends a wait. *)
Inductive Event := EvSend | EvTimer | EvDisconnect | EvReceive | EvWake.

(** The calls of the callbacks. *)
Inductive Call :=
  | CallState (s : ConnectionState)
  | CallData (data : list Z)
  | CallStateReset.

(** Whether the worker is in a [select] with [m_disconnectNotify]: not at all;
    not yet waiting for it; waiting, and notified or not. *)
Inductive Listening := NotListening | NotYet | Waiting (notified : bool).

Record Conn := {
  c_state : ConnectionState;
  c_data : ConnectionData;
  c_lastError : ConnectionError;
  c_socket : option socket;
  c_disconnectReq : bool;
  c_connectChan : list (list Z);
  c_msgChan : list OutgoingMessage;
  c_connectHostname : list Z;
  c_connectPath : list Z;
  c_settings : ConnectionSettings;
  c_callbacks : ConnectionCallbacks;
  c_tcpTlsContext : option TlsContext;
  c_quicTlsContext : option TlsContext;
  c_cancelled : bool;
  c_listening : Listening;
  c_world : world;
  (** what the application does in each wait to come, and what ends the wait *)
  c_script : list (list UserOp * Event);
  c_calls : list Call;
  (** the messages handed to the socket, and those that [sendMsgToThread] accepted *)
  c_sent : list OutgoingMessage;
  c_accepted : list OutgoingMessage;
}.

Definition set_state (x : ConnectionState) (c : Conn) : Conn :=
  {| c_state := x; c_data := c_data c; c_lastError := c_lastError c; c_socket := c_socket c; c_disconnectReq :=
     c_disconnectReq c; c_connectChan := c_connectChan c; c_msgChan := c_msgChan c; c_connectHostname :=
     c_connectHostname c; c_connectPath := c_connectPath c; c_settings := c_settings c; c_callbacks :=
     c_callbacks c; c_tcpTlsContext := c_tcpTlsContext c; c_quicTlsContext := c_quicTlsContext c; c_cancelled :=
     c_cancelled c; c_listening := c_listening c; c_world := c_world c; c_script := c_script c; c_calls :=
     c_calls c; c_sent := c_sent c;
     c_accepted := c_accepted c |}.
Definition set_data (x : ConnectionData) (c : Conn) : Conn :=
  {| c_state := c_state c; c_data := x; c_lastError := c_lastError c; c_socket := c_socket c; c_disconnectReq :=
     c_disconnectReq c; c_connectChan := c_connectChan c; c_msgChan := c_msgChan c; c_connectHostname :=
     c_connectHostname c; c_connectPath := c_connectPath c; c_settings := c_settings c; c_callbacks :=
     c_callbacks c; c_tcpTlsContext := c_tcpTlsContext c; c_quicTlsContext := c_quicTlsContext c; c_cancelled :=
     c_cancelled c; c_listening := c_listening c; c_world := c_world c; c_script := c_script c; c_calls :=
     c_calls c; c_sent := c_sent c;
     c_accepted := c_accepted c |}.
Definition set_lastError (x : ConnectionError) (c : Conn) : Conn :=
  {| c_state := c_state c; c_data := c_data c; c_lastError := x; c_socket := c_socket c; c_disconnectReq :=
     c_disconnectReq c; c_connectChan := c_connectChan c; c_msgChan := c_msgChan c; c_connectHostname :=
     c_connectHostname c; c_connectPath := c_connectPath c; c_settings := c_settings c; c_callbacks :=
     c_callbacks c; c_tcpTlsContext := c_tcpTlsContext c; c_quicTlsContext := c_quicTlsContext c; c_cancelled :=
     c_cancelled c; c_listening := c_listening c; c_world := c_world c; c_script := c_script c; c_calls :=
     c_calls c; c_sent := c_sent c;
     c_accepted := c_accepted c |}.
Definition set_socket (x : option socket) (c : Conn) : Conn :=
  {| c_state := c_state c; c_data := c_data c; c_lastError := c_lastError c; c_socket := x; c_disconnectReq :=
     c_disconnectReq c; c_connectChan := c_connectChan c; c_msgChan := c_msgChan c; c_connectHostname :=
     c_connectHostname c; c_connectPath := c_connectPath c; c_settings := c_settings c; c_callbacks :=
     c_callbacks c; c_tcpTlsContext := c_tcpTlsContext c; c_quicTlsContext := c_quicTlsContext c; c_cancelled :=
     c_cancelled c; c_listening := c_listening c; c_world := c_world c; c_script := c_script c; c_calls :=
     c_calls c; c_sent := c_sent c;
     c_accepted := c_accepted c |}.
Definition set_disconnectReq (x : bool) (c : Conn) : Conn :=
  {| c_state := c_state c; c_data := c_data c; c_lastError := c_lastError c; c_socket := c_socket c;
     c_disconnectReq := x; c_connectChan := c_connectChan c; c_msgChan := c_msgChan c; c_connectHostname :=
     c_connectHostname c; c_connectPath := c_connectPath c; c_settings := c_settings c; c_callbacks :=
     c_callbacks c; c_tcpTlsContext := c_tcpTlsContext c; c_quicTlsContext := c_quicTlsContext c; c_cancelled :=
     c_cancelled c; c_listening := c_listening c; c_world := c_world c; c_script := c_script c; c_calls :=
     c_calls c; c_sent := c_sent c;
     c_accepted := c_accepted c |}.
Definition set_connectChan (x : list (list Z)) (c : Conn) : Conn :=
  {| c_state := c_state c; c_data := c_data c; c_lastError := c_lastError c; c_socket := c_socket c;
     c_disconnectReq := c_disconnectReq c; c_connectChan := x; c_msgChan := c_msgChan c; c_connectHostname :=
     c_connectHostname c; c_connectPath := c_connectPath c; c_settings := c_settings c; c_callbacks :=
     c_callbacks c; c_tcpTlsContext := c_tcpTlsContext c; c_quicTlsContext := c_quicTlsContext c; c_cancelled :=
     c_cancelled c; c_listening := c_listening c; c_world := c_world c; c_script := c_script c; c_calls :=
     c_calls c; c_sent := c_sent c;
     c_accepted := c_accepted c |}.
Definition set_msgChan (x : list OutgoingMessage) (c : Conn) : Conn :=
  {| c_state := c_state c; c_data := c_data c; c_lastError := c_lastError c; c_socket := c_socket c;
     c_disconnectReq := c_disconnectReq c; c_connectChan := c_connectChan c; c_msgChan := x; c_connectHostname :=
     c_connectHostname c; c_connectPath := c_connectPath c; c_settings := c_settings c; c_callbacks :=
     c_callbacks c; c_tcpTlsContext := c_tcpTlsContext c; c_quicTlsContext := c_quicTlsContext c; c_cancelled :=
     c_cancelled c; c_listening := c_listening c; c_world := c_world c; c_script := c_script c; c_calls :=
     c_calls c; c_sent := c_sent c;
     c_accepted := c_accepted c |}.
Definition set_target (hostname : list Z) (path : list Z) (c : Conn) : Conn :=
  {| c_state := c_state c; c_data := c_data c; c_lastError := c_lastError c; c_socket := c_socket c;
     c_disconnectReq := c_disconnectReq c; c_connectChan := c_connectChan c; c_msgChan := c_msgChan c;
     c_connectHostname := hostname; c_connectPath := path; c_settings := c_settings c; c_callbacks := c_callbacks
     c; c_tcpTlsContext := c_tcpTlsContext c; c_quicTlsContext := c_quicTlsContext c; c_cancelled := c_cancelled
     c; c_listening := c_listening c; c_world := c_world c; c_script := c_script c; c_calls := c_calls c; c_sent := c_sent c;
     c_accepted := c_accepted c |}.
Definition set_settings (x : ConnectionSettings) (c : Conn) : Conn :=
  {| c_state := c_state c; c_data := c_data c; c_lastError := c_lastError c; c_socket := c_socket c;
     c_disconnectReq := c_disconnectReq c; c_connectChan := c_connectChan c; c_msgChan := c_msgChan c;
     c_connectHostname := c_connectHostname c; c_connectPath := c_connectPath c; c_settings := x; c_callbacks :=
     c_callbacks c; c_tcpTlsContext := c_tcpTlsContext c; c_quicTlsContext := c_quicTlsContext c; c_cancelled :=
     c_cancelled c; c_listening := c_listening c; c_world := c_world c; c_script := c_script c; c_calls :=
     c_calls c; c_sent := c_sent c;
     c_accepted := c_accepted c |}.
Definition set_callbacks (x : ConnectionCallbacks) (c : Conn) : Conn :=
  {| c_state := c_state c; c_data := c_data c; c_lastError := c_lastError c; c_socket := c_socket c;
     c_disconnectReq := c_disconnectReq c; c_connectChan := c_connectChan c; c_msgChan := c_msgChan c;
     c_connectHostname := c_connectHostname c; c_connectPath := c_connectPath c; c_settings := c_settings c;
     c_callbacks := x; c_tcpTlsContext := c_tcpTlsContext c; c_quicTlsContext := c_quicTlsContext c; c_cancelled
     := c_cancelled c; c_listening := c_listening c; c_world := c_world c; c_script := c_script c; c_calls :=
     c_calls c; c_sent := c_sent c;
     c_accepted := c_accepted c |}.
Definition set_tlsContexts (tcp : option TlsContext) (quic : option TlsContext) (c : Conn) : Conn :=
  {| c_state := c_state c; c_data := c_data c; c_lastError := c_lastError c; c_socket := c_socket c;
     c_disconnectReq := c_disconnectReq c; c_connectChan := c_connectChan c; c_msgChan := c_msgChan c;
     c_connectHostname := c_connectHostname c; c_connectPath := c_connectPath c; c_settings := c_settings c;
     c_callbacks := c_callbacks c; c_tcpTlsContext := tcp; c_quicTlsContext := quic; c_cancelled := c_cancelled
     c; c_listening := c_listening c; c_world := c_world c; c_script := c_script c; c_calls := c_calls c; c_sent := c_sent c;
     c_accepted := c_accepted c |}.
Definition set_listening (l : Listening) (c : Conn) : Conn :=
  {| c_state := c_state c; c_data := c_data c; c_lastError := c_lastError c; c_socket := c_socket c;
     c_disconnectReq := c_disconnectReq c; c_connectChan := c_connectChan c; c_msgChan := c_msgChan c;
     c_connectHostname := c_connectHostname c; c_connectPath := c_connectPath c; c_settings := c_settings c;
     c_callbacks := c_callbacks c; c_tcpTlsContext := c_tcpTlsContext c; c_quicTlsContext := c_quicTlsContext c;
     c_cancelled := c_cancelled c; c_listening := l; c_world := c_world c; c_script := c_script c; c_calls :=
     c_calls c; c_sent := c_sent c;
     c_accepted := c_accepted c |}.
Definition set_script (s : list (list UserOp * Event)) (c : Conn) : Conn :=
  {| c_state := c_state c; c_data := c_data c; c_lastError := c_lastError c; c_socket := c_socket c;
     c_disconnectReq := c_disconnectReq c; c_connectChan := c_connectChan c; c_msgChan := c_msgChan c;
     c_connectHostname := c_connectHostname c; c_connectPath := c_connectPath c; c_settings := c_settings c;
     c_callbacks := c_callbacks c; c_tcpTlsContext := c_tcpTlsContext c; c_quicTlsContext := c_quicTlsContext c;
     c_cancelled := c_cancelled c; c_listening := c_listening c; c_world := c_world c; c_script := s; c_calls :=
     c_calls c; c_sent := c_sent c;
     c_accepted := c_accepted c |}.
Definition set_cancelled (b : bool) (c : Conn) : Conn :=
  {| c_state := c_state c; c_data := c_data c; c_lastError := c_lastError c; c_socket := c_socket c;
     c_disconnectReq := c_disconnectReq c; c_connectChan := c_connectChan c; c_msgChan := c_msgChan c;
     c_connectHostname := c_connectHostname c; c_connectPath := c_connectPath c; c_settings := c_settings c;
     c_callbacks := c_callbacks c; c_tcpTlsContext := c_tcpTlsContext c; c_quicTlsContext := c_quicTlsContext c;
     c_cancelled := b; c_listening := c_listening c; c_world := c_world c; c_script := c_script c; c_calls :=
     c_calls c; c_sent := c_sent c;
     c_accepted := c_accepted c |}.
Definition set_world (x : world) (c : Conn) : Conn :=
  {| c_state := c_state c; c_data := c_data c; c_lastError := c_lastError c; c_socket := c_socket c;
     c_disconnectReq := c_disconnectReq c; c_connectChan := c_connectChan c; c_msgChan := c_msgChan c;
     c_connectHostname := c_connectHostname c; c_connectPath := c_connectPath c; c_settings := c_settings c;
     c_callbacks := c_callbacks c; c_tcpTlsContext := c_tcpTlsContext c; c_quicTlsContext := c_quicTlsContext c;
     c_cancelled := c_cancelled c; c_listening := c_listening c; c_world := x; c_script := c_script c; c_calls :=
     c_calls c; c_sent := c_sent c;
     c_accepted := c_accepted c |}.
Definition set_calls (x : list Call) (c : Conn) : Conn :=
  {| c_state := c_state c; c_data := c_data c; c_lastError := c_lastError c; c_socket := c_socket c;
     c_disconnectReq := c_disconnectReq c; c_connectChan := c_connectChan c; c_msgChan := c_msgChan c;
     c_connectHostname := c_connectHostname c; c_connectPath := c_connectPath c; c_settings := c_settings c;
     c_callbacks := c_callbacks c; c_tcpTlsContext := c_tcpTlsContext c; c_quicTlsContext := c_quicTlsContext c;
     c_cancelled := c_cancelled c; c_listening := c_listening c; c_world := c_world c; c_script := c_script c;
     c_calls := x; c_sent := c_sent c;
     c_accepted := c_accepted c |}.
Definition set_sent (x : list OutgoingMessage) (c : Conn) : Conn :=
  {| c_state := c_state c; c_data := c_data c; c_lastError := c_lastError c; c_socket := c_socket c;
     c_disconnectReq := c_disconnectReq c; c_connectChan := c_connectChan c; c_msgChan := c_msgChan c;
     c_connectHostname := c_connectHostname c; c_connectPath := c_connectPath c; c_settings := c_settings c;
     c_callbacks := c_callbacks c; c_tcpTlsContext := c_tcpTlsContext c; c_quicTlsContext := c_quicTlsContext c;
     c_cancelled := c_cancelled c; c_listening := c_listening c; c_world := c_world c; c_script := c_script c;
     c_calls := c_calls c; c_sent := x; c_accepted := c_accepted c |}.
Definition set_accepted (x : list OutgoingMessage) (c : Conn) : Conn :=
  {| c_state := c_state c; c_data := c_data c; c_lastError := c_lastError c; c_socket := c_socket c;
     c_disconnectReq := c_disconnectReq c; c_connectChan := c_connectChan c; c_msgChan := c_msgChan c;
     c_connectHostname := c_connectHostname c; c_connectPath := c_connectPath c; c_settings := c_settings c;
     c_callbacks := c_callbacks c; c_tcpTlsContext := c_tcpTlsContext c; c_quicTlsContext := c_quicTlsContext c;
     c_cancelled := c_cancelled c; c_listening := c_listening c; c_world := c_world c; c_script := c_script c;
     c_calls := c_calls c; c_sent := c_sent c; c_accepted := x |}.

Definition new_Connection (w : world) (script : list (list UserOp * Event)) : Conn :=
  {| c_state := Disconnected; c_data := new_ConnectionData; c_lastError := CE_Code CodeSuccess; c_socket := None;
     c_disconnectReq := false; c_connectChan := []; c_msgChan := []; c_connectHostname := []; c_connectPath := [];
     c_settings := default_settings; c_callbacks := no_callbacks; c_tcpTlsContext := None; c_quicTlsContext := None;
     c_cancelled := false; c_listening := NotListening; c_world := w; c_script := script; c_calls := []; c_sent := []; c_accepted := [] |}.

(** ** The calls of the application *)
Definition connecting (c : Conn) : bool :=
  bool_decide (c_state c = Connecting) || bool_decide (c_state c = DnsResolving) || bool_decide (c_state c = Pinging).
Definition connected (c : Conn) : bool := bool_decide (c_state c = Connected).
Definition disconnected (c : Conn) : bool := bool_decide (c_state c = Disconnected).

(** [trySend] on a channel of the given capacity. *)
Definition trySend {A} (capacity : Z) (a : A) (l : list A) : option (list A) :=
  if len l <? capacity then Some (l ++ [a]) else None.

Definition connect (destination : list Z) (c : Conn) : result ConnectionError unit * Conn :=
  if connected c then (Err (CE_Code CodeAlreadyConnected), c)
  else if negb (disconnected c) then (Err (CE_Code CodeInProgress), c)
  else match trySend 2 destination (c_connectChan c) with
       | Some chan => (Ok tt, set_connectChan chan c)
       | None => (Err (CE_Code CodeInProgress), c)
       end.

(** [notifyAll] wakes the worker if it waits for it. *)
Definition disconnect (c : Conn) : Conn :=
  let c := set_disconnectReq true c in
  match c_listening c with Waiting _ => set_listening (Waiting true) c | _ => c end.

Definition sendMsgToThread (message : OutgoingMessage) (c : Conn) : bool * Conn :=
  if negb (connected c) then (false, c)
  else match trySend 512 message (c_msgChan c) with
       | Some chan => (true, set_accepted (c_accepted c ++ [message]) (set_msgChan chan c))
       | None => (false, c)
       end.

Definition sendKeepalive (c : Conn) : bool * Conn :=
  sendMsgToThread {| om_message := MKeepalive {| ka_timestamp := 0 |}; om_reliable := true; om_uncompressed := false;
                     om_tag := [] |} c.
Definition sendData (data : list Z) (reliable uncompressed : bool) (tag : list Z) (c : Conn) : bool * Conn :=
  sendMsgToThread {| om_message := MData {| dm_data := data; dm_compHeader := None; dm_relHeader := None |};
                     om_reliable := reliable; om_uncompressed := uncompressed; om_tag := tag |} c.

Definition getLatency (c : Conn) : duration := match c_socket c with Some s => env_getLatency s | None => zero end.
Definition getJitter (c : Conn) : duration := match c_socket c with Some s => env_getJitter s | None => zero end.
Definition updateLatency (rtt : duration) (c : Conn) : Conn :=
  match c_socket c with Some s => set_socket (Some (env_updateLatency rtt s)) c | None => c end.

Definition apply_op (op : Op) (c : Conn) : Conn :=
  match op with
  | OpConnect destination => (connect destination c).2
  | OpDisconnect => disconnect c
  | OpSend message => (sendMsgToThread message c).2
  end.

(** A callback is called, and does what it does. *)
Definition call (what : Call) (ops : list Op) (c : Conn) : Conn :=
  foldl (fun c op => apply_op op c) (set_calls (c_calls c ++ [what]) c) ops.

(** The setters, for [ChangeSettings] and [SetCallbacks]. *)
Definition setSrvPrefix (pfx : list Z) (s : ConnectionSettings) : ConnectionSettings :=
  {| s_srvPrefix := pfx; s_preferredConnType := s_preferredConnType s; s_connOptions := s_connOptions s;
     s_preferIpv6 := s_preferIpv6 s; s_ipv4Enabled := s_ipv4Enabled s; s_ipv6Enabled := s_ipv6Enabled s;
     s_connTimeout := s_connTimeout s; s_qdbFolder := s_qdbFolder s |}.
Definition setPreferProtocol (type : ConnectionType) (s : ConnectionSettings) : ConnectionSettings :=
  {| s_srvPrefix := s_srvPrefix s; s_preferredConnType := type; s_connOptions := s_connOptions s;
     s_preferIpv6 := s_preferIpv6 s; s_ipv4Enabled := s_ipv4Enabled s; s_ipv6Enabled := s_ipv6Enabled s;
     s_connTimeout := s_connTimeout s; s_qdbFolder := s_qdbFolder s |}.
(** [setPreferIpv6], [setIpv4Enabled] and [setIpv6Enabled] *)
Definition set_families (preferIpv6 ipv4Enabled ipv6Enabled : bool) (s : ConnectionSettings) : ConnectionSettings :=
  {| s_srvPrefix := s_srvPrefix s; s_preferredConnType := s_preferredConnType s; s_connOptions := s_connOptions s;
     s_preferIpv6 := preferIpv6; s_ipv4Enabled := ipv4Enabled; s_ipv6Enabled := ipv6Enabled;
     s_connTimeout := s_connTimeout s; s_qdbFolder := s_qdbFolder s |}.
Definition setPreferIpv6 (b : bool) (s : ConnectionSettings) : ConnectionSettings :=
  set_families b (s_ipv4Enabled s) (s_ipv6Enabled s) s.
Definition setIpv4Enabled (b : bool) (s : ConnectionSettings) : ConnectionSettings :=
  set_families (s_preferIpv6 s) b (s_ipv6Enabled s) s.
Definition setIpv6Enabled (b : bool) (s : ConnectionSettings) : ConnectionSettings :=
  set_families (s_preferIpv6 s) (s_ipv4Enabled s) b s.
(** [setQdbFolder], [setDebugOptions], [setConnectTimeout] and
    [setActiveKeepaliveInterval] *)
Definition set_options (options : ConnectionOptions) (timeout : duration) (folder : option (list Z))
    (s : ConnectionSettings) : ConnectionSettings :=
  {| s_srvPrefix := s_srvPrefix s; s_preferredConnType := s_preferredConnType s; s_connOptions := options;
     s_preferIpv6 := s_preferIpv6 s; s_ipv4Enabled := s_ipv4Enabled s; s_ipv6Enabled := s_ipv6Enabled s;
     s_connTimeout := timeout; s_qdbFolder := folder |}.
Definition setQdbFolder (folder : list Z) (s : ConnectionSettings) : ConnectionSettings :=
  set_options (s_connOptions s) (s_connTimeout s) (Some folder) s.
Definition setDebugOptions (opts : ConnectionDebugOptions) (s : ConnectionSettings) : ConnectionSettings :=
  set_options {| co_debug := opts; co_activeKeepaliveInterval := co_activeKeepaliveInterval (s_connOptions s) |}
    (s_connTimeout s) (s_qdbFolder s) s.
Definition setConnectTimeout (dur : duration) (s : ConnectionSettings) : ConnectionSettings :=
  set_options (s_connOptions s) dur (s_qdbFolder s) s.
Definition setActiveKeepaliveInterval (interval : option duration) (s : ConnectionSettings) : ConnectionSettings :=
  set_options {| co_debug := co_debug (s_connOptions s); co_activeKeepaliveInterval := interval |}
    (s_connTimeout s) (s_qdbFolder s) s.
Definition setConnectionStateCallback (cb : option (ConnectionState -> list Op)) (c : ConnectionCallbacks) : ConnectionCallbacks :=
  {| cb_connState := cb; cb_data := cb_data c; cb_stateReset := cb_stateReset c;
     cb_shouldReconnect := cb_shouldReconnect c |}.
Definition setDataCallback (cb : option (list Z -> list Op)) (c : ConnectionCallbacks) : ConnectionCallbacks :=
  {| cb_connState := cb_connState c; cb_data := cb; cb_stateReset := cb_stateReset c;
     cb_shouldReconnect := cb_shouldReconnect c |}.
Definition setStateResetCallback (cb : option (list Op)) (c : ConnectionCallbacks) : ConnectionCallbacks :=
  {| cb_connState := cb_connState c; cb_data := cb_data c; cb_stateReset := cb;
     cb_shouldReconnect := cb_shouldReconnect c |}.
Definition setShouldReconnectCallback (cb : option (ConnectionError -> bool)) (c : ConnectionCallbacks) : ConnectionCallbacks :=
  {| cb_connState := cb_connState c; cb_data := cb_data c; cb_stateReset := cb_stateReset c;
     cb_shouldReconnect := cb |}.

(** ** The state *)
Definition new_attempts (d : ConnectionData) : ConnectionData :=
  {| d_address := d_address d; d_connType := d_connType d; d_reconnectAttempt := 0; d_tryStatelessReconnect := false |}.

Definition setState (state : ConnectionState) (c : Conn) : Conn :=
  let prev := c_state c in
  let c := set_state state c in
  if bool_decide (prev = state) then c
  else
    let c := match cb_connState (c_callbacks c) with
             | Some cb => call (CallState state) (cb state) c
             | None => c
             end in
    if bool_decide (state = Connected) then set_data (new_attempts (c_data c)) c else c.

Definition resetConnectionState (c : Conn) : Conn :=
  set_socket None (set_disconnectReq false (set_data new_ConnectionData c)).

(** [msgChan.drain()] *)
Definition drain (c : Conn) : Conn := set_msgChan [] c.

Definition onFatalError (err : ConnectionError) (c : Conn) : Conn :=
  let c := set_lastError err c in
  let state := c_state c in
  let shouldReconnect := match cb_shouldReconnect (c_callbacks c) with Some cb => cb err | None => true end in
  if bool_decide (state = Connected) && shouldReconnect then setState Reconnecting (drain c)
  else setState Disconnected (resetConnectionState c).

Definition onConnectionError (err : ConnectionError) (c : Conn) : Conn :=
  if isFatalError env_isSuccess err then onFatalError err c else set_lastError err c.

Definition setTlsContext (context : option TlsContext) (c : Conn) : Conn := set_tlsContexts context (c_quicTlsContext c) c.
Definition setQuicTlsContext (context : option TlsContext) (c : Conn) : Conn := set_tlsContexts (c_tcpTlsContext c) context c.

(** The notification of [m_taskWakeNotify] is the event [EvWake]. *)
Definition simulateConnectionDrop (c : Conn) : Conn := onFatalError (CE_Code CodeInternalError) c.

Definition apply_user (op : UserOp) (c : Conn) : Conn :=
  match op with
  | UserCall op => apply_op op c
  | SetCallbacks f => set_callbacks (f (c_callbacks c)) c
  | ChangeSettings f => set_settings (f (c_settings c)) c
  | UpdateLatency rtt => updateLatency rtt c
  | SetTlsContext context => setTlsContext context c
  | SetQuicTlsContext context => setQuicTlsContext context c
  | SimulateConnectionDrop => simulateConnectionDrop c
  | Destroy => set_cancelled true c
  end.

(** ** Waiting
    A call of the worker ends with a [ConnectionError], or is dropped because a
    disconnection or the end of the object was asked for while it waited. *)
Inductive stop := Failed (e : ConnectionError) | Interrupted | Stopped.
Abbreviation M := (STE stop Conn).

Definition listen (c : Conn) : Conn :=
  match c_listening c with NotYet => set_listening (Waiting false) c | _ => c end.

(** A call that was notified and went on is dropped when it waits again. *)
Definition await : M Event := fun c =>
  match c_listening c, c_script c with
  | Waiting true, _ => (Err Interrupted, c)
  | _, [] => (Fault WouldBlock, c)
  | _, (ops, ev) :: script =>
      let c := foldl (fun c op => apply_user op c) (listen (set_script script c)) ops in
      if c_cancelled c then (Err Stopped, c)
      else match c_listening c, ev with
           | Waiting true, EvDisconnect => (Err Interrupted, c)
           | _, _ => (Ok ev, c)
           end
  end.

(** [arc::select] of a call and of [m_disconnectNotify.notified()]: the result
    of the call, unless it is dropped. *)
Definition select_disconnect {A} (m : M A) (k : result ConnectionError A -> M unit) (on_disconnect : M unit) : M unit :=
  fun c =>
  let '(res, c) := m (set_listening NotYet c) in
  let c := set_listening NotListening c in
  match res with
  | Ok a => k (Ok a) c
  | Err (Failed e) => k (Err e) c
  | Err Interrupted => on_disconnect c
  | Err Stopped => (Err Stopped, c)
  | Fault f => (Fault f, c)
  end.

(** ** Calls of what the connection uses *)
Definition in_world {A} (f : world -> A * world) : M A := state (fun c => let '(a, w) := f (c_world c) in (a, set_world w c)).

(** The error of a call, as an error of the connection. *)
Definition transport_error {A} (m : TransportResult A) : result ConnectionError A := map_err CE_Transport m.

Definition attempt_world {A} (m : ST world A) : M (result ConnectionError A) := fun c =>
  let '(res, w) := m (c_world c) in
  let c := set_world w c in
  match res with Fault f => (Fault f, c) | _ => (Ok (transport_error res), c) end.

(** A method of [*m_socket], which must be there. *)
Definition attempt_socket {A} (m : ST (socket * world) A) : M (result ConnectionError A) := fun c =>
  match c_socket c with
  | None => (Fault NullDereference, c)
  | Some s =>
      let '(res, (s, w)) := m (s, c_world c) in
      let c := set_socket (Some s) (set_world w c) in
      match res with Fault f => (Fault f, c) | _ => (Ok (transport_error res), c) end
  end.

(** [co_await m_socket->f()]: the socket is there when the call begins and when
    it goes on after the wait. *)
Definition call_socket {A} (m : ST (socket * world) A) : M (result ConnectionError A) :=
  s ← get c_socket;
  match s with
  | None => lift (Fault NullDereference)
  | Some _ => _ ← await; attempt_socket m
  end.

(** [ARC_CO_UNWRAP] *)
Definition unwrap_or_fail {A} (m : M (result ConnectionError A)) : M A :=
  res ← m;
  match res with Ok a => mret a | Err e => throw (Failed e) | Fault f => lift (Fault f) end.
Definition fail {A} (code : Code) : M A := throw (Failed (CE_Code code)).

(** The result of a call, kept while more is done: only an error of the
    connection is kept. *)
Definition attempt_call {A} (m : M A) : M (result ConnectionError A) := fun c =>
  match m c with
  | (Ok a, c) => (Ok (Ok a), c)
  | (Err (Failed e), c) => (Ok (Err e), c)
  | (Err x, c) => (Err x, c)
  | (Fault f, c) => (Fault f, c)
  end.

(** ** Establishing a connection *)
Definition requiresTls (type : ConnectionType) : bool :=
  match type with Quic | WebSocketTls => true | _ => false end.

Definition isSupported (type : ConnectionType) : bool :=
  match type with Quic => quic_support | WebSocket => ws_support | _ => true end.

Definition getTlsForConnection (type : ConnectionType) (c : Conn) : result stop (option TlsContext) :=
  match type with
  | Quic => if quic_support then Ok (c_quicTlsContext c) else Fault AssertionFailed
  | WebSocketTls => Ok (c_tcpTlsContext c)
  | _ => Ok None
  end.

(** A change of a TLS context that is stored already: what it does stays even
    when it fails. *)
Definition with_context (get_context : Conn -> option TlsContext) (store : option TlsContext -> Conn -> Conn)
    (f : TlsContext -> world -> bool * TlsContext * world) : M bool := fun c =>
  match get_context c with
  | None => (Fault NullDereference, c)
  | Some ctx => let '(ok, ctx, w) := f ctx (c_world c) in (Ok ok, store (Some ctx) (set_world w c))
  end.

(** Whether the context is there and initialised. *)
Definition initTlsContext (type : ConnectionType) : M bool :=
  match type with
  | Quic =>
      if quic_support then
        ctx ← get c_quicTlsContext;
        match ctx with
        | Some _ => mret true
        | None =>
            ctx ← in_world (env_createContext Client1_3);
            match ctx with
            | None => mret false
            | Some ctx =>
                _ ← modify (setQuicTlsContext (Some ctx));
                ok ← with_context c_quicTlsContext setQuicTlsContext env_loadSystemCACerts;
                if (ok : bool) then with_context c_quicTlsContext setQuicTlsContext env_setupQuicContext else mret false
            end
        end
      else lift (Fault AssertionFailed)
  | _ =>
      ctx ← get c_tcpTlsContext;
      match ctx with
      | Some _ => mret true
      | None =>
          ctx ← in_world (env_createContext Client);
          match ctx with
          | None => mret false
          | Some ctx =>
              _ ← modify (setTlsContext (Some ctx));
              with_context c_tcpTlsContext setTlsContext env_loadSystemCACerts
          end
      end
  end.

Definition makeOptions (addr : address) (type : ConnectionType) (reconnect : bool) : M (TransportOptions TlsContext) :=
  c ← get id;
  tls ← lift (if tls_support then getTlsForConnection type c else Ok None);
  mret {| to_address := addr; to_type := type; to_timeout := s_connTimeout (c_settings c);
          to_hostname := c_connectHostname c; to_path := c_connectPath c;
          to_connOptions := s_connOptions (c_settings c); to_tlsContext := tls; to_reconnecting := reconnect |}.

(** [Socket::reconnect] refers to [*m_socket] while it waits. *)
Definition threadConnectSocket (addr : address) (type : ConnectionType) (reconnect : bool) : M unit :=
  opts ← makeOptions addr type reconnect;
  qdbDir ← get (fun c => s_qdbFolder (c_settings c));
  prev ← get c_socket;
  _ ← lift (if reconnect && negb (bool_decide (is_Some prev)) then Fault NullDereference else Ok tt);
  _ ← await;
  prev ← get c_socket;
  s ← unwrap_or_fail
        (if reconnect then
           match prev with
           | None => lift (Fault NullDereference)
           | Some prev => attempt_world (env_reconnect opts prev)
           end
         else attempt_world (env_connect opts qdbDir));
  modify (set_socket (Some s)).

Definition threadEstablishConn (addr : address) (type : ConnectionType) : M unit :=
  if negb (isSupported type) then fail CodeConnectionTypeDisabled
  else
    ok ← (if tls_support && requiresTls type then initTlsContext type else mret true);
    if (ok : bool) then threadConnectSocket addr type false else fail CodeTlsInitFailed.

(** [toNum]: nothing for the type that fails the assertion. *)
Definition toNum (type : ConnectionType) : option Z :=
  match type with
  | Tcp => Some 10
  | Quic => Some 20
  | Udp => Some 30
  | WebSocket | WebSocketTls => Some 40
  | Unknown => None
  end.

Definition candidate : Type := address * ConnectionType.

Definition candidate_less (preferred : ConnectionType) (a b : candidate) : bool :=
  if bool_decide (a.2 = preferred) && bool_decide (b.2 = preferred) then false
  else if bool_decide (a.2 = preferred) then true
  else if bool_decide (b.2 = preferred) then false
  else default 0 (toNum a.2) <? default 0 (toNum b.2).

(** The loop over the candidates: the errors of those before the one that
    connects, or of all. *)
Fixpoint try_candidates (addrs : list candidate) (errors : list (candidate * ConnectionError))
    : M (option (list (candidate * ConnectionError))) :=
  match addrs with
  | [] => mret (Some errors)
  | (addr, type) :: addrs =>
      res ← attempt_call (threadEstablishConn addr type);
      match res with
      | Err e => try_candidates addrs (errors ++ [((addr, type), e)])
      | Fault f => lift (Fault f)
      | Ok _ =>
          _ ← modify (fun c => set_data {| d_address := Some addr; d_connType := type;
                                           d_reconnectAttempt := d_reconnectAttempt (c_data c);
                                           d_tryStatelessReconnect := d_tryStatelessReconnect (c_data c) |} c);
          mret None
      end
  end.

(** No candidate has an unknown type: the assertion of [toNum] is here for all
    of them. *)
Definition threadFinalConnect (addrs : list candidate) : M unit :=
  _ ← lift (qn_assert (negb (bool_decide (addrs = []))));
  _ ← modify (setState Connecting);
  preferred ← get (fun c => s_preferredConnType (c_settings c));
  _ ← lift (qn_assert (forallb (fun a => bool_decide (is_Some (toNum a.2))) addrs));
  errors ← try_candidates (sort_by (candidate_less preferred) addrs) [];
  match errors with
  | None => mret tt
  | Some errors =>
      _ ← lift (qn_assert (negb (bool_decide (errors = []))));
      throw (Failed (CE_AllAddressesFailed errors))
  end.

(** ** Pinging *)
Definition PROTO_candidate (addr : address) (proto : SupportedProtocol) : option candidate :=
  let with_type type := Some (addr_setPort (sp_port proto) addr, type) in
  if sp_protocolId proto =? PROTO_UDP then with_type Udp
  else if sp_protocolId proto =? PROTO_TCP then with_type Tcp
  else if sp_protocolId proto =? PROTO_QUIC then with_type Quic
  else if sp_protocolId proto =? PROTO_WEBSOCKET then with_type WebSocket
  else None.

Record pinging := {
  pg_results : list (address * duration);
  pg_protocols : list SupportedProtocol;
  pg_any : nat;
  pg_chan : list (nat * PingResult);
}.
Definition pg_push (r : nat * PingResult) (p : pinging) : pinging :=
  {| pg_results := pg_results p; pg_protocols := pg_protocols p; pg_any := pg_any p;
     pg_chan := default (pg_chan p) (trySend 8 r (pg_chan p)) |}.

(** The protocols that are not known yet. *)
Definition add_protocols (protos known : list SupportedProtocol) : list SupportedProtocol :=
  foldl (fun known p => if existsb (fun q => sp_protocolId q =? sp_protocolId p) known then known else known ++ [p])
    known protos.

(** A result that was received. *)
Definition take_result (addrs : list address) (i : nat) (r : PingResult) (chan : list (nat * PingResult)) (p : pinging)
    : result stop pinging :=
  if pr_timedOut r || pr_errored r || bool_decide (length (pr_protocols r) = 0%nat) then
    Ok {| pg_results := pg_results p; pg_protocols := pg_protocols p; pg_any := S (pg_any p); pg_chan := chan |}
  else
    match addrs !! i with
    | None => Fault OutOfBounds
    | Some addr =>
        Ok {| pg_results := pg_results p ++ [(addr, pr_responseTime r)];
              pg_protocols := add_protocols (pr_protocols r) (pg_protocols p);
              pg_any := S (pg_any p); pg_chan := chan |}
    end.

(** The addresses are looked up in the cache, or pinged. *)
Fixpoint send_pings (i : nat) (addrs : list address) (p : pinging) : M pinging :=
  match addrs with
  | [] => mret p
  | addr :: addrs =>
      cached ← in_world (env_getCached addr);
      match cached with
      | Some r => send_pings (S i) addrs (pg_push (i, r) p)
      | None =>
          _ ← modify (fun c => set_world (env_ping i addr (c_world c)) c);
          send_pings (S i) addrs p
      end
  end.

(** The index of a result is the one that its callback holds, that of an
    address of this call.  The loop ends at the deadline, or when as many results as addresses were
    received: every turn receives one, so that as many turns as addresses are
    enough. *)
Fixpoint ping_loop (fuel : nat) (addrs : list address) (startedAt : instant) (p : pinging) : M pinging :=
  match fuel with
  | O => mret p
  | S fuel =>
      if (length addrs <=? pg_any p)%nat then mret p
      else
        now ← get (fun c => env_now (c_world c));
        let deadline := iadd startedAt (if bool_decide (length (pg_results p) = 0%nat) then fromSecs 5 else fromMillis 50) in
        if igeb now deadline then mret p
        else
          ev ← await;
          pongs ← in_world env_pings;
          let p := foldl (fun p r => pg_push r p) p (filter (fun r => (r.1 < length addrs)%nat) pongs) in
          match ev, pg_chan p with
          | EvTimer, _ => mret p
          | _, [] => lift (Fault WouldBlock)
          | _, (i, r) :: chan =>
              p ← lift (take_result addrs i r chan p);
              ping_loop fuel addrs startedAt p
          end
  end.

(** The comparison of the results of pings.  It is the order of the latencies, with
    25 milliseconds added for the other family ([ConnectionOrder.ping_less_key]),
    so that [std::sort] sorts by it; how it orders results with the same family
    and latency is not known: here they stay in the order of their arrival. *)
Definition ping_less (preferIpv6 : bool) (a b : address * duration) : bool :=
  if dltb (fromMillis 25) (absDiff a.2 b.2) || Bool.eqb (addr_isV6 a.1) (addr_isV6 b.1) then dltb a.2 b.2
  else if addr_isV6 a.1 && negb (addr_isV6 b.1) then preferIpv6 else negb preferIpv6.

Definition final_candidates (results : list (address * duration)) (protocols : list SupportedProtocol) : list candidate :=
  concat ((fun r => omap (PROTO_candidate r.1) protocols) <$> results).
Definition all_candidates (addrs : list address) : list candidate :=
  concat ((fun addr => [(addr, Udp); (addr, Tcp); (addr, Quic); (addr, WebSocket)]) <$> addrs).

Definition threadPingCandidates (addrs : list address) : M unit :=
  _ ← modify (setState Pinging);
  startedAt ← get (fun c => env_now (c_world c));
  _ ← modify (fun c => set_world (env_openPings (c_world c)) c);
  p ← send_pings 0 addrs {| pg_results := []; pg_protocols := []; pg_any := 0; pg_chan := [] |};
  p ← ping_loop (length addrs) addrs startedAt p;
  if bool_decide (length (pg_results p) = 0%nat) then threadFinalConnect (all_candidates addrs)
  else
    preferIpv6 ← get (fun c => s_preferIpv6 (c_settings c));
    threadFinalConnect (final_candidates (sort_by (ping_less preferIpv6) (pg_results p)) (pg_protocols p)).

(** ** Addresses *)
Definition address_less (preferIpv6 : bool) (a b : address) : bool :=
  match addr_isV6 a, addr_isV6 b with
  | true, false => preferIpv6
  | false, true => negb preferIpv6
  | false, false => addr_bits a <? addr_bits b
  | true, true => octets_less (addr_octets a) (addr_octets b)
  end.

Definition sortAddresses (addrs : list address) (preferIpv6 : bool) : list address :=
  sort_by (address_less preferIpv6) addrs.

Definition threadConnectWithIps (addrs : list address) (type : ConnectionType) (preferIpv6 : bool) : M unit :=
  match addrs with
  | [] => fail CodeNoAddresses
  | _ =>
      let addrs := sortAddresses addrs preferIpv6 in
      if bool_decide (type = Unknown) then threadPingCandidates addrs
      else threadFinalConnect ((fun addr => (addr, type)) <$> addrs)
  end.

Definition threadConnectIp (addr : address) (type : ConnectionType) : M unit :=
  preferIpv6 ← get (fun c => s_preferIpv6 (c_settings c));
  _ ← modify (set_target [] []);
  threadConnectWithIps [addr] type preferIpv6.

(** The two queries are joined: their addresses are in the order in which they
    are answered, and a failure counts as no address. *)
Definition fetchIps (hostname : list Z) (port : Z) (ipv4 ipv6 : bool) : M (list address) :=
  _ ← await;
  a ← (if ipv4 then in_world (env_queryA hostname) else mret (Some []));
  aaaa ← (if ipv6 then in_world (env_queryAAAA hostname) else mret (Some []));
  first ← get (fun c => env_firstAAAA (c_world c));
  let v4 := (fun i => mk_address i port) <$> default [] a in
  let v6 := (fun i => mk_address i port) <$> default [] aaaa in
  mret (if (first : bool) then v6 ++ v4 else v4 ++ v6).

Definition getSrvProto (type : ConnectionType) : list Z :=
  match type with
  | Udp | Unknown => str "_udp"
  | Tcp => str "_tcp"
  | Quic => str "_quic"
  | WebSocket | WebSocketTls => str "_ws"
  end.

(** The resolver promises an endpoint at least. *)
Definition threadConnectDomain (hostname : list Z) (port : option Z) (type : ConnectionType) : M unit :=
  _ ← modify (setState DnsResolving);
  settings ← get c_settings;
  let srvName := s_srvPrefix settings ++ str "." ++ getSrvProto type ++ str "." ++ hostname in
  let ipv4Allowed := s_ipv4Enabled settings in
  let ipv6Allowed := s_ipv6Enabled settings in
  let preferIpv6 := s_preferIpv6 settings in
  addrs ← (match port with
           | Some port => fetchIps hostname port ipv4Allowed ipv6Allowed
           | None =>
               _ ← await;
               res ← in_world (env_querySRV srvName);
               match res with
               | Some [] => lift (Fault OutOfBounds)
               | Some (ep :: _) =>
                   fetchIps (srv_target ep) (if srv_port ep =? 0 then defaultPort type else srv_port ep)
                     ipv4Allowed ipv6Allowed
               | None => fetchIps hostname (defaultPort type) ipv4Allowed ipv6Allowed
               end
           end);
  match addrs with
  | [] => fail CodeDomainNotFound
  | _ =>
      _ ← modify (fun c => set_target hostname (c_connectPath c) c);
      threadConnectWithIps addrs type preferIpv6
  end.

Definition threadConnect (url : list Z) : M unit :=
  parser ← lift (UrlParser_parse (E := stop) env_isIpv6 env_parse url);
  match up_result parser with
  | InvalidProtocol => fail CodeInvalidProtocol
  | InvalidPort => fail CodeInvalidPort
  | Success =>
      _ ← modify resetConnectionState;
      match up_proto parser with
      | None => lift (Fault UnwrapFailed)
      | Some type =>
          _ ← modify (fun c => set_target (c_connectHostname c) (up_path parser) c);
          match up_value parser with
          | Some (SocketAddress i port) => threadConnectIp (mk_address i port) type
          | Some (Ip i) => threadConnectIp (mk_address i (defaultPort type)) type
          | Some (DomainWithPort domain port) => threadConnectDomain domain (Some port) type
          | Some (Domain domain) => threadConnectDomain domain None type
          | None => lift (Fault AssertionFailed)
          end
      end
  end.

(** ** The worker *)
Definition threadCancelConnection : M unit :=
  modify (fun c => setState Disconnected (resetConnectionState c)).

Definition call_stateReset (c : Conn) : Conn :=
  match cb_stateReset (c_callbacks c) with Some ops => call CallStateReset ops c | None => c end.

Definition threadTryReconnect (stateless : bool) : M unit :=
  data ← get c_data;
  match d_address data, d_connType data with
  | None, _ | _, Unknown => lift (Fault AssertionFailed)
  | Some addr, type =>
      _ ← threadConnectSocket addr type (negb stateless);
      if stateless then modify call_stateReset else mret tt
  end.

Definition threadHandleIncomingMessage (message : QunetMessage) : M unit :=
  match message with
  | MData msg =>
      match dm_data msg with
      | [] => mret tt
      | data =>
          modify (fun c => match cb_data (c_callbacks c) with
                           | Some cb => call (CallData data) (cb data) c
                           | None => c
                           end)
      end
  | MServerClose closeMsg => modify (onFatalError (CE_ServerClosed (ServerCloseMessage_message env_fmt_dec closeMsg)))
  | _ => mret tt
  end.

(** [connectChan.recv()] *)
Fixpoint recv_url (fuel : nat) : M (list Z) :=
  match fuel with
  | O => lift (Fault OutOfFuel)
  | S fuel =>
      chan ← get c_connectChan;
      match chan with
      | url :: chan => _ ← modify (set_connectChan chan); mret url
      | [] => _ ← await; recv_url fuel
      end
  end.

(** Every turn of these two loops waits, so that the script is long enough. *)
Definition wait_fuel (c : Conn) : nat := S (length (c_script c)).

Definition loop_disconnected : M unit :=
  fuel ← get wait_fuel;
  url ← recv_url fuel;
  select_disconnect (threadConnect url)
    (fun res =>
       _ ← (match res with
            | Ok _ => modify (fun c => set_lastError (CE_Code CodeSuccess) (setState Connected c))
            | Err e => modify (onFatalError e)
            | Fault f => lift (Fault f)
            end);
       modify drain)
    threadCancelConnection.

Definition report {A} (res : result ConnectionError A) : M unit :=
  match res with
  | Ok _ => mret tt
  | Err e => modify (onConnectionError e)
  | Fault f => lift (Fault f)
  end.

(** The event of the [select]; an event that has no cause is a wait that ends
    for nothing. *)
Definition on_event (ev : Event) : M unit :=
  match ev with
  | EvSend =>
      chan ← get c_msgChan;
      match chan with
      | [] => mret tt
      | msg :: chan =>
          _ ← modify (set_msgChan chan);
          _ ← modify (fun c => set_sent (c_sent c ++ [msg]) c);
          res ← call_socket (env_sendMessage msg);
          report res
      end
  | EvTimer => res ← call_socket env_handleTimerExpiry; report res
  | EvReceive =>
      res ← attempt_socket env_receiveMessage;
      match res with
      | Ok msg => threadHandleIncomingMessage msg
      | Err e => modify (onConnectionError e)
      | Fault f => lift (Fault f)
      end
  | EvDisconnect | EvWake => mret tt
  end.

Definition loop_connected : M unit :=
  disconnectRequested ← get c_disconnectReq;
  if (disconnectRequested : bool) then modify (setState Closing)
  else
    s ← get c_socket;
    match s with
    | None => lift (Fault NullDereference)
    | Some _ =>
        select_disconnect await
          (fun res => match res with
                      | Ok ev => on_event ev
                      | Err _ => mret tt
                      | Fault f => lift (Fault f)
                      end)
          (modify (setState Closing))
    end.

Definition set_attempt (attempt : Z) (tryStateless : bool) (c : Conn) : Conn :=
  set_data {| d_address := d_address (c_data c); d_connType := d_connType (c_data c); d_reconnectAttempt := attempt;
              d_tryStatelessReconnect := tryStateless |} c.

(** [reconnectFut] *)
Definition reconnectFut (stateless : bool) : M unit :=
  res ← attempt_call (threadTryReconnect stateless);
  match res with
  | Ok _ => modify (setState Connected)
  | Fault f => lift (Fault f)
  | Err err =>
      if is_transport err (TE_Custom ReconnectFailed) && negb stateless then
        modify (fun c => set_attempt (d_reconnectAttempt (c_data c)) true c)
      else _ ← await; mret tt
  end.

Definition loop_reconnecting : M unit :=
  disconnectRequested ← get c_disconnectReq;
  if (disconnectRequested : bool) then threadCancelConnection
  else
    data ← get c_data;
    let attempt := u16 (d_reconnectAttempt data + 1) in
    let tryStateless := d_tryStatelessReconnect data in
    _ ← modify (set_attempt attempt tryStateless);
    if 7 <=? attempt then threadCancelConnection
    else
      _ ← (if attempt =? 0 then _ ← await; mret tt else mret tt);
      select_disconnect (reconnectFut tryStateless) (fun _ => mret tt) threadCancelConnection.

Definition close_message : OutgoingMessage :=
  {| om_message := MClientClose MkClientClose; om_reliable := false; om_uncompressed := false; om_tag := [] |}.

Fixpoint wait_closed (fuel : nat) : M unit :=
  match fuel with
  | O => lift (Fault OutOfFuel)
  | S fuel =>
      c ← get id;
      match c_socket c with
      | None => lift (Fault NullDereference)
      | Some s => if env_isClosed s (c_world c) then mret tt else _ ← await; wait_closed fuel
      end
  end.

Definition loop_closing : M unit :=
  s ← get c_socket;
  match s with
  | None => mret tt
  | Some _ =>
      _ ← call_socket (env_sendMessage close_message);
      _ ← await;
      res ← call_socket env_close;
      match res with
      | Err e => modify (onFatalError e)
      | Fault f => lift (Fault f)
      | Ok _ =>
          fuel ← get wait_fuel;
          _ ← wait_closed fuel;
          threadCancelConnection
      end
  end.

Definition workerThreadLoop : M unit :=
  state ← get c_state;
  match state with
  | Disconnected => loop_disconnected
  | DnsResolving | Pinging | Connecting =>
      if debug_build then lift (Fault AssertionFailed) else modify (setState Disconnected)
  | Connected => loop_connected
  | Reconnecting => loop_reconnecting
  | Closing => loop_closing
  end.

(** [create]: the loop of the worker task, [n] times at most; it ends when the
    object is destroyed. *)
Fixpoint worker (n : nat) : M unit :=
  match n with
  | O => mret tt
  | S n => _ ← workerThreadLoop; worker n
  end.

(** [~Connection] *)
Definition Connection_destructor (c : Conn) : Conn :=
  let c := set_cancelled true c in
  match c_socket c with
  | None => c
  | Some s => let '(_, (s, w)) := env_closeSync (s, c_world c) in set_socket (Some s) (set_world w c)
  end.

(** [connectWait]: it waits until the callback that it sets is called with
    [Connected] or [Disconnected], while the worker runs. *)
Definition wakes (what : Call) : bool :=
  match what with CallState Connected | CallState Disconnected => true | _ => false end.

Fixpoint worker_until (n : nat) (before : nat) : M unit :=
  calls ← get (fun c => drop before (c_calls c));
  if existsb wakes calls then mret tt
  else match n with
       | O => lift (Fault WouldBlock)
       | S n => _ ← workerThreadLoop; worker_until n before
       end.

Definition connectWait (n : nat) (destination : list Z) : M unit :=
  _ ← modify (fun c => set_callbacks (setConnectionStateCallback (Some (fun _ => [])) (c_callbacks c)) c);
  let clear := modify (fun c => set_callbacks (setConnectionStateCallback None (c_callbacks c)) c) in
  c ← get id;
  let '(res, c') := connect destination c in
  _ ← modify (fun _ => c');
  match res with
  | Ok _ =>
      _ ← worker_until n (length (c_calls c'));
      _ ← clear;
      c ← get id;
      if connected c then mret tt else throw (Failed (c_lastError c))
  | Err e => _ ← clear; throw (Failed e)
  | Fault f => lift (Fault f)
  end.
End Connection.
