(* ===== verification/ConnectionInv.v ===== *)
(** * The invariant of a connection

    What holds between any two turns of the worker, and during every wait of a
    turn, whatever the application does meanwhile: a socket is there whenever the
    state says so, the address to reconnect to is known, the attempts are
    counted, and the states that the application is told are a path in the graph
    of states. *)
From S2P Require Import Prelude Messages Time Errors Effects Transport Address Url Socket Pinger ConnError Sorting Connection.

Section Invariant.
Context {T : TimeLib} {AL : AddressLib} {E : ConnectionEnv}.
Abbreviation M := (STE stop Conn).

(** ** What is assumed of the rest *)
Definition known_protocol (p : SupportedProtocol) : bool :=
  (sp_protocolId p =? PROTO_UDP) || (sp_protocolId p =? PROTO_TCP) || (sp_protocolId p =? PROTO_QUIC) ||
  (sp_protocolId p =? PROTO_WEBSOCKET).

(** A server that answers a ping announces a protocol that the client knows. *)
Definition known_result (r : PingResult) : Prop :=
  pr_timedOut r = true \/ pr_errored r = true \/ pr_protocols r = [] \/ exists p, p ∈ pr_protocols r /\ known_protocol p = true.

(** A call of a socket: it keeps the socket and the world fit for the next call; it
    returns a result or an error, or waits. *)
Definition call_ok {A} (sock_ok : socket -> Prop) (world_ok : world -> Prop) (m : ST (socket * world) A) : Prop :=
  forall s w, sock_ok s -> world_ok w ->
    let '(res, (s', w')) := m (s, w) in
    sock_ok s' /\ world_ok w' /\ (is_fault res = false \/ res = Fault WouldBlock).

(** What makes a socket from a world. *)
Definition make_ok (sock_ok : socket -> Prop) (world_ok : world -> Prop) (m : ST world socket) : Prop :=
  forall w, world_ok w ->
    let '(res, w') := m w in
    world_ok w' /\ is_fault res = false /\ forall s, res = Ok s -> sock_ok s.

(** What a connection relies on, of sockets and of a world that are fit, and for
    the messages that may be sent: an SRV record has an endpoint, a server that
    answers a ping announces a protocol that is known. *)
Class ConnectionLaws := {
  sock_ok : socket -> Prop;
  world_ok : world -> Prop;
  msg_ok : OutgoingMessage -> Prop;
  connect_law o f : make_ok sock_ok world_ok (env_connect o f);
  reconnect_law o s : sock_ok s -> make_ok sock_ok world_ok (env_reconnect o s);
  send_law m : msg_ok m -> call_ok sock_ok world_ok (env_sendMessage m);
  close_message_ok : msg_ok close_message;
  receive_law : call_ok sock_ok world_ok env_receiveMessage;
  timer_law : call_ok sock_ok world_ok env_handleTimerExpiry;
  close_law : call_ok sock_ok world_ok env_close;
  latency_law rtt s : sock_ok s -> sock_ok (env_updateLatency rtt s);
  queryA_law name w : world_ok w -> world_ok (env_queryA name w).2;
  queryAAAA_law name w : world_ok w -> world_ok (env_queryAAAA name w).2;
  querySRV_law name w : world_ok w -> world_ok (env_querySRV name w).2 /\ (env_querySRV name w).1 <> Some [];
  openPings_law w : world_ok w -> world_ok (env_openPings w);
  ping_law i a w : world_ok w -> world_ok (env_ping i a w);
  pings_law w : world_ok w -> world_ok (env_pings w).2 /\ Forall (fun r => known_result r.2) (env_pings w).1;
  cached_law a w :
    world_ok w -> world_ok (env_getCached a w).2 /\ forall r, (env_getCached a w).1 = Some r -> known_result r;
  createContext_law kind w : world_ok w -> world_ok (env_createContext kind w).2;
  loadSystemCACerts_law ctx w : world_ok w -> world_ok (env_loadSystemCACerts ctx w).2;
  setupQuicContext_law ctx w : world_ok w -> world_ok (env_setupQuicContext ctx w).2;
}.
Context {L : ConnectionLaws}.

(** The URL parser does not fail on a URL that begins with a colon after its
    protocol ([Url.empty_host]). *)
Definition url_ok (url : list Z) : Prop := is_fault (UrlParser_parse (E := stop) env_isIpv6 env_parse url) = false.

Definition op_ok (op : Op) : Prop := match op with OpConnect url => url_ok url | OpSend m => msg_ok m | OpDisconnect => True end.

Definition cbs_ok (cbs : ConnectionCallbacks) : Prop :=
  (forall f s, cb_connState cbs = Some f -> Forall op_ok (f s)) /\
  (forall f d, cb_data cbs = Some f -> Forall op_ok (f d)) /\
  (forall ops, cb_stateReset cbs = Some ops -> Forall op_ok ops).

(** The application may do anything but simulate a connection drop; it sets or
    removes the callback of the states only while nothing runs. *)
Definition user_ok (op : UserOp) : Prop :=
  match op with
  | UserCall op => op_ok op
  | SetCallbacks f =>
      forall cbs, cbs_ok cbs -> cbs_ok (f cbs) /\ (is_Some (cb_connState (f cbs)) <-> is_Some (cb_connState cbs))
  | SimulateConnectionDrop => False
  | _ => True
  end.
Definition script_ok (script : list (list UserOp * Event)) : Prop := Forall (fun e => Forall user_ok e.1) script.

(** ** The graph of states *)
Definition edge (a b : ConnectionState) : bool :=
  match a, b with
  | Disconnected, (DnsResolving | Pinging | Connecting) => true
  | DnsResolving, (Pinging | Connecting | Disconnected) => true
  | Pinging, (Connecting | Disconnected) => true
  | Connecting, (Connected | Disconnected) => true
  | Connected, (Closing | Reconnecting | Disconnected) => true
  | Reconnecting, (Connected | Disconnected) => true
  | Closing, Disconnected => true
  | _, _ => false
  end.

(** [path a l b]: from [a], through the states [l], to [b]. *)
Fixpoint path (a : ConnectionState) (l : list ConnectionState) (b : ConnectionState) : Prop :=
  match l with
  | [] => a = b
  | s :: l => edge a s = true /\ path s l b
  end.

Lemma path_snoc a l b s : path a l b -> edge b s = true -> path a (l ++ [s]) s.
Proof. revert a. induction l as [|x l IH]; intros a; cbn; [by intros -> ?|]. intros [? ?] ?. eauto. Qed.

Definition states_of (calls : list Call) : list ConnectionState :=
  omap (fun c => match c with CallState s => Some s | _ => None end) calls.

(** ** The invariant *)
(** What the connection holds is fit. *)
Definition env_ok (c : Conn) : Prop := world_ok (c_world c) /\ forall s, c_socket c = Some s -> sock_ok s.

Definition live (s : ConnectionState) : bool :=
  match s with Connected | Closing | Reconnecting => true | _ => false end.

(** A type to connect with again. *)
Definition usable_type (type : ConnectionType) : Prop := type <> Unknown /\ (type = Quic -> quic_support = true).
Definition usable (d : ConnectionData) : Prop := is_Some (d_address d) /\ usable_type (d_connType d).
Definition attempts_ok (d : ConnectionData) : Prop := 0 <= d_reconnectAttempt d <= 6.

Record wf_when (l : ConnectionState -> bool) (c : Conn) : Prop := {
  wf_live : l (c_state c) = true -> is_Some (c_socket c) /\ usable (c_data c);
  wf_attempts : attempts_ok (c_data c);
  wf_urls : Forall url_ok (c_connectChan c);
  wf_cbs : cbs_ok (c_callbacks c);
  wf_script : script_ok (c_script c);
  wf_path : is_Some (cb_connState (c_callbacks c)) -> path Disconnected (states_of (c_calls c)) (c_state c);
  wf_msgs : Forall msg_ok (c_msgChan c);
  wf_env : env_ok c;
}.

Arguments wf_live {l} c.
Arguments wf_cbs {l} c.
Arguments wf_script {l} c.
Arguments wf_path {l} c.
Arguments wf_env {l} c.
Definition wf : Conn -> Prop := wf_when live.
(** Without what the state says, while the connection is reset. *)
Definition wf_base : Conn -> Prop := wf_when (fun _ => false).

Lemma wf_wf_base c : wf c -> wf_base c.
Proof. by intros []; split. Qed.

(** ** What the calls of the application change *)
Record frame (c c' : Conn) : Prop := {
  fr_state : c_state c' = c_state c;
  fr_data : c_data c' = c_data c;
  fr_socket : is_Some (c_socket c') <-> is_Some (c_socket c);
  fr_calls : c_calls c' = c_calls c;
  fr_script : script_ok (c_script c) -> script_ok (c_script c');
  fr_cbs : is_Some (cb_connState (c_callbacks c')) <-> is_Some (cb_connState (c_callbacks c));
  fr_cbs_ok : cbs_ok (c_callbacks c) -> cbs_ok (c_callbacks c');
  fr_urls : Forall url_ok (c_connectChan c) -> Forall url_ok (c_connectChan c');
  fr_msgs : Forall msg_ok (c_msgChan c) -> Forall msg_ok (c_msgChan c');
  fr_env : env_ok c -> env_ok c';
}.

Lemma frame_refl c : frame c c.
Proof. by split. Qed.

Lemma frame_trans a b c : frame a b -> frame b c -> frame a c.
Proof. intros [] []. split; try congruence; try tauto; etransitivity; eauto. Qed.

Lemma frame_wf l c c' : frame c c' -> wf_when l c -> wf_when l c'.
Proof.
  intros [Hs Hd Hso Hc Hsc Hcb Hcok Hu Hm He] [? ? ? ? ? ? ? ?].
  split; rewrite ?Hs, ?Hd, ?Hc; try tauto.
Qed.

Lemma trySend_ok {A} (P : A -> Prop) n a l l' : trySend n a l = Some l' -> P a -> Forall P l -> Forall P l'.
Proof. unfold trySend. destruct (_ <? _); [|done]. intros [= <-] ? ?. apply Forall_app. by repeat constructor. Qed.

Lemma disconnect_frame c : frame c (disconnect c).
Proof. unfold disconnect. cbn. destruct (c_listening c); by split. Qed.

Lemma apply_op_frame op c : op_ok op -> frame c (apply_op op c).
Proof.
  intros Hop. destruct op as [url| |m]; cbn.
  - unfold connect. destruct (connected c); [apply frame_refl|]. destruct (negb _); [apply frame_refl|].
    destruct (trySend 2 url (c_connectChan c)) eqn:Et; [|apply frame_refl]. split; cbn; try done.
    intros Hu. by eapply trySend_ok.
  - apply disconnect_frame.
  - unfold sendMsgToThread. destruct (negb _); [apply frame_refl|]. destruct (trySend _ _ _) eqn:Et; [|apply frame_refl].
    split; cbn; try done. intros Hm. by eapply trySend_ok.
Qed.

Lemma apply_ops_frame ops c : Forall op_ok ops -> frame c (foldl (fun c op => apply_op op c) c ops).
Proof.
  intros H. revert c. induction H as [|op ops Hop _ IH]; intros c; cbn; [apply frame_refl|].
  eapply frame_trans; [by apply apply_op_frame|apply IH].
Qed.

Lemma apply_user_frame op c : user_ok op -> cbs_ok (c_callbacks c) -> frame c (apply_user op c).
Proof.
  destruct op as [op|f|f|rtt|ctx|ctx| |]; cbn; intros H Hc; try done.
  - by apply apply_op_frame.
  - destruct (H _ Hc) as [H1 H2]. by split.
  - unfold updateLatency. destruct (c_socket c) eqn:Es; [|apply frame_refl]. split; cbn; try done.
    intros [Hw Hs]. split; [done|]. cbn. intros s' [= <-]. by apply latency_law, Hs.
Qed.

Lemma apply_users_frame ops c :
  Forall user_ok ops -> cbs_ok (c_callbacks c) -> frame c (foldl (fun c op => apply_user op c) c ops).
Proof.
  intros H. revert c. induction H as [|op ops Hop _ IH]; intros c Hc; cbn; [apply frame_refl|].
  pose proof (apply_user_frame op c Hop Hc) as Hf. eapply frame_trans; [done|]. apply IH. by apply Hf.
Qed.

(** ** Changes of state *)
Lemma set_calls_call what ops c : exists c0, call what ops c = foldl (fun c op => apply_op op c) c0 ops /\
  c0 = set_calls (c_calls c ++ [what]) c.
Proof. by eexists. Qed.

(** A callback: its call is recorded, and what it does is framed. *)
Lemma call_spec what ops c : Forall op_ok ops -> frame (set_calls (c_calls c ++ [what]) c) (call what ops c).
Proof. apply apply_ops_frame. Qed.

Lemma call_wf what ops c :
  Forall op_ok ops -> (match what with CallState _ => False | _ => True end) -> wf c -> wf (call what ops c).
Proof.
  intros Hops Hw Hwf. eapply frame_wf; [by apply call_spec|]. destruct Hwf. split; cbn; try done.
  intros Hcb. unfold states_of in *. rewrite omap_app. destruct what; cbn; rewrite ?app_nil_r; by auto.
Qed.

(** [c'] is [c] in the state [s], as far as the connection goes. *)
Record moved (s : ConnectionState) (c c' : Conn) : Prop := {
  mv_state : c_state c' = s;
  mv_socket : c_socket c' = c_socket c;
  mv_address : d_address (c_data c') = d_address (c_data c);
  mv_type : d_connType (c_data c') = d_connType (c_data c);
}.

Lemma apply_ops_socket ops c : c_socket (foldl (fun c op => apply_op op c) c ops) = c_socket c.
Proof.
  revert c. induction ops as [|op ops IH]; intros c; cbn; [done|]. rewrite IH. destruct op; cbn.
  - unfold connect. repeat case_match; done.
  - unfold disconnect. cbn. by destruct (c_listening c).
  - unfold sendMsgToThread. repeat case_match; done.
Qed.

Lemma setState_wf s c :
  wf_base c -> c_state c = s \/ edge (c_state c) s = true ->
  (live s = true -> is_Some (c_socket c) /\ usable (c_data c)) ->
  wf (setState s c) /\ moved s c (setState s c).
Proof.
  intros Hwf Hedge Hlive. unfold setState. case_bool_decide as Heq.
  { subst s. destruct Hwf. split; [split; cbn; done|by split]. }
  destruct Hedge as [?|Hedge]; [done|].
  set (c1 := match cb_connState (c_callbacks (set_state s c)) with Some cb => _ | None => _ end).
  assert (wf_base c1 /\ moved s c c1) as [H1 H2].
  { unfold c1. destruct (cb_connState (c_callbacks (set_state s c))) as [cb|] eqn:Ecb; cbn in Ecb.
    - assert (Forall op_ok (cb s)) as Hops by (by eapply (proj1 (wf_cbs _ Hwf))).
      pose proof (call_spec (CallState s) (cb s) (set_state s c) Hops) as Hf. split.
      + eapply frame_wf; [exact Hf|]. destruct Hwf. split; cbn; try done. intros Hcb. unfold states_of.
        rewrite omap_app. cbn. eapply path_snoc; [by apply wf_path0|done].
      + split; try apply Hf; cbn.
        * unfold call. by rewrite apply_ops_socket.
        * by rewrite (fr_data _ _ Hf).
        * by rewrite (fr_data _ _ Hf).
    - split; [|by split]. destruct Hwf. split; cbn; try done. rewrite Ecb. by intros []. }
  assert (wf (if bool_decide (s = Connected) then set_data (new_attempts (c_data c1)) c1 else c1)) as H3.
  { destruct H1, H2. case_bool_decide; split; cbn; try done; unfold usable; rewrite ?mv_state0, ?mv_socket0; cbn.
    - rewrite mv_address0, mv_type0. by intros Hl; apply Hlive.
    - rewrite mv_address0, mv_type0. by intros Hl; apply Hlive. }
  split; [done|]. destruct H2. by case_bool_decide; split.
Qed.

Lemma env_reset c : env_ok c -> env_ok (resetConnectionState c).
Proof. by intros [Hw _]. Qed.

Lemma reset_wf c : wf c -> live (c_state c) = false -> wf (resetConnectionState c).
Proof. intros [] Hl. split; cbn; try done; [by rewrite Hl|]. by apply env_reset. Qed.

(** ** Waits and calls
    A predicate of the connection that nothing changes but the worker itself. *)
Record stable (P : Conn -> Prop) : Prop := {
  st_wf c : P c -> wf c;
  st_frame c c' : frame c c' -> P c -> P c';
  st_socket c s : P c -> sock_ok s -> P (set_socket (Some s) c);
}.

(** In the state [s], and in one without a connection. *)
Definition at_state (s : ConnectionState) (c : Conn) : Prop := wf c /\ c_state c = s.
Definition idle (c : Conn) : Prop := wf c /\ live (c_state c) = false.

Lemma wf_set_socket c s : wf c -> sock_ok s -> wf (set_socket (Some s) c).
Proof.
  intros [] Hs. split; cbn; try done.
  - intros Hl. by destruct (wf_live0 Hl).
  - split; [apply wf_env0|]. cbn. by intros s' [= <-].
Qed.

Lemma at_state_stable s : stable (at_state s).
Proof.
  split.
  - by intros c [].
  - intros c c' Hf [Hw Hs]. split; [by eapply frame_wf|]. by rewrite (fr_state _ _ Hf).
  - intros c x [Hw Hs] Hx. split; [by apply wf_set_socket|done].
Qed.

Lemma idle_stable : stable idle.
Proof.
  split.
  - by intros c [].
  - intros c c' Hf [Hw Hs]. split; [by eapply frame_wf|]. by rewrite (fr_state _ _ Hf).
  - intros c x [Hw Hs] Hx. split; [by apply wf_set_socket|done].
Qed.

Lemma at_state_idle s c : live s = false -> at_state s c -> idle c.
Proof. intros Hl [Hw Hs]. split; [done|]. by rewrite Hs. Qed.

Lemma await_spec P : stable P -> triple P await (fun _ => P) P.
Proof.
  intros Hst c HP. unfold await. pose proof (st_wf _ Hst _ HP) as Hwf.
  assert (forall ops ev script, c_script c = (ops, ev) :: script ->
    frame c (foldl (fun c op => apply_user op c) (listen (set_script script c)) ops)) as Hf.
  { intros ops ev script Es. pose proof (wf_script _ Hwf) as Hsc. rewrite Es in Hsc.
    apply Forall_cons in Hsc as [Hops Hsc]. cbn in Hops.
    assert (frame c (listen (set_script script c))) as H1.
    { unfold listen. cbn. destruct (c_listening c); split; cbn; done. }
    eapply frame_trans; [exact H1|]. apply apply_users_frame; [done|]. by apply H1, (wf_cbs _ Hwf). }
  destruct (c_listening c) as [| |[|]]; try done.
  all: destruct (c_script c) as [|[ops ev] script]; [done|]; specialize (Hf _ _ _ eq_refl).
  all: pose proof (st_frame _ Hst _ _ Hf HP) as HP'.
  all: destruct (c_cancelled _); [done|]; destruct (c_listening _) as [| |[|]]; try done; by destruct ev.
Qed.

Lemma modify_frame P f : stable P -> (forall c, P c -> frame c (f c)) -> triple P (modify f : M unit) (fun _ => P) P.
Proof. intros Hst Hf c HP. cbn. eapply st_frame; [done|by apply Hf|done]. Qed.

Lemma set_world_frame w c : world_ok w -> frame c (set_world w c).
Proof. intros Hw. split; try done. by intros [_ Hs]. Qed.
Lemma st_world P w c : stable P -> world_ok w -> P c -> P (set_world w c).
Proof. intros Hst Hw. by apply (st_frame _ Hst), set_world_frame. Qed.
Lemma st_env P c : stable P -> P c -> env_ok c.
Proof. intros Hst HP. exact (wf_env c (st_wf _ Hst _ HP)). Qed.

Lemma in_world_spec {A} P (f : world -> A * world) (Q : A -> Prop) :
  stable P -> (forall w, world_ok w -> world_ok (f w).2 /\ Q (f w).1) -> triple P (in_world f) (fun a c => P c /\ Q a) P.
Proof.
  intros Hst HQ c HP. unfold in_world, state. specialize (HQ (c_world c) (proj1 (st_env P c Hst HP))).
  destruct (f (c_world c)) as [a w]. destruct HQ as [Hw HQ]. split; [by apply st_world|done].
Qed.

(** A socket that was made, or an error. *)
Definition made (res : result ConnectionError socket) : Prop := is_fault res = false /\ forall s, res = Ok s -> sock_ok s.

Lemma attempt_world_spec P m :
  stable P -> make_ok sock_ok world_ok m -> triple P (attempt_world m) (fun a c => P c /\ made a) P.
Proof.
  intros Hst Hm c HP. unfold attempt_world. specialize (Hm _ (proj1 (st_env P c Hst HP))).
  destruct (m (c_world c)) as [res w]. destruct Hm as (Hw & Hf & Hs).
  assert (P (set_world w c)) by (by apply st_world). destruct res as [s|e|f]; [|done..]. split; [done|]. split; [done|].
  intros s' [= <-]. by apply Hs.
Qed.

Lemma attempt_socket_spec {A} P (m : ST (socket * world) A) :
  stable P -> (forall c, P c -> is_Some (c_socket c)) -> call_ok sock_ok world_ok m ->
  triple P (attempt_socket m) (fun a c => P c /\ is_fault a = false) P.
Proof.
  intros Hst Hs Hm c HP. unfold attempt_socket. destruct (Hs c HP) as [s Es]. rewrite Es.
  destruct (st_env P c Hst HP) as [Hw Hsock].
  specialize (Hm s (c_world c) (Hsock s Es) Hw). destruct (m (s, c_world c)) as [res [s' w]]. destruct Hm as (Hs' & Hw' & Hf).
  assert (P (set_socket (Some s') (set_world w c))) by (apply st_socket; [done|by apply st_world|done]).
  by destruct res as [a|e|f]; [..|destruct Hf as [|[= ->]]].
Qed.

(** A run that ends without an error of its own. *)
Lemma triple_weaken {A} P (m : M A) Q Q' (E' : Conn -> Prop) :
  triple P m Q E' -> (forall a c, Q a c -> Q' a c) -> triple P m Q' E'.
Proof. intros Hm HQ. by eapply triple_conseq. Qed.

Lemma call_socket_spec {A} P (m : ST (socket * world) A) :
  stable P -> (forall c, P c -> is_Some (c_socket c)) -> call_ok sock_ok world_ok m ->
  triple P (call_socket m) (fun a c => P c /\ is_fault a = false) P.
Proof.
  intros Hst Hs Hm. unfold call_socket. apply triple_read. intros [x|].
  - eapply triple_bind; [|intros ev; by apply attempt_socket_spec].
    intros c [HP _]. by apply (await_spec P Hst c).
  - intros c [HP Hx]. destruct (Hs c HP) as [? Hx']. congruence.
Qed.

Lemma unwrap_or_fail_spec P (m : M (result ConnectionError socket)) Q E' :
  triple P m (fun a c => Q c /\ made a) E' -> (forall c, Q c -> E' c) ->
  triple P (unwrap_or_fail m) (fun s c => Q c /\ sock_ok s) E'.
Proof.
  intros Hm HE. unfold unwrap_or_fail. eapply triple_bind; [exact Hm|]. intros [s|e|f] c [HQ [Hf Hs]]; [|by apply HE|done].
  split; [done|by apply Hs].
Qed.

Lemma fail_spec {A} (P : Conn -> Prop) code Q (E' : Conn -> Prop) :
  (forall c, P c -> E' c) -> triple P (fail (A := A) code) Q E'.
Proof. intros H c HP. by apply H. Qed.

(** ** Establishing a connection *)
Lemma attempt_call_spec {A} P (m : M A) Q (E' : Conn -> Prop) :
  triple P m Q E' ->
  triple P (attempt_call m) (fun res c => match res with Ok a => Q a c | Err _ => E' c | Fault _ => False end) E'.
Proof.
  intros Hm c HP. specialize (Hm c HP). unfold attempt_call. destruct (m c) as [[a|[e| |]|f] c']; try done.
Qed.

Lemma makeOptions_spec P addr type reconnect :
  usable_type type -> (forall c, P c -> P c) -> triple P (makeOptions addr type reconnect) (fun _ => P) P.
Proof.
  intros [_ Hq] _. unfold makeOptions. apply triple_read. intros c0. eapply triple_bind.
  { apply triple_lift; [|by intros c []]. destruct tls_support; [|done].
    unfold getTlsForConnection. destruct type; try done. by rewrite Hq. }
  intros tls c [[HP _] _]. by cbn.
Qed.

Lemma threadConnectSocket_spec P addr type reconnect :
  stable P -> usable_type type -> (reconnect = true -> forall c, P c -> is_Some (c_socket c)) ->
  triple P (threadConnectSocket addr type reconnect) (fun _ c => P c /\ is_Some (c_socket c)) P.
Proof.
  intros Hst Hty Hsock. unfold threadConnectSocket.
  eapply triple_bind; [by apply makeOptions_spec|]. intros opts. apply triple_read. intros qdb. apply triple_read. intros prev.
  eapply triple_bind.
  { instantiate (1 := fun _ => P). intros c [[HP _] Hp].
    destruct reconnect; cbn; [|done]. rewrite <- Hp.
    rewrite bool_decide_true by (by apply Hsock). done. }
  intros u. eapply triple_bind; [by apply await_spec|]. intros ev. apply triple_read. intros prev'.
  eapply triple_bind.
  { apply (unwrap_or_fail_spec _ _ P); [|done].
    destruct reconnect.
    - destruct prev' as [x|].
      + intros c [HP Hx]. apply (attempt_world_spec P); [done| |done]. by apply reconnect_law, (st_env P c).
      + intros c [HP Hn]. destruct (Hsock eq_refl c HP) as [? ?]. congruence.
    - intros c [HP _]. apply (attempt_world_spec P); [done|apply connect_law|done]. }
  intros s c [HP Hs]. cbn. split; [by apply st_socket|by eexists].
Qed.

(** A context that is stored is there. *)
Lemma stored_spec P get_context (store : option TlsContext -> Conn -> Conn) ctx :
  stable P -> (forall ctx c, frame c (store ctx c)) -> (forall ctx c, get_context (store ctx c) = ctx) ->
  triple P (modify (store (Some ctx)) : M unit) (fun _ c => P c /\ is_Some (get_context c)) P.
Proof.
  intros Hst Hf Hg c HP. cbn. rewrite Hg. split; [|done]. by apply (st_frame _ Hst c).
Qed.

Lemma context_stable P get_context (store : option TlsContext -> Conn -> Conn) f :
  stable P -> (forall ctx c, frame c (store ctx c)) -> (forall ctx c, get_context (store ctx c) = ctx) ->
  (forall ctx w, world_ok w -> world_ok (f ctx w).2) ->
  triple (fun c => P c /\ is_Some (get_context c)) (with_context get_context store f)
    (fun _ c => P c /\ is_Some (get_context c)) P.
Proof.
  intros Hst Hf Hg Hw c [HP [x Hx]]. unfold with_context. rewrite Hx. specialize (Hw x _ (proj1 (st_env P c Hst HP))).
  destruct (f x (c_world c)) as [[ok ctx] w]. rewrite Hg. split; [|done].
  apply (st_frame _ Hst (set_world w c)); [done|by apply st_world].
Qed.

Lemma quic_frame ctx c : frame c (setQuicTlsContext ctx c).
Proof. by split. Qed.
Lemma tcp_frame ctx c : frame c (setTlsContext ctx c).
Proof. by split. Qed.

Lemma initTlsContext_spec P type :
  stable P -> (type = Quic -> quic_support = true) -> triple P (initTlsContext type) (fun _ => P) P.
Proof.
  intros Hst Hq.
  assert (forall kind (get_context : Conn -> option TlsContext) (rest : TlsContext -> M bool),
    (forall ctx, triple P (rest ctx) (fun _ => P) P) ->
    triple P (c ← get get_context;
              match c with
              | Some _ => mret true
              | None => ctx ← in_world (env_createContext kind);
                        match ctx with None => mret false | Some ctx => rest ctx end
              end) (fun _ => P) P) as Hcreate.
  { intros kind g rest Hrest. apply triple_read. intros [x|]; [by intros c []|].
    eapply triple_bind.
    - intros c [HP _]. apply (in_world_spec P (env_createContext kind) (fun _ => True) Hst); [|done].
      intros w Hw. split; [by apply createContext_law|done].
    - intros [ctx|] c [HP _]; [by apply Hrest|done]. }
  assert (forall (g : Conn -> option TlsContext) store f, (forall ctx c, frame c (store ctx c)) -> (forall ctx c, g (store ctx c) = ctx) ->
    (forall ctx w, world_ok w -> world_ok (f ctx w).2) ->
    triple (fun c => P c /\ is_Some (g c)) (with_context g store f) (fun _ => P) P) as Hlast.
  { intros g store f Hf Hg Hw. eapply triple_weaken; [by apply context_stable|]. by intros ? c []. }
  unfold initTlsContext. destruct type; [| | |rewrite Hq by done|..].
  4: { apply Hcreate. intros ctx.
       eapply triple_bind; [apply (stored_spec P c_quicTlsContext); [done|apply quic_frame|done]|]. intros ?.
       eapply triple_bind; [apply context_stable; [done|apply quic_frame|done|apply loadSystemCACerts_law]|].
       intros [|]; [apply Hlast; [apply quic_frame|done|apply setupQuicContext_law]|by intros c []]. }
  all: apply Hcreate; intros ctx;
       (eapply triple_bind; [apply (stored_spec P c_tcpTlsContext); [done|apply tcp_frame|done]|]); intros ?;
       apply Hlast; [apply tcp_frame|done|apply loadSystemCACerts_law].
Qed.

Lemma threadEstablishConn_spec P addr type :
  stable P -> type <> Unknown ->
  triple P (threadEstablishConn addr type) (fun _ c => P c /\ is_Some (c_socket c) /\ usable_type type) P.
Proof.
  intros Hst Hty. unfold threadEstablishConn. destruct (isSupported type) eqn:Es; cbn [negb].
  2: { by apply fail_spec. }
  assert (usable_type type) as Hu by (split; [done|]; by intros ->).
  eapply triple_bind.
  { instantiate (1 := fun _ => P). destruct (_ && _); [|by intros c]. apply initTlsContext_spec; [done|apply Hu]. }
  intros [|]; [|by apply fail_spec].
  eapply triple_weaken; [by apply threadConnectSocket_spec|]. by intros _ c [].
Qed.

(** The states from which the connecting of a socket begins, and its end. *)
Definition established (c : Conn) : Prop :=
  at_state Connecting c /\ is_Some (c_socket c) /\ usable (c_data c).

Lemma try_candidates_spec addrs errors :
  Forall (fun a : candidate => a.2 <> Unknown) addrs ->
  triple (at_state Connecting) (try_candidates addrs errors)
    (fun r c => match r with
                | None => established c
                | Some errs => at_state Connecting c /\ (length errs = length errors + length addrs)%nat
                end) (at_state Connecting).
Proof.
  intros H. revert errors. induction H as [|[addr type] addrs Hty _ IH]; intros errors; cbn [try_candidates].
  { intros c Hc. cbn. split; [done|lia]. }
  eapply triple_bind.
  { apply attempt_call_spec, threadEstablishConn_spec; [apply at_state_stable|done]. }
  intros [u|e|f].
  - intros c ([Hwf Hs] & Hsock & Hu). cbn. split; [|split; [done|split; [by eexists|done]]]. split; [|done].
    destruct Hwf. split; cbn; try done.
  - eapply triple_weaken; [apply IH|]. intros [errs|] c; [|done]. rewrite length_app. cbn. intros []. split; [done|lia].
  - by intros c [].
Qed.

Lemma setState_spec s s' :
  live s' = false -> s = s' \/ edge s s' = true ->
  triple (at_state s) (modify (setState s') : M unit) (fun _ => at_state s') idle.
Proof.
  intros Hl Hedge c [Hwf Hs]. cbn. destruct (setState_wf s' c (wf_wf_base _ Hwf)) as [Hwf' Hm].
  - by rewrite Hs.
  - by rewrite Hl.
  - split; [done|apply Hm].
Qed.

(** An error or a wait in one state that is not connected. *)
Lemma triple_idle {A} P (m : M A) Q s : live s = false -> triple P m Q (at_state s) -> triple P m Q idle.
Proof. intros Hl Hm. eapply triple_conseq; [done..|]. intros c. by apply at_state_idle. Qed.

Lemma lift_assert_spec {P : Conn -> Prop} {E' : Conn -> Prop} b :
  b = true -> triple P (lift (qn_assert b) : M unit) (fun _ => P) E'.
Proof. by intros -> c HP. Qed.

Lemma threadFinalConnect_spec s addrs :
  live s = false -> s = Connecting \/ edge s Connecting = true -> addrs <> [] ->
  Forall (fun a : candidate => a.2 <> Unknown) addrs ->
  triple (at_state s) (threadFinalConnect addrs) (fun _ => established) idle.
Proof.
  intros Hl Hedge Hne Hty. unfold threadFinalConnect.
  eapply triple_bind; [apply lift_assert_spec; by rewrite bool_decide_false|]. intros ?.
  eapply triple_bind; [by apply setState_spec|]. intros ?. apply triple_read. intros preferred.
  eapply triple_bind.
  { apply lift_assert_spec. apply forallb_forall. intros x Ha. apply bool_decide_eq_true.
    rewrite Forall_forall in Hty. apply list_elem_of_In, Hty in Ha. destruct (x.2); try done; by eexists. }
  intros ?.
  assert (Forall (fun a : candidate => a.2 <> Unknown) (sort_by (candidate_less preferred) addrs)) as Hty'
    by (by rewrite sort_by_perm).
  eapply triple_bind.
  { intros c [Hc _]. apply (triple_idle _ _ _ Connecting eq_refl (try_candidates_spec _ [] Hty') c Hc). }
  intros [errs|]; [|by intros c].
  eapply triple_bind.
  { instantiate (1 := fun _ => at_state Connecting). intros c [Hc Hlen]. rewrite bool_decide_false; [done|].
    intros ->. rewrite sort_by_perm in Hlen. destruct addrs; [by apply Hne|discriminate Hlen]. }
  intros ? c Hc. by apply (at_state_idle Connecting).
Qed.

(** ** Pings *)
Definition has_known (l : list SupportedProtocol) : Prop := Exists (fun p => known_protocol p = true) l.

Record pinging_ok (addrs : list address) (p : pinging) : Prop := {
  pi_chan : Forall (fun r => (r.1 < length addrs)%nat /\ known_result r.2) (pg_chan p);
  pi_known : pg_results p <> [] -> has_known (pg_protocols p);
}.

Lemma pg_push_ok addrs r p :
  (r.1 < length addrs)%nat -> known_result r.2 -> pinging_ok addrs p -> pinging_ok addrs (pg_push r p).
Proof.
  intros Hi Hr []. split; [|done]. cbn. destruct (trySend 8 r (pg_chan p)) eqn:Et; cbn; [|done].
  by eapply (trySend_ok (fun r => (r.1 < length addrs)%nat /\ known_result r.2)).
Qed.

Lemma pg_pushes_ok addrs rs p :
  Forall (fun r => (r.1 < length addrs)%nat /\ known_result r.2) rs -> pinging_ok addrs p ->
  pinging_ok addrs (foldl (fun p r => pg_push r p) p rs).
Proof.
  intros H. revert p. induction H as [|r rs [Hi Hr] _ IH]; intros p Hp; cbn; [done|].
  by apply IH, pg_push_ok.
Qed.

Lemma add_protocols_known protos known :
  has_known known \/ has_known protos -> has_known (add_protocols protos known).
Proof.
  unfold add_protocols. revert known. induction protos as [|p protos IH]; intros known H; cbn.
  { destruct H as [?|H]; [done|by inversion H]. }
  apply IH. unfold has_known in *. rewrite Exists_cons in H. destruct H as [H|[H|H]]; [left..|by right].
  - case_match; [done|]. apply Exists_app. by left.
  - destruct (existsb _ known) eqn:Ex; [|apply Exists_app; right; by apply Exists_cons; left].
    apply existsb_exists in Ex as (q & Hq & Heq%Z.eqb_eq). apply Exists_exists. exists q.
    split; [by apply list_elem_of_In|]. unfold known_protocol in *. by rewrite Heq.
Qed.

Lemma take_result_ok addrs i r chan p :
  pinging_ok addrs p -> pg_chan p = (i, r) :: chan -> exists p', take_result addrs i r chan p = Ok p' /\ pinging_ok addrs p'.
Proof.
  intros [Hc Hk] Ep. rewrite Ep in Hc. apply Forall_cons in Hc as [[Hi Hr] Hc]. unfold take_result.
  destruct (pr_timedOut r || pr_errored r || bool_decide (length (pr_protocols r) = 0%nat)) eqn:Eb.
  { eexists. split; [reflexivity|]. by split. }
  destruct (lookup_lt_is_Some_2 addrs i Hi) as [addr ->]. eexists. split; [reflexivity|]. split; [done|]. intros _. cbn.
  apply orb_false_iff in Eb as [[Eb1 Eb2]%orb_false_iff Eb3%bool_decide_eq_false]. apply add_protocols_known. right.
  cbn in Hr. destruct Hr as [Hr|[Hr|[Hr|(q & Hq & Hqk)]]]; [congruence|congruence|by rewrite Hr in Eb3|].
  apply Exists_exists. by exists q.
Qed.

Lemma send_pings_spec P addrs i rest p :
  stable P -> pinging_ok addrs p -> (i + length rest <= length addrs)%nat ->
  triple P (send_pings i rest p) (fun p c => P c /\ pinging_ok addrs p) P.
Proof.
  intros Hst. revert i p. induction rest as [|addr rest IH]; intros i p Hp Hi; cbn [send_pings length] in *.
  { by intros c. }
  eapply triple_bind.
  { apply (in_world_spec P _ (fun o => forall r, o = Some r -> known_result r)); [done|intros w; apply cached_law]. }
  intros [r|].
  - apply triple_pre. intros c [HP Hr] c' <-. apply IH; [|lia|done].
    apply pg_push_ok; [cbn; lia|cbn; by apply Hr|done].
  - eapply triple_bind; [|intros ?; apply IH; [done|lia]]. intros c [HP _]. cbn. apply st_world; [done| |done]. by apply ping_law, (st_env P c).
Qed.

Lemma ping_loop_spec P fuel addrs startedAt p :
  stable P -> pinging_ok addrs p ->
  triple P (ping_loop fuel addrs startedAt p) (fun p c => P c /\ pinging_ok addrs p) P.
Proof.
  intros Hst. revert p. induction fuel as [|fuel IH]; intros p Hp; cbn [ping_loop]; [by intros c|].
  destruct (_ <=? _)%nat; [by intros c|]. apply triple_read. intros now. cbn zeta.
  destruct (igeb _ _); [by intros c []|].
  eapply triple_bind. { intros c [HP _]. by apply (await_spec P Hst c). }
  intros ev. eapply triple_bind.
  { apply (in_world_spec P env_pings (Forall (fun r => known_result r.2))); [done|intros w; apply pings_law]. }
  intros pongs. apply triple_pre. intros c [HP Hpongs] c' <-.
  set (p' := foldl _ p _). assert (pinging_ok addrs p') as Hp'.
  { apply pg_pushes_ok; [|done]. apply Forall_forall. intros r Hr. apply list_elem_of_filter in Hr as [Hi Hr].
    rewrite Forall_forall in Hpongs. auto. }
  assert (triple P (match pg_chan p' with
                    | [] => lift (Fault WouldBlock)
                    | (i, r) :: chan => p ← lift (take_result addrs i r chan p'); ping_loop fuel addrs startedAt p
                    end) (fun p c => P c /\ pinging_ok addrs p) P) as Hrest.
  { destruct (pg_chan p') as [|[i r] chan] eqn:Ep; [by intros c0|].
    destruct (take_result_ok addrs i r chan p' Hp' Ep) as (p2 & E2 & Hp2). rewrite E2. by apply IH. }
  destruct ev; try (by apply Hrest). done.
Qed.

Lemma PROTO_candidate_type addr p c : PROTO_candidate addr p = Some c -> c.2 <> Unknown.
Proof. unfold PROTO_candidate. repeat case_match; by intros [= <-]. Qed.

Lemma PROTO_candidate_known addr p : known_protocol p = true -> is_Some (PROTO_candidate addr p).
Proof. unfold PROTO_candidate, known_protocol. do 4 (destruct (sp_protocolId p =? _); [intros _; by eexists|]). done. Qed.

Lemma final_candidates_types results protocols :
  Forall (fun a : candidate => a.2 <> Unknown) (final_candidates results protocols).
Proof.
  apply Forall_forall. unfold final_candidates. intros a Ha. apply list_elem_of_In, in_concat in Ha as (l & Hl & Ha).
  apply in_map_iff in Hl as (r & <- & _). apply list_elem_of_In, list_elem_of_omap in Ha as (p & _ & Hp).
  by eapply PROTO_candidate_type.
Qed.

Lemma final_candidates_some results protocols :
  results <> [] -> has_known protocols -> final_candidates results protocols <> [].
Proof.
  intros Hne Hk. destruct results as [|r results]; [done|]. unfold final_candidates. cbn.
  intros [H _]%app_nil. apply Exists_exists in Hk as (p & Hp & Hk). destruct (PROTO_candidate_known r.1 p Hk) as [x Hx].
  assert (x ∈ omap (PROTO_candidate r.1) protocols) as Hin by (apply list_elem_of_omap; eauto). rewrite H in Hin.
  by apply not_elem_of_nil in Hin.
Qed.

Lemma threadPingCandidates_spec s addrs :
  live s = false -> s = Pinging \/ edge s Pinging = true -> addrs <> [] ->
  triple (at_state s) (threadPingCandidates addrs) (fun _ => established) idle.
Proof.
  intros Hl Hedge Hne. unfold threadPingCandidates.
  eapply triple_bind; [by apply setState_spec|]. intros ?. apply triple_read. intros startedAt.
  eapply triple_bind with (Q := fun _ => at_state Pinging).
  { intros c [Hc _]. cbn. apply st_world; [apply at_state_stable| |done]. apply openPings_law, (st_env (at_state Pinging) c); [apply at_state_stable|done]. }
  intros ?. eapply triple_bind.
  { intros c Hc. refine (triple_idle _ _ _ Pinging eq_refl (send_pings_spec _ addrs 0 addrs _ (at_state_stable _) _ _) c Hc);
      [by split|cbn; lia]. }
  intros p. apply triple_pre. intros c [Hc Hp] c' <-. revert c Hc. change (triple (at_state Pinging)
    (p ← ping_loop (length addrs) addrs startedAt p;
     if bool_decide (length (pg_results p) = 0%nat) then threadFinalConnect (all_candidates addrs)
     else preferIpv6 ← get (fun c => s_preferIpv6 (c_settings c));
          threadFinalConnect (final_candidates (sort_by (ping_less preferIpv6) (pg_results p)) (pg_protocols p)))
    (fun _ => established) idle).
  eapply triple_bind.
  { apply (triple_idle _ _ _ Pinging eq_refl). apply ping_loop_spec; [apply at_state_stable|done]. }
  clear p Hp. intros p. apply triple_pre. intros c [Hc [_ Hk]] c' <-. case_bool_decide as Hlen.
  - revert c Hc. apply (threadFinalConnect_spec Pinging); [done|by right| |].
    + by destruct addrs.
    + unfold all_candidates. clear. induction addrs as [|addr addrs IH]; cbn; [constructor|]. by repeat constructor.
  - revert c Hc. apply triple_read. intros prefer c [Hc _].
    apply (threadFinalConnect_spec Pinging); [done|by right| |apply final_candidates_types|done].
    assert (pg_results p <> []) as Hr by (by destruct (pg_results p)).
    apply final_candidates_some; [|by apply Hk]. intros Hs. apply Hr, Permutation_nil_r. by rewrite <- (sort_by_perm (ping_less prefer)), Hs.
Qed.

(** ** The addresses *)
Lemma threadConnectWithIps_spec s addrs type preferIpv6 :
  edge s Pinging = true -> edge s Connecting = true -> live s = false ->
  triple (at_state s) (threadConnectWithIps addrs type preferIpv6) (fun _ => established) idle.
Proof.
  intros He1 He2 Hl. unfold threadConnectWithIps. destruct addrs as [|a addrs'] eqn:Ea.
  { apply fail_spec. intros c. by apply at_state_idle. }
  rewrite <- Ea. assert (sortAddresses addrs preferIpv6 <> []) as Hne by (apply sorted_nonempty; by rewrite Ea).
  case_bool_decide as Hty.
  - apply threadPingCandidates_spec; [done|by right|done].
  - apply threadFinalConnect_spec; [done|by right|by destruct (sortAddresses addrs preferIpv6)|].
    by apply Forall_forall; intros x (y & -> & _)%list_elem_of_fmap.
Qed.

Lemma set_target_frame h p c : frame c (set_target h p c).
Proof. by split. Qed.

Lemma fetchIps_spec P hostname port ipv4 ipv6 :
  stable P -> triple P (fetchIps hostname port ipv4 ipv6) (fun _ => P) P.
Proof.
  intros Hst. unfold fetchIps. eapply triple_bind; [by apply await_spec|]. intros ?.
  assert (forall (b : bool) (f : world -> option (list ip) * world), (forall w, world_ok w -> world_ok (f w).2) ->
    triple P (if b then in_world f else mret (Some [])) (fun _ => P) P) as Hq.
  { intros [|] f Hf; [|by intros c]. eapply triple_weaken; [apply (in_world_spec P f (fun _ => True)); [done|]|by intros ? c []].
    intros w Hw. split; [by apply Hf|done]. }
  eapply triple_bind; [apply Hq, queryA_law|]. intros v4. eapply triple_bind; [apply Hq, queryAAAA_law|]. intros v6. apply triple_read.
  intros first. by intros c [].
Qed.

Lemma threadConnectDomain_spec hostname port type :
  triple (at_state Disconnected) (threadConnectDomain hostname port type) (fun _ => established) idle.
Proof.
  unfold threadConnectDomain. eapply triple_bind; [apply (setState_spec _ DnsResolving); [done|by right]|]. intros ?.
  apply triple_read. intros settings. cbn zeta. eapply triple_bind.
  { instantiate (1 := fun _ => at_state DnsResolving). intros c [Hc _]. revert c Hc. apply (triple_idle _ _ _ DnsResolving eq_refl).
    destruct port as [port|]; [apply fetchIps_spec, at_state_stable|].
    eapply triple_bind; [apply await_spec, at_state_stable|]. intros ?.
    eapply triple_bind.
    { apply (in_world_spec _ _ (fun r => r <> Some [])); [apply at_state_stable|intros w; apply querySRV_law]. }
    intros res c [Hc Hres]. revert c Hc. destruct res as [[|ep eps]|]; [done|apply fetchIps_spec, at_state_stable..]. }
  intros addrs. destruct addrs as [|a0 addrs'] eqn:Ea.
  { apply fail_spec. intros c. by apply at_state_idle. }
  apply (triple_bind _ _ (fun _ => at_state DnsResolving)); [|intros ?; by apply threadConnectWithIps_spec].
  apply (triple_idle _ _ _ DnsResolving eq_refl), modify_frame; [apply at_state_stable|]. by intros c _; apply set_target_frame.
Qed.

Lemma threadConnectIp_spec addr type :
  triple (at_state Disconnected) (threadConnectIp addr type) (fun _ => established) idle.
Proof.
  unfold threadConnectIp. apply triple_read. intros prefer.
  apply (triple_bind _ _ (fun _ => at_state Disconnected)); [|intros ?; by apply threadConnectWithIps_spec]. intros c [Hc _].
  refine (triple_idle _ _ _ Disconnected eq_refl (modify_frame _ _ (at_state_stable _) _) c Hc). intros; apply set_target_frame.
Qed.

Lemma parse_success url parser :
  UrlParser_parse (E := stop) env_isIpv6 env_parse url = Ok parser -> up_result parser = Success ->
  is_Some (up_proto parser) /\ is_Some (up_value parser).
Proof.
  unfold UrlParser_parse. destruct (split_protocol url) as [[type rest]|]; [|by intros [= <-]].
  destruct (split_path rest) as [host p]. intros H. apply bind_ok in H as (colon & _ & H).
  destruct colon as [colon|]; [|injection H as <-; intros _; split; by eexists].
  destruct (from_chars_u16 _); injection H as <-; [|done]. intros _. split; by eexists.
Qed.

Lemma threadConnect_spec url :
  url_ok url -> triple (at_state Disconnected) (threadConnect url) (fun _ => established) idle.
Proof.
  intros Hurl. unfold threadConnect. eapply triple_bind.
  { apply triple_lift; [exact Hurl|]. intros c. by apply at_state_idle. }
  intros parser. apply triple_pre. intros c [Hc Hp] c' <-. revert c Hc.
  destruct (up_result parser) eqn:Er; [|apply fail_spec; intros c; by apply at_state_idle..].
  destruct (parse_success _ _ Hp Er) as [[type ->] [value ->]].
  eapply triple_bind.
  { instantiate (1 := fun _ => at_state Disconnected). intros c [Hw Hs]. cbn. split; [|done]. apply reset_wf; [done|by rewrite Hs]. }
  intros ?. eapply triple_bind.
  { apply (triple_idle _ _ _ Disconnected eq_refl), modify_frame; [apply at_state_stable|]. by intros c _; apply set_target_frame. }
  intros ?. destruct value; first [apply threadConnectIp_spec|apply threadConnectDomain_spec].
Qed.

(** ** The end of a connection *)
Definition between (s : ConnectionState) : bool :=
  match s with Disconnected | Connected | Closing | Reconnecting => true | _ => false end.
(** Between two turns of the worker. *)
Definition settled (c : Conn) : Prop := wf c /\ between (c_state c) = true.

Lemma edge_disconnected s : s = Disconnected \/ edge s Disconnected = true.
Proof. destruct s; auto. Qed.

Lemma cancel_wf c : wf_base c -> at_state Disconnected (setState Disconnected (resetConnectionState c)).
Proof.
  intros Hwf. destruct (setState_wf Disconnected (resetConnectionState c)) as [H1 H2].
  - destruct Hwf. split; try done. by apply env_reset.
  - apply edge_disconnected.
  - done.
  - split; [done|apply H2].
Qed.

Lemma frame_drain c : frame c (drain c).
Proof. by split. Qed.
Lemma frame_lastError e c : frame c (set_lastError e c).
Proof. by split. Qed.
Lemma frame_listening l c : frame c (set_listening l c).
Proof. by split. Qed.

Lemma wf_frame c c' : frame c c' -> wf c -> wf c'.
Proof. apply frame_wf. Qed.

Lemma onFatalError_wf e c : wf c -> settled (onFatalError e c).
Proof.
  intros Hwf. unfold onFatalError. pose proof (wf_frame _ _ (frame_lastError e c) Hwf) as Hwf'.
  set (c1 := set_lastError e c) in *. destruct (_ && _) eqn:Er.
  - apply andb_true_iff in Er as [Hc%bool_decide_eq_true _].
    pose proof (wf_frame _ _ (frame_drain c1) Hwf') as Hd.
    destruct (setState_wf Reconnecting (drain c1) (wf_wf_base _ Hd)) as [H1 H2].
    + right. cbn in *. by rewrite Hc.
    + intros _. apply Hd. cbn in *. by rewrite Hc.
    + split; [done|]. by rewrite (mv_state _ _ _ H2).
  - destruct (cancel_wf c1 (wf_wf_base _ Hwf')) as [H1 H2]. split; [done|]. by rewrite H2.
Qed.

Lemma onFatalError_idle e c : idle c -> at_state Disconnected (onFatalError e c).
Proof.
  intros [Hwf Hl]. unfold onFatalError. rewrite bool_decide_false.
  - cbn. apply cancel_wf, wf_wf_base. by apply (wf_frame _ _ (frame_lastError e c)).
  - cbn. intros Hc. by rewrite Hc in Hl.
Qed.

Lemma settled_frame c c' : frame c c' -> settled c -> settled c'.
Proof. intros Hf [Hw Hs]. split; [by eapply wf_frame|]. by rewrite (fr_state _ _ Hf). Qed.

Lemma onConnectionError_settled e c : settled c -> settled (onConnectionError e c).
Proof.
  intros Hs. unfold onConnectionError. destruct (isFatalError _ e); [by apply onFatalError_wf, Hs|].
  by apply (settled_frame c).
Qed.

(** ** Selecting a call or the notification *)
Lemma select_spec {A} (P : Conn -> Prop) (m : M A) Q (Ei : Conn -> Prop) k on R :
  (forall c, P c -> P (set_listening NotYet c)) ->
  (forall a c, Q a c -> Q a (set_listening NotListening c)) ->
  (forall c, Ei c -> Ei (set_listening NotListening c)) ->
  (forall c, Ei c -> wf c) ->
  triple P m Q Ei -> (forall a, triple (Q a) (k (Ok a)) R wf) -> (forall e, triple Ei (k (Err e)) R wf) ->
  triple Ei on R wf -> triple P (select_disconnect m k on) R wf.
Proof.
  intros HP HQ HE Hw Hm Hok Herr Hon c Hc. unfold select_disconnect. specialize (Hm _ (HP c Hc)).
  destruct (m _) as [[a|[e| |]|f] c'].
  - by apply Hok, HQ.
  - by apply Herr, HE.
  - by apply Hon, HE.
  - by apply Hw, HE.
  - destruct f; try done. by apply Hw, HE.
Qed.

Lemma cancel_spec (P : Conn -> Prop) : (forall c, P c -> wf c) -> triple P threadCancelConnection (fun _ => settled) wf.
Proof. intros Hw c HP. cbn. destruct (cancel_wf c (wf_wf_base _ (Hw c HP))) as [H1 H2]. split; [done|]. by rewrite H2. Qed.

(** ** The turns of the worker *)
Lemma apply_user_script op c : user_ok op -> c_script (apply_user op c) = c_script c.
Proof.
  intros Hop. destruct op as [[url| |m]|f|f|rtt|ctx|ctx| |]; cbn; try done.
  - unfold connect. repeat case_match; done.
  - unfold disconnect. cbn. by destruct (c_listening c).
  - unfold sendMsgToThread. repeat case_match; done.
  - unfold updateLatency. by destruct (c_socket c).
Qed.

Lemma await_script c ev c' : wf c -> await c = (Ok ev, c') -> (length (c_script c') < length (c_script c))%nat.
Proof.
  intros Hwf. pose proof (wf_script c Hwf) as Hsc. unfold await.
  assert (forall ops ev script, c_script c = (ops, ev) :: script ->
    length (c_script (foldl (fun c op => apply_user op c) (listen (set_script script c)) ops)) = length script) as Hl.
  { intros ops e script Es. rewrite Es in Hsc. apply Forall_cons in Hsc as [Hops _]. cbn in Hops.
    assert (c_script (listen (set_script script c)) = script) as Hc0 by (unfold listen; cbn; by destruct (c_listening c)).
    clear Es. revert Hc0. generalize (listen (set_script script c)). induction Hops as [|op ops Hop _ IH]; intros c0 Hc0; cbn.
    - by rewrite Hc0.
    - apply IH. by rewrite apply_user_script. }
  destruct (c_listening c) as [| |[|]]; [..|done|]; (destruct (c_script c) as [|[ops e] script]; [done|]);
    specialize (Hl _ _ _ eq_refl);
    (destruct (c_cancelled _); [done|]); destruct (c_listening _) as [| |[|]]; try destruct e; intros [= _ <-];
    rewrite Hl; cbn; lia.
Qed.

Lemma recv_url_spec fuel :
  triple (fun c => at_state Disconnected c /\ (length (c_script c) < fuel)%nat) (recv_url fuel)
    (fun url c => at_state Disconnected c /\ url_ok url) wf.
Proof.
  induction fuel as [|fuel IH]; intros c [Hc Hlen]; [lia|]. cbn [recv_url]. unfold mbind at 1, ST_bind, get.
  destruct (c_connectChan c) as [|url chan] eqn:Echan.
  - pose proof (await_spec _ (at_state_stable Disconnected) c Hc) as Hawait.
    pose proof (await_script c) as Hscript. unfold mbind, ST_bind. destruct (await c) as [[ev|e|f] c'].
    + apply IH. specialize (Hscript _ _ (proj1 Hc) eq_refl). split; [done|lia].
    + apply Hawait.
    + destruct f; try done. apply Hawait.
  - destruct Hc as [Hwf Hs]. cbn. pose proof Hwf as [? ? Hu ? ? ?]. rewrite Echan in Hu.
    apply Forall_cons in Hu as [Hu1 Hu2]. split; [|done]. split; [|done]. by split.
Qed.

Lemma at_state_frame s c c' : frame c c' -> at_state s c -> at_state s c'.
Proof. apply st_frame, at_state_stable. Qed.
Lemma idle_frame c c' : frame c c' -> idle c -> idle c'.
Proof. apply st_frame, idle_stable. Qed.

Lemma established_frame c c' : frame c c' -> established c -> established c'.
Proof.
  intros Hf (Hs & Hso & Hu). split; [by eapply at_state_frame|]. by rewrite (fr_data _ _ Hf), (fr_socket _ _ Hf).
Qed.

Lemma established_connected c : established c -> at_state Connected (setState Connected c).
Proof.
  intros ([Hwf Hs] & Hso & Hu). destruct (setState_wf Connected c (wf_wf_base _ Hwf)) as [H1 H2].
  - right. by rewrite Hs.
  - done.
  - split; [done|apply H2].
Qed.

Lemma loop_disconnected_spec : triple (at_state Disconnected) loop_disconnected (fun _ => settled) wf.
Proof.
  unfold loop_disconnected. apply triple_read. intros fuel.
  apply (triple_bind _ _ (fun url c => at_state Disconnected c /\ url_ok url)).
  { intros c [Hc <-]. apply (recv_url_spec (wait_fuel c)). split; [done|unfold wait_fuel; lia]. }
  intros url. apply triple_pre. intros c [Hc Hurl] c' <-. revert c Hc.
  apply (select_spec _ _ (fun _ => established) idle).
  - intros c. apply at_state_frame, frame_listening.
  - intros _ c. apply established_frame, frame_listening.
  - intros c. apply idle_frame, frame_listening.
  - by intros c [].
  - by apply threadConnect_spec.
  - intros u c Hc. cbn. destruct (established_connected c Hc) as [H1 H2].
    apply (settled_frame _ _ (frame_drain _)), (settled_frame _ _ (frame_lastError _ _)). by split; [|rewrite H2].
  - intros e c Hc. cbn. destruct (onFatalError_idle e c Hc) as [H1 H2].
    apply (settled_frame _ _ (frame_drain _)). by split; [|rewrite H2].
  - apply cancel_spec. by intros c [].
Qed.

Lemma live_socket s c : live s = true -> at_state s c -> is_Some (c_socket c).
Proof. intros Hl [Hw Hs]. apply (wf_live c Hw). by rewrite Hs. Qed.

Lemma at_settled s c : between s = true -> at_state s c -> settled c.
Proof. intros Hb [Hw Hs]. split; [done|by rewrite Hs]. Qed.

Lemma report_spec {A} (res : result ConnectionError A) s :
  between s = true -> is_fault res = false -> triple (at_state s) (report res) (fun _ => settled) wf.
Proof.
  intros Hb Hf c Hc. pose proof (at_settled s c Hb Hc) as Hset.
  destruct res as [a0|e|f]; cbn; [done|by apply onConnectionError_settled|done].
Qed.

Lemma handleIncoming_spec msg : triple (at_state Connected) (threadHandleIncomingMessage msg) (fun _ => settled) wf.
Proof.
  intros c Hc. pose proof (at_settled Connected c eq_refl Hc) as Hset. destruct Hc as [Hwf Hs].
  unfold threadHandleIncomingMessage. destruct msg as [| | | | | |closeMsg| | | | | | |m]; try done.
  - apply onFatalError_wf, Hwf.
  - destruct (dm_data m) as [|b data]; [done|]. cbn. destruct (cb_data (c_callbacks c)) as [cb|] eqn:Ecb; [|done].
    assert (Forall op_ok (cb (b :: data))) as Hops by (by eapply (proj1 (proj2 (wf_cbs c Hwf)))).
    split; [by apply call_wf|]. rewrite (fr_state _ _ (call_spec _ _ _ Hops)). cbn. by rewrite Hs.
Qed.

Lemma on_event_spec ev : triple (at_state Connected) (on_event ev) (fun _ => settled) wf.
Proof.
  pose proof (at_state_stable Connected) as Hst.
  assert (forall c, at_state Connected c -> is_Some (c_socket c)) as Hsock by (intros c; by apply live_socket).
  assert (forall A (m : ST (socket * world) A) (k : result ConnectionError A -> M unit),
    call_ok sock_ok world_ok m ->
    (forall res, is_fault res = false -> triple (at_state Connected) (k res) (fun _ => settled) wf) ->
    triple (at_state Connected) (res ← call_socket m; k res) (fun _ => settled) wf) as Hcall.
  { intros A m k Hm Hk. eapply triple_bind.
    - eapply triple_conseq; [by apply (call_socket_spec _ m Hst Hsock Hm)|done|done|]. by intros c [].
    - intros res. apply triple_pre. intros c [Hc Hf] c' <-. by apply (Hk res Hf). }
  destruct ev; cbn [on_event].
  - apply triple_read. intros [|msg chan]; [intros c [Hc _]; by apply (at_settled Connected)|].
    intros c [Hc Hch]. pose proof (wf_msgs _ _ (proj1 Hc)) as Hmsgs. rewrite Hch in Hmsgs.
    apply Forall_cons in Hmsgs as [Hmsg Hchan]. do 2 (erewrite bind_run by reflexivity; cbv beta).
    refine (Hcall _ _ _ (send_law msg Hmsg) (fun res => report_spec res Connected eq_refl) _ _).
    apply (at_state_frame _ c); [|done]. by split.
  - apply Hcall; [apply timer_law|]. intros res. by apply report_spec.
  - intros c Hc. by apply (at_settled Connected).
  - eapply triple_bind.
    + eapply triple_conseq; [by apply (attempt_socket_spec _ env_receiveMessage Hst Hsock receive_law)|done|done|]. by intros c [].
    + intros [msg|e|f] c [Hc Hf]; [by apply handleIncoming_spec| |done].
      apply onConnectionError_settled. by apply (at_settled Connected).
  - intros c Hc. by apply (at_settled Connected).
Qed.

Lemma to_closing c : at_state Connected c -> settled (setState Closing c).
Proof.
  intros [Hwf Hs]. destruct (setState_wf Closing c (wf_wf_base _ Hwf)) as [H1 H2].
  - right. by rewrite Hs.
  - intros _. apply Hwf. by rewrite Hs.
  - split; [done|]. by rewrite (mv_state _ _ _ H2).
Qed.

Lemma loop_connected_spec : triple (at_state Connected) loop_connected (fun _ => settled) wf.
Proof.
  unfold loop_connected. apply triple_read. intros [|].
  { intros c [Hc _]. by apply to_closing. }
  apply triple_pre. intros c [Hc _] c' <-. revert c Hc. apply triple_read. intros [x|].
  2: { intros c [Hc Hn]. destruct (live_socket Connected c eq_refl Hc) as [? ?]. congruence. }
  apply triple_pre. intros c [Hc _] c' <-. revert c Hc.
  apply (select_spec _ _ (fun _ => at_state Connected) (at_state Connected)).
  - intros c. apply at_state_frame, frame_listening.
  - intros _ c. apply at_state_frame, frame_listening.
  - intros c. apply at_state_frame, frame_listening.
  - by intros c [].
  - apply await_spec, at_state_stable.
  - apply on_event_spec.
  - intros e c Hc. by apply (at_settled Connected).
  - intros c Hc. by apply to_closing.
Qed.

Lemma set_attempt_spec s attempt stateless c :
  0 <= attempt <= 6 -> at_state s c -> at_state s (set_attempt attempt stateless c).
Proof. intros Ha [[] Hs]. split; [|done]. by split. Qed.

Lemma call_stateReset_at s c : at_state s c -> at_state s (call_stateReset c).
Proof.
  intros [Hwf Hs]. unfold call_stateReset. destruct (cb_stateReset (c_callbacks c)) as [ops|] eqn:Ecb; [|done].
  assert (Forall op_ok ops) as Hops by (by eapply (proj2 (proj2 (wf_cbs c Hwf)))).
  split; [by apply call_wf|]. by rewrite (fr_state _ _ (call_spec _ _ _ Hops)).
Qed.

Lemma threadTryReconnect_spec stateless :
  triple (at_state Reconnecting) (threadTryReconnect stateless) (fun _ => at_state Reconnecting) (at_state Reconnecting).
Proof.
  unfold threadTryReconnect. apply triple_read. intros data. apply triple_pre. intros c [Hc Hd] c' <-.
  assert (usable data) as [[addr Ha] Hty].
  { rewrite <- Hd. destruct Hc as [Hwf Hs]. apply Hwf. by rewrite Hs. }
  rewrite Ha. revert c Hc Hd. intros c Hc _. assert (forall type, usable_type type ->
    triple (at_state Reconnecting)
      (_ ← threadConnectSocket addr type (negb stateless); if stateless then modify call_stateReset else mret tt)
      (fun _ => at_state Reconnecting) (at_state Reconnecting)) as Hrun.
  { intros type Htype. eapply triple_bind.
    - apply threadConnectSocket_spec; [apply at_state_stable|done|]. intros _ c0. by apply live_socket.
    - intros ? c0 [H0 _]. destruct stateless; cbn; [by apply call_stateReset_at|done]. }
  destruct (d_connType data) eqn:Et; [by destruct Hty|..]; by apply Hrun.
Qed.

Lemma reconnectFut_spec stateless :
  triple (at_state Reconnecting) (reconnectFut stateless) (fun _ => settled) (at_state Reconnecting).
Proof.
  unfold reconnectFut. eapply triple_bind; [apply attempt_call_spec, threadTryReconnect_spec|].
  intros [u|e|f]; [| |by intros c].
  - intros c [Hwf Hs]. cbn. destruct (setState_wf Connected c (wf_wf_base _ Hwf)) as [H1 H2].
    + right. by rewrite Hs.
    + intros _. apply Hwf. by rewrite Hs.
    + split; [done|]. by rewrite (mv_state _ _ _ H2).
  - destruct (_ && _).
    + intros c Hc. apply (at_settled Reconnecting); [done|]. cbn. apply set_attempt_spec; [apply Hc|done].
    + eapply triple_bind; [apply await_spec, at_state_stable|]. intros ? c Hc. by apply (at_settled Reconnecting).
Qed.

(** The next attempt. *)
Lemma next_attempt c : wf c -> u16 (d_reconnectAttempt (c_data c) + 1) = d_reconnectAttempt (c_data c) + 1.
Proof. intros Hwf. pose proof (wf_attempts _ _ Hwf) as Ha. unfold attempts_ok in Ha. apply u_small. lia. Qed.

Lemma loop_reconnecting_spec : triple (at_state Reconnecting) loop_reconnecting (fun _ => settled) wf.
Proof.
  unfold loop_reconnecting. apply triple_read. intros [|].
  { intros c [Hc _]. by apply (cancel_spec (at_state Reconnecting)); [intros ? []|]. }
  apply triple_read. intros data. cbn zeta. apply triple_pre. intros c [[Hc _] <-].
  rewrite next_attempt by apply Hc. pose proof (wf_attempts _ _ (proj1 Hc)) as Ha. unfold attempts_ok in Ha.
  destruct (7 <=? _) eqn:E7.
  { intros c' <-. pose proof (cancel_wf c (wf_wf_base _ (proj1 Hc))) as Hcancel. by apply (at_settled Disconnected). }
  apply (triple_bind _ _ (fun _ => at_state Reconnecting)).
  { intros c' <-. apply (set_attempt_spec Reconnecting); [lia|done]. }
  intros ?. apply (triple_bind _ _ (fun _ => at_state Reconnecting)).
  { destruct (_ =? 0); [|by intros ?]. apply (triple_bind _ _ (fun _ => at_state Reconnecting)); [|by intros ? ?].
    eapply triple_conseq; [apply (await_spec _ (at_state_stable Reconnecting))|done|done|by intros ? []]. }
  intros ?. apply (select_spec _ _ (fun _ => settled) (at_state Reconnecting)).
  - intros c0. apply at_state_frame, frame_listening.
  - intros _ c0. apply settled_frame, frame_listening.
  - intros c0. apply at_state_frame, frame_listening.
  - by intros c0 [].
  - apply reconnectFut_spec.
  - by intros ? c0.
  - intros e c0 Hc0. by apply (at_settled Reconnecting).
  - apply cancel_spec. by intros c0 [].
Qed.

Lemma wait_closed_spec fuel :
  triple (fun c => at_state Closing c /\ (length (c_script c) < fuel)%nat) (wait_closed fuel)
    (fun _ => at_state Closing) wf.
Proof.
  induction fuel as [|fuel IH]; intros c [Hc Hlen]; [lia|]. cbn [wait_closed]. unfold mbind at 1, ST_bind, get, id.
  destruct (live_socket Closing c eq_refl Hc) as [x ->]. destruct (env_isClosed x (c_world c)); [done|].
  pose proof (await_spec _ (at_state_stable Closing) c Hc) as Hawait.
  pose proof (await_script c) as Hscript. unfold mbind, ST_bind. destruct (await c) as [[ev|e|f] c'].
  - apply IH. specialize (Hscript _ _ (proj1 Hc) eq_refl). split; [done|lia].
  - apply Hawait.
  - destruct f; try done. apply Hawait.
Qed.

Lemma loop_closing_spec : triple (at_state Closing) loop_closing (fun _ => settled) wf.
Proof.
  assert (forall c, at_state Closing c -> is_Some (c_socket c)) as Hsock by (intros c; by apply live_socket).
  pose proof (at_state_stable Closing) as Hst.
  unfold loop_closing. apply triple_read. intros [x|].
  2: { intros c [Hc Hn]. destruct (Hsock c Hc) as [? ?]. congruence. }
  eapply triple_bind.
  { eapply triple_conseq; [by apply (call_socket_spec _ _ Hst Hsock (send_law close_message close_message_ok))|by intros c []|done|by intros c []]. }
  intros res. eapply triple_bind.
  { eapply triple_conseq; [apply (await_spec _ Hst)|by intros c []|done|by intros c []]. }
  intros ?. eapply triple_bind.
  { eapply triple_conseq; [by apply (call_socket_spec _ _ Hst Hsock close_law)|done|done|by intros c []]. }
  intros [u|e|f]; [| |by intros c []].
  - apply triple_read. intros fuel. apply (triple_bind _ _ (fun _ => at_state Closing)).
    + intros c [[Hc _] <-]. apply (wait_closed_spec (wait_fuel c)). split; [done|unfold wait_fuel; lia].
    + intros ?. apply cancel_spec. by intros c [].
  - intros c [Hc _]. cbn. by apply onFatalError_wf, Hc.
Qed.

Lemma workerThreadLoop_spec : triple settled workerThreadLoop (fun _ => settled) wf.
Proof.
  unfold workerThreadLoop. apply triple_read. intros s c [[Hwf Hb] Hs]. rewrite Hs in Hb.
  assert (at_state s c) as Hc by done. clear Hwf Hs. revert c Hc.
  destruct s; try done;
    first [apply loop_disconnected_spec|apply loop_connected_spec|apply loop_reconnecting_spec|apply loop_closing_spec].
Qed.

Lemma worker_spec n : triple settled (worker n) (fun _ => settled) wf.
Proof.
  induction n as [|n IH]; [by intros c|]. cbn [worker]. eapply triple_bind; [apply workerThreadLoop_spec|]. by intros ?.
Qed.
End Invariant.
