(* ===== verification/ConnectionLive.v ===== *)
(** * Connections: reconnecting ends

    A turn of a reconnecting worker connects, gives up or counts an attempt, so
    that the worker stops reconnecting after seven turns; it waits at most twice
    in each. *)
From S2P Require Import Prelude Messages Time Errors Effects Transport Address Url Socket Pinger ConnError Sorting Connection ConnectionInv.

Section Live.
Context {T : TimeLib} {AL : AddressLib} {E : ConnectionEnv} {L : ConnectionLaws}.
Abbreviation M := (STE stop Conn).

(** The application does not destroy the object. *)
Definition calm (script : list (list UserOp * Event)) : Prop := Forall (fun e => Destroy ∉ e.1) script.

(** Reconnecting after [a] attempts, with [k] waits to come. *)
Record ready (a : Z) (k : nat) (c : Conn) : Prop := {
  rd_at : at_state Reconnecting c;
  rd_attempt : d_reconnectAttempt (c_data c) = a;
  rd_alive : c_cancelled c = false;
  rd_calm : calm (c_script c);
  rd_script : (k <= length (c_script c))%nat;
}.

(** [runs P m Q F]: the call ends, with [Q], or with [F] when it fails or is
    interrupted. *)
Definition runs {A} (P : Conn -> Prop) (m : M A) (Q : A -> Conn -> Prop) (F : Conn -> Prop) : Prop :=
  forall c, P c -> match m c with
                   | (Ok a, c') => Q a c'
                   | (Err (Failed _ | Interrupted), c') => F c'
                   | _ => False
                   end.

Lemma runs_bind {A B} P (m : M A) Q (k : A -> M B) R F :
  runs P m Q F -> (forall a, runs (Q a) (k a) R F) -> runs P (m ≫= k) R F.
Proof.
  intros Hm Hk c Hc. specialize (Hm c Hc). unfold mbind, ST_bind.
  destruct (m c) as [[a|[e| |]|f] c']; try done. by apply Hk.
Qed.

Lemma runs_read {A B} (P : Conn -> Prop) (f : Conn -> A) (k : A -> M B) Q F :
  (forall a, runs (fun c => P c /\ f c = a) (k a) Q F) -> runs P (get f ≫= k) Q F.
Proof. intros H c Hc. by apply (H (f c)). Qed.

Lemma runs_conseq {A} (P P' : Conn -> Prop) (m : M A) Q Q' (F F' : Conn -> Prop) :
  runs P' m Q' F' -> (forall c, P c -> P' c) -> (forall a c, Q' a c -> Q a c) -> (forall c, F' c -> F c) -> runs P m Q F.
Proof.
  intros Hm HP HQ HF c Hc. specialize (Hm c (HP c Hc)). destruct (m c) as [[a|[e| |]|f] c']; auto.
Qed.

(** What the application does leaves the object alive. *)
Lemma apply_op_alive op c : c_cancelled (apply_op op c) = c_cancelled c /\ c_script (apply_op op c) = c_script c.
Proof.
  destruct op as [url| |m]; cbn.
  - unfold connect. repeat case_match; done.
  - unfold disconnect. cbn. by destruct (c_listening c).
  - unfold sendMsgToThread. repeat case_match; done.
Qed.

Lemma apply_ops_alive ops c :
  c_cancelled (foldl (fun c op => apply_op op c) c ops) = c_cancelled c /\
  c_script (foldl (fun c op => apply_op op c) c ops) = c_script c.
Proof.
  revert c. induction ops as [|op ops IH]; intros c; cbn; [done|]. destruct (IH (apply_op op c)) as [-> ->]. apply apply_op_alive.
Qed.

Lemma apply_users_alive ops c :
  Forall user_ok ops -> Destroy ∉ ops ->
  let c' := foldl (fun c op => apply_user op c) c ops in c_cancelled c' = c_cancelled c /\ c_script c' = c_script c.
Proof.
  intros H. cbn. revert c. induction H as [|op ops Hop _ IH]; intros c Hd; cbn; [done|].
  apply not_elem_of_cons in Hd as [Hd1 Hd2]. destruct (IH (apply_user op c) Hd2) as [-> ->].
  destruct op as [op|f|f|rtt|ctx|ctx| |]; try done; [apply apply_op_alive|]. cbn. unfold updateLatency. by destruct (c_socket c).
Qed.

Lemma ready_le a k k' c : (k' <= k)%nat -> ready a k c -> ready a k' c.
Proof. intros Hk []. split; try done. lia. Qed.

Lemma listen_frame script c : frame (set_script script c) (listen (set_script script c)).
Proof. unfold listen. cbn. destruct (c_listening c); by split. Qed.

(** What the next wait does. *)
Lemma await_run a k ops ev script c :
  ready a (S k) c -> c_script c = (ops, ev) :: script ->
  ready a k (foldl (fun c op => apply_user op c) (listen (set_script script c)) ops).
Proof.
  intros [[Hwf Hs] Ha Hl Hc Hk] Es. pose proof (wf_script _ _ Hwf) as Hok. unfold calm in Hc. rewrite Es in Hok, Hc, Hk.
  apply Forall_cons in Hok as [Hok Hok2]. apply Forall_cons in Hc as [Hd Hc]. cbn in Hok, Hd, Hk.
  pose proof (listen_frame script c) as Hf0.
  assert (frame c (listen (set_script script c))) as Hf1.
  { eapply frame_trans; [|exact Hf0]. by split. }
  pose proof (apply_users_frame ops _ Hok (fr_cbs_ok _ _ Hf1 (wf_cbs _ _ Hwf))) as Hf.
  destruct (apply_users_alive ops (listen (set_script script c)) Hok Hd) as [H1 H2].
  assert (c_cancelled (listen (set_script script c)) = c_cancelled c /\ c_script (listen (set_script script c)) = script) as [H3 H4].
  { unfold listen. cbn. by destruct (c_listening c). }
  split.
  - by apply (at_state_frame _ _ _ (frame_trans _ _ _ Hf1 Hf)).
  - by rewrite (fr_data _ _ Hf), (fr_data _ _ Hf1).
  - by rewrite H1, H3.
  - by rewrite H2, H4.
  - rewrite H2, H4. lia.
Qed.

Lemma await_ready a k : runs (ready a (S k)) await (fun _ => ready a k) (ready a k).
Proof.
  intros c Hc. unfold await. pose proof (ready_le a (S k) k c ltac:(lia) Hc) as Hc0.
  destruct (c_script c) as [|[ops ev] script] eqn:Es; [destruct Hc as [_ _ _ _ Hk]; rewrite Es in Hk; cbn in Hk; lia|].
  pose proof (await_run a k ops ev script c Hc Es) as Hrun.
  destruct (c_listening c) as [| |[|]]; [..|done|]; rewrite (rd_alive _ _ _ Hrun);
    destruct (c_listening _) as [| |[|]]; try done; by destruct ev.
Qed.

(** ** An attempt *)
Lemma ready_set_world a k w c : world_ok w -> ready a k c -> ready a k (set_world w c).
Proof. intros Hw []. split; try done. by apply (at_state_frame _ _ _ (set_world_frame w c Hw)). Qed.
Lemma ready_set_socket a k s c : sock_ok s -> ready a k c -> ready a k (set_socket (Some s) c).
Proof. intros Hs []. split; try done. by apply (st_socket _ (at_state_stable Reconnecting)). Qed.
Lemma ready_env a k c : ready a k c -> env_ok c.
Proof. intros Hc. exact (st_env _ c (at_state_stable Reconnecting) (rd_at _ _ _ Hc)). Qed.
Lemma ready_listening a k l c : ready a k c -> ready a k (set_listening l c).
Proof. intros []. split; try done. by apply (at_state_frame _ _ _ (frame_listening l c)). Qed.

Lemma attempt_world_ready a k m :
  make_ok sock_ok world_ok m -> runs (ready a k) (attempt_world m) (fun res c => ready a k c /\ made res) (fun _ => False).
Proof.
  intros Hm c Hc. unfold attempt_world. specialize (Hm _ (proj1 (ready_env _ _ _ Hc))).
  destruct (m (c_world c)) as [res w]. destruct Hm as (Hw & Hf & Hs). pose proof (ready_set_world a k w c Hw Hc).
  destruct res as [s|e|f]; [|done..]. split; [done|]. split; [done|]. intros s' [= <-]. by apply Hs.
Qed.

Lemma connectSocket_ready a k addr type reconnect :
  usable_type type -> runs (ready a (S k)) (threadConnectSocket addr type reconnect) (fun _ => ready a k) (ready a k).
Proof.
  intros [_ Hq]. unfold threadConnectSocket, makeOptions.
  assert (forall k' c, ready a k' c -> is_Some (c_socket c)) as Hsock by (intros k' c Hc; exact (live_socket Reconnecting c eq_refl (rd_at _ _ _ Hc))).
  apply (runs_bind _ _ (fun _ => ready a (S k))).
  { apply runs_read. intros c0. apply (runs_bind _ _ (fun _ => ready a (S k))); [|by intros tls c].
    intros c [Hc _]. cbn. unfold lift. destruct tls_support; [|done]. unfold getTlsForConnection. destruct type; try done. by rewrite Hq. }
  intros opts. apply runs_read. intros qdb. apply runs_read. intros prev.
  eapply (runs_bind _ _ (fun _ => ready a (S k))).
  { intros c [[Hc _] Hp]. destruct (Hsock _ c Hc) as [x Hx]. rewrite Hx in Hp. subst prev.
    by destruct reconnect; cbn. }
  intros ?. eapply runs_bind; [apply await_ready|]. intros ev. apply runs_read. intros prev'.
  apply (runs_bind _ _ (fun s c => ready a k c /\ sock_ok s)); [|intros s c [Hc Hs]; by apply ready_set_socket].
  unfold unwrap_or_fail. apply (runs_bind _ _ (fun res c => ready a k c /\ made res)).
  2: { intros [x|e|f] c [Hc [Hf Hs]]; try done. split; [done|by apply Hs]. }
  destruct reconnect; [destruct prev' as [x|]|].
  - intros c [Hc Hx]. pose proof (attempt_world_ready a k _ (reconnect_law opts x (proj2 (ready_env _ _ _ Hc) x Hx)) c Hc) as H.
    by destruct (attempt_world _ c) as [[?|[]|?] ?].
  - intros c [Hc Hn]. destruct (Hsock _ c Hc). congruence.
  - intros c [Hc _]. pose proof (attempt_world_ready a k _ (connect_law opts qdb) c Hc) as H.
    by destruct (attempt_world _ c) as [[?|[]|?] ?].
Qed.

Lemma tryReconnect_ready a k stateless :
  runs (ready a (S k)) (threadTryReconnect stateless) (fun _ => ready a k) (ready a k).
Proof.
  unfold threadTryReconnect. apply runs_read. intros data c [Hc Hd]. destruct (rd_at _ _ _ Hc) as [Hwf Hs].
  destruct (wf_live _ _ Hwf) as [_ [[addr Haddr] Hty]]; [by rewrite Hs|]. rewrite Hd in *. rewrite Haddr.
  assert (forall type, usable_type type -> runs (ready a (S k))
    (_ ← threadConnectSocket addr type (negb stateless); if stateless then modify call_stateReset else mret tt)
    (fun _ => ready a k) (ready a k)) as Hrun.
  { intros type Htype. eapply runs_bind; [by apply connectSocket_ready|]. intros u c0 H0. destruct stateless; [|done].
    cbn. pose proof (call_stateReset_at Reconnecting c0 (rd_at _ _ _ H0)) as Hat. unfold call_stateReset in *.
    destruct (cb_stateReset (c_callbacks c0)) as [ops|] eqn:Ecb; [|done].
    destruct (apply_ops_alive ops (set_calls (c_calls c0 ++ [CallStateReset]) c0)) as [H1 H2].
    assert (Forall op_ok ops) as Hops by (by eapply (proj2 (proj2 (wf_cbs _ _ (proj1 (rd_at _ _ _ H0)))))).
    destruct H0 as [H01 H02 H03 H04 H05]. split; try done.
    - by rewrite (fr_data _ _ (call_spec CallStateReset ops c0 Hops)).
    - unfold call. by rewrite H1.
    - unfold call. by rewrite H2.
    - unfold call. by rewrite H2. }
  destruct (d_connType data) eqn:Et; [by destruct Hty|..]; by apply Hrun.
Qed.

(** ** A turn *)
Definition gone (c : Conn) : Prop := c_state c = Connected \/ c_state c = Disconnected.
(** The worker has stopped reconnecting, or has counted the attempt. *)
Definition turned (a : Z) (k : nat) (c : Conn) : Prop := settled c /\ (gone c \/ ready a k c).

Lemma ready_turned a k c : ready a k c -> turned a k c.
Proof. intros Hc. split; [by apply (at_settled Reconnecting c eq_refl), Hc|by right]. Qed.

Lemma cancel_turned a k c : wf_base c -> turned a k (setState Disconnected (resetConnectionState c)).
Proof.
  intros Hwf. destruct (cancel_wf c Hwf) as [H1 H2]. split; [by apply (at_settled Disconnected)|]. left. by right.
Qed.

Lemma runs_attempt {A} P (m : M A) Q F :
  runs P m Q F -> runs P (attempt_call m) (fun res c => match res with Ok a => Q a c | Err _ => F c | Fault _ => False end) F.
Proof. intros Hm c HP. specialize (Hm c HP). unfold attempt_call. destruct (m c) as [[a|[e| |]|f] c']; done. Qed.

Lemma reconnectFut_ready a k stateless :
  runs (ready a (S (S k))) (reconnectFut stateless) (fun _ => turned a k) (ready a k).
Proof.
  unfold reconnectFut. eapply runs_conseq;
    [eapply (runs_bind _ _ _ _ (fun _ => turned a k) (ready a k));
      [eapply runs_conseq; [apply runs_attempt, (tryReconnect_ready a (S k))|done|intros ? ?; exact id|]|]|done|done|done].
  { intros c. apply ready_le. lia. }
  intros [u|e|f].
  - intros c Hc. pose proof (rd_at _ _ _ Hc) as [Hwf Hs]. cbn.
    destruct (setState_wf Connected c (wf_wf_base _ Hwf)) as [H1 H2].
    + right. by rewrite Hs.
    + intros _. apply Hwf. by rewrite Hs.
    + split; [split; [done|]; by rewrite (mv_state _ _ _ H2)|]. left. left. apply H2.
  - destruct (_ && _).
    + intros c Hc. apply ready_turned. destruct (ready_le a (S k) k c ltac:(lia) Hc) as [H1 H2 H3 H4 H5]. split; try done.
      apply set_attempt_spec; [apply (wf_attempts _ _ (proj1 H1))|done].
    + eapply runs_bind; [apply await_ready|]. intros ? c Hc. by apply ready_turned.
  - by intros c.
Qed.

Lemma reconnecting_turn a k c :
  ready a (S (S k)) c ->
  exists c', workerThreadLoop c = (Ok tt, c') /\ turned (a + 1) k c' /\ (6 <= a -> gone c').
Proof.
  intros Hc. pose proof (rd_at _ _ _ Hc) as [Hwf Hs]. pose proof (rd_attempt _ _ _ Hc) as Ha.
  pose proof (wf_attempts _ _ Hwf) as Hatt. unfold attempts_ok in Hatt.
  unfold workerThreadLoop, loop_reconnecting, threadCancelConnection, mbind, ST_bind, get, modify, lift. rewrite Hs.
  destruct (c_disconnectReq c).
  { destruct (cancel_turned (a + 1) k c (wf_wf_base _ Hwf)) as [H1 H2]. eexists. split; [done|]. split; [done|].
    intros _. right. apply (cancel_wf c (wf_wf_base _ Hwf)). }
  cbn zeta. rewrite next_attempt, Ha by done. set (s := d_tryStatelessReconnect (c_data c)).
  destruct (7 <=? a + 1) eqn:E7.
  { eexists. split; [done|]. split; [apply (cancel_turned (a + 1) k c (wf_wf_base _ Hwf))|].
    intros _. right. apply (cancel_wf c (wf_wf_base _ Hwf)). }
  destruct (a + 1 =? 0) eqn:E0; [lia|]. cbn. unfold select_disconnect.
  assert (ready (a + 1) (S (S k)) (set_listening NotYet (set_attempt (a + 1) s c))) as Hr.
  { apply ready_listening. destruct Hc. split; try done. apply set_attempt_spec; [lia|done]. }
  pose proof (reconnectFut_ready (a + 1) k s _ Hr) as Hrun. destruct (reconnectFut _ _) as [[[]|[e| |]|f] c']; try done.
  - eexists. split; [done|]. split; [|lia]. destruct Hrun as [Hset [Hg|Hrd]].
    + split; [by apply (settled_frame _ _ (frame_listening _ _))|by left].
    + by apply ready_turned, ready_listening.
  - eexists. split; [done|]. split; [by apply ready_turned, ready_listening|lia].
  - eexists. split; [done|]. split; [|lia]. apply cancel_turned, (wf_wf_base _).
    by apply (ready_listening (a + 1) k NotListening c').
Qed.

Lemma reconnecting_turns m a c :
  ready a (2 * m) c -> 7 <= a + Z.of_nat m -> exists n c', (n <= m)%nat /\ worker n c = (Ok tt, c') /\ gone c'.
Proof.
  revert a c. induction m as [|m IH]; intros a c Hc Hm.
  { pose proof (wf_attempts _ _ (proj1 (rd_at _ _ _ Hc))) as Ha. unfold attempts_ok in Ha. rewrite (rd_attempt _ _ _ Hc) in Ha. lia. }
  replace (2 * S m)%nat with (S (S (2 * m))) in Hc by lia.
  destruct (reconnecting_turn a (2 * m) c Hc) as (c1 & E1 & [_ [Hg|Hr]] & Hlast).
  - exists 1%nat, c1. split; [lia|]. split; [|done]. cbn [worker]. unfold mbind, ST_bind. by rewrite E1.
  - destruct (IH (a + 1) c1 Hr) as (n & c2 & Hn & E2 & Hg); [lia|]. exists (S n), c2. split; [lia|]. split; [|done].
    cbn [worker]. unfold mbind, ST_bind. by rewrite E1.
Qed.
End Live.
