(* ===== verification/ConnectionSafe.v ===== *)
(** * Connections: theorems

    From a new object, whatever the application does and the network brings: no
    call fails an assertion or uses a socket that is not there, the application
    is told a path in the graph of states, and a connection that was lost is
    either found again or given up.  A small environment runs the worker. *)
From S2P Require Import Prelude Messages Time Errors Effects Transport Address Url Socket Pinger ConnError Sorting Connection ConnectionInv ConnectionLive.

Section Safe.
Context {T : TimeLib} {AL : AddressLib} {E : ConnectionEnv} {L : ConnectionLaws}.

Lemma new_settled cbs w script :
  world_ok w -> cbs_ok cbs -> script_ok script -> settled (set_callbacks cbs (new_Connection w script)).
Proof. intros Hw Hcbs Hscript. split; [|done]. by split; cbn. Qed.

Lemma worker_run n cbs w script :
  world_ok w -> cbs_ok cbs -> script_ok script ->
  match worker n (set_callbacks cbs (new_Connection w script)) with
  | (Ok _, c) => settled c
  | (Fault f, c) => f = WouldBlock /\ wf c
  | (Err _, c) => wf c
  end.
Proof.
  intros Hw Hcbs Hscript. pose proof (worker_spec n _ (new_settled cbs w script Hw Hcbs Hscript)) as H.
  destruct (worker n _) as [[u|e|[]] c]; done || (by split).
Qed.

(** C25. The worker never throws nor uses a socket that is not there, when
    [script_ok] and [ConnectionLaws] hold: the application does anything but simulate
    a connection drop ([ConnectionEx.simulated_drop_faults]), with URLs that the
    parser does not read out of bounds of (no host that begins with its only colon),
    and sets or removes the callback of the states only before the worker runs; the
    calls of the socket throw nothing ([ClientSafe.client_laws] proves it of the
    sockets of the program); and a server that answers a ping
    announces a known protocol or none ([ConnectionEx.unknown_protocols_fault]).
    Then, whenever the worker stops, a connection that is connected, closing or
    reconnecting has a socket and the address and type to connect to again, and has
    tried at most six times. *)
Theorem worker_safe n cbs w script :
  world_ok w -> cbs_ok cbs -> script_ok script ->
  let '(res, c) := worker n (set_callbacks cbs (new_Connection w script)) in
  (forall f, res = Fault f -> f = WouldBlock) /\
  (live (c_state c) = true -> is_Some (c_socket c) /\ usable (c_data c)) /\
  0 <= d_reconnectAttempt (c_data c) <= 6 /\
  (is_ok res = true -> between (c_state c) = true).
Proof.
  intros Hw Hcbs Hscript. pose proof (worker_run n cbs w script Hw Hcbs Hscript) as H.
  destruct (worker n _) as [[u|e|f] c].
  - destruct H as [Hwf Hb]. split; [done|]. split; [apply Hwf|]. split; [apply Hwf|done].
  - split; [done|]. split; [apply H|]. split; [apply H|done].
  - destruct H as [-> Hwf]. split; [by intros f [= <-]|]. split; [apply Hwf|]. split; [apply Hwf|done].
Qed.

(** C26. Under the same conditions, the states that the application is told, in the
    order in which it is told, form a path of the graph from [Disconnected] to the
    present state.  A connection drop that is simulated while the worker connects
    makes them leave the graph ([ConnectionEx.simulated_drop_leaves_graph]), and a
    callback that is set later is not told the states before. *)
Theorem states_follow_graph n cbs w script c :
  world_ok w -> cbs_ok cbs -> script_ok script ->
  (worker n (set_callbacks cbs (new_Connection w script))).2 = c ->
  is_Some (cb_connState (c_callbacks c)) ->
  path Disconnected (states_of (c_calls c)) (c_state c).
Proof.
  intros Hw Hcbs Hscript <- Hcb. pose proof (worker_run n cbs w script Hw Hcbs Hscript) as H.
  destruct (worker n _) as [[u|e|f] c]; cbn in *.
  - destruct H as [Hwf _]. by apply Hwf.
  - by apply H.
  - destruct H as [_ Hwf]. by apply Hwf.
Qed.

(** C28. A worker that finds the connection lost stops reconnecting within seven
    turns: the connection is there again, or is given up.  It waits fourteen
    times at most. *)
Theorem reconnection_ends n cbs w script c :
  world_ok w -> cbs_ok cbs -> script_ok script ->
  worker n (set_callbacks cbs (new_Connection w script)) = (Ok tt, c) ->
  c_state c = Reconnecting -> c_cancelled c = false -> calm (c_script c) -> (14 <= length (c_script c))%nat ->
  exists m c', (m <= 7)%nat /\ worker m c = (Ok tt, c') /\ (c_state c' = Connected \/ c_state c' = Disconnected).
Proof.
  intros Hw Hcbs Hscript Hrun Hs Halive Hcalm Hlen. pose proof (worker_run n cbs w script Hw Hcbs Hscript) as H.
  rewrite Hrun in H. destruct H as [Hwf _].
  pose proof (wf_attempts _ _ Hwf) as Ha. unfold attempts_ok in Ha.
  by apply (reconnecting_turns 7 (d_reconnectAttempt (c_data c)) c); [split|lia].
Qed.
End Safe.

(** ** A small environment
    A socket is a number.  The world has the errors of the attempts to connect
    to come (then they succeed), what is received (then nothing), and the
    times after which the addresses answer pings; the servers announce
    [protocols]. *)
Record small_world := {
  sw_connects : list (option TransportError);
  sw_incoming : list (TransportError + QunetMessage);
  sw_pongs : list (nat * Z);
}.

Definition small_connect (w : small_world) : TransportResult Z * small_world :=
  (match sw_connects w with Some e :: _ => Err e | _ => Ok 0 end,
   {| sw_connects := tail (sw_connects w); sw_incoming := sw_incoming w; sw_pongs := sw_pongs w |}).

Definition small_receive (sw : Z * small_world) : TransportResult QunetMessage * (Z * small_world) :=
  (match sw_incoming sw.2 with
   | [] => Ok (MKeepalive {| ka_timestamp := 0 |})
   | inl e :: _ => Err e
   | inr m :: _ => Ok m
   end,
   (sw.1, {| sw_connects := sw_connects sw.2; sw_incoming := tail (sw_incoming sw.2); sw_pongs := sw_pongs sw.2 |})).

Definition quiet {A S} (a : A) : ST S A := mret a.

Definition small_pong (protocols : list SupportedProtocol) (r : nat * Z) : nat * PingResult (T := nano_time) :=
  (r.1, {| pr_pingId := 0; pr_responseTime := fromMillis r.2; pr_protocols := protocols; pr_extraData := [];
           pr_timedOut := false; pr_errored := false |}).

Definition small_env_with (protocols : list SupportedProtocol) : ConnectionEnv (T := nano_time) (AL := simple_addresses) := {|
  socket := Z;
  TlsContext := unit;
  world := small_world;
  env_connect _ _ := small_connect;
  env_reconnect _ _ := small_connect;
  env_sendMessage _ := quiet tt;
  env_receiveMessage := small_receive;
  env_handleTimerExpiry := quiet tt;
  env_close := quiet tt;
  env_closeSync := quiet tt;
  env_isClosed _ _ := true;
  env_getLatency _ := zero;
  env_getJitter _ := zero;
  env_updateLatency _ s := s;
  env_queryA _ w := (Some [inl 2130706433], w);
  env_queryAAAA _ w := (None, w);
  env_querySRV _ w := (None, w);
  env_firstAAAA _ := false;
  env_now _ := 0;
  env_openPings w := w;
  env_getCached _ w := (None, w);
  env_ping _ _ w := w;
  env_pings w := (small_pong protocols <$> sw_pongs w, {| sw_connects := sw_connects w; sw_incoming := sw_incoming w; sw_pongs := [] |});
  env_createContext _ w := (None, w);
  env_loadSystemCACerts ctx w := (true, ctx, w);
  env_setupQuicContext ctx w := (true, ctx, w);
  env_parse s := if example_ip s then Some (inr s) else None;
  env_isIpv6 := example_ipv6;
  env_fmt_dec _ := [];
  env_isSuccess _ := false;
  quic_support := false;
  ws_support := true;
  tls_support := true;
  debug_build := true;
|}.

#[export] Instance small_env : ConnectionEnv (T := nano_time) (AL := simple_addresses) :=
  small_env_with [{| sp_protocolId := PROTO_UDP; sp_port := 4340 |}; {| sp_protocolId := PROTO_TCP; sp_port := 4341 |}].

#[export] Instance small_laws : ConnectionLaws (E := small_env).
Proof.
  assert (forall A (a : A), call_ok (fun _ : socket => True) (fun _ : world => True) (quiet a)) as Hquiet by (intros A a s w _ _; cbn; auto).
  refine {| sock_ok _ := True; world_ok _ := True; msg_ok _ := True |}; try done; try (intros; apply Hquiet).
  - intros o f w _. cbn. unfold small_connect. by destruct (sw_connects w) as [|[e|] l].
  - intros o s _ w _. cbn. unfold small_connect. by destruct (sw_connects w) as [|[e|] l].
  - intros s w _ _. cbn. unfold small_receive. destruct (sw_incoming w) as [|[e|m] l]; by auto.
  - intros w _. split; [done|]. cbn. apply Forall_fmap, Forall_true. intros r. right. right. right. cbn.
    eexists. split; [apply list_elem_of_here|reflexivity].
Defined.

(** The application follows the states, and disconnects in the end. *)
Definition watching : ConnectionCallbacks (AL := simple_addresses) :=
  {| cb_connState := Some (fun _ => []); cb_data := None; cb_stateReset := None; cb_shouldReconnect := None |}.
Definition address_url : list Z := str "tcp://127.0.0.1:4340".
Definition lost_world (refusals : list (option TransportError)) : small_world :=
  {| sw_connects := None :: refusals; sw_incoming := [inl (TE_Custom Closed)]; sw_pongs := [] |}.
Definition silence : list (list (UserOp (E := small_env)) * Event) := replicate 16 ([], EvWake).
Definition lost_script : list (list (UserOp (E := small_env)) * Event) :=
  [([UserCall (OpConnect address_url)], EvWake); ([], EvWake); ([], EvReceive)].

Abbreviation watched n w script := (worker (E := small_env) n (set_callbacks (E := small_env) watching (new_Connection (E := small_env) w script))).

Lemma watching_ok : cbs_ok (E := small_env) watching.
Proof. split_and!; cbn; [intros f s [= <-]; constructor|done..]. Qed.

Lemma lost_script_ok rest : script_ok (E := small_env) rest -> script_ok (E := small_env) (lost_script ++ rest).
Proof. intros H. by repeat constructor. Qed.

Lemma silence_ok : script_ok (E := small_env) silence.
Proof. by apply Forall_replicate. Qed.

(** Lost, refused once, connected again. *)
Definition again : list (option TransportError) := [Some (TE_Custom ConnectionTimedOut)].

Abbreviation lost_run := (watched 3 (lost_world again) (lost_script ++ silence)).
Abbreviation again_run := (watched 4 (lost_world again) (lost_script ++ silence)).

Lemma again_states :
  is_ok again_run.1 && bool_decide (states_of (c_calls again_run.2) = [Connecting; Connected; Reconnecting; Connected]) &&
  bool_decide (is_Some (cb_connState (c_callbacks again_run.2))) && bool_decide (c_state again_run.2 = Connected) = true.
Proof. vm_compute. reflexivity. Qed.

Lemma lost_states :
  is_ok lost_run.1 && bool_decide (c_state lost_run.2 = Reconnecting) && negb (c_cancelled lost_run.2) &&
  forallb (fun e => bool_decide (length e.1 = 0%nat)) (c_script lost_run.2) &&
  (14 <=? length (c_script lost_run.2))%nat = true.
Proof. vm_compute. reflexivity. Qed.

Lemma worker_safe_witness : is_Some (c_socket again_run.2).
Proof.
  pose proof (worker_safe (L := small_laws) 4 watching (lost_world again) (lost_script ++ silence) I watching_ok
    (lost_script_ok _ silence_ok)) as H.
  pose proof again_states as [_ Hs%bool_decide_eq_true]%andb_true_iff. destruct again_run as [res c].
  destruct H as (_ & H & _). apply H. cbn in Hs. by rewrite Hs.
Defined.

Lemma states_follow_graph_witness : path Disconnected [Connecting; Connected; Reconnecting; Connected] Connected.
Proof.
  pose proof (states_follow_graph (L := small_laws) 4 watching (lost_world again) (lost_script ++ silence) again_run.2
    I watching_ok (lost_script_ok _ silence_ok) eq_refl) as H.
  pose proof again_states as [[[_ H1%bool_decide_eq_true]%andb_true_iff H2%bool_decide_eq_true]%andb_true_iff
    H3%bool_decide_eq_true]%andb_true_iff.
  rewrite H1, H3 in H. by apply H.
Defined.

Lemma reconnection_ends_witness :
  exists m c', (m <= 7)%nat /\ worker m lost_run.2 = (Ok tt, c') /\ (c_state c' = Connected \/ c_state c' = Disconnected).
Proof.
  pose proof lost_states as [[[[H1 H2%bool_decide_eq_true]%andb_true_iff H3%negb_true_iff]%andb_true_iff
    H4]%andb_true_iff H5%Nat.leb_le]%andb_true_iff.
  apply (reconnection_ends (L := small_laws) 3 watching (lost_world again) (lost_script ++ silence)).
  - exact I.
  - apply watching_ok.
  - apply lost_script_ok, silence_ok.
  - apply run_result. destruct lost_run as [[[]|e|f] c]; done.
  - done.
  - done.
  - apply Forall_forall. rewrite forallb_forall in H4. intros e He%list_elem_of_In.
    specialize (H4 e He). apply bool_decide_eq_true, nil_length_inv in H4. rewrite H4. apply not_elem_of_nil.
  - done.
Defined.
