(* ===== verification/ConnectionOrder.v ===== *)
(** * Connections: in which order addresses are tried

    The three sorts compare keys in lexicographic order.  A sort by keys gives a
    sorted permutation that keeps the order of equal keys; addresses with the
    same key and port are the same, so that the order of the answers of the
    resolver does not matter; and the candidates are tried in that order until
    one connects. *)
From stdpp Require Import sorting.
From S2P Require Import Prelude Messages Time Errors Effects Transport Address Url Socket Pinger ConnError Sorting Connection ConnectionInv ConnectionSafe.

Open Scope Z_scope.

Section Order.
Context {T : TimeLib} {AL : AddressLib} {E : ConnectionEnv}.

(** ** Addresses *)
Definition address_key (preferIpv6 : bool) (a : address) : list Z :=
  (if Bool.eqb (addr_isV6 a) preferIpv6 then 0 else 1) :: (if addr_isV6 a then addr_octets a else [addr_bits a]).

Lemma address_less_key prefer a b : address_less prefer a b = octets_less (address_key prefer a) (address_key prefer b).
Proof.
  unfold address_less, address_key. destruct (addr_isV6 a), (addr_isV6 b), prefer; cbn; try done.
  all: destruct (addr_bits a <? addr_bits b) eqn:E1; try done; by destruct (addr_bits b <? addr_bits a).
Qed.

(** ** The results of pings
    The families are compared within 25 milliseconds: an address of the other
    family is as good as one that answered 25 milliseconds later. *)
Section Pings.
Context {TL : TimeLaws T}.
Definition ping_key (preferIpv6 : bool) (r : address * duration) : list Z :=
  if Bool.eqb (addr_isV6 r.1) preferIpv6 then [nanos r.2; 0] else [nanos r.2 + 25000000; 1].

Lemma ping_less_key prefer a b : ping_less prefer a b = octets_less (ping_key prefer a) (ping_key prefer b).
Proof.
  unfold ping_less, ping_key. rewrite !dltb_law, absDiff_law, fromMillis_law by done.
  destruct (Z.ltb_spec (25 * 1000000) (Z.abs (nanos a.2 - nanos b.2))), (Z.ltb_spec (nanos a.2) (nanos b.2)),
    (addr_isV6 a.1), (addr_isV6 b.1), prefer; cbn; repeat case_match; lia.
Qed.

Lemma pings_sorted prefer l :
  sort_by (ping_less prefer) l ≡ₚ l /\ StronglySorted (not_after (ping_less prefer)) (sort_by (ping_less prefer) l).
Proof. split; [apply sort_by_perm|]. apply (sort_by_sorted _ (ping_key prefer)), ping_less_key. Qed.
End Pings.

(** ** Candidates
    The preferred type first, then by the number of the type. *)
Definition candidate_rank (preferred : ConnectionType) (a : candidate) : Z :=
  if bool_decide (a.2 = preferred) then -1 else default 0 (toNum a.2).

Lemma toNum_nonneg type : 0 <= default 0 (toNum type).
Proof. by destruct type. Qed.

Lemma candidate_less_key preferred a b :
  candidate_less preferred a b = octets_less [candidate_rank preferred a] [candidate_rank preferred b].
Proof.
  unfold candidate_less, candidate_rank. cbn. pose proof (toNum_nonneg a.2). pose proof (toNum_nonneg b.2).
  repeat case_bool_decide; cbn; try done; repeat case_match; lia.
Qed.

Lemma candidates_sorted preferred l :
  let order := sort_by (candidate_less preferred) l in
  order ≡ₚ l /\ StronglySorted (fun a b => candidate_rank preferred a <= candidate_rank preferred b) order /\
  forall r, filter (fun a => candidate_rank preferred a = r) order = filter (fun a => candidate_rank preferred a = r) l.
Proof.
  cbn zeta. split; [apply sort_by_perm|]. split.
  - eapply StronglySorted_weaken; [|apply (sort_by_sorted _ (fun a => [candidate_rank preferred a])), candidate_less_key].
    intros a b. unfold not_after. rewrite candidate_less_key. cbn. destruct (Z.ltb_spec (candidate_rank preferred b) (candidate_rank preferred a)); [done|lia].
  - intros r. pose proof (sort_by_stable _ _ (candidate_less_key preferred) [r] l) as H.
    assert (forall k : list candidate, filter (fun a => candidate_rank preferred a = r) k = filter (fun a => [candidate_rank preferred a] = [r]) k) as Hf.
    { intros k. apply list_filter_iff. intros x. split; congruence. }
    by rewrite !Hf.
Qed.

(** The candidates fail one after the other. *)
Inductive refused : list candidate -> Conn -> list (candidate * ConnectionError) -> Conn -> Prop :=
  | refused_none c : refused [] c [] c
  | refused_next a l c e c1 errors c2 :
      threadEstablishConn a.1 a.2 c = (Err (Failed e), c1) -> refused l c1 errors c2 ->
      refused (a :: l) c ((a, e) :: errors) c2.

Lemma try_candidates_run l errors c :
  match try_candidates l errors c with
  | (Ok None, c') =>
      exists before a after errs c1 c2, l = before ++ a :: after /\ refused before c errs c1 /\
        threadEstablishConn a.1 a.2 c1 = (Ok tt, c2) /\
        c_socket c' = c_socket c2 /\ d_address (c_data c') = Some a.1 /\ d_connType (c_data c') = a.2
  | (Ok (Some errors'), c') => exists errs, errors' = errors ++ errs /\ refused l c errs c' /\ errs.*1 = l
  | (Err x, _) => forall e, x <> Failed e
  | _ => True
  end.
Proof.
  revert errors c. induction l as [|[addr type] l IH]; intros errors c; cbn [try_candidates].
  { exists []. rewrite app_nil_r. split; [done|]. split; [constructor|done]. }
  unfold mbind, ST_bind, attempt_call. destruct (threadEstablishConn addr type c) as [[[]|[e| |]|f] c1] eqn:Ex; try done.
  - exists [], (addr, type), l, [], c, c1. split_and!; try done. constructor.
  - specialize (IH (errors ++ [((addr, type), e)]) c1). destruct (try_candidates l _ c1) as [[[errs'|]|x|f] c']; try done.
    + destruct IH as (errs & -> & Hr & Hl). exists ((addr, type, e) :: errs). rewrite <- app_assoc. split; [done|].
      split; [by econstructor|cbn; by rewrite Hl].
    + destruct IH as (before & a & after & errs & c2 & c3 & -> & Hr & H). exists ((addr, type) :: before), a, after, ((addr, type, e) :: errs), c2, c3.
      split; [done|]. split; [by econstructor|done].
Qed.

(** C31. The candidates are tried one after the other, those of the preferred type
    first, then TCP, QUIC, UDP and WebSocket, and those of one type in their
    order: the first that connects is the connection, and when none does the
    error lists the error of each. *)
Theorem candidates_in_order addrs c :
  let connecting := setState Connecting c in
  let preferred := s_preferredConnType (c_settings connecting) in
  exists order,
    order ≡ₚ addrs /\ StronglySorted (fun a b => candidate_rank preferred a <= candidate_rank preferred b) order /\
    (forall r, filter (fun a => candidate_rank preferred a = r) order = filter (fun a => candidate_rank preferred a = r) addrs) /\
    match threadFinalConnect addrs c with
    | (Ok _, c') =>
        exists before a after errors c1 c2, order = before ++ a :: after /\ refused before connecting errors c1 /\
          threadEstablishConn a.1 a.2 c1 = (Ok tt, c2) /\
          c_socket c' = c_socket c2 /\ d_address (c_data c') = Some a.1 /\ d_connType (c_data c') = a.2
    | (Err (Failed e), c') =>
        exists errors, e = CE_AllAddressesFailed errors /\ refused order connecting errors c' /\ errors.*1 = order
    | _ => True
    end.
Proof.
  cbn zeta. exists (sort_by (candidate_less (s_preferredConnType (c_settings (setState Connecting c)))) addrs).
  destruct (candidates_sorted (s_preferredConnType (c_settings (setState Connecting c))) addrs) as (H1 & H2 & H3).
  do 3 (split; [done|]). unfold threadFinalConnect, mbind, ST_bind, lift, modify, get, qn_assert.
  destruct (negb (bool_decide (addrs = []))); [|done]. 
  match goal with |- context [forallb ?f addrs] => destruct (forallb f addrs); [|done] end.
  pose proof (try_candidates_run (sort_by (candidate_less (s_preferredConnType (c_settings (setState Connecting c)))) addrs) []
    (setState Connecting c)) as Hrun.
  destruct (try_candidates _ _ _) as [[[errs|]|[]|f] c']; try done.
  - cbn. case_bool_decide; [done|]. cbn. destruct Hrun as (errs' & -> & Hr & Hl). by exists errs'.
  - by destruct (Hrun e).
Qed.

Context {AW : AddressLaws AL}.

(** The order in which addresses with one port are tried does not depend on
    the order in which the resolver answers: the sort is deterministic, though
    the one of the source is not stable. *)
Theorem sortAddresses_canonical addrs addrs' port prefer :
  addrs ≡ₚ addrs' -> Forall (fun a => addr_port a = port) addrs ->
  sortAddresses addrs prefer = sortAddresses addrs' prefer.
Proof.
  intros Hp Hport. apply (sort_by_unique _ (address_key prefer)); [apply address_less_key| |done].
  intros a b Ha Hb. rewrite Forall_forall in Hport. unfold address_key. intros [= H1 H2].
  assert (addr_isV6 a = addr_isV6 b) as Hv.
  { destruct (addr_isV6 a), (addr_isV6 b), prefer; done. }
  apply address_ext; [done|intros Ha4|intros Ha6|by rewrite !Hport].
  - rewrite <- Hv, Ha4 in H2. by injection H2.
  - by rewrite <- Hv, Ha6 in H2.
Qed.
End Order.

(** ** Examples *)
Definition v4 (bits : Z) : simple_address := {| sa_ip := inl bits; sa_port := 4340 |}.
Definition v6 (octet : Z) : simple_address := {| sa_ip := inr (replicate 15 0 ++ [octet]); sa_port := 4340 |}.

Lemma sortAddresses_canonical_witness :
  sortAddresses (AL := simple_addresses) [v4 7; v6 1; v4 3] true = sortAddresses (AL := simple_addresses) [v4 3; v4 7; v6 1] true.
Proof.
  apply (sortAddresses_canonical (AL := simple_addresses) _ _ 4340).
  - apply (Permutation_app_comm [v4 7; v6 1] [v4 3]).
  - by repeat constructor.
Defined.

Example sorted_addresses : sortAddresses (AL := simple_addresses) [v4 7; v6 1; v4 3] true = [v6 1; v4 3; v4 7].
Proof. reflexivity. Qed.

(** QUIC is not compiled in and UDP fails: TCP, which answers, is used although
    UDP is preferred. *)
Definition udp_preferred : Conn (E := small_env) :=
  set_settings (setPreferProtocol Udp (default_settings (T := nano_time)))
    (new_Connection (E := small_env) {| sw_connects := [Some (TE_Custom ConnectionTimedOut)]; sw_incoming := []; sw_pongs := [] |} silence).

Example tcp_after_udp :
  let '(res, c) := threadFinalConnect (E := small_env) [(v4 3, WebSocket); (v4 3, Quic); (v4 3, Tcp); (v4 3, Udp)] udp_preferred in
  is_ok res && bool_decide (d_connType (c_data c) = Tcp) && bool_decide (c_state c = Connecting) = true.
Proof. vm_compute. reflexivity. Qed.

Example all_fail :
  match (threadFinalConnect (E := small_env) [(v4 3, Quic); (v4 3, Udp)] udp_preferred).1 with
  | Err (Failed e) => ConnectionError_eqb e (CE_AllAddressesFailed
      [(v4 3, Udp, CE_Transport (TE_Custom ConnectionTimedOut)); (v4 3, Quic, CE_Code CodeConnectionTypeDisabled)])
  | _ => false
  end = true.
Proof. vm_compute. reflexivity. Qed.
