(* ===== verification/ConnectionFifo.v ===== *)
(** * Connections: the order of what is sent

    What the application sends while it is connected waits in a channel; the worker
    hands it to the socket.  Messages are dropped when the connection is lost, or
    when it was just made; otherwise they go to the socket in the order in which
    they were accepted, each once. *)
From S2P Require Import Prelude Messages Time Errors Effects Transport Address Url Socket Sorting Cache Resolver Pinger ConnError Connection ConnectionInv ConnectionSafe.

Open Scope Z_scope.

Section Fifo.
Context {T : TimeLib} {AL : AddressLib} {E : ConnectionEnv}.
Abbreviation M := (STE stop Conn).

(** The messages handed to the socket, and those that wait for it. *)
Definition handed (c : Conn) : list OutgoingMessage := c_sent c ++ c_msgChan c.

(** ** What happens to messages
    A predicate of the state, the channel and the two lists: a message is accepted
    or handed over, the connection is left, and what waited may be dropped then. *)
Record tracks (P : Conn -> Prop) : Prop := {
  tk_same c c' :
    c_state c' = c_state c -> c_msgChan c' = c_msgChan c -> c_sent c' = c_sent c -> c_accepted c' = c_accepted c -> P c -> P c';
  tk_accept m c :
    len (c_msgChan c) < 512 -> P c -> P (set_accepted (c_accepted c ++ [m]) (set_msgChan (c_msgChan c ++ [m]) c));
  tk_hand m chan c : c_msgChan c = m :: chan -> P c -> P (set_sent (c_sent c ++ [m]) (set_msgChan chan c));
  tk_leave s c : s <> Connected -> P c -> P (set_state s c);
  tk_drop s c : s <> Connected -> P c -> P (set_state s (drain c));
}.

Section Steps.
Context (P : Conn -> Prop) (HP : tracks P).
Ltac same := match goal with H : P ?c |- _ => by apply (tk_same P HP c) end.

Lemma apply_op_tracks op c : P c -> P (apply_op op c).
Proof.
  intros H. destruct op as [url| |m]; cbn.
  - unfold connect. repeat case_match; try done. same.
  - unfold disconnect. cbn. destruct (c_listening c); same.
  - unfold sendMsgToThread. destruct (negb _); [done|]. unfold trySend. destruct (Z.ltb_spec (len (c_msgChan c)) 512); [|done].
    by apply (tk_accept P HP).
Qed.

Lemma apply_ops_tracks ops c : P c -> P (foldl (fun c op => apply_op op c) c ops).
Proof. revert c. induction ops as [|op ops IH]; intros c H; cbn; [done|]. by apply IH, apply_op_tracks. Qed.

Lemma call_tracks what ops c : P c -> P (call what ops c).
Proof. intros H. unfold call. apply apply_ops_tracks. same. Qed.

Lemma setState_tracks s c : P (set_state s c) -> P (setState s c).
Proof.
  intros H. unfold setState. case_bool_decide; [done|].
  assert (P (match cb_connState (c_callbacks (set_state s c)) with
             | Some cb => call (CallState s) (cb s) (set_state s c) | None => set_state s c end)) as H1
    by (destruct (cb_connState _); [by apply call_tracks|done]).
  case_bool_decide; [same|done].
Qed.

Lemma onFatalError_tracks err c : P c -> P (onFatalError err c).
Proof.
  intros H. assert (P (set_lastError err c)) as H1 by same. unfold onFatalError. destruct (_ && _); apply setState_tracks.
  - by apply (tk_drop P HP).
  - apply (tk_leave P HP); [done|same].
Qed.

Lemma onConnectionError_tracks err c : P c -> P (onConnectionError err c).
Proof. intros H. unfold onConnectionError. destruct (isFatalError _ _); [by apply onFatalError_tracks|same]. Qed.

Lemma apply_user_tracks op c : P c -> P (apply_user op c).
Proof.
  intros H. destruct op; cbn; try same.
  - by apply apply_op_tracks.
  - unfold updateLatency. destruct (c_socket c); [same|done].
  - by apply onFatalError_tracks.
Qed.

Lemma apply_users_tracks ops c : P c -> P (foldl (fun c op => apply_user op c) c ops).
Proof. revert c. induction ops as [|op ops IH]; intros c H; cbn; [done|]. by apply IH, apply_user_tracks. Qed.

Lemma await_tracks : preserves P await.
Proof.
  intros c H. unfold await.
  assert (forall script, P (listen (set_script script c))) as Hl by (intros script; unfold listen; cbn; destruct (c_listening c); same).
  destruct (c_listening c) as [| |[|]]; try done; (destruct (c_script c) as [|[ops ev] script]; [done|]);
    pose proof (apply_users_tracks ops _ (Hl script)); (destruct (c_cancelled _); [done|]);
    destruct (c_listening _) as [| |[|]]; try done; by destruct ev.
Qed.

Lemma in_world_tracks {A} (f : world -> A * world) : preserves P (in_world f).
Proof. apply preserves_state. intros c H. destruct (f (c_world c)). same. Qed.
Lemma attempt_world_tracks {A} (m : ST world A) : preserves P (attempt_world m).
Proof. intros c H. unfold attempt_world. destruct (m (c_world c)) as [[] w]; cbn; same. Qed.
Lemma attempt_socket_tracks {A} (m : ST (socket * world) A) : preserves P (attempt_socket m).
Proof. intros c H. unfold attempt_socket. destruct (c_socket c) as [s|]; [|done]. destruct (m (s, c_world c)) as [[] [s' w]]; cbn; same. Qed.
Lemma with_context_tracks get_context store f :
  (forall x c, P c -> P (store x c)) -> preserves P (with_context get_context store f).
Proof.
  intros Hs c H. unfold with_context. destruct (get_context c); [|done]. destruct (f _ _) as [[ok ctx] w]. apply Hs. same.
Qed.
Lemma attempt_call_tracks {A} (m : M A) : preserves P m -> preserves P (attempt_call m).
Proof. intros Hm c H. specialize (Hm c H). unfold attempt_call. by destruct (m c) as [[a|[e| |]|f] c']. Qed.
Lemma select_tracks {A} (m : M A) k d :
  preserves P m -> (forall res, preserves P (k res)) -> preserves P d -> preserves P (select_disconnect m k d).
Proof.
  intros Hm Hk Hd c H. assert (P (set_listening NotYet c)) as H0 by same. specialize (Hm _ H0). unfold select_disconnect.
  destruct (m (set_listening NotYet c)) as [res c']. cbn in Hm. assert (P (set_listening NotListening c')) as H1 by same.
  destruct res as [a|[e| |]|f]; try done; first [by apply Hk|by apply Hd].
Qed.
End Steps.
#[local] Hint Resolve await_tracks in_world_tracks attempt_world_tracks attempt_socket_tracks attempt_call_tracks select_tracks : preserves.

(** ** In the order in which they were accepted *)
Definition in_order (c : Conn) : Prop := handed c `sublist_of` c_accepted c /\ len (c_msgChan c) <= 512.

Lemma in_order_drain c : in_order c -> in_order (drain c).
Proof.
  intros [H _]. split; [|by cbn]. unfold handed in *. cbn. rewrite app_nil_r. etransitivity; [|exact H]. by apply sublist_inserts_r.
Qed.

Lemma in_order_tracks : tracks in_order.
Proof.
  split; unfold in_order, handed.
  - by intros c c' _ -> -> ->.
  - intros m c Hl [H _]. cbn. rewrite app_assoc, length_app. split; [by apply sublist_app|]. cbn [length]. lia.
  - intros m chan c Hc [H Hl]. rewrite Hc in *. cbn. rewrite <- app_assoc. split; [done|]. cbn [length] in Hl. lia.
  - done.
  - intros s c _ H. by apply (in_order_drain c).
Qed.
#[local] Hint Resolve in_order_tracks in_order_drain : preserves.

Lemma setState_in_order s c : in_order c -> in_order (setState s c).
Proof. intros H. by apply setState_tracks; [apply in_order_tracks|]. Qed.
Lemma onFatalError_in_order err c : in_order c -> in_order (onFatalError err c).
Proof. apply onFatalError_tracks, in_order_tracks. Qed.
Lemma onConnectionError_in_order err c : in_order c -> in_order (onConnectionError err c).
Proof. apply onConnectionError_tracks, in_order_tracks. Qed.
Lemma call_in_order what ops c : in_order c -> in_order (call what ops c).
Proof. apply call_tracks, in_order_tracks. Qed.
#[local] Hint Resolve setState_in_order onFatalError_in_order onConnectionError_in_order call_in_order : preserves.

(** ** The worker *)
Ltac order := preserves_auto; try done; eauto with preserves.

Lemma unwrap_or_fail_in_order {A} (m : M (result ConnectionError A)) : preserves in_order m -> preserves in_order (unwrap_or_fail m).
Proof. intros Hm. unfold unwrap_or_fail. order. Qed.
Lemma call_socket_in_order {A} (m : ST (socket * world) A) : preserves in_order (call_socket m).
Proof. unfold call_socket. order. Qed.
#[local] Hint Resolve unwrap_or_fail_in_order call_socket_in_order : preserves.

Lemma initTlsContext_in_order type : preserves in_order (initTlsContext type).
Proof.
  assert (forall get f, preserves in_order (with_context get setTlsContext f)) by (intros; by apply with_context_tracks; [apply in_order_tracks|]).
  assert (forall get f, preserves in_order (with_context get setQuicTlsContext f)) by (intros; by apply with_context_tracks; [apply in_order_tracks|]).
  unfold initTlsContext. order.
Qed.
Lemma threadConnectSocket_in_order addr type reconnect : preserves in_order (threadConnectSocket addr type reconnect).
Proof. unfold threadConnectSocket, makeOptions. order. all: apply unwrap_or_fail_in_order; order. Qed.
#[local] Hint Resolve initTlsContext_in_order threadConnectSocket_in_order : preserves.

Lemma threadEstablishConn_in_order addr type : preserves in_order (threadEstablishConn addr type).
Proof. unfold threadEstablishConn, fail. order. Qed.
#[local] Hint Resolve threadEstablishConn_in_order : preserves.

Lemma try_candidates_in_order l errors : preserves in_order (try_candidates l errors).
Proof. revert errors. induction l as [|[addr type] l IH]; intros errors; cbn [try_candidates]; order. Qed.
#[local] Hint Resolve try_candidates_in_order : preserves.

Lemma threadFinalConnect_in_order addrs : preserves in_order (threadFinalConnect addrs).
Proof. unfold threadFinalConnect. order. Qed.
#[local] Hint Resolve threadFinalConnect_in_order : preserves.

Lemma send_pings_in_order i addrs p : preserves in_order (send_pings i addrs p).
Proof. revert i p. induction addrs as [|a addrs IH]; intros i p; cbn [send_pings]; order. Qed.
Lemma ping_loop_in_order fuel addrs t0 p : preserves in_order (ping_loop fuel addrs t0 p).
Proof. revert p. induction fuel as [|fuel IH]; intros p; cbn [ping_loop]; order. Qed.
#[local] Hint Resolve send_pings_in_order ping_loop_in_order : preserves.

Lemma threadPingCandidates_in_order addrs : preserves in_order (threadPingCandidates addrs).
Proof. unfold threadPingCandidates. order. Qed.
#[local] Hint Resolve threadPingCandidates_in_order : preserves.
Lemma threadConnectWithIps_in_order addrs type prefer : preserves in_order (threadConnectWithIps addrs type prefer).
Proof. unfold threadConnectWithIps, fail. order. Qed.
#[local] Hint Resolve threadConnectWithIps_in_order : preserves.
Lemma fetchIps_in_order hostname port v4 v6 : preserves in_order (fetchIps hostname port v4 v6).
Proof. unfold fetchIps. order. Qed.
#[local] Hint Resolve fetchIps_in_order : preserves.
Lemma threadConnectDomain_in_order hostname port type : preserves in_order (threadConnectDomain hostname port type).
Proof. unfold threadConnectDomain, fail. order. Qed.
Lemma threadConnectIp_in_order addr type : preserves in_order (threadConnectIp addr type).
Proof. unfold threadConnectIp. order. Qed.
#[local] Hint Resolve threadConnectDomain_in_order threadConnectIp_in_order : preserves.
Lemma threadConnect_in_order url : preserves in_order (threadConnect url).
Proof. unfold threadConnect, fail. order. Qed.
Lemma threadCancelConnection_in_order : preserves in_order threadCancelConnection.
Proof. intros c H. by apply setState_in_order. Qed.
#[local] Hint Resolve threadConnect_in_order threadCancelConnection_in_order : preserves.

Lemma call_stateReset_in_order c : in_order c -> in_order (call_stateReset c).
Proof. intros H. unfold call_stateReset. destruct (cb_stateReset _); [by apply call_in_order|done]. Qed.
#[local] Hint Resolve call_stateReset_in_order : preserves.
Lemma threadTryReconnect_in_order stateless : preserves in_order (threadTryReconnect stateless).
Proof. unfold threadTryReconnect. order. Qed.
#[local] Hint Resolve threadTryReconnect_in_order : preserves.

Lemma recv_url_in_order fuel : preserves in_order (recv_url fuel).
Proof. induction fuel as [|fuel IH]; cbn [recv_url]; order. Qed.
Lemma wait_closed_in_order fuel : preserves in_order (wait_closed fuel).
Proof. induction fuel as [|fuel IH]; cbn [wait_closed]; order. Qed.
#[local] Hint Resolve recv_url_in_order wait_closed_in_order : preserves.

(** ** While the worker is connected *)
Section Connected.
Context (P : Conn -> Prop) (HP : tracks P).

Lemma call_socket_tracks {A} (m : ST (socket * world) A) : preserves P (call_socket m).
Proof using HP. unfold call_socket. order. Qed.

Lemma report_tracks {A} (res : result ConnectionError A) : preserves P (report res).
Proof using HP. destruct res; intros c H; cbn; [done|by apply onConnectionError_tracks|done]. Qed.

Lemma threadHandleIncomingMessage_tracks msg : preserves P (threadHandleIncomingMessage msg).
Proof using HP.
  intros c H. destruct msg; try done.
  - exact (onFatalError_tracks P HP _ _ H).
  - cbn. destruct (dm_data _); [done|]. cbn. destruct (cb_data _); [by apply call_tracks|done].
Qed.
#[local] Hint Resolve call_socket_tracks report_tracks threadHandleIncomingMessage_tracks : preserves.

Lemma on_event_tracks ev : preserves P (on_event ev).
Proof using HP.
  destruct ev; cbn [on_event]; try by (order; apply onConnectionError_tracks).
  intros c H. unfold mbind at 1, ST_bind, get. destruct (c_msgChan c) as [|m chan] eqn:Ec; [done|].
  assert (preserves P (res ← call_socket (env_sendMessage m); report res)) as Hs by order.
  exact (Hs _ (tk_hand P HP m chan c Ec H)).
Qed.

Lemma loop_connected_tracks : preserves P loop_connected.
Proof using HP.
  assert (preserves P (modify (setState Closing) : M unit)) as Hc by (apply preserves_modify; intros c H; apply (setState_tracks P HP); by apply (tk_leave P HP)).
  pose proof on_event_tracks. unfold loop_connected. apply preserves_bind; [order|]. intros [|]; [done|].
  apply preserves_bind; [order|]. intros [s|]; [|order]. apply select_tracks; [done|by apply await_tracks| |done].
  intros [ev|e|f]; order.
Qed.
End Connected.
#[local] Hint Resolve loop_connected_tracks : preserves.

Lemma loop_connected_in_order : preserves in_order loop_connected.
Proof. apply loop_connected_tracks, in_order_tracks. Qed.
Lemma loop_disconnected_in_order : preserves in_order loop_disconnected.
Proof. unfold loop_disconnected. order. apply (select_tracks _ in_order_tracks); order. intros res. order. by apply (setState_in_order Connected). Qed.
Lemma loop_reconnecting_in_order : preserves in_order loop_reconnecting.
Proof. unfold loop_reconnecting. order. all: apply (select_tracks _ in_order_tracks); unfold reconnectFut; order; intros res; order. Qed.
Lemma loop_closing_in_order : preserves in_order loop_closing.
Proof. unfold loop_closing. order. Qed.
#[local] Hint Resolve loop_connected_in_order loop_disconnected_in_order loop_reconnecting_in_order loop_closing_in_order : preserves.

Lemma workerThreadLoop_in_order : preserves in_order workerThreadLoop.
Proof. unfold workerThreadLoop. order. Qed.
#[local] Hint Resolve workerThreadLoop_in_order : preserves.
Lemma worker_in_order n : preserves in_order (worker n).
Proof. induction n as [|n IH]; cbn [worker]; order. Qed.

(** Nothing was dropped since [c0], unless the connection was left. *)
Definition kept (c0 c : Conn) : Prop :=
  c_state c = Connected -> exists new, c_accepted c = c_accepted c0 ++ new /\ handed c = handed c0 ++ new.

Lemma kept_tracks c0 : tracks (kept c0).
Proof.
  split; unfold kept, handed.
  - by intros c c' -> -> -> ->.
  - intros m c _ H Hs. destruct (H Hs) as (new & H1 & H2). exists (new ++ [m]). cbn. by rewrite H1, !app_assoc, H2.
  - intros m chan c Hc H Hs. destruct (H Hs) as (new & H1 & H2). exists new. split; [done|]. rewrite <- H2, Hc. cbn. by rewrite <- app_assoc.
  - done.
  - done.
Qed.

(** C27. Whatever the application does and the network brings, the messages that
    were handed to the socket, and after them those that wait in the channel, are
    a subsequence of those that were accepted, in that order; the channel never
    holds more than 512.  A turn of the worker that begins and ends connected
    drops nothing: what is accepted in it follows what was handed over or waited. *)
Theorem messages_in_order n cbs w script :
  let c := (worker n (set_callbacks cbs (new_Connection w script))).2 in
  handed c `sublist_of` c_accepted c /\ len (c_msgChan c) <= 512 /\
  (c_state c = Connected ->
   let c' := (workerThreadLoop c).2 in
   c_state c' = Connected -> exists new, c_accepted c' = c_accepted c ++ new /\ handed c' = handed c ++ new).
Proof.
  cbn zeta. assert (in_order (set_callbacks cbs (new_Connection w script))) as H0 by (split; [done|by cbn]).
  destruct (worker_in_order n _ H0) as [H1 H2]. split; [done|]. split; [done|]. intros Hs Hs'.
  revert Hs'. unfold workerThreadLoop at 1 2 3, mbind, ST_bind, get. rewrite Hs.
  apply (loop_connected_tracks _ (kept_tracks _)). intros _. exists []. by rewrite !app_nil_r.
Qed.
End Fifo.

(** ** Two messages, a loss, and a third one
    The first is handed over; the second waits when the connection is lost, and is
    dropped; the third is sent over the next connection. *)
Definition numbered (i : Z) : OutgoingMessage :=
  {| om_message := MData {| dm_data := [i]; dm_compHeader := None; dm_relHeader := None |}; om_reliable := true;
     om_uncompressed := false; om_tag := [] |}.
Definition send (i : Z) : UserOp (E := small_env) := UserCall (OpSend (numbered i)).
Definition numbers (l : list OutgoingMessage) : list Z :=
  omap (fun m => match om_message m with MData d => head (dm_data d) | _ => None end) l.
Definition three_messages : list (list (UserOp (E := small_env)) * Event) :=
  [([UserCall (OpConnect address_url)], EvWake); ([], EvWake); ([send 1], EvSend); ([], EvWake); ([send 2], EvReceive);
   ([], EvWake); ([send 3], EvSend); ([], EvWake)].

Example third_after_first :
  let '(res, c) := watched 5 (lost_world []) (three_messages ++ silence) in
  is_ok res && bool_decide (c_state c = Connected) && bool_decide (numbers (c_accepted c) = [1; 2; 3]) &&
  bool_decide (numbers (c_sent c) = [1; 3]) = true.
Proof. vm_compute. reflexivity. Qed.

(** A turn in which two messages are accepted and one is handed over. *)
Abbreviation sending_run := (watched 1 {| sw_connects := []; sw_incoming := []; sw_pongs := [] |}
  ([([UserCall (OpConnect address_url)], EvWake); ([], EvWake); ([send 1; send 2], EvSend); ([], EvWake)] ++ silence)).

Lemma sending_states :
  bool_decide (c_state sending_run.2 = Connected) && bool_decide (c_state (workerThreadLoop sending_run.2).2 = Connected) &&
  bool_decide (numbers (handed (workerThreadLoop sending_run.2).2) = [1; 2]) &&
  bool_decide (numbers (c_sent (workerThreadLoop sending_run.2).2) = [1]) = true.
Proof. vm_compute. reflexivity. Qed.

Lemma messages_in_order_witness :
  handed sending_run.2 `sublist_of` c_accepted sending_run.2 /\
  exists new, c_accepted (workerThreadLoop sending_run.2).2 = c_accepted sending_run.2 ++ new /\
              handed (workerThreadLoop sending_run.2).2 = handed sending_run.2 ++ new.
Proof.
  pose proof sending_states as [[[H1%bool_decide_eq_true H2%bool_decide_eq_true]%andb_true_iff _]%andb_true_iff _]%andb_true_iff.
  destruct (messages_in_order (E := small_env) 1 watching {| sw_connects := []; sw_incoming := []; sw_pongs := [] |}
    ([([UserCall (OpConnect address_url)], EvWake); ([], EvWake); ([send 1; send 2], EvSend); ([], EvWake)] ++ silence)) as (Hs & _ & H).
  split; [exact Hs|]. exact (H H1 H2).
Defined.
