(* ===== verification/ConnectionEx.v ===== *)
(** * Connections: runs

    What the worker does where the model showed that it does not do what it
    means to, in the environment of [ConnectionSafe]. *)
From S2P Require Import Prelude Messages Time Errors Effects Transport Address Url Socket Pinger ConnError Sorting Connection ConnectionInv ConnectionSafe.

Definition calm_world : small_world := {| sw_connects := []; sw_incoming := []; sw_pongs := [] |}.
Abbreviation run n cbs w script := (worker (E := small_env) n (set_callbacks (E := small_env) cbs (new_Connection (E := small_env) w script))).
Definition op (o : Op) : UserOp (E := small_env) := UserCall o.

(** A [disconnect] between the [connect] and the moment at which the worker takes
    its URL is forgotten: the connection is made. *)
Example disconnect_forgotten :
  let '(res, c) := run 1 watching calm_world (([op (OpConnect address_url); op OpDisconnect], EvWake) :: silence) in
  is_ok res && bool_decide (c_state c = Connected) && negb (c_disconnectReq c) = true.
Proof. vm_compute. reflexivity. Qed.

(** Two calls of [connect] are accepted; the second URL is kept, and when the
    application disconnects from the first server the worker connects to the
    second. *)
Example second_connect_kept :
  let '(res, c) := run 4 watching calm_world
    (([op (OpConnect address_url); op (OpConnect address_url)], EvWake) :: ([], EvWake) :: ([op OpDisconnect], EvDisconnect) :: silence) in
  is_ok res && bool_decide (states_of (c_calls c) = [Connecting; Connected; Closing; Disconnected; Connecting; Connected]) = true.
Proof. vm_compute. reflexivity. Qed.

(** A message sent from the callback of [Connected] is accepted, then drained. *)
Definition a_message : OutgoingMessage :=
  {| om_message := MData {| dm_data := [1]; dm_compHeader := None; dm_relHeader := None |}; om_reliable := true;
     om_uncompressed := false; om_tag := [] |}.
Definition greeting : ConnectionCallbacks (AL := simple_addresses) :=
  {| cb_connState := Some (fun s => if bool_decide (s = Connected) then [OpSend a_message] else []); cb_data := None;
     cb_stateReset := None; cb_shouldReconnect := None |}.

Example greeting_lost :
  let '(res, c) := run 4 greeting calm_world (([op (OpConnect address_url)], EvWake) :: ([], EvWake) :: replicate 8 ([], EvSend)) in
  is_ok res && bool_decide (c_state c = Connected) && bool_decide (length (c_sent c) = 0%nat) = true.
Proof. vm_compute. reflexivity. Qed.

(** A message sent later is handed to the socket. *)
Example message_sent :
  let '(res, c) := run 2 watching calm_world
    (([op (OpConnect address_url)], EvWake) :: ([], EvWake) :: ([op (OpSend a_message)], EvSend) :: silence) in
  is_ok res && bool_decide (length (c_sent c) = 1%nat) = true.
Proof. vm_compute. reflexivity. Qed.

(** A drop that is simulated while the worker reconnects takes away the socket
    that the reconnection uses. *)
Example simulated_drop_faults :
  (run 4 watching (lost_world again) (lost_script ++ ([op OpDisconnect; SimulateConnectionDrop], EvWake) :: silence)).1
  = Fault NullDereference.
Proof. vm_compute. reflexivity. Qed.

(** One that is simulated while the worker connects does not stop it: the
    application is told [Disconnected] and then [Connected], which is no edge of the
    graph. *)
Example simulated_drop_leaves_graph :
  let '(res, c) := run 1 watching calm_world (([op (OpConnect address_url)], EvWake) :: ([SimulateConnectionDrop], EvWake) :: silence) in
  is_ok res && bool_decide (states_of (c_calls c) = [Connecting; Disconnected; Connected]) && negb (edge Disconnected Connected) = true.
Proof. vm_compute. reflexivity. Qed.

(** A server that answers a ping and announces only protocols that the client
    does not know makes the worker fail its assertion. *)
Definition unknown_env : ConnectionEnv (T := nano_time) (AL := simple_addresses) :=
  small_env_with [{| sp_protocolId := 99; sp_port := 4340 |}].

Example unknown_protocols_fault :
  (worker (E := unknown_env) 1 (set_callbacks (E := unknown_env) watching
    (new_Connection (E := unknown_env) {| sw_connects := []; sw_incoming := []; sw_pongs := [(0%nat, 5)] |}
      (([UserCall (OpConnect (str "qunet://127.0.0.1"))], EvWake) :: replicate 16 ([], EvWake))))).1 = Fault AssertionFailed.
Proof. vm_compute. reflexivity. Qed.

(** The same with protocols that it knows: the preferred TCP at the announced
    port. *)
Example known_protocols :
  let '(res, c) := run 1 watching {| sw_connects := []; sw_incoming := []; sw_pongs := [(0%nat, 5)] |}
      (([op (OpConnect (str "qunet://127.0.0.1"))], EvWake) :: silence) in
  is_ok res && bool_decide (states_of (c_calls c) = [Pinging; Connecting; Connected]) &&
  bool_decide (d_connType (c_data c) = Tcp) && (default 0 (addr_port <$> d_address (c_data c)) =? 4341) = true.
Proof. vm_compute. reflexivity. Qed.

Section Connected.
Context {T : TimeLib} {AL : AddressLib} {E : ConnectionEnv}.

(** A context that could not be initialised is stored all the same, and taken
    for an initialised one the next time. *)
Lemma failed_context_reused c c1 :
  c_tcpTlsContext c = None -> is_Some (env_createContext Client (c_world c)).1 ->
  initTlsContext WebSocketTls c = (Ok false, c1) -> initTlsContext WebSocketTls c1 = (Ok true, c1).
Proof.
  intros Hn [ctx Hctx]. unfold initTlsContext, in_world, mbind, ST_bind, get, state, modify, with_context. rewrite Hn.
  destruct (env_createContext Client (c_world c)) as [o w]. cbn in *. subst o. cbn.
  destruct (env_loadSystemCACerts ctx w) as [[ok ctx'] w']. intros [= -> <-]. done.
Qed.

(** ** [connectWait]
    A URL that is not valid does not change the state, so that the callback is
    never called: nothing wakes the caller. *)
Lemma await_idle n c :
  c_script c = replicate (S n) ([], EvWake) -> c_listening c = NotListening -> c_cancelled c = false ->
  await c = (Ok EvWake, set_script (replicate n ([], EvWake)) c).
Proof.
  intros Hs Hl Hx. unfold await. rewrite Hl, Hs. cbn. unfold listen. cbn. rewrite Hl. cbn. by rewrite Hx, Hl.
Qed.

Lemma recv_url_waits n fuel c :
  c_script c = replicate n ([], EvWake) -> c_connectChan c = [] -> c_listening c = NotListening -> c_cancelled c = false ->
  (n < fuel)%nat -> (recv_url fuel c).1 = Fault WouldBlock.
Proof.
  revert n c. induction fuel as [|fuel IH]; intros n c Hs Hc Hl Hx Hn; [lia|]. cbn [recv_url].
  unfold mbind at 1, ST_bind, get. rewrite Hc. destruct n as [|n].
  - unfold mbind, ST_bind, await. by rewrite Hl, Hs.
  - unfold mbind, ST_bind. rewrite (await_idle n) by done. apply (IH n); [done..|lia].
Qed.

Definition invalid_url (url : list Z) : Prop :=
  exists p, UrlParser_parse (E := stop) env_isIpv6 env_parse url = Ok p /\ up_result p <> Success.

Lemma connect_invalid_url url c : invalid_url url -> exists e, threadConnect url c = (Err (Failed e), c).
Proof.
  intros (p & Hp & Hr). unfold threadConnect, lift, mbind, ST_bind. rewrite Hp. destruct (up_result p); [done|by eexists..].
Qed.

(** An idle worker. *)
Record waiting (n : nat) (chan : list (list Z)) (c : Conn) : Prop := {
  wt_state : c_state c = Disconnected;
  wt_chan : c_connectChan c = chan;
  wt_listening : c_listening c = NotListening;
  wt_alive : c_cancelled c = false;
  wt_script : c_script c = replicate n ([], EvWake);
}.

Lemma invalid_turn n url c :
  waiting n [url] c -> invalid_url url ->
  exists c', workerThreadLoop c = (Ok tt, c') /\ waiting n [] c' /\ c_calls c' = c_calls c.
Proof.
  intros [H1 H2 H3 H4 H5] Hurl. unfold workerThreadLoop, loop_disconnected, mbind, ST_bind, get. rewrite H1.
  cbn [recv_url wait_fuel]. unfold mbind, ST_bind, get, modify. rewrite H2. cbn. unfold select_disconnect.
  destruct (connect_invalid_url url (set_listening NotYet (set_connectChan [] c)) Hurl) as [e ->]. unfold onFatalError. cbn.
  rewrite H1. cbn. unfold setState. cbn. rewrite H1. cbn. eexists. split; [reflexivity|]. by repeat split.
Qed.

Lemma idle_turn n c : waiting n [] c -> (workerThreadLoop c).1 = Fault WouldBlock.
Proof.
  intros [H1 H2 H3 H4 H5]. unfold workerThreadLoop, loop_disconnected, mbind, ST_bind, get. rewrite H1. unfold wait_fuel. rewrite H5, length_replicate.
  pose proof (recv_url_waits n (S n) c H5 H2 H3 H4 ltac:(lia)) as H. by destruct (recv_url _ c) as [[]]; simplify_eq/=.
Qed.

(** C40. [connectWait] with a URL that is not valid never returns, however long
    the worker runs: the state does not change, and the error is never reported. *)
Theorem connectWait_hangs n k url c :
  waiting k [] c -> invalid_url url -> (connectWait n url c).1 = Fault WouldBlock.
Proof.
  intros [H1 H2 H3 H4 H5] Hurl. unfold connectWait, mbind, ST_bind, modify, get, id, connect, connected, disconnected. cbn.
  rewrite H1, H2, bool_decide_false, bool_decide_true by done.
  change (trySend 2 url []) with (Some [url]). cbn. match goal with |- context [worker_until n _ ?c0] => set (c1 := c0) end.
  assert (waiting k [url] c1) as Hw by (by split).
  assert (drop (length (c_calls c)) (c_calls c1) = []) as Hd by (by apply drop_ge).
  clearbody c1. destruct n as [|n]; cbn [worker_until]; unfold mbind, ST_bind, get; [by rewrite Hd|]. rewrite Hd. cbn.
  destruct (invalid_turn k url c1 Hw Hurl) as (c2 & -> & Hw2 & Hc2).
  destruct n as [|n]; cbn [worker_until]; unfold mbind, ST_bind, get; rewrite Hc2, Hd; [done|]. cbn.
  pose proof (idle_turn k c2 Hw2) as Hidle. by destruct (workerThreadLoop c2) as [[]]; simplify_eq/=.
Qed.
End Connected.

Lemma connectWait_hangs_witness :
  (connectWait (E := small_env) 9 (str "http://host") (new_Connection (E := small_env) calm_world silence)).1 = Fault WouldBlock.
Proof.
  apply (connectWait_hangs (E := small_env) 9 16); [by split|]. eexists. split; [reflexivity|discriminate].
Defined.
