(* ===== verification/Buffers.v ===== *)
(** * SlidingBuffer and TwoSpanSource

    [include/qunet/util/SlidingBuffer.hpp]: a buffer with a read and a write
    position, which grows by doubling; [include/qunet/util/TwoSpanSource.hpp]: a
    reader over two spans.  A buffer is a queue of bytes, and the two spans are
    read as one. *)
From S2P Require Import Prelude.

(** ** SlidingBuffer *)
Record SlidingBuffer := {
  sb_data : list Z;
  sb_maxSize : Z;
  sb_writePos : Z;
  sb_readPos : Z;
}.

Definition new_SlidingBuffer (initialSize maxSize : Z) : SlidingBuffer :=
  {| sb_data := replicate (Z.to_nat initialSize) 0; sb_maxSize := maxSize; sb_writePos := 0; sb_readPos := 0 |}.

Definition canRead (b : SlidingBuffer) : Z := sb_writePos b - sb_readPos b.
Definition canWrite (b : SlidingBuffer) : Z := len (sb_data b) - sb_writePos b.
Definition canWriteMax (b : SlidingBuffer) : Z := u64 (sb_maxSize b - sb_writePos b).

(** [while (current < needed) current *= 2] *)
Fixpoint double_until (fuel : nat) (needed current : Z) : option Z :=
  if current <? needed then
    match fuel with
    | O => None
    | S fuel => double_until fuel needed (u64 (current * 2))
    end
  else Some current.

(** [resize]: what is new is zero. *)
Definition resize (n : Z) (l : list Z) : list Z := ztake n l ++ replicate (Z.to_nat (n - len l)) 0.

(** A size below 2 GiB is reached after 31 doublings of any buffer that is not
    empty. *)
Definition resizeToFit {E} (needed : Z) (b : SlidingBuffer) : result E (bool * SlidingBuffer) :=
  if 2 ^ 31 <=? needed then Ok (false, b)
  else
    match double_until 31 needed (len (sb_data b)) with
    | None => Fault OutOfFuel
    | Some current =>
        if sb_maxSize b <? current then Ok (false, b)
        else Ok (true, {| sb_data := resize current (sb_data b); sb_maxSize := sb_maxSize b;
                          sb_writePos := sb_writePos b; sb_readPos := sb_readPos b |})
    end.

(** [memcpy] into the data at a position. *)
Definition copy_at (pos : Z) (bs l : list Z) : list Z := ztake pos l ++ bs ++ zdrop (pos + len bs) l.

Definition SlidingBuffer_write {E} (bs : list Z) (b : SlidingBuffer) : result E (bool * SlidingBuffer) :=
  if len bs =? 0 then Ok (true, b)
  else
    '(ok, b) ← (if canWrite b <? len bs then resizeToFit (u64 (sb_writePos b + len bs)) b else Ok (true, b));
    if (ok : bool) then
      Ok (true, {| sb_data := copy_at (sb_writePos b) bs (sb_data b); sb_maxSize := sb_maxSize b;
                   sb_writePos := sb_writePos b + len bs; sb_readPos := sb_readPos b |})
    else Ok (false, b).

(** The bytes that are read, and the buffer. *)
Definition SlidingBuffer_read (n : Z) (b : SlidingBuffer) : list Z * SlidingBuffer :=
  let toRead := Z.min n (canRead b) in
  if toRead =? 0 then ([], b)
  else
    let out := ztake toRead (zdrop (sb_readPos b) (sb_data b)) in
    let readPos := sb_readPos b + toRead in
    let '(readPos, writePos) := if readPos =? sb_writePos b then (0, 0) else (readPos, sb_writePos b) in
    (out, {| sb_data := sb_data b; sb_maxSize := sb_maxSize b; sb_writePos := writePos; sb_readPos := readPos |}).

(** ** TwoSpanSource *)
Record TwoSpanSource := { ts_first : list Z; ts_second : list Z; ts_pos : Z }.
Definition new_TwoSpanSource (first second : list Z) : TwoSpanSource :=
  {| ts_first := first; ts_second := second; ts_pos := 0 |}.
Definition totalSize (s : TwoSpanSource) : Z := len (ts_first s) + len (ts_second s).
Definition set_pos (pos : Z) (s : TwoSpanSource) : TwoSpanSource :=
  {| ts_first := ts_first s; ts_second := ts_second s; ts_pos := pos |}.

(** The errors are texts, which nothing reads. *)
Inductive SpanError := NotEnoughData | PositionOutOfBounds.

Definition TwoSpanSource_read (size : Z) (s : TwoSpanSource) : result SpanError (list Z * TwoSpanSource) :=
  if totalSize s <? u64 (ts_pos s + size) then Err NotEnoughData
  else
    let firstSize := if ts_pos s <? len (ts_first s) then Z.min size (len (ts_first s) - ts_pos s) else 0 in
    let bs := ztake firstSize (zdrop (ts_pos s) (ts_first s)) in
    let pos := ts_pos s + firstSize in
    let size := size - firstSize in
    if 0 <? size then
      let off := pos - len (ts_first s) in
      Ok (bs ++ ztake size (zdrop off (ts_second s)), set_pos (pos + size) s)
    else Ok (bs, set_pos pos s).

Definition TwoSpanSource_skip (size : Z) (s : TwoSpanSource) : result SpanError TwoSpanSource :=
  if totalSize s <? u64 (ts_pos s + size) then Err NotEnoughData else Ok (set_pos (ts_pos s + size) s).

Definition TwoSpanSource_setPosition (pos : Z) (s : TwoSpanSource) : result SpanError TwoSpanSource :=
  if totalSize s <=? pos then Err PositionOutOfBounds else Ok (set_pos pos s).

(** ** A sliding buffer is a queue *)
Definition queued (b : SlidingBuffer) : list Z := ztake (canRead b) (zdrop (sb_readPos b) (sb_data b)).

Record sliding_ok (b : SlidingBuffer) : Prop := {
  sl_positions : 0 <= sb_readPos b <= sb_writePos b;
  sl_data : sb_writePos b <= len (sb_data b);
  sl_size : 0 < len (sb_data b) < 2 ^ 32;
}.

Lemma new_sliding_ok initialSize maxSize :
  0 < initialSize < 2 ^ 32 -> sliding_ok (new_SlidingBuffer initialSize maxSize).
Proof. intros H. split; cbn; rewrite ?length_replicate; lia. Qed.

Lemma len_queued b : sliding_ok b -> len (queued b) = canRead b.
Proof. intros []. unfold queued, canRead. rewrite len_ztake; [done|]. rewrite len_zdrop; lia. Qed.

(** The doubling reaches every size below 2 GiB. *)
Lemma double_until_ok fuel needed current :
  0 < current < 2 ^ 32 -> needed < 2 ^ 31 -> needed <= current * 2 ^ Z.of_nat fuel ->
  exists c, double_until fuel needed current = Some c /\ current <= c < 2 ^ 32 /\ needed <= c /\ (c = current \/ c < 2 * needed).
Proof.
  revert current. induction fuel as [|fuel IH]; intros current Hc Hn Hf; cbn [double_until];
    destruct (Z.ltb_spec current needed); [lia|by exists current; repeat split; (lia || auto)| |by exists current; repeat split; (lia || auto)].
  rewrite u_small by lia. destruct (IH (current * 2)) as (c & E & H1 & H2 & H3); [lia|lia|rewrite Nat2Z.inj_succ, Z.pow_succ_r in Hf; lia|].
  exists c. split; [done|]. split; [lia|]. split; [done|]. right. destruct H3; lia.
Qed.

Lemma resizeToFit_ok {E} needed b :
  sliding_ok b -> 0 <= needed ->
  match resizeToFit (E := E) needed b with
  | Ok (true, b') => sliding_ok b' /\ needed <= len (sb_data b') /\ sb_writePos b' = sb_writePos b /\
      sb_readPos b' = sb_readPos b /\ sb_maxSize b' = sb_maxSize b /\
      ztake (sb_writePos b) (sb_data b') = ztake (sb_writePos b) (sb_data b)
  | Ok (false, b') => b' = b /\ (2 ^ 31 <= needed \/ sb_maxSize b < Z.max (len (sb_data b)) (2 * needed))
  | _ => False
  end.
Proof.
  intros [] Hn. unfold resizeToFit. destruct (Z.leb_spec (2 ^ 31) needed); [by split; [|left]|].
  destruct (double_until_ok 31 needed (len (sb_data b))) as (c & -> & H1 & H2 & H3); [lia|lia|lia|].
  destruct (Z.ltb_spec (sb_maxSize b) c); [split; [done|right; lia]|].
  assert (len (resize c (sb_data b)) = c) as Hlen.
  { unfold resize. rewrite length_app, length_replicate, Nat2Z.inj_add, len_ztake_max. lia. }
  split_and!; cbn; try done.
  - split; cbn; rewrite ?Hlen; lia.
  - by rewrite Hlen.
  - unfold resize. rewrite (ztake_ge c) by lia. unfold ztake. apply take_app_le. lia.
Qed.

Lemma zdrop_ztake_app {A} (l bs : list A) r w :
  0 <= r <= w -> w <= len l -> ztake (w + len bs - r) (zdrop r (ztake w l ++ bs)) = ztake (w - r) (zdrop r l) ++ bs.
Proof.
  intros Hr Hw. unfold ztake, zdrop. rewrite drop_app_le by (rewrite length_take; lia).
  rewrite (firstn_all2 _) by (rewrite length_app, length_drop, length_take; lia). f_equal.
  rewrite skipn_firstn_comm. f_equal. lia.
Qed.

Lemma copy_at_spec pos bs l :
  0 <= pos -> pos + len bs <= len l -> len (copy_at pos bs l) = len l /\ ztake (pos + len bs) (copy_at pos bs l) = ztake pos l ++ bs.
Proof.
  intros Hp Hl. unfold copy_at. split.
  - rewrite !length_app, !Nat2Z.inj_add, len_ztake, len_zdrop by lia. lia.
  - rewrite app_assoc. unfold ztake at 1. rewrite take_app_le by (rewrite length_app; unfold ztake; rewrite length_take; lia).
    apply take_ge. rewrite length_app. unfold ztake. rewrite length_take. lia.
Qed.

(** A write appends its bytes, or changes nothing when they do not fit. *)
Lemma write_queued {E} bs b :
  sliding_ok b -> len bs < 2 ^ 62 ->
  match SlidingBuffer_write (E := E) bs b with
  | Ok (ok, b') => sliding_ok b' /\ queued b' = queued b ++ (if ok then bs else []) /\
      (ok = false -> b' = b /\ (2 ^ 31 <= sb_writePos b + len bs \/
                              sb_maxSize b < Z.max (len (sb_data b)) (2 * (sb_writePos b + len bs))))
  | _ => False
  end.
Proof.
  intros Hok Hlen. unfold SlidingBuffer_write. destruct (Z.eqb_spec (len bs) 0) as [Hz|Hz].
  { destruct bs; [|cbn in Hz; lia]. by rewrite app_nil_r. }
  assert (forall b', sliding_ok b' -> sb_writePos b' + len bs <= len (sb_data b') -> sb_writePos b' = sb_writePos b ->
    sb_readPos b' = sb_readPos b -> ztake (sb_writePos b) (sb_data b') = ztake (sb_writePos b) (sb_data b) ->
    let b2 := {| sb_data := copy_at (sb_writePos b') bs (sb_data b'); sb_maxSize := sb_maxSize b';
                 sb_writePos := sb_writePos b' + len bs; sb_readPos := sb_readPos b' |} in
    sliding_ok b2 /\ queued b2 = queued b ++ bs) as Hcopy.
  { intros b' Hok' Hfit Hw Hr Htake. destruct Hok, Hok'. rewrite Hw, Hr in *.
    destruct (copy_at_spec (sb_writePos b) bs (sb_data b')) as [L1 L2]; [lia|lia|]. split.
    - split; cbn; rewrite ?L1; lia.
    - unfold queued, canRead. cbn.
      rewrite <- (ztake_zdrop_ztake _ (sb_readPos b) (sb_writePos b + len bs) (copy_at _ _ _)) by lia.
      rewrite L2, Htake, zdrop_ztake_app by lia. done. }
  destruct (Z.ltb_spec (canWrite b) (len bs)) as [Hlt|Hlt]; unfold canWrite in Hlt; cbn.
  - destruct Hok as [Hp Hd Hs] eqn:Ehok. rewrite u_small by lia.
    pose proof (resizeToFit_ok (E := E) (sb_writePos b + len bs) b Hok ltac:(lia)) as H.
    destruct (resizeToFit _ b) as [[[|] b']|e|f]; [..|done|done]; cbn.
    + destruct H as (H1 & H2 & H3 & H4 & H5 & H6). destruct (Hcopy b') as [C1 C2]; [done|lia|done..|]. by split_and!.
    + destruct H as [-> H]. rewrite app_nil_r. by split_and!.
  - destruct (Hcopy b) as [C1 C2]; [done|lia|done..|]. by split_and!.
Qed.

(** A read takes from the front. *)
Lemma read_queued n b :
  sliding_ok b -> 0 <= n ->
  let '(out, b') := SlidingBuffer_read n b in
  sliding_ok b' /\ out = ztake n (queued b) /\ queued b' = zdrop n (queued b).
Proof.
  intros Hok Hn. pose proof (len_queued b Hok) as Hlen. destruct Hok as [Hp Hd Hs] eqn:Ehok. unfold SlidingBuffer_read.
  destruct (Z.eqb_spec (Z.min n (canRead b)) 0) as [Hz|Hz].
  { split; [done|]. unfold canRead in *. destruct (Z.eq_dec n 0) as [->|]; [done|].
    assert (queued b = []) as ->; [|by rewrite ztake_ge, zdrop_ge by (cbn; lia)].
    apply nil_length_inv. lia. }
  assert (ztake (Z.min n (canRead b)) (zdrop (sb_readPos b) (sb_data b)) = ztake n (queued b)) as Hout.
  { unfold queued, ztake. rewrite take_take. f_equal. unfold canRead. lia. }
  unfold canRead in *. destruct (Z.eqb_spec (sb_readPos b + Z.min n (sb_writePos b - sb_readPos b)) (sb_writePos b)).
  - split; [split; cbn; lia|]. split; [done|]. rewrite (zdrop_ge n) by lia. done.
  - split; [split; cbn; lia|]. split; [done|]. unfold queued, canRead, ztake, zdrop. cbn.
    rewrite skipn_firstn_comm, drop_drop. f_equal; [lia|]. f_equal. lia.
Qed.

(** ** Sequences of operations *)
Inductive BufferOp := BWrite (bs : list Z) | BRead (n : Z).

(** The bytes that were accepted and those that were read. *)
Fixpoint run_buffer (ops : list BufferOp) (b : SlidingBuffer) : result SpanError (list Z * list Z * SlidingBuffer) :=
  match ops with
  | [] => Ok ([], [], b)
  | BWrite bs :: ops =>
      '(ok, b) ← SlidingBuffer_write bs b;
      '(accepted, out, b) ← run_buffer ops b;
      Ok ((if (ok : bool) then bs else []) ++ accepted, out, b)
  | BRead n :: ops =>
      let '(bs, b) := SlidingBuffer_read n b in
      '(accepted, out, b) ← run_buffer ops b;
      Ok (accepted, bs ++ out, b)
  end.

Definition buffer_op_ok (op : BufferOp) : Prop := match op with BWrite bs => len bs < 2 ^ 62 | BRead n => 0 <= n end.

Lemma run_buffer_fifo ops b :
  sliding_ok b -> Forall buffer_op_ok ops ->
  exists accepted out b', run_buffer ops b = Ok (accepted, out, b') /\ sliding_ok b' /\
    queued b ++ accepted = out ++ queued b'.
Proof.
  intros Hok H. revert b Hok. induction H as [|[bs|n] ops Hop _ IH]; intros b Hok; cbn [run_buffer].
  - exists [], [], b. by rewrite app_nil_r.
  - pose proof (write_queued (E := SpanError) bs b Hok Hop) as Hw.
    destruct (SlidingBuffer_write bs b) as [[ok b1]|e|f]; [|done|done]. destruct Hw as (Hok1 & Hq & _). cbn.
    destruct (IH b1 Hok1) as (accepted & out & b2 & -> & Hok2 & E2). cbn. eexists _, _, _. split; [reflexivity|].
    split; [done|]. by rewrite app_assoc, <- Hq.
  - pose proof (read_queued n b Hok Hop) as Hr. destruct (SlidingBuffer_read n b) as [bs b1]. destruct Hr as (Hok1 & -> & Hq).
    destruct (IH b1 Hok1) as (accepted & out & b2 & -> & Hok2 & E2). cbn. eexists _, _, _. split; [reflexivity|].
    split; [done|]. rewrite <- app_assoc, <- E2, Hq, app_assoc. by rewrite ztake_zdrop.
Qed.

(** A sliding buffer that is not empty at first is a queue: whatever is
    written and read, nothing faults, and the bytes that were accepted are those
    that were read and those that are still there, in the order of the writes. *)
Theorem sliding_fifo initialSize maxSize ops :
  0 < initialSize < 2 ^ 32 -> Forall buffer_op_ok ops ->
  exists accepted out b, run_buffer ops (new_SlidingBuffer initialSize maxSize) = Ok (accepted, out, b) /\
    accepted = out ++ queued b.
Proof.
  intros Hi Hops. destruct (run_buffer_fifo ops _ (new_sliding_ok initialSize maxSize Hi) Hops) as (accepted & out & b & E & _ & H).
  by exists accepted, out, b.
Qed.

Definition example_ops : list BufferOp := [BWrite [1; 2]; BRead 1; BWrite [3; 4; 5]; BRead 2; BWrite (replicate 9 7)].

Lemma sliding_fifo_witness :
  exists accepted out b, run_buffer example_ops (new_SlidingBuffer 4 8) = Ok (accepted, out, b) /\ accepted = out ++ queued b.
Proof.
  apply (sliding_fifo 4 8 example_ops); [lia|]. repeat constructor; cbn; lia.
Defined.

(** The last write is refused. *)
Example example_run :
  run_buffer example_ops (new_SlidingBuffer 4 8)
  = Ok ([1; 2; 3; 4; 5], [1; 2; 3],
        {| sb_data := [1; 2; 3; 4; 5; 0; 0; 0]; sb_maxSize := 8; sb_writePos := 5; sb_readPos := 3 |}).
Proof. reflexivity. Qed.

(** A buffer of no size never grows: the doubling does not end. *)
Lemma empty_never_grows fuel needed : 0 < needed -> double_until fuel needed 0 = None.
Proof.
  intros Hn. assert ((0 <? needed) = true) as Ht by lia.
  induction fuel as [|fuel IH]; cbn [double_until]; rewrite Ht; [done|exact IH].
Qed.

(** ** Two spans are read as one *)
Definition spans (s : TwoSpanSource) : list Z := ts_first s ++ ts_second s.

Lemma span_read size s :
  0 <= ts_pos s -> 0 <= size -> ts_pos s + size <= len (spans s) < 2 ^ 64 ->
  TwoSpanSource_read size s = Ok (ztake size (zdrop (ts_pos s) (spans s)), set_pos (ts_pos s + size) s).
Proof.
  unfold spans. intros Hp Hs Hlen. rewrite length_app, Nat2Z.inj_add in Hlen. unfold TwoSpanSource_read, totalSize.
  rewrite u_small by lia. destruct (Z.ltb_spec (len (ts_first s) + len (ts_second s)) (ts_pos s + size)); [lia|].
  destruct (Z.ltb_spec (ts_pos s) (len (ts_first s))).
  - assert (zdrop (ts_pos s) (ts_first s ++ ts_second s) = zdrop (ts_pos s) (ts_first s) ++ ts_second s) as ->.
    { unfold zdrop. apply drop_app_le. lia. }
    pose proof (len_zdrop (ts_pos s) (ts_first s) ltac:(lia)) as Hd.
    destruct (Z.leb_spec size (len (ts_first s) - ts_pos s)).
    + rewrite Z.min_l, Z.sub_diag by lia. cbn. do 2 f_equal. unfold ztake. rewrite take_app_le by lia. done.
    + rewrite Z.min_r by lia. destruct (Z.ltb_spec 0 (size - (len (ts_first s) - ts_pos s))); [|lia]. do 2 f_equal; [|f_equal; lia].
      rewrite (ztake_ge _ (zdrop _ _)) by lia. unfold ztake at 2. rewrite take_app_ge by lia. f_equal.
      rewrite zdrop_0 by lia. unfold ztake. f_equal. lia.
  - rewrite Z.sub_0_r, Z.add_0_r, ztake_0 by lia.
    assert (zdrop (ts_pos s) (ts_first s ++ ts_second s) = zdrop (ts_pos s - len (ts_first s)) (ts_second s)) as ->.
    { unfold zdrop. rewrite drop_app_ge by lia. f_equal. lia. }
    destruct (Z.ltb_spec 0 size); [done|]. replace size with 0 by lia. by rewrite ztake_0, Z.add_0_r by lia.
Qed.
