(* ===== verification/QuicStream.v ===== *)
(** * QuicStream

    [src/socket/transport/quic/QuicStream.hpp], [QuicStream.cpp]: the buffers of
    a stream of a QUIC connection.  The QUIC library reads what is to be sent
    out of the send buffer, which keeps the bytes until they are acknowledged;
    the connection adds what arrives to the receive buffer. *)
From S2P Require Import Prelude Dbuf.

Definition INITIAL_BUFFER_SIZE : Z := 16384.
Definition MAX_BUFFER_SIZE : Z := 1024 * 1024 * 16.

Record QuicStream {C : CircularBuffer} := {
  qs_streamId : Z;
  qs_closed : bool;
  qs_sendBuffer : cbuf;
  qs_recvBuffer : cbuf;
  qs_ackOffset : Z;
  qs_unackedBytes : Z;
  qs_streamOffset : Z;
}.

Section Stream.
Context {C : CircularBuffer}.

Definition new_QuicStream (id : Z) : QuicStream :=
  {| qs_streamId := id; qs_closed := false; qs_sendBuffer := new_cbuf INITIAL_BUFFER_SIZE;
     qs_recvBuffer := new_cbuf INITIAL_BUFFER_SIZE; qs_ackOffset := 0; qs_unackedBytes := 0; qs_streamOffset := 0 |}.

Definition set_sendBuffer (b : cbuf) (s : QuicStream) : QuicStream :=
  {| qs_streamId := qs_streamId s; qs_closed := qs_closed s; qs_sendBuffer := b; qs_recvBuffer := qs_recvBuffer s;
     qs_ackOffset := qs_ackOffset s; qs_unackedBytes := qs_unackedBytes s; qs_streamOffset := qs_streamOffset s |}.
Definition set_recvBuffer (b : cbuf) (s : QuicStream) : QuicStream :=
  {| qs_streamId := qs_streamId s; qs_closed := qs_closed s; qs_sendBuffer := qs_sendBuffer s; qs_recvBuffer := b;
     qs_ackOffset := qs_ackOffset s; qs_unackedBytes := qs_unackedBytes s; qs_streamOffset := qs_streamOffset s |}.
Definition set_counters (ackOffset unackedBytes streamOffset : Z) (s : QuicStream) : QuicStream :=
  {| qs_streamId := qs_streamId s; qs_closed := qs_closed s; qs_sendBuffer := qs_sendBuffer s; qs_recvBuffer := qs_recvBuffer s;
     qs_ackOffset := ackOffset; qs_unackedBytes := unackedBytes; qs_streamOffset := streamOffset |}.

(** The stream that is moved to and the one that is moved from; the counters
    stay behind.  The buffer left behind is that of a library, and [left]. *)
Definition QuicStream_move (left : cbuf) (this other : QuicStream) : QuicStream * QuicStream :=
  ({| qs_streamId := qs_streamId other; qs_closed := qs_closed other; qs_sendBuffer := qs_sendBuffer other;
      qs_recvBuffer := qs_recvBuffer other; qs_ackOffset := qs_ackOffset this; qs_unackedBytes := qs_unackedBytes this;
      qs_streamOffset := qs_streamOffset this |},
   {| qs_streamId := -1; qs_closed := qs_closed other; qs_sendBuffer := left; qs_recvBuffer := left;
      qs_ackOffset := qs_ackOffset other; qs_unackedBytes := qs_unackedBytes other; qs_streamOffset := qs_streamOffset other |}).

(** Whether the library is asked to shut the stream down. *)
Definition QuicStream_close (s : QuicStream) : bool * QuicStream :=
  if qs_closed s || (qs_streamId s =? -1) then (false, s)
  else (true, {| qs_streamId := qs_streamId s; qs_closed := true; qs_sendBuffer := qs_sendBuffer s;
                 qs_recvBuffer := qs_recvBuffer s; qs_ackOffset := qs_ackOffset s;
                 qs_unackedBytes := qs_unackedBytes s; qs_streamOffset := qs_streamOffset s |}).
Definition QuicStream_destructor (s : QuicStream) : bool * QuicStream :=
  if negb (qs_streamId s =? -1) && negb (qs_closed s) then QuicStream_close s else (false, s).

Definition unreadBytes (s : QuicStream) : Z := if qs_closed s then 0 else cb_size (qs_recvBuffer s).
Definition unflushedBytes (s : QuicStream) : Z :=
  if qs_closed s then 0 else u64 (cb_size (qs_sendBuffer s) - qs_unackedBytes s).

Definition sendCapacity (s : QuicStream) : Z :=
  u64 ((if 0 <? qs_unackedBytes s then cb_capacity (qs_sendBuffer s) else MAX_BUFFER_SIZE) - cb_size (qs_sendBuffer s)).

(** The number of bytes that were taken. *)
Definition QuicStream_write (data : list Z) (s : QuicStream) : Z * QuicStream :=
  let maxWrite := sendCapacity s in
  if maxWrite =? 0 then (0, s)
  else
    let toWrite := Z.min (len data) maxWrite in
    (toWrite, set_sendBuffer (cb_write (ztake toWrite data) (qs_sendBuffer s)) s).

(** [read] of a circular buffer: the bytes at its front, which it drops. *)
Definition cbuf_read (n : Z) (b : cbuf) : list Z * cbuf :=
  let '(first, second) := cb_peek n b in (first ++ second, cb_skip n b).

Definition QuicStream_read (n : Z) (s : QuicStream) : list Z * QuicStream :=
  let toRead := Z.min n (cb_size (qs_recvBuffer s)) in
  if toRead =? 0 then ([], s)
  else let '(bs, b) := cbuf_read toRead (qs_recvBuffer s) in (bs, set_recvBuffer b s).

(** What does not fit is dropped. *)
Definition QuicStream_onReceivedData (data : list Z) (s : QuicStream) : QuicStream :=
  if len data <? u64 (MAX_BUFFER_SIZE - cb_size (qs_recvBuffer s))
  then set_recvBuffer (cb_write data (qs_recvBuffer s)) s
  else s.

(** With the assertions of a debug build. *)
Definition QuicStream_onAck {E} (offset ackedBytes : Z) (s : QuicStream) : result E QuicStream :=
  let s := set_sendBuffer (cb_skip ackedBytes (qs_sendBuffer s)) s in
  let unacked := u64 (qs_unackedBytes s - ackedBytes) in
  let ackOffset := u64 (offset + ackedBytes) in
  _ ← qn_assert (ackOffset <=? qs_streamOffset s);
  _ ← qn_assert (unacked =? u64 (qs_streamOffset s - ackOffset));
  Ok (set_counters ackOffset unacked (qs_streamOffset s) s).

(** What the polls wait for. *)
Definition writable (s : QuicStream) : bool := negb (sendCapacity s =? 0).
Definition readable (s : QuicStream) : bool := negb (unreadBytes s =? 0).

Definition peekUnsentData (s : QuicStream) : list Z * list Z :=
  cb_wskip (qs_unackedBytes s) (cb_peek (cb_size (qs_sendBuffer s)) (qs_sendBuffer s)).

Definition advanceSentData (n : Z) (s : QuicStream) : QuicStream :=
  set_counters (qs_ackOffset s) (u64 (qs_unackedBytes s + n)) (u64 (qs_streamOffset s + n)) s.

(** ** The two ends of a stream
    [fc_limit] is what the receiver allows: the bytes that the QUIC library
    hands over on a stream, ever, since nothing extends the limit. *)
Definition fc_limit : Z := 12 * 1024 * 1024.

(** The sender, what the library has taken from it, how much of this it has
    handed to the receiver and how much of that is acknowledged; and what the
    applications have written and read. *)
Record Link := {
  lk_sender : QuicStream;
  lk_receiver : QuicStream;
  lk_handed : list Z;
  lk_delivered : Z;
  lk_acked : Z;
  lk_written : list Z;
  lk_read : list Z;
}.
Definition new_Link (id : Z) : Link :=
  {| lk_sender := new_QuicStream id; lk_receiver := new_QuicStream id; lk_handed := []; lk_delivered := 0;
     lk_acked := 0; lk_written := []; lk_read := [] |}.

(** What can happen.  The library hands bytes over in order and once, within
    the limit, and acknowledges what it has handed over: these bound the last
    three. *)
Inductive LinkOp :=
  | LkWrite (data : list Z)
  | LkRead (n : Z)
  | LkSend (n : Z)
  | LkDeliver (n : Z)
  | LkAck (n : Z).

Definition clamp (n hi : Z) : Z := Z.max 0 (Z.min n hi).

Definition link_step (op : LinkOp) (l : Link) : result Empty_set Link :=
  match op with
  | LkWrite data =>
      let '(n, s) := QuicStream_write data (lk_sender l) in
      Ok {| lk_sender := s; lk_receiver := lk_receiver l; lk_handed := lk_handed l; lk_delivered := lk_delivered l;
            lk_acked := lk_acked l; lk_written := lk_written l ++ ztake n data; lk_read := lk_read l |}
  | LkRead n =>
      let '(bs, s) := QuicStream_read n (lk_receiver l) in
      Ok {| lk_sender := lk_sender l; lk_receiver := s; lk_handed := lk_handed l; lk_delivered := lk_delivered l;
            lk_acked := lk_acked l; lk_written := lk_written l; lk_read := lk_read l ++ bs |}
  | LkSend n =>
      let '(first, second) := peekUnsentData (lk_sender l) in
      let n := clamp n (len (first ++ second)) in
      Ok {| lk_sender := advanceSentData n (lk_sender l); lk_receiver := lk_receiver l;
            lk_handed := lk_handed l ++ ztake n (first ++ second); lk_delivered := lk_delivered l;
            lk_acked := lk_acked l; lk_written := lk_written l; lk_read := lk_read l |}
  | LkDeliver n =>
      let n := clamp n (Z.min (len (lk_handed l)) fc_limit - lk_delivered l) in
      Ok {| lk_sender := lk_sender l;
            lk_receiver := QuicStream_onReceivedData (ztake n (zdrop (lk_delivered l) (lk_handed l))) (lk_receiver l);
            lk_handed := lk_handed l; lk_delivered := lk_delivered l + n;
            lk_acked := lk_acked l; lk_written := lk_written l; lk_read := lk_read l |}
  | LkAck n =>
      let n := clamp n (lk_delivered l - lk_acked l) in
      s ← QuicStream_onAck (lk_acked l) n (lk_sender l);
      Ok {| lk_sender := s; lk_receiver := lk_receiver l; lk_handed := lk_handed l; lk_delivered := lk_delivered l;
            lk_acked := lk_acked l + n; lk_written := lk_written l; lk_read := lk_read l |}
  end.

Fixpoint link_run (ops : list LinkOp) (l : Link) : result Empty_set Link :=
  match ops with
  | [] => Ok l
  | op :: ops => l ← link_step op l; link_run ops l
  end.
End Stream.
