(* ===== verification/QuicStreamSpec.v ===== *)
(** * QuicStream: theorems

    Whatever is written, sent, handed over, acknowledged and read, in any order:
    no assertion fails, what is not acknowledged stays in the send buffer at the
    same place, and the receiver reads the bytes that the sender wrote, in
    order, without a loss. *)
From S2P Require Import Prelude Dbuf QuicStream.

Section Spec.
Context {C : CircularBuffer} {CL : CircularBufferLaws C}.

Record link_ok (l : Link) : Prop := {
  lo_send : contents (qs_sendBuffer (lk_sender l)) = zdrop (lk_acked l) (lk_written l);
  lo_fits : len (contents (qs_sendBuffer (lk_sender l))) <= cb_capacity (qs_sendBuffer (lk_sender l));
  lo_ack : qs_ackOffset (lk_sender l) = lk_acked l;
  lo_unacked : qs_unackedBytes (lk_sender l) = len (lk_handed l) - lk_acked l;
  lo_offset : qs_streamOffset (lk_sender l) = len (lk_handed l);
  lo_handed : lk_handed l = ztake (len (lk_handed l)) (lk_written l);
  lo_order : 0 <= lk_acked l <= lk_delivered l;
  lo_delivered : lk_delivered l <= Z.min (len (lk_handed l)) fc_limit;
  lo_read : lk_read l ++ contents (qs_recvBuffer (lk_receiver l)) = ztake (lk_delivered l) (lk_written l);
}.

Lemma new_link_ok id : link_ok (new_Link id).
Proof.
  split; cbn; rewrite ?contents_new; cbn; try done.
  pose proof (cb_capacity_new INITIAL_BUFFER_SIZE) as H. unfold INITIAL_BUFFER_SIZE in *. lia.
Qed.

Lemma handed_le l : link_ok l -> len (lk_handed l) <= len (lk_written l).
Proof. intros []. rewrite lo_handed0, len_ztake_max. lia. Qed.

Lemma u64_le z : 0 <= z -> 0 <= u64 z <= z.
Proof. intros Hz. unfold u. pose proof (Z.mod_pos_bound z (2 ^ 64)). pose proof (Z.mod_le z (2 ^ 64)). lia. Qed.

(** ** The operations *)
Lemma write_spec data s :
  let '(n, s') := QuicStream_write data s in
  0 <= n <= len data /\ contents (qs_sendBuffer s') = contents (qs_sendBuffer s) ++ ztake n data /\
  qs_recvBuffer s' = qs_recvBuffer s /\ qs_ackOffset s' = qs_ackOffset s /\ qs_unackedBytes s' = qs_unackedBytes s /\
  qs_streamOffset s' = qs_streamOffset s.
Proof.
  unfold QuicStream_write. pose proof (u_range 64 ((if 0 <? qs_unackedBytes s then cb_capacity (qs_sendBuffer s) else MAX_BUFFER_SIZE) - cb_size (qs_sendBuffer s)) ltac:(lia)) as Hu.
  fold (sendCapacity s) in Hu. destruct (Z.eqb_spec (sendCapacity s) 0).
  - rewrite ztake_0, app_nil_r by lia. split_and!; (done || lia).
  - cbn. rewrite cb_write_law. split_and!; (done || lia).
Qed.

(** The library reads the send buffer in place: while bytes are in flight it
    does not grow. *)
Lemma write_in_flight data s :
  len (contents (qs_sendBuffer s)) <= cb_capacity (qs_sendBuffer s) -> 0 < qs_unackedBytes s ->
  cb_capacity (qs_sendBuffer (QuicStream_write data s).2) = cb_capacity (qs_sendBuffer s).
Proof.
  intros Hfit Hun. unfold QuicStream_write, sendCapacity. destruct (Z.ltb_spec 0 (qs_unackedBytes s)); [|lia].
  rewrite cb_size_law. assert (0 <= cb_capacity (qs_sendBuffer s) - len (contents (qs_sendBuffer s))) as Hz by lia.
  pose proof (u64_le _ Hz) as Hu.
  destruct (Z.eqb_spec (u64 (cb_capacity (qs_sendBuffer s) - len (contents (qs_sendBuffer s)))) 0); [done|]. cbn.
  apply cb_capacity_keep. rewrite len_ztake_max. lia.
Qed.

Lemma write_fits data s :
  len (contents (qs_sendBuffer s)) <= cb_capacity (qs_sendBuffer s) ->
  let s' := (QuicStream_write data s).2 in len (contents (qs_sendBuffer s')) <= cb_capacity (qs_sendBuffer s').
Proof.
  intros Hfit. unfold QuicStream_write. destruct (sendCapacity s =? 0); [done|]. cbn. rewrite cb_write_law, length_app, Nat2Z.inj_add.
  apply cb_capacity_write.
Qed.

Lemma read_spec n s :
  0 <= n ->
  let '(bs, s') := QuicStream_read n s in
  contents (qs_recvBuffer s) = bs ++ contents (qs_recvBuffer s') /\ len bs = Z.min n (len (contents (qs_recvBuffer s))) /\
  s' = set_recvBuffer (qs_recvBuffer s') s.
Proof.
  intros Hn. unfold QuicStream_read. rewrite cb_size_law. set (b := qs_recvBuffer s).
  destruct (Z.eqb_spec (Z.min n (len (contents b))) 0) as [Hz|Hz].
  - cbn. split; [done|]. split; [lia|]. by destruct s.
  - unfold cbuf_read. assert (0 <= Z.min n (len (contents b)) <= len (contents b)) as Hr by lia.
    pose proof (cb_peek_law _ b Hr) as Hp.
    destruct (cb_peek _ b) as [x y]. cbn in *. rewrite Hp, cb_skip_law by lia. split; [by rewrite ztake_zdrop|].
    split; [rewrite len_ztake; lia|done].
Qed.

Lemma peek_spec s :
  0 <= qs_unackedBytes s ->
  (peekUnsentData s).1 ++ (peekUnsentData s).2 = zdrop (qs_unackedBytes s) (contents (qs_sendBuffer s)).
Proof.
  intros Hu. unfold peekUnsentData. rewrite cb_wskip_law, cb_size_law, cb_peek_law by lia. by rewrite ztake_ge by lia.
Qed.

(** ** A step keeps the invariant *)
Definition link_op_ok (op : LinkOp) : Prop := match op with LkRead n => 0 <= n | _ => True end.
Definition written_by (op : LinkOp) : Z := match op with LkWrite data => len data | _ => 0 end.

Lemma clamp_range n hi : 0 <= hi -> 0 <= clamp n hi <= hi.
Proof. unfold clamp. lia. Qed.

Lemma link_write_ok data l : link_ok l -> len (lk_written l) + len data < 2 ^ 62 ->
  exists l', link_step (LkWrite data) l = Ok l' /\ link_ok l' /\ len (lk_written l') <= len (lk_written l) + len data.
Proof.
  intros Hok Hlen. pose proof (handed_le l Hok) as Hh. destruct Hok. cbn. pose proof (write_spec data (lk_sender l)) as Hw.
  pose proof (write_fits data (lk_sender l) lo_fits0) as Hf. destruct (QuicStream_write data (lk_sender l)) as [n s].
  destruct Hw as (Hn & Hc & _ & Ha & Hu & Ho). eexists. split; [reflexivity|].
  assert (forall k (t : list Z), 0 <= k <= len (lk_written l) -> ztake k (lk_written l ++ t) = ztake k (lk_written l)) as Htake.
  { intros k t Hk. unfold ztake. apply take_app_le. lia. }
  split; [split; cbn in *; rewrite ?Ha, ?Hu, ?Ho; try done|].
  - rewrite Hc, lo_send0. unfold zdrop. by rewrite drop_app_le by lia.
  - by rewrite Htake by lia.
  - by rewrite Htake by lia.
  - cbn. rewrite length_app, Nat2Z.inj_add, len_ztake_max. lia.
Qed.

Lemma link_read_ok n l : link_ok l -> 0 <= n -> exists l', link_step (LkRead n) l = Ok l' /\ link_ok l' /\ lk_written l' = lk_written l.
Proof.
  intros [] Hn. cbn. pose proof (read_spec n (lk_receiver l) Hn) as Hr. destruct (QuicStream_read n (lk_receiver l)) as [bs s].
  destruct Hr as (Hc & _ & Hs). eexists. split; [reflexivity|]. split; [|done]. split; cbn; try done.
  by rewrite <- app_assoc, <- Hc.
Qed.

Lemma link_send_ok n l : link_ok l -> len (lk_written l) < 2 ^ 62 ->
  exists l', link_step (LkSend n) l = Ok l' /\ link_ok l' /\ lk_written l' = lk_written l.
Proof.
  intros Hok Hlen. pose proof (handed_le l Hok) as Hh. destruct Hok. cbn.
  pose proof (peek_spec (lk_sender l) ltac:(lia)) as Hp. rewrite lo_send0, lo_unacked0, zdrop_zdrop in Hp by lia.
  replace (lk_acked l + (len (lk_handed l) - lk_acked l)) with (len (lk_handed l)) in Hp by lia.
  destruct (peekUnsentData (lk_sender l)) as [x y]. cbn in Hp. rewrite Hp.
  assert (len (zdrop (len (lk_handed l)) (lk_written l)) = len (lk_written l) - len (lk_handed l)) as Hd by (apply len_zdrop; lia).
  pose proof (clamp_range n (len (zdrop (len (lk_handed l)) (lk_written l))) ltac:(lia)) as Hc.
  set (k := clamp n _) in *. eexists. split; [reflexivity|]. split; [|done].
  assert (len (lk_handed l ++ ztake k (zdrop (len (lk_handed l)) (lk_written l))) = len (lk_handed l) + k) as Hl.
  { rewrite length_app, Nat2Z.inj_add, len_ztake by lia. done. }
  split; cbn; rewrite ?Hl; try done; rewrite ?lo_unacked0, ?lo_offset0, ?u_small by lia; try lia.
  rewrite lo_handed0 at 1. unfold ztake, zdrop. rewrite take_take_drop. f_equal. lia.
Qed.

Lemma link_deliver_ok n l : link_ok l ->
  exists l', link_step (LkDeliver n) l = Ok l' /\ link_ok l' /\ lk_written l' = lk_written l.
Proof.
  intros Hok. pose proof (handed_le l Hok) as Hh. destruct Hok. cbn.
  pose proof (clamp_range n (Z.min (len (lk_handed l)) fc_limit - lk_delivered l) ltac:(lia)) as Hc. set (k := clamp n _) in *.
  eexists. split; [reflexivity|]. split; [|done].
  assert (len (lk_read l) + len (contents (qs_recvBuffer (lk_receiver l))) = lk_delivered l) as Hlen.
  { rewrite <- Nat2Z.inj_add, <- length_app, lo_read0, len_ztake by lia. done. }
  assert (len (ztake k (zdrop (lk_delivered l) (lk_handed l))) = k) as Hk.
  { rewrite len_ztake; [done|]. rewrite len_zdrop; lia. }
  split; cbn; try done; try lia.
  unfold QuicStream_onReceivedData. rewrite cb_size_law, Hk. unfold fc_limit, MAX_BUFFER_SIZE in *. rewrite u_small by lia.
  destruct (Z.ltb_spec k (1024 * 1024 * 16 - len (contents (qs_recvBuffer (lk_receiver l))))); [|lia]. cbn.
  rewrite cb_write_law, app_assoc, lo_read0, lo_handed0, ztake_zdrop_ztake by lia.
  unfold ztake, zdrop. rewrite take_take_drop. f_equal. lia.
Qed.

Lemma link_ack_ok n l : link_ok l -> len (lk_written l) < 2 ^ 62 ->
  exists l', link_step (LkAck n) l = Ok l' /\ link_ok l' /\ lk_written l' = lk_written l.
Proof.
  intros Hok Hlen. pose proof (handed_le l Hok) as Hh. destruct Hok. cbn [link_step].
  pose proof (clamp_range n (lk_delivered l - lk_acked l) ltac:(lia)) as Hc. set (k := clamp n _) in *.
  unfold QuicStream_onAck, qn_assert. cbn. rewrite lo_unacked0, lo_offset0, !u_small by lia.
  destruct (Z.leb_spec (lk_acked l + k) (len (lk_handed l))); [|lia]. cbn.
  destruct (Z.eqb_spec (len (lk_handed l) - lk_acked l - k) (len (lk_handed l) - (lk_acked l + k))); [|lia]. cbn.
  eexists. split; [reflexivity|]. split; [|done].
  assert (len (zdrop (lk_acked l) (lk_written l)) = len (lk_written l) - lk_acked l) as Hd by (apply len_zdrop; lia).
  split; cbn; try done; try lia.
  - rewrite cb_skip_law, lo_send0, zdrop_zdrop; [done|lia|lia|]. rewrite lo_send0. lia.
  - rewrite cb_capacity_skip, cb_skip_law by (rewrite lo_send0; lia). rewrite len_zdrop by (rewrite lo_send0; lia). lia.
Qed.

Lemma link_step_ok op l : link_ok l -> link_op_ok op -> len (lk_written l) + written_by op < 2 ^ 62 ->
  exists l', link_step op l = Ok l' /\ link_ok l' /\ len (lk_written l') <= len (lk_written l) + written_by op.
Proof.
  intros Hok Hop Hlen.
  assert (forall r, (exists l', r = Ok (E := Empty_set) l' /\ link_ok l' /\ lk_written l' = lk_written l) -> 0 <= written_by op ->
    exists l', r = Ok l' /\ link_ok l' /\ len (lk_written l') <= len (lk_written l) + written_by op) as Hsame.
  { intros r (l' & -> & H & Hw) Hb. exists l'. rewrite Hw. split_and!; (done || lia). }
  destruct op as [data|n|n|n|n]; [by apply link_write_ok|..]; apply Hsame; try done; cbn in Hlen.
  - by apply link_read_ok.
  - apply link_send_ok; [done|lia].
  - by apply link_deliver_ok.
  - apply link_ack_ok; [done|lia].
Qed.

Lemma link_run_ok ops l :
  link_ok l -> Forall link_op_ok ops -> len (lk_written l) + foldr Z.add 0 (written_by <$> ops) < 2 ^ 62 ->
  exists l', link_run ops l = Ok l' /\ link_ok l'.
Proof.
  intros Hok H. revert l Hok. induction H as [|op ops Hop Hops IH]; intros l Hok Hlen; cbn [link_run]; [by exists l|].
  cbn in Hlen. assert (0 <= foldr Z.add 0 (written_by <$> ops)) as Hpos.
  { clear. induction ops as [|[]]; cbn in *; lia. }
  destruct (link_step_ok op l Hok Hop ltac:(lia)) as (l1 & -> & Hok1 & Hl1). cbn. apply IH; [done|lia].
Qed.

(** C11. Whatever is written, sent, handed over, acknowledged and read on a
    stream, in any order: no assertion fails; what was read and what waits to be
    read are the first bytes that were written; what is not acknowledged is
    still in the send buffer, and what the library is given next is what it was
    not given yet. *)
Theorem quic_stream_delivery id ops :
  Forall link_op_ok ops -> foldr Z.add 0 (written_by <$> ops) < 2 ^ 62 ->
  exists l, link_run ops (new_Link id) = Ok l /\
    lk_read l ++ contents (qs_recvBuffer (lk_receiver l)) = ztake (lk_delivered l) (lk_written l) /\
    contents (qs_sendBuffer (lk_sender l)) = zdrop (lk_acked l) (lk_written l) /\
    (peekUnsentData (lk_sender l)).1 ++ (peekUnsentData (lk_sender l)).2 = zdrop (len (lk_handed l)) (lk_written l) /\
    lk_delivered l <= fc_limit.
Proof.
  intros Hops Hlen. destruct (link_run_ok ops (new_Link id) (new_link_ok id) Hops Hlen) as (l & -> & Hok).
  exists l. split; [done|]. destruct Hok. split; [done|]. split; [done|]. split; [|lia].
  rewrite peek_spec, lo_send0, lo_unacked0, zdrop_zdrop by lia. f_equal. lia.
Qed.
End Spec.

(** What does not fit into the receive buffer is lost, and what follows is taken
    for its place: only the limit of [quic_stream_delivery] prevents it. *)
Lemma full_drops `{CL : CircularBufferLaws} data s :
  len (contents (qs_recvBuffer s)) <= MAX_BUFFER_SIZE -> MAX_BUFFER_SIZE - len (contents (qs_recvBuffer s)) <= len data ->
  QuicStream_onReceivedData data s = s.
Proof.
  intros H1 H2. unfold QuicStream_onReceivedData. rewrite cb_size_law, u_small by (unfold MAX_BUFFER_SIZE in *; lia).
  destruct (Z.ltb_spec (len data) (MAX_BUFFER_SIZE - len (contents (qs_recvBuffer s)))); [lia|done].
Qed.

Definition example_link_ops : list LinkOp :=
  [LkWrite [1; 2; 3]; LkSend 2; LkDeliver 1; LkRead 5; LkAck 9; LkSend 9; LkWrite [4]; LkDeliver 9; LkRead 1; LkSend 1].

Lemma quic_stream_delivery_witness :
  exists l : Link (C := list_cbuf), link_run example_link_ops (new_Link 0) = Ok l /\
    lk_read l ++ contents (qs_recvBuffer (lk_receiver l)) = ztake (lk_delivered l) (lk_written l) /\
    contents (qs_sendBuffer (lk_sender l)) = zdrop (lk_acked l) (lk_written l) /\
    (peekUnsentData (lk_sender l)).1 ++ (peekUnsentData (lk_sender l)).2 = zdrop (len (lk_handed l)) (lk_written l) /\
    lk_delivered l <= fc_limit.
Proof.
  apply (quic_stream_delivery 0 example_link_ops); [|vm_compute; reflexivity].
  repeat (constructor; [cbn; first [exact I|lia]|]). constructor.
Defined.

Example example_link :
  match link_run example_link_ops (new_Link (C := list_cbuf) 0) with
  | Ok l => bool_decide (lk_read l = [1; 2] /\ lk_handed l = [1; 2; 3; 4] /\ lk_acked l = 1 /\ lk_delivered l = 3)
  | _ => false
  end = true.
Proof. vm_compute. reflexivity. Qed.

(** A stream that is moved while bytes are in flight forgets how many: the
    library would be given them again. *)
Example moved_in_flight :
  match link_run [LkWrite [1; 2; 3]; LkSend 2] (new_Link (C := list_cbuf) 0) with
  | Ok l => let '(s, _) := QuicStream_move (new_cbuf 0) (new_QuicStream (-1)) (lk_sender l) in
            bool_decide ((peekUnsentData s).1 = [1; 2; 3])
  | _ => false
  end = true.
Proof. vm_compute. reflexivity. Qed.
