(* ===== verification/QuicConn.v ===== *)
(** * QuicConnection

    [src/socket/transport/quic/QuicConnection.hpp], [QuicConnection.cpp]: a QUIC
    connection over a UDP socket and the QUIC library, ngtcp2.  A worker task
    sends what the streams hold and receives packets; the calls of a transport
    wait for it.  A wait takes the next turn of the worker from a script. *)
From Stdlib Require Import SpecFloat.
From S2P Require Import Prelude Dbuf Messages Time Errors Effects Stats QuicStream.

(** What ngtcp2 calls while it reads a packet. *)
Inductive NgEvent :=
  | NgStreamData (streamId : Z) (data : list Z)
  | NgAcked (streamId offset datalen : Z)
  | NgStreamClose (streamId : Z).

(** ** ngtcp2
    The functions give a code that is negative, or not zero, on an error, or
    what they write. *)
Class Ngtcp2 {T : TimeLib} := {
  ngconn : Type;
  ng_write_pkt : instant -> ngconn -> (Z + list Z) * ngconn;
  (** stream, whether it ends, and the bytes that wait in two parts: a packet
      and how many of the bytes it has, -1 when none *)
  ng_writev_stream : Z -> bool -> list Z * list Z -> instant -> ngconn -> (Z + list Z * Z) * ngconn;
  ng_write_connection_close : instant -> ngconn -> (Z + list Z) * ngconn;
  ng_read_pkt : list Z -> instant -> ngconn -> Z * list NgEvent * ngconn;
  ng_handle_expiry : instant -> ngconn -> Z * ngconn;
  ng_get_expiry : ngconn -> instant;
  ng_get_handshake_completed : ngconn -> bool;
  ng_open_bidi_stream : ngconn -> Z * Z * ngconn;
  ng_shutdown_stream : Z -> ngconn -> ngconn;
  ng_update_pkt_tx_time : instant -> ngconn -> ngconn;
  ng_strerror : Z -> list Z;
  NGTCP2_ERR_STREAM_DATA_BLOCKED : Z;
  NGTCP2_ERR_FLOW_CONTROL : Z;
  NGTCP2_ERR_CRYPTO : Z;
  NGTCP2_ERR_IDLE_CLOSE : Z;
  (** [m_tls.lastError()] *)
  ng_tls_error : ngconn -> list Z;
}.

(** The parameters of the library, in bytes and nanoseconds. *)
Definition MiB : Z := 1024 * 1024.
Definition initial_max_stream_data_bidi_local : Z := 12 * MiB.
Definition INT32_MAX : Z := 2 ^ 31 - 1.
(** [fillRandom] gives 32 random bits. *)
Definition initial_pkt_num (random : Z) : Z := if INT32_MAX <? random then random - INT32_MAX else random.

(** What wakes the worker: a packet, or an error of the socket. *)
Inductive Wake :=
  | WakeNotified
  | WakePacket (p : SocketError + list Z)
  | WakeExpiry
  | WakeCongestion.

Record QuicConnection {T : TimeLib} {C : CircularBuffer} {NG : Ngtcp2} := {
  qc_connectDeadline : instant;
  qc_nextExpiry : instant;
  qc_conn : ngconn;
  (** the socket: what it sends, and the packets that have arrived *)
  qc_net : Net;
  qc_incoming : list (SocketError + list Z);
  qc_streams : gmap Z QuicStream;
  qc_mainStreamId : Z;
  qc_closed : bool;
  qc_closing : bool;
  qc_totalBytesSent : Z;
  qc_totalBytesReceived : Z;
  qc_lastSendAttempt : instant;
  qc_connected : bool;
  qc_workerRunning : bool;
  qc_congestion : bool;
  qc_fatalError : option TransportError;
  qc_cancelled : bool;
  (** the turns of the worker to come *)
  qc_script : list (Wake * instant);
  (** the bytes that the streams took from the calls of [send] *)
  qc_accepted : list (Z * list Z);
}.

Section QuicConnection.
Context {T : TimeLib} {C : CircularBuffer} {NG : Ngtcp2}.
Abbreviation M := (ST QuicConnection).

(** The order in which the table of streams is walked. *)
Variable walk : gmap Z QuicStream -> list Z.

Definition set_ngconn (x : ngconn) (nextExpiry : instant) (c : QuicConnection) : QuicConnection :=
  {| qc_connectDeadline := qc_connectDeadline c; qc_nextExpiry := nextExpiry; qc_conn := x; qc_net := qc_net c;
     qc_incoming := qc_incoming c; qc_streams := qc_streams c; qc_mainStreamId := qc_mainStreamId c;
     qc_closed := qc_closed c; qc_closing := qc_closing c; qc_totalBytesSent := qc_totalBytesSent c;
     qc_totalBytesReceived := qc_totalBytesReceived c; qc_lastSendAttempt := qc_lastSendAttempt c;
     qc_connected := qc_connected c; qc_workerRunning := qc_workerRunning c; qc_congestion := qc_congestion c;
     qc_fatalError := qc_fatalError c; qc_cancelled := qc_cancelled c; qc_script := qc_script c; qc_accepted := qc_accepted c |}.
Definition set_socket (net : Net) (incoming : list (SocketError + list Z)) (sent received : Z) (lastSendAttempt : instant)
    (c : QuicConnection) : QuicConnection :=
  {| qc_connectDeadline := qc_connectDeadline c; qc_nextExpiry := qc_nextExpiry c; qc_conn := qc_conn c; qc_net := net;
     qc_incoming := incoming; qc_streams := qc_streams c; qc_mainStreamId := qc_mainStreamId c;
     qc_closed := qc_closed c; qc_closing := qc_closing c; qc_totalBytesSent := sent; qc_totalBytesReceived := received;
     qc_lastSendAttempt := lastSendAttempt; qc_connected := qc_connected c; qc_workerRunning := qc_workerRunning c;
     qc_congestion := qc_congestion c; qc_fatalError := qc_fatalError c; qc_cancelled := qc_cancelled c;
     qc_script := qc_script c; qc_accepted := qc_accepted c |}.
Definition set_streams (streams : gmap Z QuicStream) (mainStreamId : Z) (accepted : list (Z * list Z)) (c : QuicConnection)
    : QuicConnection :=
  {| qc_connectDeadline := qc_connectDeadline c; qc_nextExpiry := qc_nextExpiry c; qc_conn := qc_conn c; qc_net := qc_net c;
     qc_incoming := qc_incoming c; qc_streams := streams; qc_mainStreamId := mainStreamId;
     qc_closed := qc_closed c; qc_closing := qc_closing c; qc_totalBytesSent := qc_totalBytesSent c;
     qc_totalBytesReceived := qc_totalBytesReceived c; qc_lastSendAttempt := qc_lastSendAttempt c;
     qc_connected := qc_connected c; qc_workerRunning := qc_workerRunning c; qc_congestion := qc_congestion c;
     qc_fatalError := qc_fatalError c; qc_cancelled := qc_cancelled c; qc_script := qc_script c; qc_accepted := accepted |}.
Definition set_flags (closed closing connected workerRunning congestion cancelled : bool) (fatalError : option TransportError)
    (c : QuicConnection) : QuicConnection :=
  {| qc_connectDeadline := qc_connectDeadline c; qc_nextExpiry := qc_nextExpiry c; qc_conn := qc_conn c; qc_net := qc_net c;
     qc_incoming := qc_incoming c; qc_streams := qc_streams c; qc_mainStreamId := qc_mainStreamId c;
     qc_closed := closed; qc_closing := closing; qc_totalBytesSent := qc_totalBytesSent c;
     qc_totalBytesReceived := qc_totalBytesReceived c; qc_lastSendAttempt := qc_lastSendAttempt c;
     qc_connected := connected; qc_workerRunning := workerRunning; qc_congestion := congestion;
     qc_fatalError := fatalError; qc_cancelled := cancelled; qc_script := qc_script c; qc_accepted := qc_accepted c |}.
Definition set_script (script : list (Wake * instant)) (c : QuicConnection) : QuicConnection :=
  {| qc_connectDeadline := qc_connectDeadline c; qc_nextExpiry := qc_nextExpiry c; qc_conn := qc_conn c; qc_net := qc_net c;
     qc_incoming := qc_incoming c; qc_streams := qc_streams c; qc_mainStreamId := qc_mainStreamId c;
     qc_closed := qc_closed c; qc_closing := qc_closing c; qc_totalBytesSent := qc_totalBytesSent c;
     qc_totalBytesReceived := qc_totalBytesReceived c; qc_lastSendAttempt := qc_lastSendAttempt c;
     qc_connected := qc_connected c; qc_workerRunning := qc_workerRunning c; qc_congestion := qc_congestion c;
     qc_fatalError := qc_fatalError c; qc_cancelled := qc_cancelled c; qc_script := script; qc_accepted := qc_accepted c |}.

Definition set_closed (b : bool) (c : QuicConnection) : QuicConnection :=
  set_flags b (qc_closing c) (qc_connected c) (qc_workerRunning c) (qc_congestion c) (qc_cancelled c) (qc_fatalError c) c.
Definition set_closing (b : bool) (c : QuicConnection) : QuicConnection :=
  set_flags (qc_closed c) b (qc_connected c) (qc_workerRunning c) (qc_congestion c) (qc_cancelled c) (qc_fatalError c) c.
Definition set_connected (b : bool) (c : QuicConnection) : QuicConnection :=
  set_flags (qc_closed c) (qc_closing c) b (qc_workerRunning c) (qc_congestion c) (qc_cancelled c) (qc_fatalError c) c.
Definition set_workerRunning (b : bool) (c : QuicConnection) : QuicConnection :=
  set_flags (qc_closed c) (qc_closing c) (qc_connected c) b (qc_congestion c) (qc_cancelled c) (qc_fatalError c) c.
Definition set_congestion (b : bool) (c : QuicConnection) : QuicConnection :=
  set_flags (qc_closed c) (qc_closing c) (qc_connected c) (qc_workerRunning c) b (qc_cancelled c) (qc_fatalError c) c.
Definition set_cancelled (b : bool) (c : QuicConnection) : QuicConnection :=
  set_flags (qc_closed c) (qc_closing c) (qc_connected c) (qc_workerRunning c) (qc_congestion c) b (qc_fatalError c) c.
Definition set_fatalError (e : option TransportError) (c : QuicConnection) : QuicConnection :=
  set_flags (qc_closed c) (qc_closing c) (qc_connected c) (qc_workerRunning c) (qc_congestion c) (qc_cancelled c) e c.
Definition set_stream (id : Z) (s : QuicStream) (c : QuicConnection) : QuicConnection :=
  set_streams (<[id := s]> (qc_streams c)) (qc_mainStreamId c) (qc_accepted c) c.

Definition update_stream (id : Z) (f : QuicStream -> QuicStream) (c : QuicConnection) : QuicConnection :=
  match qc_streams c !! id with Some s => set_stream id (f s) c | None => c end.

(** ** Errors *)
Definition quic_error (code : Z) : TransportError := TE_Quic {| qe_code := code; qe_text := ng_strerror code |}.

Definition isCongestionRelatedError (err : TransportError) : bool :=
  match err with
  | TE_Quic e => (qe_code e =? NGTCP2_ERR_STREAM_DATA_BLOCKED) || (qe_code e =? NGTCP2_ERR_FLOW_CONTROL)
  | TE_Custom code => bool_decide (code = NoBufferSpace) || bool_decide (code = CongestionLimited)
  | _ => false
  end.

(** ** The library *)
(** A call after which the next expiry is read again. *)
Definition ng_updating {A} (f : ngconn -> A * ngconn) : M A := state (fun c =>
  let '(a, x) := f (qc_conn c) in (a, set_ngconn x (ng_get_expiry x) c)).
(** A call after which it is not. *)
Definition ng_call {A} (f : ngconn -> A * ngconn) : M A := state (fun c =>
  let '(a, x) := f (qc_conn c) in (a, set_ngconn x (qc_nextExpiry c) c)).
Definition updateExpiry (c : QuicConnection) : QuicConnection := set_ngconn (qc_conn c) (ng_get_expiry (qc_conn c)) c.

Definition wrapWritePacket (now : instant) : M (list Z) :=
  written ← ng_updating (ng_write_pkt now);
  match written with
  | inl code => throw (quic_error code)
  | inr packet => mret packet
  end.

(** ** Packets *)
Definition in_net {A} : ST Net A -> M A := focus qc_net (fun n c =>
  set_socket n (qc_incoming c) (qc_totalBytesSent c) (qc_totalBytesReceived c) (qc_lastSendAttempt c) c).

Definition shouldLosePacket : M bool :=
  in_net (state (fun n => randomChance (fclamp (net_lossSim n) (S754_zero false) (f32_of_Z 1)) n)).

Definition sendPacket (now : instant) (buf : list Z) : M unit :=
  lost ← shouldLosePacket;
  _ ← (if (lost : bool) then mret tt else in_net (socket_send buf));
  _ ← ng_updating (fun x => (tt, ng_update_pkt_tx_time now x));
  modify (fun c => set_socket (qc_net c) (qc_incoming c) (u64 (qc_totalBytesSent c + len buf)) (qc_totalBytesReceived c) now c).

Definition sendHandshakePacket (now : instant) : M unit :=
  written ← wrapWritePacket now;
  match written with [] => mret tt | _ => sendPacket now written end.

Definition sendNonStreamPacket (now : instant) : M unit :=
  written ← wrapWritePacket now;
  match written with [] => mret tt | _ => sendPacket now written end.

Definition sendClosePacket (now : instant) : M unit :=
  written ← ng_call (ng_write_connection_close now);
  match written with
  | inl code => throw (quic_error code)
  | inr [] => mret tt
  | inr packet => sendPacket now packet
  end.

Definition sendStreamData (now : instant) (id : Z) (stream : QuicStream) (fin : bool) : M unit :=
  let wrp := peekUnsentData stream in
  if bool_decide (wrp.1 = []) && bool_decide (wrp.2 = []) && negb fin then mret tt
  else
    written ← ng_updating (ng_writev_stream id fin wrp now);
    match written with
    | inl code => throw (quic_error code)
    | inr ([], _) => custom CongestionLimited
    | inr (packet, streamDataWritten) =>
        _ ← sendPacket now packet;
        if 0 <? streamDataWritten then modify (update_stream id (advanceSentData streamDataWritten)) else mret tt
    end.

(** ** Receiving *)
Definition onReceivedData (id : Z) (data : list Z) (c : QuicConnection) : QuicConnection :=
  match qc_streams c !! id with
  | None => c
  | Some s => set_stream id (QuicStream_onReceivedData data s) c
  end.

Definition onAckedData (id offset datalen : Z) (c : QuicConnection) : TransportResult QuicConnection :=
  match qc_streams c !! id with
  | None => Ok c
  | Some s => s ← QuicStream_onAck offset datalen s; Ok (set_stream id s c)
  end.

(** The callbacks given to the library. *)
Definition handle_event (ev : NgEvent) (c : QuicConnection) : TransportResult QuicConnection :=
  match ev with
  | NgStreamData id data => Ok (onReceivedData id data c)
  | NgAcked id offset datalen => onAckedData id offset datalen c
  | NgStreamClose id => Ok (set_streams (delete id (qc_streams c)) (qc_mainStreamId c) (qc_accepted c) c)
  end.

Fixpoint handle_events (evs : list NgEvent) : M unit :=
  match evs with
  | [] => mret tt
  | ev :: evs => _ ← update (handle_event ev); handle_events evs
  end.

(** Packets arrive. *)
Definition arrive (ps : list (SocketError + list Z)) (c : QuicConnection) : QuicConnection :=
  set_socket (qc_net c) (qc_incoming c ++ ps) (qc_totalBytesSent c) (qc_totalBytesReceived c) (qc_lastSendAttempt c) c.

(** A packet of the socket, if there is one or the call blocks. *)
Definition quic_recv (block : bool) : M (option (list Z)) := fun c =>
  match qc_incoming c with
  | [] => (if block then Fault WouldBlock else Ok None, c)
  | p :: rest =>
      let bytes := match p with inr d => len (ztake 1500 d) | inl _ => 0 end in
      (match p with inl e => Err (TE_Socket e) | inr d => Ok (Some (ztake 1500 d)) end,
       set_socket (qc_net c) rest (qc_totalBytesSent c) (u64 (qc_totalBytesReceived c + bytes)) (qc_lastSendAttempt c) c)
  end.

Definition receivePacket (now : instant) (block : bool) : M bool :=
  packet ← quic_recv block;
  match packet with
  | None => mret false
  | Some bytes =>
      res ← ng_call (fun x => let '(code, evs, x) := ng_read_pkt bytes now x in ((code, evs), x));
      _ ← handle_events res.2;
      if res.1 =? 0 then mret true
      else if res.1 =? NGTCP2_ERR_CRYPTO then
        text ← get (fun c => ng_tls_error (qc_conn c));
        throw (TE_Tls text)
      else throw (quic_error res.1)
  end.

(** ** The handshake
    A turn of its loop: when it begins, when the wait for a packet ends and what
    has arrived; nothing, when it ends at the deadline. *)
Record HandshakeTurn := { ht_now : instant; ht_end : instant; ht_packets : list (SocketError + list Z) }.

Fixpoint drain_packets (fuel : nat) (now : instant) : M unit :=
  match fuel with
  | O => lift (Fault OutOfFuel)
  | S fuel =>
      didReceiveData ← receivePacket now false;
      if (didReceiveData : bool) then drain_packets fuel now else mret tt
  end.

Fixpoint handshake_loop (turns : list HandshakeTurn) (lastSentPacket : instant) : M unit :=
  completed ← get (fun c => ng_get_handshake_completed (qc_conn c));
  if (completed : bool) then mret tt
  else
    match turns with
    | [] => lift (Fault WouldBlock)
    | t :: turns =>
        lastSentPacket ← (if dltb (fromMillis 10) (since (ht_now t) lastSentPacket)
                          then _ ← sendHandshakePacket (ht_now t); mret (ht_now t) else mret lastSentPacket);
        match ht_packets t with
        | [] =>
            deadline ← get qc_connectDeadline;
            if isZero (since deadline (ht_end t)) then custom ConnectionTimedOut
            else
              result ← ng_call (ng_handle_expiry (ht_end t));
              if negb (result =? 0) then throw (quic_error result) else handshake_loop turns lastSentPacket
        | packets =>
            _ ← modify (arrive packets);
            didReceiveData ← receivePacket (ht_end t) true;
            _ ← (if (didReceiveData : bool) then
                   fuel ← get (fun c => S (length (qc_incoming c)));
                   drain_packets fuel (ht_end t)
                 else mret tt);
            handshake_loop turns lastSentPacket
        end
    end.

(** [epoch] is [Instant{}]. *)
Definition performHandshake (epoch : instant) (turns : list HandshakeTurn) : M unit := handshake_loop turns epoch.

(** ** Streams *)
Definition openStream : M Z :=
  res ← ng_call (fun x => let '(code, id, x) := ng_open_bidi_stream x in ((code, id), x));
  if negb (res.1 =? 0) then throw (quic_error res.1)
  else
    _ ← lift (qn_assert (negb (res.2 =? -1)));
    _ ← modify (fun c => match qc_streams c !! res.2 with
                         | Some _ => c
                         | None => set_stream res.2 (new_QuicStream res.2) c
                         end);
    mret res.2.

Definition getStream (id : Z) : M QuicStream :=
  s ← get (fun c => qc_streams c !! id);
  match s with Some s => mret s | None => custom InvalidArgument end.

Definition closeStream (id : Z) : M unit :=
  stream ← getStream id;
  let '(shutdown, stream) := QuicStream_close stream in
  _ ← modify (set_stream id stream);
  if (shutdown : bool) then ng_call (fun x => (tt, ng_shutdown_stream id x)) else mret tt.

(** ** Closing *)
Definition QuicConnection_closeSync : M unit :=
  closed ← get qc_closed;
  _ ← modify (set_closed true);
  if (closed : bool) then mret tt else modify (set_cancelled true).

Definition QuicConnection_close (now : instant) : M unit :=
  closing ← get qc_closing;
  _ ← modify (set_closing true);
  if (closing : bool) then mret tt
  else _ ← sendClosePacket now; QuicConnection_closeSync.

(** ** The worker *)
Definition mapErr (m : M unit) : M unit :=
  res ← attempt m;
  match res with
  | Ok _ => mret tt
  | Err e => if isCongestionRelatedError e then modify (set_congestion true) else throw e
  | Fault f => lift (Fault f)
  end.

Fixpoint write_streams (now : instant) (ids : list Z) : M unit :=
  match ids with
  | [] => mret tt
  | id :: ids =>
      s ← get (fun c => qc_streams c !! id);
      match s with
      | None => write_streams now ids
      | Some stream =>
          if unflushedBytes stream =? 0 then write_streams now ids
          else
            _ ← mapErr (sendStreamData now id stream false);
            congestion ← get qc_congestion;
            if (congestion : bool) then mret tt else write_streams now ids
      end
  end.

Definition workerHandleWrites (now : instant) : M unit :=
  _ ← modify (set_congestion false);
  ids ← get (fun c => walk (qc_streams c));
  _ ← write_streams now ids;
  congestion ← get qc_congestion;
  if (congestion : bool) then mret tt else mapErr (sendNonStreamPacket now).

Definition handleExpiry (now : instant) : M unit :=
  code ← ng_call (ng_handle_expiry now);
  if code =? NGTCP2_ERR_IDLE_CLOSE then custom ConnectionTimedOut else modify updateExpiry.

(** What the [select] of the worker does with what woke it. *)
Definition worker_event (wake : Wake) (now : instant) : M unit :=
  match wake with
  | WakeNotified | WakeCongestion => mret tt
  | WakePacket p => _ ← modify (arrive [p]); _ ← attempt (receivePacket now true); mret tt
  | WakeExpiry =>
      res ← attempt (handleExpiry now);
      match res with
      | Err e => _ ← modify (set_fatalError (Some e)); modify (set_connected false)
      | _ => mret tt
      end
  end.

(** The end of the task of the worker. *)
Definition worker_end (now : instant) : M unit :=
  _ ← attempt (QuicConnection_close now);
  modify (set_workerRunning false).

(** A turn of [workerLoop]; it begins when the connection is made. *)
Definition worker_turn (wake : Wake) (now : instant) : M unit :=
  c ← get id;
  if negb (qc_workerRunning c) then mret tt
  else if qc_cancelled c || negb (qc_connected c) then worker_end now
  else
    res ← attempt (workerHandleWrites now);
    match res with
    | Ok _ => worker_event wake now
    | Err _ => worker_end now
    | Fault f => lift (Fault f)
    end.

(** ** The calls of the transport
    They wait for the next turn of the worker. *)
Definition wait_worker : M unit := fun c =>
  match qc_script c with
  | [] => (Fault WouldBlock, c)
  | (wake, now) :: script => worker_turn wake now (set_script script c)
  end.

(** The polls of a stream hold it, so that one that is closed by the peer
    meanwhile is waited for on and on. *)
Fixpoint poll_stream (fuel : nat) (ready : QuicStream -> bool) (id : Z) : M unit :=
  match fuel with
  | O => lift (Fault OutOfFuel)
  | S fuel =>
      s ← get (fun c => qc_streams c !! id);
      if match s with Some s => ready s | None => false end then mret tt
      else _ ← wait_worker; poll_stream fuel ready id
  end.
Definition script_fuel (c : QuicConnection) : nat := S (length (qc_script c)).

Definition pollWritable (id : Z) : M unit :=
  _ ← getStream id;
  fuel ← get script_fuel;
  poll_stream fuel writable id.
Definition pollReadable (id : Z) : M unit :=
  _ ← getStream id;
  fuel ← get script_fuel;
  poll_stream fuel readable id.

(** The bytes that a stream takes. *)
Definition write_to (id : Z) (data : list Z) : M Z := state (fun c =>
  match qc_streams c !! id with
  | None => (0, c)
  | Some s =>
      let '(n, s) := QuicStream_write data s in
      (n, set_streams (<[id := s]> (qc_streams c)) (qc_mainStreamId c) (qc_accepted c ++ [(id, ztake n data)]) c)
  end).

(** The stream takes a byte at least, so that a second turn is not needed. *)
Fixpoint send_loop (fuel : nat) (id : Z) (data : list Z) : M Z :=
  match fuel with
  | O => lift (Fault OutOfFuel)
  | S fuel =>
      _ ← pollWritable id;
      written ← write_to id data;
      if written =? 0 then send_loop fuel id data else mret written
  end.

Definition QuicConnection_send (id : Z) (data : list Z) : M Z :=
  closed ← get qc_closed;
  if (closed : bool) then custom Closed
  else if len data =? 0 then mret 0
  else send_loop 1 id data.

(** Every turn sends a byte at least. *)
Fixpoint sendAll_loop (fuel : nat) (id : Z) (data : list Z) : M unit :=
  match data with
  | [] => mret tt
  | _ =>
      match fuel with
      | O => lift (Fault OutOfFuel)
      | S fuel => bytes ← QuicConnection_send id data; sendAll_loop fuel id (zdrop bytes data)
      end
  end.
Definition QuicConnection_sendAll (id : Z) (data : list Z) : M unit := sendAll_loop (length data) id data.

Definition read_from (n : Z) (id : Z) (stream : QuicStream) : M (list Z) := state (fun c =>
  let '(bs, s) := QuicStream_read n stream in (bs, set_stream id s c)).

(** [select] of [pollReadable] and of the cancellation. *)
Fixpoint wait_readable (fuel : nat) (id : Z) : M unit :=
  match fuel with
  | O => lift (Fault OutOfFuel)
  | S fuel =>
      c ← get (fun c => c);
      if qc_cancelled c || match qc_streams c !! id with Some s => readable s | None => false end then mret tt
      else _ ← wait_worker; wait_readable fuel id
  end.

Fixpoint quic_receive_loop (fuel : nat) (id bufSize : Z) : M (list Z) :=
  match fuel with
  | O => lift (Fault OutOfFuel)
  | S fuel =>
      cancelled ← get qc_cancelled;
      if (cancelled : bool) then custom Closed
      else
        stream ← getStream id;
        bs ← read_from bufSize id stream;
        match bs with
        | [] => n ← get script_fuel; _ ← wait_readable n id; quic_receive_loop fuel id bufSize
        | _ => mret bs
        end
  end.

Definition QuicConnection_receive (id bufSize : Z) : M (list Z) :=
  closed ← get qc_closed;
  if (closed : bool) then custom Closed
  else if bufSize =? 0 then mret []
  else quic_receive_loop 2 id bufSize.

Definition QuicConnection_untilTimerExpiry : duration := fromMillis 100.
Definition QuicConnection_handleTimerExpiry : M unit :=
  c ← get id;
  match qc_fatalError c with
  | Some e => if qc_connected c then mret tt else throw e
  | None => mret tt
  end.

(** ** Connecting
    [socket] is the UDP socket, [client] what [localAddress] and
    [ngtcp2_conn_client_new] give, [tls] the result of the TLS session.  The
    object and its worker are there once there is a socket. *)
Definition new_QuicConnection (now : instant) (timeout : duration) (x : ngconn) (net : Net) (script : list (Wake * instant))
    : QuicConnection :=
  {| qc_connectDeadline := iadd now timeout; qc_nextExpiry := now; qc_conn := x; qc_net := net; qc_incoming := [];
     qc_streams := empty; qc_mainStreamId := -1; qc_closed := false; qc_closing := false; qc_totalBytesSent := 0;
     qc_totalBytesReceived := 0; qc_lastSendAttempt := now; qc_connected := false; qc_workerRunning := true;
     qc_congestion := false; qc_fatalError := None; qc_cancelled := false; qc_script := script; qc_accepted := [] |}.

Definition connect_steps (tls : TransportResult unit) (epoch : instant) (turns : list HandshakeTurn) : M unit :=
  _ ← lift tls;
  _ ← performHandshake epoch turns;
  id ← openStream;
  _ ← modify (fun c => set_streams (qc_streams c) id (qc_accepted c) c);
  modify (set_connected true).

(** What the scope of [connect] does when it is left with an error, and then the
    worker, which wakes from its cancellation and closes the connection at
    [ended].  The worker is the last that holds the object. *)
Definition abandon (ended : instant) : M unit := _ ← QuicConnection_closeSync; worker_end ended.

(** When [m_conn] is null, as [ngtcp2_conn_client_new] was not called or failed,
    the same has the worker ask ngtcp2 for the close packet of a null connection. *)
Definition QuicConnection_connect (now epoch ended : instant) (timeout : duration) (socket : TransportResult Net)
    (client : TransportResult ngconn) (tls : TransportResult unit) (turns : list HandshakeTurn)
    (script : list (Wake * instant)) : TransportResult unit * option QuicConnection :=
  match socket, client with
  | Err e, _ => (Err e, None)
  | Fault f, _ | _, Fault f => (Fault f, None)
  | Ok _, Err _ => (Fault NullDereference, None)
  | Ok net, Ok x =>
      let '(res, c) := connect_steps tls epoch turns (new_QuicConnection now timeout x net script) in
      match res with
      | Ok _ => (Ok tt, Some c)
      | Err e => (Err e, Some (abandon ended c).2)
      | Fault f => (Fault f, Some c)
      end
  end.
End QuicConnection.
