(* ===== verification/QuicConnSpec.v ===== *)
(** * QuicConnection: theorems

    The streams of a connection and what ngtcp2 knows of them stay in step,
    whatever arrives and whenever the worker runs, so that no assertion of the
    streams fails and [sendAll] gives the library its bytes in order; the
    handshake ends at its deadline; a close packet that cannot be sent leaves
    the connection half closed. *)
From S2P Require Import Prelude Dbuf Messages Time Errors Effects Stats QuicStream QuicStreamSpec QuicConn.

(** ** What is assumed of ngtcp2
    For each stream, how many bytes it has taken and how many of them it has
    reported as acknowledged.  It takes bytes only when it gives a packet, and
    reports acknowledgements in order, without a gap, of bytes that it took. *)
Fixpoint acks_reported (taken : Z -> Z) (evs : list NgEvent) (acked acked' : Z -> Z) : Prop :=
  match evs with
  | [] => acked' = acked
  | NgAcked id offset datalen :: evs =>
      offset = acked id /\ 0 <= datalen /\ offset + datalen <= taken id /\
      acks_reported taken evs (fun j => if j =? id then offset + datalen else acked j) acked'
  | _ :: evs => acks_reported taken evs acked acked'
  end.

Class NgLaws {T : TimeLib} {NG : Ngtcp2} := {
  ng_taken : ngconn -> Z -> Z;
  ng_acked : ngconn -> Z -> Z;
  same_write_pkt now x : let x' := (ng_write_pkt now x).2 in ng_taken x' = ng_taken x /\ ng_acked x' = ng_acked x;
  same_close now x : let x' := (ng_write_connection_close now x).2 in ng_taken x' = ng_taken x /\ ng_acked x' = ng_acked x;
  same_expiry now x : let x' := (ng_handle_expiry now x).2 in ng_taken x' = ng_taken x /\ ng_acked x' = ng_acked x;
  same_tx_time now x : let x' := ng_update_pkt_tx_time now x in ng_taken x' = ng_taken x /\ ng_acked x' = ng_acked x;
  writev_law id fin wrp now x :
    let '(res, x') := ng_writev_stream id fin wrp now x in
    ng_acked x' = ng_acked x /\ (forall j, j <> id -> ng_taken x' j = ng_taken x j) /\
    match res with
    | inr (_ :: _, n) => ng_taken x' id = ng_taken x id + Z.max 0 n /\ n <= len (wrp.1 ++ wrp.2)
    | _ => ng_taken x' id = ng_taken x id
    end;
  read_law packet now x :
    let '(_, evs, x') := ng_read_pkt packet now x in
    ng_taken x' = ng_taken x /\ acks_reported (ng_taken x) evs (ng_acked x) (ng_acked x');
  (** a stream that was just opened has an identifier, and nothing was sent on it *)
  open_law x :
    let '(code, id, x') := ng_open_bidi_stream x in
    ng_taken x' = ng_taken x /\ ng_acked x' = ng_acked x /\
    (code = 0 -> id <> -1 /\ ng_taken x id = 0 /\ ng_acked x id = 0);
}.

Section Spec.
Context {T : TimeLib} {C : CircularBuffer} {CL : CircularBufferLaws C} {NG : Ngtcp2} {NL : NgLaws}.
Variable walk : gmap Z QuicStream -> list Z.
Abbreviation M := (ST QuicConnection).

(** What a stream took, in all. *)
Definition history (id : Z) (accepted : list (Z * list Z)) : list Z :=
  mjoin ((fun p => if p.1 =? id then p.2 else []) <$> accepted).

Lemma history_app id a b : history id (a ++ b) = history id a ++ history id b.
Proof. unfold history. by rewrite fmap_app, join_app. Qed.

(** A stream, what it took, and what the library took and reported. *)
Record sender_ok (hist : list Z) (taken acked : Z) (s : QuicStream) : Prop := {
  so_buffer : contents (qs_sendBuffer s) = zdrop acked hist;
  so_fits : len (contents (qs_sendBuffer s)) <= cb_capacity (qs_sendBuffer s);
  so_ack : qs_ackOffset s <= taken;
  so_unacked : qs_unackedBytes s = taken - acked;
  so_offset : qs_streamOffset s = taken;
  so_order : 0 <= acked <= taken;
  so_taken : taken <= len hist;
  so_width : len hist < 2 ^ 62;
}.

Definition streams_ok (accepted : list (Z * list Z)) (taken acked : Z -> Z) (streams : gmap Z QuicStream) : Prop :=
  forall id s, streams !! id = Some s -> sender_ok (history id accepted) (taken id) (acked id) s.

(** What the invariant looks at. *)
Definition core (c : QuicConnection) : bool * list (Z * list Z) * (Z -> Z) * (Z -> Z) * gmap Z QuicStream :=
  (qc_workerRunning c, qc_accepted c, ng_taken (qc_conn c), ng_acked (qc_conn c), qc_streams c).

(** As long as the worker runs. *)
Definition core_ok (v : bool * list (Z * list Z) * (Z -> Z) * (Z -> Z) * gmap Z QuicStream) : Prop :=
  let '(running, accepted, taken, acked, streams) := v in running = true -> streams_ok accepted taken acked streams.
Definition inv (c : QuicConnection) : Prop := core_ok (core c).

(** ** The operations of a stream *)
Lemma sender_advance hist taken acked n s :
  sender_ok hist taken acked s -> 0 <= n -> taken + n <= len hist -> sender_ok hist (taken + n) acked (advanceSentData n s).
Proof.
  intros [] Hn Hl. split; cbn; try done; try lia.
  - rewrite so_unacked0, u_small by lia. lia.
  - rewrite so_offset0, u_small by lia. lia.
Qed.

Lemma sender_ack {X} hist taken acked n s :
  sender_ok hist taken acked s -> 0 <= n -> acked + n <= taken ->
  exists s', QuicStream_onAck (E := X) acked n s = Ok s' /\ sender_ok hist taken (acked + n) s'.
Proof.
  intros [] Hn Hl. unfold QuicStream_onAck, qn_assert. cbn. rewrite so_unacked0, so_offset0, !u_small by lia.
  destruct (Z.leb_spec (acked + n) taken); [|lia]. cbn.
  destruct (Z.eqb_spec (taken - acked - n) (taken - (acked + n))); [|lia]. cbn. eexists. split; [reflexivity|].
  assert (0 <= n <= len (contents (qs_sendBuffer s))) as Hb by (rewrite so_buffer0, len_zdrop; lia).
  split; cbn; try done; try lia.
  - rewrite cb_skip_law, so_buffer0, zdrop_zdrop by lia. done.
  - rewrite cb_capacity_skip, cb_skip_law, len_zdrop by lia. lia.
Qed.

Lemma sender_write hist taken acked data s :
  sender_ok hist taken acked s -> len hist + len data < 2 ^ 62 ->
  let '(n, s') := QuicStream_write data s in sender_ok (hist ++ ztake n data) taken acked s'.
Proof.
  intros [] Hl. pose proof (write_spec data s) as Hw. pose proof (write_fits data s so_fits0) as Hf.
  destruct (QuicStream_write data s) as [n s']. destruct Hw as (Hn & Hc & _ & Ha & Hu & Ho). cbn in Hf.
  split; rewrite ?Ha, ?Hu, ?Ho; try done.
  - rewrite Hc, so_buffer0. unfold zdrop. by rewrite drop_app_le by lia.
  - rewrite length_app, Nat2Z.inj_add. lia.
  - rewrite length_app, Nat2Z.inj_add, len_ztake_max. lia.
Qed.

Lemma sender_recv hist taken acked b s : sender_ok hist taken acked s -> sender_ok hist taken acked (set_recvBuffer b s).
Proof. by intros []. Qed.

Lemma sender_received hist taken acked data s :
  sender_ok hist taken acked s -> sender_ok hist taken acked (QuicStream_onReceivedData data s).
Proof. intros H. unfold QuicStream_onReceivedData. case_match; [by apply sender_recv|done]. Qed.

Lemma new_sender acc id : history id acc = [] -> sender_ok (history id acc) 0 0 (new_QuicStream id).
Proof.
  intros ->. split; cbn; rewrite ?contents_new; cbn; try done; try lia.
  pose proof (cb_capacity_new INITIAL_BUFFER_SIZE). unfold INITIAL_BUFFER_SIZE in *. lia.
Qed.

Lemma streams_insert acc t a t' a' m id s :
  streams_ok acc t a m -> sender_ok (history id acc) (t' id) (a' id) s ->
  (forall j, j <> id -> t' j = t j /\ a' j = a j) -> streams_ok acc t' a' (<[id := s]> m).
Proof.
  intros Hm Hs Hj j x. rewrite lookup_insert. case_decide as Hd; [by intros [= <-]; subst|].
  intros Hx. destruct (Hj j) as [-> ->]; [done|]. by apply Hm.
Qed.

(** ** The steps that the streams do not see *)
Lemma keeps_updating {A} (f : ngconn -> A * ngconn) :
  (forall x, ng_taken (f x).2 = ng_taken x /\ ng_acked (f x).2 = ng_acked x) -> keeps core (ng_updating f).
Proof.
  intros H c. specialize (H (qc_conn c)). unfold ng_updating, state. destruct (f (qc_conn c)) as [a x]. cbn in *.
  destruct H as [H1 H2]. unfold core. cbn. by rewrite H1, H2.
Qed.

Lemma keeps_call {A} (f : ngconn -> A * ngconn) :
  (forall x, ng_taken (f x).2 = ng_taken x /\ ng_acked (f x).2 = ng_acked x) -> keeps core (ng_call f).
Proof.
  intros H c. specialize (H (qc_conn c)). unfold ng_call, state. destruct (f (qc_conn c)) as [a x]. cbn in *.
  destruct H as [H1 H2]. unfold core. cbn. by rewrite H1, H2.
Qed.

Lemma keeps_in_net {A} (m : ST Net A) : keeps core (in_net m).
Proof. by apply keeps_outside. Qed.

Lemma keeps_write_pkt now : keeps core (ng_updating (ng_write_pkt now)).
Proof. apply keeps_updating, same_write_pkt. Qed.
Lemma keeps_tx_time now : keeps core (ng_updating (fun x => (tt, ng_update_pkt_tx_time now x))).
Proof. apply keeps_updating. intros x. apply same_tx_time. Qed.
Lemma keeps_close now : keeps core (ng_call (ng_write_connection_close now)).
Proof. apply keeps_call, same_close. Qed.
Lemma keeps_expiry now : keeps core (ng_call (ng_handle_expiry now)).
Proof. apply keeps_call, same_expiry. Qed.
#[local] Hint Resolve keeps_in_net keeps_write_pkt keeps_tx_time keeps_close keeps_expiry : keeps.

Lemma keeps_sendPacket now buf : keeps core (sendPacket now buf).
Proof. unfold sendPacket, shouldLosePacket. keeps_auto. Qed.
#[local] Hint Resolve keeps_sendPacket : keeps.

Lemma keeps_nonstream now : keeps core (sendNonStreamPacket now).
Proof. unfold sendNonStreamPacket, wrapWritePacket. keeps_auto. Qed.
Lemma keeps_handshake now : keeps core (sendHandshakePacket now).
Proof. unfold sendHandshakePacket, wrapWritePacket. keeps_auto. Qed.
Lemma keeps_sendClose now : keeps core (sendClosePacket now).
Proof. unfold sendClosePacket. keeps_auto. Qed.
Lemma keeps_closeSync : keeps core QuicConnection_closeSync.
Proof. unfold QuicConnection_closeSync. keeps_auto. Qed.
#[local] Hint Resolve keeps_nonstream keeps_handshake keeps_sendClose keeps_closeSync : keeps.
Lemma keeps_quic_close now : keeps core (QuicConnection_close now).
Proof. unfold QuicConnection_close. keeps_auto. Qed.

Lemma returns_ng_updating {A} (f : ngconn -> A * ngconn) : returns (ng_updating f).
Proof. apply returns_state. Qed.
Lemma returns_ng_call {A} (f : ngconn -> A * ngconn) : returns (ng_call f).
Proof. apply returns_state. Qed.
Lemma returns_in_net {A} (m : ST Net A) : returns m -> returns (in_net m).
Proof. apply returns_focus. Qed.
#[local] Hint Resolve returns_ng_updating returns_ng_call returns_in_net : returns.

Lemma returns_sendPacket now buf : returns (sendPacket now buf).
Proof. unfold sendPacket, shouldLosePacket. returns_auto. Qed.
#[local] Hint Resolve returns_sendPacket : returns.
Lemma returns_nonstream now : returns (sendNonStreamPacket now).
Proof. unfold sendNonStreamPacket, wrapWritePacket. returns_auto. Qed.
Lemma returns_handshake now : returns (sendHandshakePacket now).
Proof. unfold sendHandshakePacket, wrapWritePacket. returns_auto. Qed.
Lemma returns_sendClose now : returns (sendClosePacket now).
Proof. unfold sendClosePacket. returns_auto. Qed.
Lemma returns_closeSync : returns QuicConnection_closeSync.
Proof. unfold QuicConnection_closeSync. returns_auto. Qed.
#[local] Hint Resolve returns_nonstream returns_handshake returns_sendClose returns_closeSync : returns.
Lemma returns_quic_close now : returns (QuicConnection_close now).
Proof. unfold QuicConnection_close. returns_auto. Qed.

(** ** The worker *)
Definition sound_streams (c : QuicConnection) : Prop :=
  streams_ok (qc_accepted c) (ng_taken (qc_conn c)) (ng_acked (qc_conn c)) (qc_streams c).
Definition live (c : QuicConnection) : Prop := qc_workerRunning c = true /\ sound_streams c.

Lemma live_inv c : live c -> inv c.
Proof. by intros [_ H] _. Qed.
Lemma inv_live c : inv c -> qc_workerRunning c = true -> live c.
Proof. intros H Hr. split; [done|by apply H]. Qed.
Lemma dead_inv c : qc_workerRunning c = false -> inv c.
Proof. unfold inv, core, core_ok. intros ->. done. Qed.

Lemma streams_ext acc t a t' a' m :
  (forall j, t' j = t j /\ a' j = a j) -> streams_ok acc t a m -> streams_ok acc t' a' m.
Proof. intros Hj Hm id s Hs. destruct (Hj id) as [-> ->]. by apply Hm. Qed.

Lemma live_keeps {A} (m : M A) : keeps core m -> returns m -> triple live m (fun _ => live) live.
Proof.
  pose proof (triple_keeps core (fun v => v.1.1.1.1 = true /\ core_ok v) m) as H. intros Hk Hr.
  eapply triple_conseq; [by apply H|..]; cbn beta.
  - intros s [Hl Hs]. split; [done|]. by intros _.
  - intros _ s [Hl Hs]. by apply inv_live.
  - intros s [Hl Hs]. by apply inv_live.
Qed.

Lemma core_eq (c c' : QuicConnection) : core c' = core c ->
  qc_workerRunning c' = qc_workerRunning c /\ qc_accepted c' = qc_accepted c /\ ng_taken (qc_conn c') = ng_taken (qc_conn c) /\
  ng_acked (qc_conn c') = ng_acked (qc_conn c) /\ qc_streams c' = qc_streams c.
Proof. unfold core. by intros [= -> -> -> -> ->]. Qed.

Lemma sendPacket_err now buf c : match (sendPacket now buf c).1 with
  | Ok _ => True | Err e => isCongestionRelatedError e = false | Fault _ => False end.
Proof.
  unfold sendPacket, shouldLosePacket, in_net, focus, state, ng_updating, mbind, ST_bind.
  destruct (randomChance _ _) as [lost n]. destruct lost; [done|]. cbn. unfold socket_send.
  by destruct (net_errors n) as [|[e|] es].
Qed.

Lemma sendStreamData_spec now id stream c :
  live c -> qc_streams c !! id = Some stream ->
  match sendStreamData now id stream false c with
  | (Ok _, c') => live c'
  | (Err e, c') => isCongestionRelatedError e = true -> live c'
  | (Fault _, _) => False
  end.
Proof.
  intros [Hr Hs] Hid. pose proof (Hs id stream Hid) as Hso. unfold sendStreamData.
  assert (0 <= qs_unackedBytes stream) as Hun by (destruct Hso; lia).
  pose proof (peek_spec stream Hun) as Hpeek. set (wrp := peekUnsentData stream) in *. rewrite andb_true_r.
  destruct (bool_decide (wrp.1 = []) && bool_decide (wrp.2 = [])); [done|]. unfold ng_updating, state, mbind, ST_bind.
  pose proof (writev_law id false wrp now (qc_conn c)) as Hw.
  destruct (ng_writev_stream id false wrp now (qc_conn c)) as [res x]. destruct Hw as (Ha & Ho & Hres).
  set (c1 := set_ngconn x (ng_get_expiry x) c). cbn beta iota.
  assert (ng_taken x id = ng_taken (qc_conn c) id -> live c1) as Hsame.
  { intros Ht. split; [done|]. apply (streams_ext _ (ng_taken (qc_conn c)) (ng_acked (qc_conn c))); [|done].
    intros j. cbn. rewrite Ha. split; [|done]. destruct (decide (j = id)) as [->|]; [done|by apply Ho]. }
  destruct res as [code|[packet n]]; [intros _; by apply Hsame|].
  destruct packet as [|b packet]; [intros _; by apply Hsame|]. destruct Hres as [Ht Hn].
  pose proof (sendPacket_err now (b :: packet) c1) as He. pose proof (keeps_sendPacket now (b :: packet) c1) as Hk.
  destruct (sendPacket now (b :: packet) c1) as [[[]|e|f] c2]; [|by cbn in He; rewrite He|done]. cbn in Hk.
  apply core_eq in Hk as (Hr2 & Hacc2 & Ht2 & Ha2 & Hs2).
  assert (sender_ok (history id (qc_accepted c)) (ng_taken x id) (ng_acked x id)
    (if 0 <? n then advanceSentData n stream else stream)) as Hnew.
  { rewrite Ha, Ht. destruct (Z.ltb_spec 0 n).
    - rewrite Z.max_r by lia. apply sender_advance; [done|lia|].
      destruct Hso. rewrite Hpeek, so_buffer0, len_zdrop_max, so_unacked0, len_zdrop in Hn by lia. lia.
    - by rewrite Z.max_l, Z.add_0_r by lia. }
  assert (sound_streams (set_streams (<[id := if 0 <? n then advanceSentData n stream else stream]> (qc_streams c))
    (qc_mainStreamId c2) (qc_accepted c) c2)) as Hsound.
  { unfold sound_streams. cbn. rewrite Ht2, Ha2. eapply streams_insert; [exact Hs|done|]. intros j Hj. cbn.
    rewrite Ha. by rewrite Ho. }
  destruct (0 <? n).
  - unfold modify, update_stream. cbn in Hs2. rewrite Hs2, Hid. split; [exact (eq_trans Hr2 Hr)|]. unfold set_stream. cbn in Hacc2.
    by rewrite Hs2, Hacc2.
  - unfold mret, ST_ret. split; [exact (eq_trans Hr2 Hr)|]. unfold sound_streams in *. cbn in *.
    by rewrite Hs2, Hacc2, <- (insert_id (qc_streams c) id stream Hid).
Qed.

(** An error that is not one of congestion ends the worker. *)
Abbreviation anyhow := (fun _ : QuicConnection => True).

Lemma mapErr_send now id stream :
  triple (fun c => live c /\ qc_streams c !! id = Some stream) (mapErr (sendStreamData now id stream false)) (fun _ => live) anyhow.
Proof.
  intros c [Hl Hid]. pose proof (sendStreamData_spec now id stream c Hl Hid) as Hs.
  unfold mapErr, attempt, mbind, ST_bind, mret, ST_ret.
  destruct (sendStreamData now id stream false c) as [[[]|e|f] c']; [done| |done].
  destruct (isCongestionRelatedError e); [|done]. by apply Hs.
Qed.

Lemma triple_anyhow {A} P (m : M A) Q E : triple P m Q E -> triple P m Q anyhow.
Proof. intros H. by eapply triple_conseq; [exact H|..]. Qed.

Lemma attempt_live {A} (m : M A) : triple live m (fun _ => live) live -> triple live (attempt m) (fun _ => live) live.
Proof. intros H. eapply triple_conseq; [by apply (triple_attempt _ _ _ _ H)|done| |done]. by intros [] c. Qed.

Lemma mapErr_nonstream now : triple live (mapErr (sendNonStreamPacket now)) (fun _ => live) anyhow.
Proof.
  intros c Hc. pose proof (returns_nonstream now c) as Hf.
  pose proof (live_keeps _ (keeps_nonstream now) (returns_nonstream now) c Hc) as Hl.
  unfold mapErr, attempt, mbind, ST_bind, mret, ST_ret.
  destruct (sendNonStreamPacket now c) as [[[]|e|f] c']; [done| |done]. by destruct (isCongestionRelatedError e).
Qed.

Lemma write_streams_ok now ids : triple live (write_streams now ids) (fun _ => live) anyhow.
Proof.
  induction ids as [|id ids IH]; cbn; [by intros c|]. apply triple_read. intros [stream|].
  - destruct (unflushedBytes stream =? 0); [by intros c [Hc _]; apply IH|].
    eapply triple_bind; [apply mapErr_send|]. intros ?. apply triple_read. intros [].
    + by intros c [Hc _].
    + by intros c [Hc _]; apply IH.
  - by intros c [Hc _]; apply IH.
Qed.

Lemma workerHandleWrites_ok now : triple live (workerHandleWrites walk now) (fun _ => live) anyhow.
Proof.
  unfold workerHandleWrites. apply (triple_bind _ _ (fun _ => live)); [by apply triple_modify|]. intros ?.
  apply triple_read. intros ids. eapply (triple_bind _ _ (fun _ => live)).
  { intros c [Hc _]. by apply write_streams_ok. }
  intros ?. apply triple_read. intros []; [by intros c [Hc _]|]. intros c [Hc _]. by apply mapErr_nonstream.
Qed.

Lemma handleExpiry_ok now : triple live (handleExpiry now) (fun _ => live) live.
Proof.
  unfold handleExpiry. eapply triple_bind; [apply live_keeps; [apply keeps_expiry|apply returns_ng_call]|].
  intros code. cbv beta. destruct (code =? NGTCP2_ERR_IDLE_CLOSE); by intros c.
Qed.

Lemma handle_events_ok evs : forall c acked,
  qc_workerRunning c = true -> streams_ok (qc_accepted c) (ng_taken (qc_conn c)) acked (qc_streams c) ->
  acks_reported (ng_taken (qc_conn c)) evs acked (ng_acked (qc_conn c)) ->
  exists c', handle_events evs c = (Ok tt, c') /\ live c'.
Proof.
  induction evs as [|ev evs IH]; intros c acked Hr Hs Hev; cbn in *.
  - subst. by exists c.
  - unfold update, mbind, ST_bind. destruct ev as [id data|id off n|id]; cbn.
    + apply (IH _ acked); unfold onReceivedData; destruct (qc_streams c !! id) as [s|] eqn:Hid; try done; cbn.
      apply (streams_insert _ _ _ _ _ _ _ _ Hs); [|done]. apply sender_received. by apply Hs.
    + destruct Hev as (-> & Hn & Hle & Hev). unfold onAckedData. destruct (qc_streams c !! id) as [s|] eqn:Hid.
      * destruct (sender_ack (X := TransportError) _ _ _ _ _ (Hs id s Hid) Hn Hle) as (s' & Hack & Hso). rewrite Hack. cbn.
        eapply IH; [done| |exact Hev]. cbn. apply (streams_insert _ _ _ _ _ _ _ _ Hs); cbn; [by rewrite Z.eqb_refl|].
        intros j Hj. by destruct (Z.eqb_spec j id).
      * eapply IH; [done| |exact Hev]. intros j s Hj. destruct (Z.eqb_spec j id); [congruence|]. by apply Hs.
    + apply (IH _ acked); [done| |done]. cbn. intros j s Hj. apply lookup_delete_Some in Hj as [_ Hj]. by apply Hs.
Qed.

Lemma receivePacket_ok now block : triple live (receivePacket now block) (fun _ => live) live.
Proof.
  unfold receivePacket. eapply (triple_bind _ _ (fun _ => live)).
  { intros c Hc. unfold quic_recv. destruct (qc_incoming c) as [|[e|d] rest]; [by destruct block|done..]. }
  intros [packet|]; [|by intros c]. intros c [Hr Hs]. unfold ng_call, state, mbind, ST_bind.
  pose proof (read_law packet now (qc_conn c)) as Hread. destruct (ng_read_pkt packet now (qc_conn c)) as [[code evs] x].
  destruct Hread as [Ht Hev]. cbn.
  destruct (handle_events_ok evs (set_ngconn x (qc_nextExpiry c) c) (ng_acked (qc_conn c))) as (c' & -> & Hl); [done|..]; cbn.
  { intros id s Hid. cbn in Hid. rewrite Ht. by apply Hs. }
  { by rewrite Ht. }
  destruct (code =? 0); [done|]. by destruct (code =? NGTCP2_ERR_CRYPTO).
Qed.
End Spec.
