(* ===== verification/QuicConnSend.v ===== *)
(** * QuicConnection: the calls of a transport

    While they wait the worker runs, in turns of any kind; what they wrote stays
    in order whatever it does, and the library is given it in that order. *)
From S2P Require Import Prelude Dbuf Messages Time Errors Effects Stats QuicStream QuicStreamSpec QuicConn QuicConnSpec.

Section Send.
Context {T : TimeLib} {C : CircularBuffer} {CL : CircularBufferLaws C} {NG : Ngtcp2} {NL : NgLaws}.
Variable walk : gmap Z QuicStream -> list Z.
Abbreviation M := (ST QuicConnection).

(** ** A turn of the worker *)
Lemma worker_event_ok wake now : triple live (worker_event wake now) (fun _ => live) live.
Proof.
  destruct wake; cbn; try by intros c.
  - apply (triple_bind _ _ (fun _ => live)); [by apply triple_modify|]. intros ?.
    apply (triple_bind _ _ (fun _ => live)); [|by intros ? c]. apply attempt_live, receivePacket_ok.
  - apply (triple_bind _ _ (fun _ => live)); [apply attempt_live, handleExpiry_ok|]. intros [a|e|f]; by intros c.
Qed.

Lemma worker_end_ok now c : exists c', worker_end now c = (Ok tt, c') /\ inv c'.
Proof.
  unfold worker_end, attempt, mbind, ST_bind, modify. pose proof (returns_quic_close now c) as Hf.
  destruct (QuicConnection_close now c) as [[[]|e|f] c']; [| |done]; eexists; (split; [reflexivity|by apply dead_inv]).
Qed.

(** What it writes it does not wait for. *)
Lemma returns_mapErr (m : M unit) : returns m -> returns (mapErr m).
Proof.
  intros Hm c. specialize (Hm c). unfold mapErr, attempt, mbind, ST_bind.
  destruct (m c) as [[[]|e|f] c']; [done| |done]. by destruct (isCongestionRelatedError e).
Qed.

Lemma returns_sendStreamData now id stream fin : returns (sendStreamData now id stream fin).
Proof.
  unfold sendStreamData. pose proof (returns_sendPacket now). pose proof @returns_ng_updating. returns_auto.
Qed.

Lemma returns_write_streams now ids : returns (write_streams now ids).
Proof.
  induction ids; cbn; [apply returns_ret|]. pose proof returns_sendStreamData. pose proof returns_mapErr. returns_auto.
Qed.

Lemma returns_workerHandleWrites now : returns (workerHandleWrites walk now).
Proof.
  unfold workerHandleWrites. pose proof returns_write_streams. pose proof returns_mapErr. pose proof returns_nonstream. returns_auto.
Qed.

Lemma worker_turn_ok wake now : triple inv (worker_turn walk wake now) (fun _ => inv) inv.
Proof.
  intros c Hc. unfold worker_turn, get, id, mbind at 1, ST_bind at 1.
  destruct (qc_workerRunning c) eqn:Hr; cbn [negb]; [|done]. pose proof (inv_live _ Hc Hr) as Hl.
  destruct (qc_cancelled c || negb (qc_connected c)); [by destruct (worker_end_ok now c) as (c' & -> & Hi)|].
  pose proof (workerHandleWrites_ok walk now c Hl) as Hw. pose proof (returns_workerHandleWrites now c) as Hf. unfold attempt, mbind, ST_bind.
  destruct (workerHandleWrites walk now c) as [[[]|e|f] c1].
  - pose proof (worker_event_ok wake now c1 Hw) as He. destruct (worker_event wake now c1) as [[[]|e|[]] c2]; try done; by apply live_inv.
  - by destruct (worker_end_ok now c1) as (c' & -> & Hi).
  - done.
Qed.

(** ** What neither the worker nor the handshake changes
    A part of the state that the callbacks, which change the streams only, do not
    reach. *)
Definition stream_blind {B} (f : QuicConnection -> B) : Prop :=
  forall streams c, f (set_streams streams (qc_mainStreamId c) (qc_accepted c) c) = f c.

Lemma keeps_handle_events {B} (f : QuicConnection -> B) evs : stream_blind f -> keeps f (handle_events evs).
Proof.
  intros Hf. induction evs as [|ev evs IH]; cbn; [keeps_auto|]. apply keeps_bind; [|done]. apply keeps_update. intros c c'.
  destruct ev; cbn.
  - intros [= <-]. unfold onReceivedData. destruct (qc_streams c !! streamId); [apply Hf|done].
  - unfold onAckedData. destruct (qc_streams c !! streamId); [|by intros [= <-]].
    destruct (QuicStream_onAck _ _ _); cbn; intros [= <-]. apply Hf.
  - intros [= <-]. apply Hf.
Qed.

(** A part of the state that the library, the socket and the callbacks do not
    reach. *)
Record blind {B} (f : QuicConnection -> B) : Prop := {
  blind_ngconn x nextExpiry c : f (set_ngconn x nextExpiry c) = f c;
  blind_socket net incoming sent received last c : f (set_socket net incoming sent received last c) = f c;
  blind_streams : stream_blind f;
}.

Section Blind.
Context {B : Type} (f : QuicConnection -> B) (Hf : blind f).

Lemma blind_updating {A} (g : ngconn -> A * ngconn) : keeps f (ng_updating g).
Proof. apply keeps_state. intros c. destruct (g (qc_conn c)). by apply blind_ngconn. Qed.
Lemma blind_call {A} (g : ngconn -> A * ngconn) : keeps f (ng_call g).
Proof. apply keeps_state. intros c. destruct (g (qc_conn c)). by apply blind_ngconn. Qed.
Lemma blind_in_net {A} (m : ST Net A) : keeps f (in_net m).
Proof. apply keeps_outside. intros. by apply blind_socket. Qed.
#[local] Hint Resolve blind_updating blind_call blind_in_net : keeps.

Lemma blind_sendPacket now buf : keeps f (sendPacket now buf).
Proof. unfold sendPacket, shouldLosePacket. keeps_auto. by apply blind_socket. Qed.
#[local] Hint Resolve blind_sendPacket : keeps.
Lemma blind_nonstream now : keeps f (sendNonStreamPacket now).
Proof. unfold sendNonStreamPacket, wrapWritePacket. keeps_auto. Qed.
Lemma blind_handshake now : keeps f (sendHandshakePacket now).
Proof. unfold sendHandshakePacket, wrapWritePacket. keeps_auto. Qed.
Lemma blind_sendClose now : keeps f (sendClosePacket now).
Proof. unfold sendClosePacket. keeps_auto. Qed.

Lemma blind_update_stream id g c : f (update_stream id g c) = f c.
Proof. unfold update_stream. destruct (qc_streams c !! id); [by apply blind_streams|done]. Qed.
Lemma blind_sendStreamData now id stream fin : keeps f (sendStreamData now id stream fin).
Proof. unfold sendStreamData. keeps_auto. apply blind_update_stream. Qed.

Lemma blind_handle_events evs : keeps f (handle_events evs).
Proof. apply keeps_handle_events, blind_streams, Hf. Qed.
Lemma blind_recv block : keeps f (quic_recv block).
Proof. intros c. unfold quic_recv. destruct (qc_incoming c); [done|]. by apply blind_socket. Qed.
#[local] Hint Resolve blind_handle_events blind_recv : keeps.
Lemma blind_receivePacket now block : keeps f (receivePacket now block).
Proof. unfold receivePacket. keeps_auto. Qed.
Lemma blind_arrive ps c : f (arrive ps c) = f c.
Proof. by apply blind_socket. Qed.
End Blind.
#[local] Hint Resolve blind_updating blind_call blind_nonstream blind_sendClose blind_sendStreamData blind_receivePacket : keeps.

Definition log (c : QuicConnection) : list (Z * list Z) * list (Wake * instant) * Z :=
  (qc_accepted c, qc_script c, qc_mainStreamId c).
Lemma blind_log : blind log.
Proof. done. Qed.
#[local] Hint Resolve blind_log : keeps.

Lemma log_mapErr m : keeps log m -> keeps log (mapErr m).
Proof. intros Hm. unfold mapErr. keeps_auto. Qed.
#[local] Hint Resolve log_mapErr : keeps.
Lemma log_write_streams now ids : keeps log (write_streams now ids).
Proof. induction ids; cbn; keeps_auto. Qed.
#[local] Hint Resolve log_write_streams : keeps.
Lemma log_writes now : keeps log (workerHandleWrites walk now).
Proof. unfold workerHandleWrites. keeps_auto. Qed.
Lemma log_close now : keeps log (QuicConnection_close now).
Proof. unfold QuicConnection_close, QuicConnection_closeSync. keeps_auto. Qed.
Lemma log_handleExpiry now : keeps log (handleExpiry now).
Proof. unfold handleExpiry. keeps_auto. Qed.
#[local] Hint Resolve log_writes log_close log_handleExpiry : keeps.
Lemma log_worker_end now : keeps log (worker_end now).
Proof. unfold worker_end. keeps_auto. Qed.
Lemma log_event wake now : keeps log (worker_event wake now).
Proof. unfold worker_event. keeps_auto. Qed.
#[local] Hint Resolve log_worker_end log_event : keeps.
Lemma log_worker_turn wake now : keeps log (worker_turn walk wake now).
Proof. unfold worker_turn. keeps_auto. Qed.

(** ** Waiting
    The streams are in step, and took these bytes. *)
Definition kept (acc : list (Z * list Z)) (c : QuicConnection) : Prop := inv c /\ qc_accepted c = acc.
Definition ready_stream (ready : QuicStream -> bool) (id : Z) (c : QuicConnection) : Prop :=
  exists s, qc_streams c !! id = Some s /\ ready s = true.

Lemma wait_worker_ok acc n :
  triple (fun c => kept acc c /\ length (qc_script c) < S n)%nat (wait_worker walk)
    (fun _ c => kept acc c /\ length (qc_script c) < n)%nat (kept acc).
Proof.
  intros c [[Hi Ha] Hn]. unfold wait_worker. destruct (qc_script c) as [|[wake now] script] eqn:Hs; [done|].
  assert (inv (set_script script c)) as Hi' by done. pose proof (worker_turn_ok wake now _ Hi') as Ht.
  pose proof (log_worker_turn wake now (set_script script c)) as Hl. unfold log in Hl. cbn in Hl, Hn.
  destruct (worker_turn walk wake now (set_script script c)) as [[[]|e|[]] c']; cbn in Hl; try done;
    injection Hl as Ha' Hs' _; unfold kept; rewrite ?Hs', Ha'; split_and?; (done || lia).
Qed.

Lemma poll_stream_ok acc ready id fuel :
  triple (fun c => kept acc c /\ length (qc_script c) < fuel)%nat (poll_stream walk fuel ready id)
    (fun _ c => kept acc c /\ ready_stream ready id c) (kept acc).
Proof.
  induction fuel as [|fuel IH]; cbn; [intros c []; lia|].
  intros c [Hk Hn]. unfold get, mbind at 1, ST_bind at 1.
  destruct (match qc_streams c !! id with Some s => ready s | None => false end) eqn:Hr.
  - split; [done|]. unfold ready_stream. destruct (qc_streams c !! id); [by eexists|done].
  - by apply (triple_bind _ _ _ _ _ _ (wait_worker_ok acc fuel) (fun _ => IH)).
Qed.

Lemma pollWritable_ok acc id :
  triple (kept acc) (pollWritable walk id) (fun _ c => kept acc c /\ ready_stream writable id c) (kept acc).
Proof.
  intros c Hk. unfold pollWritable, getStream, get, mbind, ST_bind.
  destruct (qc_streams c !! id); [|done]. apply poll_stream_ok. split; [done|]. unfold script_fuel. lia.
Qed.

(** ** Writing *)
Lemma history_one id j bs : history id [(j, bs)] = if j =? id then bs else [].
Proof. unfold history. cbn. by rewrite app_nil_r. Qed.

Lemma write_to_ok acc id data :
  data <> [] -> len (history id acc) + len data < 2 ^ 62 ->
  triple (fun c => kept acc c /\ ready_stream writable id c) (write_to id data)
    (fun n c => 0 < n <= len data /\ kept (acc ++ [(id, ztake n data)]) c) (kept acc).
Proof.
  intros Hd Hl c [[Hi Ha] (s & Hid & Hw)]. unfold write_to, state. rewrite Hid.
  assert (0 < len data) as Hpos by (destruct data; [done|cbn; lia]).
  pose proof (fun t a => sender_write (history id acc) t a data s) as Hso.
  assert (0 < (QuicStream_write data s).1 <= len data) as Hn.
  { unfold writable in Hw. unfold QuicStream_write. destruct (Z.eqb_spec (sendCapacity s) 0); [done|].
    pose proof (u_range 64 ((if 0 <? qs_unackedBytes s then cb_capacity (qs_sendBuffer s) else MAX_BUFFER_SIZE) - cb_size (qs_sendBuffer s)) ltac:(lia)) as Hu.
    fold (sendCapacity s) in Hu. cbn. lia. }
  destruct (QuicStream_write data s) as [n s']. cbn in Hn. split; [done|]. split; [|by cbn; rewrite Ha].
  intros Hr. specialize (Hi Hr). cbn in *. rewrite Ha in *.
  intros j x. rewrite lookup_insert, history_app, history_one. case_decide as Hj.
  - intros [= <-]. subst j. rewrite Z.eqb_refl. apply Hso; [by apply Hi|done].
  - intros Hx. destruct (Z.eqb_spec id j); [congruence|]. rewrite app_nil_r. by apply Hi.
Qed.

Lemma send_ok acc id data :
  data <> [] -> len (history id acc) + len data < 2 ^ 62 ->
  triple (kept acc) (QuicConnection_send walk id data)
    (fun n c => 0 < n <= len data /\ kept (acc ++ [(id, ztake n data)]) c) (kept acc).
Proof.
  intros Hd Hl. unfold QuicConnection_send. apply triple_read. intros []; [by intros c []|].
  assert (0 < len data) as Hpos by (destruct data; [done|cbn; lia]).
  destruct (Z.eqb_spec (len data) 0); [lia|]. intros c [Hk _]. revert c Hk. cbn.
  eapply (triple_bind _ _ _ _ _ _ (pollWritable_ok acc id)). intros _.
  eapply triple_bind; [by apply write_to_ok|]. intros k c [Hk Hkept]. destruct (Z.eqb_spec k 0); [lia|done].
Qed.

(** The bytes of the chunks that were taken. *)
Definition taken_by (id : Z) (chunks : list (list Z)) : list (Z * list Z) := (fun bs => (id, bs)) <$> chunks.

Lemma history_taken id chunks : history id (taken_by id chunks) = mjoin chunks.
Proof.
  induction chunks as [|bs chunks IH]; [done|]. change (history id ([(id, bs)] ++ taken_by id chunks) = bs ++ mjoin chunks).
  by rewrite history_app, history_one, Z.eqb_refl, IH.
Qed.

(** What is taken of [data], when [acc] is what was taken before. *)
Definition grown (acc : list (Z * list Z)) (id : Z) (upto : list Z -> Prop) (c : QuicConnection) : Prop :=
  exists chunks, kept (acc ++ taken_by id chunks) c /\ upto (mjoin chunks).

Lemma grown_more acc id n data upto c :
  grown (acc ++ [(id, ztake n data)]) id upto c -> grown acc id (fun bs => exists rest, bs = ztake n data ++ rest /\ upto rest) c.
Proof.
  intros (chunks & Hk & Hu). exists (ztake n data :: chunks). split; [|by eexists]. by rewrite <- app_assoc in Hk.
Qed.

Lemma grown_weaken acc id (u v : list Z -> Prop) c : (forall bs, u bs -> v bs) -> grown acc id u c -> grown acc id v c.
Proof. intros H (chunks & Hk & Hu). exists chunks. eauto. Qed.

Lemma sendAll_loop_ok id fuel : forall acc data,
  (length data <= fuel)%nat -> len (history id acc) + len data < 2 ^ 62 ->
  triple (kept acc) (sendAll_loop walk fuel id data)
    (fun _ => grown acc id (fun bs => bs = data)) (grown acc id (fun bs => exists rest, data = bs ++ rest)).
Proof.
  induction fuel as [|fuel IH]; intros acc data Hfuel Hl.
  - destruct data; [|cbn in Hfuel; lia]. intros c Hc. exists []. unfold taken_by. cbn. by rewrite app_nil_r.
  - destruct data as [|b data]; [intros c Hc; exists []; unfold taken_by; cbn; by rewrite app_nil_r|].
    cbn [sendAll_loop]. set (all := b :: data) in *. eapply triple_bind.
    + eapply triple_conseq; [by apply (send_ok acc id all)|done|intros n c H; exact H|]. cbn beta.
      intros c Hc. exists []. unfold taken_by. cbn. rewrite app_nil_r. eauto.
    + intros n c [Hn Hk]. assert (len (zdrop n all) = len all - n) as Hd by (apply len_zdrop; lia).
      eapply triple_conseq; [apply (IH (acc ++ [(id, ztake n all)]) (zdrop n all))|intros s H; exact H| | |exact Hk]; cbn beta.
      * lia.
      * rewrite history_app, history_one, Z.eqb_refl, length_app, Nat2Z.inj_add, len_ztake by lia. lia.
      * intros _ s H. apply grown_more in H. eapply grown_weaken; [|exact H]. intros bs (rest & -> & ->). apply ztake_zdrop.
      * intros s H. apply grown_more in H. eapply grown_weaken; [|exact H]. intros bs (rest & -> & rest' & Heq).
        exists rest'. by rewrite <- app_assoc, <- Heq, ztake_zdrop.
Qed.

(** What the library is given next is what it has not taken yet. *)
Lemma unsent_history id s c :
  inv c -> qc_workerRunning c = true -> qc_streams c !! id = Some s ->
  (peekUnsentData s).1 ++ (peekUnsentData s).2 = zdrop (ng_taken (qc_conn c) id) (history id (qc_accepted c)).
Proof.
  intros Hi Hr Hid. pose proof (Hi Hr id s Hid) as Hso. destruct Hso as [Hb _ _ Hu _ Ho _ _].
  rewrite peek_spec by lia. rewrite Hb, Hu, zdrop_zdrop by lia.
  f_equal. lia.
Qed.

(** C10. [sendAll] on a connection whose streams are in step with the library
    ([inv], which [connect] establishes): whatever the worker does meanwhile -
    packets sent, lost, received, acknowledged or refused, timers, a peer that
    closes the stream - no assertion fails; the streams stay in step; the stream
    takes the bytes in order, all of them when the call succeeds and a prefix
    when it fails or waits, and nothing of another stream; and what the library
    is given next is what it has not taken of them. *)
Theorem sendAll_in_order id data c :
  inv c -> len (history id (qc_accepted c)) + len data < 2 ^ 62 ->
  let '(res, c') := QuicConnection_sendAll walk id data c in
  inv c' /\
  (exists chunks, qc_accepted c' = qc_accepted c ++ taken_by id chunks /\
    match res with
    | Ok _ => mjoin chunks = data
    | _ => exists rest, data = mjoin chunks ++ rest
    end) /\
  (forall f, res = Fault f -> f = WouldBlock) /\
  (qc_workerRunning c' = true -> forall s, qc_streams c' !! id = Some s ->
    (peekUnsentData s).1 ++ (peekUnsentData s).2 = zdrop (ng_taken (qc_conn c') id) (history id (qc_accepted c'))).
Proof.
  intros Hi Hl. unfold QuicConnection_sendAll.
  pose proof (sendAll_loop_ok id (length data) (qc_accepted c) data ltac:(lia) Hl c ltac:(done)) as H.
  destruct (sendAll_loop walk (length data) id data c) as [[[]|e|[]] c'] eqn:Hrun; try done;
    destruct H as (chunks & [Hi' Ha'] & Hd); (split_and!; [done|by exists chunks|by intros ? [=]|]); intros Hr s Hs;
    by apply unsent_history.
Qed.
End Send.
