(* ===== verification/QuicConnOpen.v ===== *)
(** * QuicConnection: connecting and closing

    [connect] ends at its deadline, with a connection whose streams are in step
    with the library or with one that is closed; a close packet that cannot be
    sent leaves the connection half closed. *)
From S2P Require Import Prelude Dbuf Messages Time Errors Effects Stats QuicStream QuicStreamSpec QuicConn QuicConnSpec QuicConnSend.

Section Open.
Context {T : TimeLib} {C : CircularBuffer} {CL : CircularBufferLaws C} {NG : Ngtcp2} {NL : NgLaws}.
Abbreviation M := (ST QuicConnection).

(** ** The handshake
    During it: the deadline, that the connection is open, and that nothing was
    written.  The worker does not take part. *)
Definition fixed (c : QuicConnection) : instant * bool * list (Z * list Z) := (qc_connectDeadline c, qc_closed c, qc_accepted c).
Lemma blind_fixed : blind fixed.
Proof. done. Qed.
#[local] Hint Resolve blind_fixed : keeps.
Definition starting (d : instant) (c : QuicConnection) : Prop := live c /\ fixed c = (d, false, []).

Lemma starting_keeps {A} (m : M A) d :
  keeps fixed m -> triple live m (fun _ => live) live -> triple (starting d) m (fun _ => starting d) (starting d).
Proof.
  intros Hk Hm c [Hl Hd]. specialize (Hk c). specialize (Hm c Hl). unfold starting.
  destruct (m c) as [res c']. cbn in Hk. rewrite Hk. by destruct res as [| |[]].
Qed.

Lemma handle_events_waits_not evs : forall c, (handle_events evs c).1 <> Fault WouldBlock.
Proof.
  induction evs as [|ev evs IH]; intros c; [done|]. cbn. unfold update, mbind, ST_bind.
  destruct (handle_event ev c) as [c'|e|f] eqn:He; [apply IH|done|]. cbn. intros [= ->]. revert He. destruct ev; cbn; try done.
  unfold onAckedData, QuicStream_onAck, qn_assert. destruct (qc_streams c !! streamId); [|done]. cbn. by repeat case_match.
Qed.

(** What was received is used up, and it does not wait when there is something. *)
Lemma receivePacket_run now block c p rest :
  live c -> qc_incoming c = p :: rest ->
  let '(res, c') := receivePacket now block c in is_fault res = false /\ live c' /\ qc_incoming c' = rest.
Proof.
  intros Hl Hin. pose proof (receivePacket_ok now block c Hl) as H.
  assert (is_fault (receivePacket now block c).1 = false /\ qc_incoming (receivePacket now block c).2 = rest) as [Hf Hi].
  - revert H. unfold receivePacket, quic_recv, ng_call, state, mbind, ST_bind. rewrite Hin. destruct p as [e|d]; cbn; [done|].
    destruct (ng_read_pkt (ztake 1500 d) now (qc_conn c)) as [[code evs] x]. cbn.
    match goal with |- context [handle_events evs ?c1] =>
      pose proof (handle_events_waits_not evs c1) as Hw; pose proof (keeps_handle_events qc_incoming evs ltac:(done) c1) as Hk; cbn in Hk; destruct (handle_events evs c1) as [[[]|e|f] c2] end;
      cbn in Hk; [|done|].
    + destruct (code =? 0); [done|]. by destruct (code =? NGTCP2_ERR_CRYPTO).
    + cbn in Hw |- *. by destruct f.
  - destruct (receivePacket now block c) as [[a|e|f] c']; cbn in *; [done|done|done].
Qed.

Lemma drain_packets_run now fuel : forall c,
  live c -> (length (qc_incoming c) < fuel)%nat ->
  let '(res, c') := drain_packets fuel now c in is_fault res = false /\ live c'.
Proof.
  induction fuel as [|fuel IH]; intros c Hl Hf; [lia|]. cbn. unfold mbind, ST_bind.
  destruct (qc_incoming c) as [|p rest] eqn:Hin.
  - unfold receivePacket, quic_recv, mbind, ST_bind. by rewrite Hin.
  - pose proof (receivePacket_run now false c p rest Hl Hin) as H.
    destruct (receivePacket now false c) as [[[]|e|f] c']; destruct H as (H1 & H2 & H3); try done.
    apply IH; [done|]. rewrite H3. cbn in Hf. lia.
Qed.

Lemma fixed_drain now fuel : keeps fixed (drain_packets fuel now).
Proof. induction fuel; cbn; [apply keeps_lift|]. pose proof (blind_receivePacket fixed blind_fixed). keeps_auto. Qed.

(** Nothing arrives until the deadline. *)
Definition timed_out (d : instant) (t : HandshakeTurn) : Prop := ht_packets t = [] /\ isZero (since d (ht_end t)) = true.

(** A step of the handshake that does not wait, and the rest of it. *)
Definition ends (d : instant) (surely : Prop) (m : M unit) : Prop :=
  forall c, starting d c ->
    let '(res, c') := m c in starting d c' /\ match res with Fault f => f = WouldBlock /\ ~ surely | _ => True end.

Lemma ends_bind {A} d surely (m : M A) (k : A -> M unit) :
  keeps fixed m -> triple live m (fun _ => live) live -> returns m -> (forall a, ends d surely (k a)) -> ends d surely (m ≫= k).
Proof.
  intros Hlog Hm Hr Hk c Hc. specialize (Hr c). pose proof (starting_keeps m d Hlog Hm c Hc) as Hs. unfold mbind, ST_bind.
  destruct (m c) as [[a|e|f] c']; [by apply Hk|done|done].
Qed.

Lemma ends_receive d surely now packets (k : M unit) :
  packets <> [] -> ends d surely k ->
  ends d surely (_ ← modify (arrive packets); received ← receivePacket now true;
    _ ← (if (received : bool) then fuel ← get (fun c => S (length (qc_incoming c))); drain_packets fuel now else mret tt); k).
Proof.
  intros Hp Hk c [Hl Hd]. unfold mbind at 1, ST_bind at 1, modify. set (c1 := arrive packets c).
  assert (live c1) as Hl1 by done. assert (exists p rest, qc_incoming c1 = p :: rest) as (p & rest & Hin).
  { cbn. destruct (qc_incoming c); [destruct packets; [done|]|]; by do 2 eexists. }
  pose proof (receivePacket_run now true c1 p rest Hl1 Hin) as Hr.
  pose proof (eq_trans (blind_receivePacket fixed blind_fixed now true c1) Hd) as Hlog.
  unfold mbind at 1, ST_bind at 1. destruct (receivePacket now true c1) as [[received|e|f] c2]; destruct Hr as (Hf & Hl2 & _); [|done..].
  assert (starting d c2) as H2 by done. unfold mbind at 1, ST_bind at 1. destruct received; [|by apply Hk].
  unfold get, mbind at 1, ST_bind at 1. set (fuel := S (length (qc_incoming c2))).
  pose proof (drain_packets_run now fuel c2 Hl2 ltac:(unfold fuel; lia)) as Hdr.
  pose proof (eq_trans (fixed_drain now fuel c2) Hlog) as Hlog2.
  destruct (drain_packets fuel now c2) as [[[]|e|f] c3]; destruct Hdr as [Hf3 Hl3]; [|done..]. by apply Hk.
Qed.

Lemma ends_ret d surely : ends d surely (mret tt).
Proof. by intros c Hc. Qed.
Lemma ends_throw d surely e : ends d surely (throw e).
Proof. by intros c Hc. Qed.
Lemma ends_get {A} d surely (f : QuicConnection -> A) k :
  (forall a, ends d surely (k a)) -> ends d surely (get f ≫= k).
Proof. intros Hk c Hc. by apply Hk. Qed.
Lemma ends_weaken d (p q : Prop) m : (q -> p) -> ends d p m -> ends d q m.
Proof. intros H Hm c Hc. specialize (Hm c Hc). destruct (m c) as [[a|e|f] c']; naive_solver. Qed.

(** The wait ends with nothing: the deadline, or an expiry of the library. *)
Lemma ends_timeout d surely now (k : M unit) :
  (isZero (since d now) = false -> ends d surely k) ->
  ends d surely (deadline ← get qc_connectDeadline;
    if isZero (since deadline now) then custom ConnectionTimedOut
    else result ← ng_call (ng_handle_expiry now); if negb (result =? 0) then throw (quic_error result) else k).
Proof.
  intros Hk c Hc. unfold get, mbind at 1, ST_bind at 1. destruct Hc as [Hl Hd].
  assert (qc_connectDeadline c = d) as -> by by injection Hd.
  destruct (isZero (since d now)); [done|]. revert c Hl Hd. enough (ends d surely
    (result ← ng_call (ng_handle_expiry now); if negb (result =? 0) then throw (quic_error result) else k)) as He.
  { intros c Hl Hd. by apply He. }
  apply ends_bind; [apply (blind_call fixed blind_fixed)|apply live_keeps; [apply keeps_expiry|apply returns_ng_call]|apply returns_ng_call|].
  intros result. destruct (negb _); [apply ends_throw|by apply Hk].
Qed.

Lemma handshake_loop_ends d turns : forall last, ends d (Exists (timed_out d) turns) (handshake_loop turns last).
Proof.
  induction turns as [|t turns IH]; intros last; cbn; apply ends_get; intros []; try apply ends_ret.
  - intros c Hc. split; [done|]. split; [done|]. by intros H%Exists_nil.
  - apply ends_bind.
    + pose proof (blind_handshake fixed blind_fixed). keeps_auto.
    + apply live_keeps; [pose proof keeps_handshake; keeps_auto|pose proof returns_handshake; returns_auto].
    + pose proof returns_handshake. returns_auto.
    + intros last'. destruct (ht_packets t) as [|p packets] eqn:Hp.
      * apply ends_timeout. intros Hz. eapply ends_weaken; [|apply IH]. intros [[_ Ht]|H]%Exists_cons; [congruence|done].
      * apply ends_receive; [done|]. eapply ends_weaken; [|apply IH]. intros [[Ht _]|H]%Exists_cons; [congruence|done].
Qed.

(** ** Connecting *)
Lemma openStream_ok d c :
  starting d c ->
  match openStream c with
  | (Ok id, c') => starting d c' /\ is_Some (qc_streams c' !! id)
  | (Err _, c') => qc_closed c' = false
  | (Fault _, _) => False
  end.
Proof.
  intros [[Hr Hs] Hf]. unfold openStream, ng_call, state, lift, qn_assert, modify, mbind, ST_bind.
  assert (qc_accepted c = []) as Ha by by injection Hf. assert (qc_closed c = false) as Hcl by by injection Hf.
  pose proof (open_law (qc_conn c)) as H. destruct (ng_open_bidi_stream (qc_conn c)) as [[code id] x].
  destruct H as (Ht & Hk & Hnew). cbn. destruct (Z.eqb_spec code 0) as [Hc|]; [|done]. cbn. destruct (Hnew Hc) as (Hid & Ht0 & Ha0).
  destruct (Z.eqb_spec id (-1)); [done|]. cbn. unfold sound_streams in Hs. rewrite <- Ht, <- Hk in Hs.
  destruct (qc_streams c !! id) as [s|] eqn:Hs0; cbn.
  - rewrite Hs0. done.
  - rewrite lookup_insert_eq. split; [|done]. split; [|done]. split; [done|]. unfold sound_streams. cbn.
    apply (streams_insert _ _ _ _ _ _ _ _ Hs); [|done]. rewrite Ht, Hk, Ht0, Ha0. apply new_sender. by rewrite Ha.
Qed.

Lemma connect_steps_ok tls epoch turns d c :
  is_fault tls = false -> Exists (timed_out d) turns -> starting d c ->
  match connect_steps tls epoch turns c with
  | (Ok _, c') => live c' /\ qc_connected c' = true /\ qc_closed c' = false /\ is_Some (qc_streams c' !! qc_mainStreamId c') /\ qc_accepted c' = []
  | (Err _, c') => qc_closed c' = false
  | (Fault _, _) => False
  end.
Proof.
  intros Htls Hturns Hc. assert (forall c, starting d c -> qc_closed c = false) as Hopen by (by intros c' [_ [=]]).
  unfold connect_steps, performHandshake. destruct tls as [[]|e|f]; [|by apply Hopen|done].
  unfold lift at 1, mbind at 1, ST_bind at 1. pose proof (handshake_loop_ends d turns epoch c Hc) as Hh.
  unfold mbind at 1, ST_bind at 1. destruct (handshake_loop turns epoch c) as [[[]|e|f] c1]; destruct Hh as [H1 Hf];
    [|by apply Hopen|by destruct Hf].
  pose proof (openStream_ok d c1 H1) as H2. unfold mbind at 1, ST_bind at 1.
  destruct (openStream c1) as [[id|e|f] c2]; [|done|done]. destruct H2 as [[Hl Hfix] Hs]. split_and!; try done; by injection Hfix.
Qed.

Lemma close_again ended c :
  qc_closed c = true -> qc_cancelled c = true ->
  qc_closed (QuicConnection_close ended c).2 = true /\ qc_cancelled (QuicConnection_close ended c).2 = true.
Proof.
  intros Hd Hx. unfold QuicConnection_close, get, modify, mbind, ST_bind. destruct (qc_closing c); [done|].
  assert (blind (fun c => (qc_closed c, qc_cancelled c))) as Hb by done.
  pose proof (blind_sendClose _ Hb ended (set_closing true c)) as Hk. cbn in Hk. rewrite Hd, Hx in Hk.
  destruct (sendClosePacket ended (set_closing true c)) as [[[]|e|f] c2]; cbn in Hk; injection Hk as Hd2 Hx2; [|done..].
  unfold QuicConnection_closeSync, get, modify, mbind, ST_bind. by rewrite Hd2.
Qed.

(** A failed connection is closed, and its worker ends, whether the close packet
    can be sent or not. *)
Lemma abandon_ends ended c :
  qc_closed c = false ->
  let c' := (abandon ended c).2 in
  qc_closed c' = true /\ qc_cancelled c' = true /\ qc_workerRunning c' = false.
Proof.
  intros Hcl. set (c1 := set_cancelled true (set_closed true c)).
  assert (abandon ended c = worker_end ended c1) as ->
    by (unfold abandon, QuicConnection_closeSync, get, modify, mbind, ST_bind; by rewrite Hcl).
  pose proof (close_again ended c1 eq_refl eq_refl) as [Hd Hx]. pose proof (returns_quic_close ended c1) as Hr.
  unfold worker_end, attempt, mbind, ST_bind, modify. by destruct (QuicConnection_close ended c1) as [[[]|e|f] c2].
Qed.

(** [connect] does not wait past its deadline: when in some turn of the
    handshake nothing arrives until the deadline, it returns, with no assertion
    failed, whatever was received before and however the library and the socket
    answer.  With a success the connection is usable - it is connected, its main
    stream is open and the streams are in step with the library - and with an
    error a connection that was made is closed and its worker has ended.  When the
    library made none, it is given null. *)
Lemma connect_ends now epoch ended timeout socket client tls turns script :
  is_fault socket = false -> is_fault client = false -> is_fault tls = false -> Exists (timed_out (iadd now timeout)) turns ->
  match QuicConnection_connect now epoch ended timeout socket client tls turns script with
  | (Ok _, Some c) => inv c /\ qc_connected c = true /\ qc_closed c = false /\ is_Some (qc_streams c !! qc_mainStreamId c) /\ qc_accepted c = []
  | (Err _, Some c) => qc_closed c = true /\ qc_cancelled c = true /\ qc_workerRunning c = false
  | (Err e, None) => socket = Err e
  | (Fault f, None) => f = NullDereference /\ exists e, client = Err e
  | _ => False
  end.
Proof.
  intros Hsock Hclient Htls Hturns. unfold QuicConnection_connect. destruct socket as [net|e|f]; [|done|done].
  destruct client as [x|e|f]; [|by eauto|done].
  set (c := new_QuicConnection now timeout x net script). assert (starting (iadd now timeout) c) as Hc.
  { split; [split; [done|]|done]. intros id s. cbn. by rewrite lookup_empty. }
  pose proof (connect_steps_ok tls epoch turns _ c Htls Hturns Hc) as H.
  destruct (connect_steps tls epoch turns c) as [[[]|e|f] c']; [|by apply abandon_ends|done].
  destruct H as [Hl H]. split; [by apply live_inv|done].
Qed.

(** A connection that connects, from the start. *)
Lemma connect_steps_inv tls epoch turns now timeout x net script :
  is_fault tls = false -> Exists (timed_out (iadd now timeout)) turns ->
  is_ok (connect_steps tls epoch turns (new_QuicConnection now timeout x net script)).1 = true ->
  inv (connect_steps tls epoch turns (new_QuicConnection now timeout x net script)).2.
Proof.
  intros Htls Hturns Hok. set (c := new_QuicConnection now timeout x net script) in *.
  assert (starting (iadd now timeout) c) as Hc by (split; [split; [done|]|done]; intros id s; cbn; by rewrite lookup_empty).
  pose proof (connect_steps_ok tls epoch turns _ c Htls Hturns Hc) as H.
  destruct (connect_steps tls epoch turns c) as [[[]|e|f] c']; [|done..]. by apply live_inv, H.
Qed.

(** ** Closing *)
Lemma set_closing_id c : qc_closing c = true -> set_closing true c = c.
Proof. destruct c. cbn. by intros ->. Qed.

(** A close packet that cannot be sent - the library fails, or the socket
    does - makes [close] fail and leaves the connection half closed: later calls
    of [close] succeed without closing it or cancelling the worker. *)
Theorem failed_close_sticks now later c e c' :
  qc_closed c = false -> QuicConnection_close now c = (Err e, c') ->
  QuicConnection_close later c' = (Ok tt, c') /\ qc_closed c' = false /\ qc_cancelled c' = qc_cancelled c.
Proof.
  intros Hcl. unfold QuicConnection_close, get, modify, mbind, ST_bind.
  destruct (qc_closing c); [done|]. set (c1 := set_closing true c).
  assert (blind (fun c => (qc_closing c, qc_closed c, qc_cancelled c))) as Hb by done.
  pose proof (blind_sendClose _ Hb now c1) as Hk. cbn in Hk.
  destruct (sendClosePacket now c1) as [[[]|e'|f] c2]; [|intros [= <- <-]|done].
  - unfold QuicConnection_closeSync, get, mbind, ST_bind, modify, mret, ST_ret. by destruct (qc_closed c2).
  - cbn in Hk. injection Hk as Hg Hd Hx. unfold mret, ST_ret. rewrite Hg, set_closing_id by done. split; [done|]. split; [exact (eq_trans Hd Hcl)|exact Hx].
Qed.
End Open.
