(* ===== verification/QuicConnEx.v ===== *)
(** * QuicConnection: a library, and examples

    A small library that takes what it is given, and reports all of it when a
    packet arrives: the assumptions on ngtcp2 can hold.  Runs of a connection. *)
From S2P Require Import Prelude Dbuf Messages Time Errors Effects Stats QuicStream QuicStreamSpec QuicConn QuicConnSpec QuicConnSend QuicConnOpen.

Record SmallConn := {
  sc_taken : Z -> Z;
  sc_acked : Z -> Z;
  sc_established : bool;
  (** whether it can write a close packet *)
  sc_closes : bool;
}.
Definition new_SmallConn (closes : bool) : SmallConn :=
  {| sc_taken := fun _ => 0; sc_acked := fun _ => 0; sc_established := false; sc_closes := closes |}.

(** A packet acknowledges all of stream 0; a packet that begins with 1 has data
    for it, and one that begins with 2 closes it. *)
Definition small_events (packet : list Z) (x : SmallConn) : list NgEvent :=
  (if sc_acked x 0 <=? sc_taken x 0 then [NgAcked 0 (sc_acked x 0) (sc_taken x 0 - sc_acked x 0)] else []) ++
  match packet with 1 :: data => [NgStreamData 0 ((fun b => b mod 256) <$> data)] | 2 :: _ => [NgStreamClose 0] | _ => [] end.

#[export] Instance small_ng : Ngtcp2 (T := nano_time) := {|
  ngconn := SmallConn;
  ng_write_pkt _ x := (inr (if sc_established x then [] else [7]), x);
  ng_writev_stream id _ wrp _ x :=
    let n := Z.min 2 (len (wrp.1 ++ wrp.2)) in
    (inr (9 :: ztake n (wrp.1 ++ wrp.2), n),
     {| sc_taken := fun j => if j =? id then sc_taken x id + n else sc_taken x j; sc_acked := sc_acked x;
        sc_established := sc_established x; sc_closes := sc_closes x |});
  ng_write_connection_close _ x := (if sc_closes x then inr [8] else inl (-1), x);
  ng_read_pkt packet _ x :=
    (0, small_events packet x,
     {| sc_taken := sc_taken x;
        sc_acked := if sc_acked x 0 <=? sc_taken x 0
                    then fun j => if j =? 0 then sc_acked x 0 + (sc_taken x 0 - sc_acked x 0) else sc_acked x j else sc_acked x;
        sc_established := true; sc_closes := sc_closes x |});
  ng_handle_expiry _ x := (0, x);
  ng_get_expiry _ := 0;
  ng_get_handshake_completed := sc_established;
  ng_open_bidi_stream x := (if (sc_taken x 0 =? 0) && (sc_acked x 0 =? 0) then 0 else -1, 0, x);
  ng_shutdown_stream _ x := x;
  ng_update_pkt_tx_time _ x := x;
  ng_strerror _ := [];
  NGTCP2_ERR_STREAM_DATA_BLOCKED := -210;
  NGTCP2_ERR_FLOW_CONTROL := -205;
  NGTCP2_ERR_CRYPTO := -226;
  NGTCP2_ERR_IDLE_CLOSE := -248;
  ng_tls_error _ := [];
|}.

#[export] Instance small_ng_laws : NgLaws (T := nano_time) (NG := small_ng).
Proof.
  refine {| ng_taken := sc_taken : @ngconn _ small_ng -> Z -> Z; ng_acked := sc_acked |}; try done; cbn.
  - intros id fin [a b] now x. cbn. split; [done|]. split; [by intros j Hj; destruct (Z.eqb_spec j id)|].
    rewrite Z.eqb_refl. lia.
  - intros packet now x. split; [done|]. unfold small_events. destruct (Z.leb_spec (sc_acked x 0) (sc_taken x 0)); cbn.
    + split_and!; [done|lia|lia|]. by destruct packet as [|[|[[]|[]|]|] data].
    + by destruct packet as [|[|[[]|[]|]|] data].
  - intros x. split; [done|]. split; [done|]. destruct (Z.eqb_spec (sc_taken x 0) 0), (Z.eqb_spec (sc_acked x 0) 0); done.
Qed.

(** ** A connection *)
Definition in_order (m : gmap Z (QuicStream (C := list_cbuf))) : list Z := (map_to_list m).*1.
Definition example_turns : list (HandshakeTurn (T := nano_time)) :=
  [{| ht_now := 20000000 : @instant nano_time; ht_end := 30000000 : @instant nano_time; ht_packets := [inr [0]] |};
   {| ht_now := 40000000 : @instant nano_time; ht_end := 10000000000 : @instant nano_time; ht_packets := [] |}].
Definition example_wakes : list (Wake * @instant nano_time) :=
  [(WakeNotified, 1 : @instant nano_time); (WakePacket (inr [1; 5]), 2 : @instant nano_time)].
Definition example_connect : TransportResult unit * option (QuicConnection (C := list_cbuf)) :=
  QuicConnection_connect (0 : @instant nano_time) (0 : @instant nano_time) (0 : @instant nano_time) (fromMillis 1000) (Ok (quiet_net []))
    (Ok (new_SmallConn false : ngconn)) (Ok tt) example_turns example_wakes.

Example example_connect_ok :
  match example_connect with
  | (Ok _, Some c) => qc_connected c && bool_decide (qc_mainStreamId c = 0) && bool_decide (net_sent (qc_net c) = [[7]])
  | _ => false
  end = true.
Proof. vm_compute. reflexivity. Qed.

Definition ready_connection : QuicConnection (C := list_cbuf) :=
  (connect_steps (Ok tt) (0 : @instant nano_time) example_turns
     (new_QuicConnection (0 : @instant nano_time) (fromMillis 1000) (new_SmallConn false : ngconn) (quiet_net []) example_wakes)).2.

Lemma example_timed_out : Exists (timed_out (iadd (0 : @instant nano_time) (fromMillis 1000))) example_turns.
Proof. apply Exists_cons_tl, Exists_cons_hd. split; vm_compute; reflexivity. Qed.

Lemma ready_inv : inv ready_connection.
Proof. apply connect_steps_inv; [done|exact example_timed_out|vm_compute; reflexivity]. Qed.

Lemma sendAll_in_order_witness :
  let '(res, c') := QuicConnection_sendAll in_order 0 [1; 2; 3; 4; 5] ready_connection in
  inv c' /\
  (exists chunks, qc_accepted c' = qc_accepted ready_connection ++ taken_by 0 chunks /\
    match res with
    | Ok _ => mjoin chunks = [1; 2; 3; 4; 5]
    | _ => exists rest, [1; 2; 3; 4; 5] = mjoin chunks ++ rest
    end) /\
  (forall f, res = Fault f -> f = WouldBlock) /\
  (qc_workerRunning c' = true -> forall s, qc_streams c' !! 0 = Some s ->
    (peekUnsentData s).1 ++ (peekUnsentData s).2 = zdrop (ng_taken (qc_conn c') 0) (history 0 (qc_accepted c'))).
Proof. apply sendAll_in_order; [exact ready_inv|vm_compute; reflexivity]. Defined.

(** Five bytes, and turns of the worker: two bytes are sent in each, and a packet
    brings three bytes and acknowledges what was sent. *)
Example example_sends :
  match (_ ← QuicConnection_sendAll in_order 0 [1; 2; 3; 4; 5]; _ ← wait_worker in_order; _ ← wait_worker in_order;
         QuicConnection_receive in_order 0 10) ready_connection with
  | (Ok bs, c) => bool_decide (bs = [5] /\ net_sent (qc_net c) = [[7]; [9; 1; 2]; [9; 3; 4]]) &&
                  match qc_streams c !! 0 with Some s => unflushedBytes s =? 1 | None => false end
  | _ => false
  end = true.
Proof. vm_compute. reflexivity. Qed.

(** [close] on it fails. *)
Definition closed_at : @instant nano_time := 50000000.
Definition half_closed : QuicConnection (C := list_cbuf) := (QuicConnection_close closed_at ready_connection).2.

Lemma example_close_fails : QuicConnection_close closed_at ready_connection = (Err (quic_error (-1)), half_closed).
Proof. apply run_result. vm_compute. reflexivity. Qed.

Lemma failed_close_sticks_witness :
  QuicConnection_close closed_at half_closed = (Ok tt, half_closed) /\ qc_closed half_closed = false /\ qc_cancelled half_closed = qc_cancelled ready_connection.
Proof. apply (failed_close_sticks closed_at closed_at ready_connection (quic_error (-1))); [vm_compute; reflexivity|exact example_close_fails]. Defined.
