(* ===== verification/QuicSetup.v ===== *)
(** * QuicConnection: what precedes the handshake

    [QuicTlsSession.cpp]: the session of the TLS library, as the calls that it
    makes and the references that it holds; [QuicConnection.cpp]: random bytes,
    the settings and identifiers of the connection, its path, and [connect] up
    to the handshake. *)
From S2P Require Import Prelude Dbuf Messages Time Errors Effects Address Stats QuicStream QuicConn QuicConnSpec QuicConnOpen QuicConnEx.

Open Scope Z_scope.

(** ** The TLS session *)
Inductive CryptoBackend := OpenSSL | WolfSSL.

(** [SetAppData true] is [setAppData(conn->connRef())], [SetAppData false] is
    [SSL_set_app_data(ssl, nullptr)]. *)
Inductive TlsCall :=
  | CreateSession
  | SetALPN (alpn : list Z)
  | SetAppData (set : bool)
  | NewOsslCtx
  | ConfigureClientSession
  | SetQuicTransportVersion (version : Z)
  | DeleteOsslCtx
  | FreeSession
  | DeleteConn.

(** The calls, the last one first, and the references to the session. *)
Record TlsWorld := { tw_calls : list TlsCall; tw_refs : Z }.
Definition new_TlsWorld : TlsWorld := {| tw_calls := []; tw_refs := 0 |}.
Abbreviation TLS := (ST TlsWorld).

Definition call (c : TlsCall) : TLS unit := modify (fun w => {| tw_calls := c :: tw_calls w; tw_refs := tw_refs w |}).
(** A [shared_ptr] to the session is copied, and destroyed. *)
Definition hold : TLS unit := modify (fun w => {| tw_calls := tw_calls w; tw_refs := tw_refs w + 1 |}).
Definition release : TLS unit := modify (fun w =>
  {| tw_calls := if tw_refs w =? 1 then FreeSession :: tw_calls w else tw_calls w; tw_refs := tw_refs w - 1 |}).

(** Whether the pointers are not null; the context is the caller's. *)
Record QuicTlsSession := { ts_session : bool; ts_ngtcp2ctx : bool }.
Definition null_session : QuicTlsSession := {| ts_session := false; ts_ngtcp2ctx := false |}.

(** The members are destroyed from the last one. *)
Definition QuicTlsSession_destructor (t : QuicTlsSession) : TLS unit :=
  _ ← when (ts_session t) (call (SetAppData false));
  _ ← when (ts_ngtcp2ctx t) (call DeleteOsslCtx);
  when (ts_session t) release.

(** [= default]: each member is moved, from the first one, and the destructor of
    the session that was there does not run. *)
Definition QuicTlsSession_assign (t new : QuicTlsSession) : TLS QuicTlsSession :=
  _ ← when (ts_session t) release;
  _ ← when (ts_ngtcp2ctx t) (call DeleteOsslCtx);
  mret new.

Definition alpn : list Z := [2; 104; 51].

(** [created] is the error of [createSession], [configured] the result of
    [ngtcp2_crypto_ossl_configure_client_session]. *)
Definition QuicTlsSession_create (backend : CryptoBackend) (created : option (list Z)) (configured : Z) : TLS QuicTlsSession :=
  match created with
  | Some e => throw (TE_Tls e)
  | None =>
      _ ← call CreateSession;
      _ ← hold;
      let ret := {| ts_session := true; ts_ngtcp2ctx := false |} in
      _ ← hold;
      _ ← call (SetALPN alpn);
      _ ← call (SetAppData true);
      match backend with
      | OpenSSL =>
          _ ← call NewOsslCtx;
          _ ← call ConfigureClientSession;
          if negb (configured =? 0) then
            _ ← call DeleteOsslCtx;
            _ ← QuicTlsSession_destructor ret;
            _ ← release;
            throw (TE_Tls (str "ngtcp2 ossl configure failed"))
          else
            _ ← release;
            mret {| ts_session := true; ts_ngtcp2ctx := true |}
      | WolfSSL =>
          _ ← call (SetQuicTransportVersion 57);
          _ ← release;
          mret ret
      end
  end.

(** [~QuicConnection]; [m_tls] is destroyed after the body. *)
Definition QuicConnection_destructor (t : QuicTlsSession) : TLS unit :=
  t ← QuicTlsSession_assign t null_session;
  _ ← call DeleteConn;
  QuicTlsSession_destructor t.

Definition count (f : TlsCall -> bool) (cs : list TlsCall) : nat := length (List.filter f cs).
Definition deletes_conn (c : TlsCall) : bool := match c with DeleteConn => true | _ => false end.
Definition creates (c : TlsCall) : bool := match c with CreateSession => true | _ => false end.
Definition frees (c : TlsCall) : bool := match c with FreeSession => true | _ => false end.
Definition new_ctx (c : TlsCall) : bool := match c with NewOsslCtx => true | _ => false end.
Definition deletes_ctx (c : TlsCall) : bool := match c with DeleteOsslCtx => true | _ => false end.
Definition on_session (c : TlsCall) : bool :=
  match c with SetALPN _ | SetAppData _ | ConfigureClientSession | SetQuicTransportVersion _ => true | _ => false end.
(** No call on the session after it was freed; [cs] has the last call first. *)
Fixpoint sound (cs : list TlsCall) : bool :=
  match cs with
  | [] => true
  | c :: cs => (negb (on_session c) || (negb (existsb frees cs) && existsb creates cs)) && sound cs
  end.

(** In the end: no reference is left, the sessions that were created are freed,
    the contexts of ngtcp2 that were made are deleted, nothing was called on a
    session that is not there. *)
Definition balanced (w : TlsWorld) : Prop :=
  tw_refs w = 0 /\ sound (tw_calls w) = true /\
  count creates (tw_calls w) = count frees (tw_calls w) /\
  count new_ctx (tw_calls w) = count deletes_ctx (tw_calls w).

(** After the destructor: and ngtcp2's connection is deleted once, in the end, when
    the sessions and contexts that were made are gone. *)
Definition torn_down (w : TlsWorld) : Prop :=
  balanced w /\ exists before, tw_calls w = DeleteConn :: before /\ existsb deletes_conn before = false /\
    count creates before = count frees before /\ count new_ctx before = count deletes_ctx before.

(** Whatever the library answers, a session is there after a success only, and
    freed before the connection that it refers to is deleted. *)
Lemma create_balanced backend created configured :
  let '(tls, w) := QuicTlsSession_create backend created configured new_TlsWorld in
  match tls with
  | Ok t =>
      ts_session t = true /\ existsb frees (tw_calls w) = false /\
      torn_down (QuicConnection_destructor t w).2
  | Err _ => balanced w /\ torn_down (QuicConnection_destructor null_session w).2
  | Fault _ => False
  end.
Proof.
  unfold QuicTlsSession_create. destruct created as [e|]; [vm_compute; eauto 20|].
  destruct backend; [destruct (configured =? 0)|]; vm_compute; eauto 20.
Qed.

(** The application data of the session of a connection is never cleared: it is
    freed by the assignment. *)
Example app_data_not_cleared :
  rev (tw_calls ((t ← QuicTlsSession_create OpenSSL None 0; QuicConnection_destructor t) new_TlsWorld).2) =
    [CreateSession; SetALPN alpn; SetAppData true; NewOsslCtx; ConfigureClientSession; FreeSession; DeleteOsslCtx; DeleteConn].
Proof. reflexivity. Qed.

(** ** Random bytes
    [std::random_device] gives 32 bits, [arc::fastRand] 64; an integer is in
    memory from its lowest byte. *)
Section Random.
Context {G : Type}.
Variable device fastRand : G -> Z * G.

(** A turn of the loop fills up to four bytes. *)
Fixpoint secureRandom_loop (fuel : nat) (left : Z) (g : G) : list Z * G :=
  match fuel with
  | O => ([], g)
  | S fuel =>
      if left <=? 0 then ([], g)
      else
        let '(random_val, g) := device g in
        let rem := Z.min left 4 in
        let '(bs, g) := secureRandom_loop fuel (left - rem) g in
        (ztake rem (le_split 4 random_val) ++ bs, g)
  end.

(** Nothing when there is nothing to fill. *)
Definition secureRandom (n : Z) (g : G) : option (list Z) * G :=
  if n =? 0 then (None, g) else let '(bs, g) := secureRandom_loop (Z.to_nat n) n g in (Some bs, g).

Fixpoint fallback_loop (fuel : nat) (n : Z) (g : G) : list Z * G :=
  match fuel with
  | O => ([], g)
  | S fuel =>
      if 8 <? n then
        let '(value, g) := fastRand g in
        let '(bs, g) := fallback_loop fuel (n - 8) g in
        (le_split 8 value ++ bs, g)
      else if 0 <? n then
        let '(value, g) := fastRand g in
        let '(bs, g) := fallback_loop fuel (n - 1) g in
        (value mod 256 :: bs, g)
      else ([], g)
  end.

Definition fillRandom (n : Z) (g : G) : list Z * G :=
  match secureRandom n g with
  | (Some bs, g) => (bs, g)
  | (None, g) => fallback_loop (Z.to_nat n) n g
  end.

(** [fillRandom<T>()] of an integer of [n] bytes. *)
Definition fillRandom_int (n : Z) (g : G) : Z * G :=
  let '(bs, g) := fillRandom n g in (le_combine bs, g).

Lemma secureRandom_loop_fills fuel n g :
  0 <= n <= Z.of_nat fuel -> let '(bs, _) := secureRandom_loop fuel n g in len bs = n /\ bytes_ok bs.
Proof.
  revert n g. induction fuel as [|fuel IH]; intros n g Hn; cbn [secureRandom_loop].
  { split; [cbn; lia|constructor]. }
  destruct (Z.leb_spec n 0); [split; [cbn; lia|constructor]|]. destruct (device g) as [v g1].
  specialize (IH (n - Z.min n 4) g1 ltac:(lia)). destruct (secureRandom_loop fuel _ g1) as [bs g2]. destruct IH as [Hl Hb].
  split; [rewrite length_app, Nat2Z.inj_add, len_ztake_max, length_le_split; lia|].
  apply Forall_app. split; [apply Forall_take, le_split_bytes|done].
Qed.

Lemma fallback_fills fuel n g :
  0 <= n <= Z.of_nat fuel -> let '(bs, _) := fallback_loop fuel n g in len bs = n /\ bytes_ok bs.
Proof.
  revert n g. induction fuel as [|fuel IH]; intros n g Hn; cbn [fallback_loop].
  { split; [cbn; lia|constructor]. }
  destruct (Z.ltb_spec 8 n); [|destruct (Z.ltb_spec 0 n); [|split; [cbn; lia|constructor]]]; destruct (fastRand g) as [v g1].
  - specialize (IH (n - 8) g1 ltac:(lia)). destruct (fallback_loop fuel _ g1) as [bs g2]. destruct IH as [Hl Hb].
    split; [rewrite length_app, Nat2Z.inj_add, length_le_split; lia|]. apply Forall_app. split; [apply le_split_bytes|done].
  - specialize (IH (n - 1) g1 ltac:(lia)). destruct (fallback_loop fuel _ g1) as [bs g2]. destruct IH as [Hl Hb].
    split; [cbn [length]; lia|]. constructor; [|done]. unfold byte_ok. pose proof (Z.mod_pos_bound v 256). lia.
Qed.

(** As many bytes as were asked for. *)
Lemma fillRandom_fills n g : 0 <= n -> let '(bs, _) := fillRandom n g in len bs = n /\ bytes_ok bs.
Proof.
  intros Hn. unfold fillRandom, secureRandom. destruct (Z.eqb_spec n 0) as [->|]; [apply (fallback_fills 0 0); lia|].
  pose proof (secureRandom_loop_fills (Z.to_nat n) n g ltac:(lia)). by destruct (secureRandom_loop _ n g).
Qed.

(** An integer of 32 bits is one of the device. *)
Lemma fillRandom_u32 g : u32_ok (device g).1 -> fillRandom_int 4 g = device g.
Proof.
  intros Hv. unfold fillRandom_int, fillRandom, secureRandom. change (Z.to_nat 4) with 4%nat. cbn.
  destruct (device g) as [v g1]. cbn in Hv. change (4 - 4 `min` 4 <=? 0) with true. cbn iota.
  rewrite app_nil_r. change (ztake (4 `min` 4) (le_split 4 v)) with (take (length (le_split 4 v)) (le_split 4 v)).
  rewrite firstn_all, le_combine_split. f_equal. apply Z.mod_small. exact Hv.
Qed.
End Random.

(** ** What ngtcp2 is given
    What is set on top of the defaults; durations in nanoseconds. *)
Record QuicSettings := {
  se_log : bool;
  se_cc_algo : Z;
  se_initial_ts : Z;
  se_handshake_timeout : Z;
  se_initial_pkt_num : Z;
}.
Record QuicParams := {
  pa_initial_max_stream_data_bidi_local : Z;
  pa_initial_max_stream_data_bidi_remote : Z;
  pa_initial_max_stream_data_uni : Z;
  pa_initial_max_data : Z;
  pa_initial_max_streams_bidi : Z;
  pa_initial_max_streams_uni : Z;
  pa_max_datagram_frame_size : Z;
  pa_max_idle_timeout : Z;
  pa_active_connection_id_limit : Z;
  pa_grease_quic_bit : Z;
  pa_max_ack_delay : Z;
}.
Definition quic_params : QuicParams := {|
  pa_initial_max_stream_data_bidi_local := initial_max_stream_data_bidi_local;
  pa_initial_max_stream_data_bidi_remote := 1 * MiB;
  pa_initial_max_stream_data_uni := 1 * MiB;
  pa_initial_max_data := 24 * MiB;
  pa_initial_max_streams_bidi := 100;
  pa_initial_max_streams_uni := 100;
  pa_max_datagram_frame_size := 65535;
  pa_max_idle_timeout := 30 * 1000000000;
  pa_active_connection_id_limit := 8;
  pa_grease_quic_bit := 1;
  pa_max_ack_delay := 20 * 1000000;
|}.

Definition SOURCE_ID_LEN : Z := 8.
Definition DEST_ID_LEN : Z := 8.

(** The packet number is in range but for one value of the device. *)
Lemma initial_pkt_num_range random :
  u32_ok random -> 0 <= initial_pkt_num random /\ (initial_pkt_num random <= INT32_MAX <-> random <> 2 ^ 32 - 1).
Proof.
  unfold u32_ok, initial_pkt_num, INT32_MAX. intros Hr. destruct (Z.ltb_spec (2 ^ 31 - 1) random); lia.
Qed.

(** [sizeof(sockaddr_in)] and [sizeof(sockaddr_in6)] *)
Record SockAddr {AL : AddressLib} := { sa_addr : address; sa_addrlen : Z }.
Definition to_sockaddr {AL : AddressLib} (a : address) : SockAddr :=
  {| sa_addr := a; sa_addrlen := if addr_isV6 a then 28 else 16 |}.
Record QuicPath {AL : AddressLib} := { pt_local : SockAddr; pt_remote : SockAddr }.
Definition initPathStorage {AL : AddressLib} (local remote : address) : QuicPath :=
  {| pt_local := to_sockaddr local; pt_remote := to_sockaddr remote |}.

Record ClientArgs {AL : AddressLib} := {
  ca_dcid : list Z;
  ca_scid : list Z;
  ca_path : QuicPath;
  ca_settings : QuicSettings;
  ca_params : QuicParams;
}.

Section Connect.
Context {T : TimeLib} {C : CircularBuffer} {CL : CircularBufferLaws C} {AL : AddressLib} {NG : Ngtcp2} {NL : NgLaws} {G : Type}.
Variable device fastRand : G -> Z * G.
(** The UDP socket: [bindAny], [connect], [localAddress]. *)
Variable udp_bind : bool -> SocketError + Net.
Variable udp_connect : address -> Net -> option SocketError.
Variable udp_localAddress : Net -> SocketError + address.
Variable conn_client_new : ClientArgs -> Z + ngconn.
Variable NGTCP2_CC_ALGO_CUBIC NGTCP2_STATELESS_RESET_TOKENLEN : Z.
(** [ngtcp2_conn_set_tls_native_handle], and the keep-alive timeout in
    nanoseconds. *)
Variable set_tls_native_handle : ngconn -> ngconn.
Variable set_keep_alive_timeout : Z -> ngconn -> ngconn.
Variable backend : CryptoBackend.
(** What the TLS library answers to [createSession] and
    [ngtcp2_crypto_ossl_configure_client_session]. *)
Variable created : option (list Z).
Variable configured : Z.

(** The packet number is drawn first, then the identifiers. *)
Definition client_args (verboseQuic : bool) (now_ns timeout_ns : Z) (local remote : address) (g : G) : ClientArgs * G :=
  let '(random, g) := fillRandom_int device fastRand 4 g in
  let '(scid, g) := fillRandom device fastRand SOURCE_ID_LEN g in
  let '(dcid, g) := fillRandom device fastRand DEST_ID_LEN g in
  ({| ca_dcid := dcid; ca_scid := scid; ca_path := initPathStorage local remote;
      ca_settings := {| se_log := verboseQuic; se_cc_algo := NGTCP2_CC_ALGO_CUBIC; se_initial_ts := now_ns; se_handshake_timeout := timeout_ns;
                        se_initial_pkt_num := initial_pkt_num random |};
      ca_params := quic_params |}, g).

(** The callbacks [rand] and [get_new_connection_id]: random bytes, and an
    identifier with its token. *)
Definition ng_rand : Z -> G -> list Z * G := fillRandom device fastRand.
Definition get_new_connection_id (cidlen : Z) (g : G) : list Z * list Z * G :=
  let '(cid, g) := fillRandom device fastRand cidlen g in
  let '(token, g) := fillRandom device fastRand NGTCP2_STATELESS_RESET_TOKENLEN g in
  (cid, token, g).

(** [m_lossSimulation], 0 unless the options say otherwise; nothing is sent
    before it is set. *)
Definition with_loss (debug : option (bool * SpecFloat.spec_float)) (net : Net) : Net :=
  let zero := SpecFloat.S754_zero false in
  let loss := match debug with Some (_, l) => if negb (SpecFloat.SFeqb l zero) then l else zero | None => zero end in
  {| net_sent := net_sent net; net_lossSim := loss; net_draws := net_draws net; net_errors := net_errors net;
     net_incoming := net_incoming net |}.

(** The socket; the call fails early when the address cannot be reached. *)
Definition open_socket (remote : address) : TransportResult Net :=
  match udp_bind (addr_isV6 remote) with
  | inl e => Err (TE_Socket e)
  | inr net => match udp_connect remote net with Some e => Err (TE_Socket e) | None => Ok net end
  end.

(** [connect]: the socket, the library, the TLS session, and then
    [QuicConn.connect_steps].  The options for debugging, when there are any, are
    whether the library logs and the simulation of loss; [tlsContext] is whether
    there is a TLS context.  The connection is the second component once ngtcp2
    made it, with its session, as its worker leaves it if the call fails; the calls
    for the session are the third. *)
Definition connect_setup (now epoch ended : instant) (now_ns timeout_ns : Z) (timeout : duration) (remote : address)
    (tlsContext : bool) (debug : option (bool * SpecFloat.spec_float)) (g : G)
    (turns : list HandshakeTurn) (script : list (Wake * instant))
    : TransportResult unit * option (QuicConnection * QuicTlsSession) * TlsWorld :=
  let fail (e : TransportError) := (Err e, None, new_TlsWorld) in
  if negb tlsContext then (Fault AssertionFailed, None, new_TlsWorld)
  else
    match open_socket remote with
    | Err e => fail e
    | Fault f => (Fault f, None, new_TlsWorld)
    | Ok net =>
        let abandoned (e : TransportError) :=
          let '(res, c) := QuicConnection_connect now epoch ended timeout (Ok (with_loss debug net)) (Err e) (Ok tt) turns script in
          (res, (fun c => (c, null_session)) <$> c, new_TlsWorld) in
        match udp_localAddress net with
        | inl e => abandoned (TE_Socket e)
        | inr local =>
            let '(args, g) := client_args (match debug with Some (v, _) => v | None => false end)
                                now_ns timeout_ns local remote g in
            match conn_client_new args with
            | inl code => abandoned (quic_error code)
            | inr x =>
                let '(tls, w) := QuicTlsSession_create backend created configured new_TlsWorld in
                let x := match tls with
                         | Ok _ => set_keep_alive_timeout (15 * 1000000000) (set_tls_native_handle x)
                         | _ => x
                         end in
                let '(res, c) := QuicConnection_connect now epoch ended timeout (Ok (with_loss debug net)) (Ok x)
                                   ((fun _ => tt) <$> tls) turns script in
                (res, (fun c => (c, match tls with Ok t => t | _ => null_session end)) <$> c, w)
            end
        end
    end.

(** The identifiers are of 8 bytes, and the packet number is in the range that
    the library asks for unless the device gave 2^32 - 1. *)
Lemma client_args_ok verbose now_ns timeout_ns local remote g :
  (forall g, u32_ok (device g).1) ->
  let '(a, _) := client_args verbose now_ns timeout_ns local remote g in
  len (ca_dcid a) = DEST_ID_LEN /\ len (ca_scid a) = SOURCE_ID_LEN /\
  bytes_ok (ca_dcid a) /\ bytes_ok (ca_scid a) /\
  (se_initial_pkt_num (ca_settings a) <= INT32_MAX <-> (device g).1 <> 2 ^ 32 - 1) /\
  pa_initial_max_stream_data_bidi_local (ca_params a) <= pa_initial_max_data (ca_params a).
Proof.
  intros Hd. unfold client_args. rewrite fillRandom_u32 by done.
  pose proof (initial_pkt_num_range (device g).1 (Hd g)) as [_ Hp]. destruct (device g) as [random g1]. cbn in Hp.
  pose proof (fillRandom_fills device fastRand SOURCE_ID_LEN g1 ltac:(done)) as Hs.
  destruct (fillRandom _ _ SOURCE_ID_LEN g1) as [scid g2]. destruct Hs as [Hs Hs'].
  pose proof (fillRandom_fills device fastRand DEST_ID_LEN g2 ltac:(done)) as Hx.
  destruct (fillRandom _ _ DEST_ID_LEN g2) as [dcid g3]. destruct Hx as [Hx Hx']. by split_and!.
Qed.

(** The address of the socket is not known, or ngtcp2 makes no connection. *)
Definition no_connection (verbose : bool) (now_ns timeout_ns : Z) (remote : address) (g : G) : Prop :=
  exists net, open_socket remote = Ok net /\
    match udp_localAddress net with
    | inl _ => True
    | inr local => exists code, conn_client_new (client_args verbose now_ns timeout_ns local remote g).1 = inl code
    end.

(** C12. [connect] from its beginning: whatever the system, the TLS library and
    ngtcp2 answer, it ends no later than the turn of the handshake in which the
    deadline passes, when there is a TLS context.  With a success the connection is
    usable - connected, its main stream open, its streams in step with the library -
    and its TLS session is there.  With an error either the socket could not be
    opened, and nothing was made, or the connection is closed, and its worker was
    cancelled and has ended.  In both cases the destructor of the connection deletes
    ngtcp2's connection once, after the session and the context that were made for it,
    each once, and calls nothing on a session that is gone.  It throws only when the
    address of the socket is not known or ngtcp2 makes no connection: the
    worker then asks for the close packet of a null connection. *)
Theorem quic_connect_ends now epoch ended now_ns timeout_ns timeout remote debug g turns script :
  Exists (timed_out (iadd now timeout)) turns ->
  let '(res, made, w) := connect_setup now epoch ended now_ns timeout_ns timeout remote true debug g turns script in
  match res, made with
  | Ok _, Some (c, t) =>
      inv c /\ qc_connected c = true /\ qc_closed c = false /\ is_Some (qc_streams c !! qc_mainStreamId c) /\
      qc_accepted c = [] /\ ts_session t = true /\ torn_down (QuicConnection_destructor t w).2
  | Err _, Some (c, t) =>
      qc_closed c = true /\ qc_cancelled c = true /\ qc_workerRunning c = false /\ torn_down (QuicConnection_destructor t w).2
  | Err e, None => open_socket remote = Err e /\ w = new_TlsWorld
  | Fault f, None =>
      f = NullDereference /\
      no_connection (match debug with Some (v, _) => v | None => false end) now_ns timeout_ns remote g
  | _, _ => False
  end.
Proof.
  intros Hturns. unfold connect_setup, no_connection. cbn [negb]. destruct (open_socket remote) as [net|e|f] eqn:Hs;
    [|done|unfold open_socket in Hs; by repeat case_match].
  destruct (udp_localAddress net) as [e|local] eqn:Hl; [split; [done|]; exists net; by rewrite Hl|].
  destruct (client_args _ _ _ local remote g) as [args g'] eqn:Ha.
  destruct (conn_client_new args) as [code|x] eqn:Hn; [split; [done|]; exists net; rewrite Hl, Ha; eauto|].
  pose proof (create_balanced backend created configured) as Hc.
  destruct (QuicTlsSession_create backend created configured new_TlsWorld) as [tls w].
  assert (is_fault tls = false) as Hf by (by destruct tls).
  set (x' := match tls with Ok _ => _ | _ => x end).
  pose proof (connect_ends now epoch ended timeout (Ok (with_loss debug net)) (Ok x') ((fun _ => tt) <$> tls) turns script
    eq_refl eq_refl ltac:(by destruct tls) Hturns) as H.
  unfold QuicConnection_connect in *. destruct (connect_steps _ _ _ _) as [res c] eqn:E.
  destruct res as [[]|e|f]; cbn; [|destruct tls as [t|e'|f]; naive_solver|done].
  destruct tls as [t|e'|f]; [naive_solver|done..].
Qed.
End Connect.

(** ** A run *)
Definition counter (g : Z) : Z * Z := (g mod 2 ^ 32, g + 1).
Definition example_bind (v6 : bool) : SocketError + Net :=
  if v6 then inl {| se_timedOut := false; se_text := [] |} else inr (quiet_net []).
Definition example_client (args : ClientArgs (AL := simple_addresses)) : Z + ngconn :=
  if se_initial_pkt_num (ca_settings args) =? 7 then inr (new_SmallConn false : ngconn) else inl (-1).
Abbreviation example_setup configured local remote :=
  (connect_setup (C := list_cbuf) counter counter example_bind (fun _ _ => None) (fun _ => local) example_client 1 id (fun _ => id)
    OpenSSL None configured (0 : @instant nano_time) (0 : @instant nano_time) closed_at 0 1000000000
    (fromMillis 1000) remote true None 7 example_turns example_wakes).
Definition example_local : SocketError + @address simple_addresses := inr {| sa_ip := inl 1; sa_port := 9 |}.
Definition example_remote : @address simple_addresses := {| sa_ip := inl 2130706433; sa_port := 4340 |}.

Lemma quic_connect_ends_witness :
  match example_setup 0 example_local example_remote with
  | (Ok _, Some (c, t), w) =>
      qc_connected c = true /\ qc_closed c = false /\ is_Some (qc_streams c !! qc_mainStreamId c) /\ torn_down (QuicConnection_destructor t w).2
  | _ => False
  end.
Proof.
  assert (match example_setup 0 example_local example_remote with (Ok _, _, _) => true | _ => false end = true) as Hok by (vm_compute; reflexivity).
  pose proof (quic_connect_ends (C := list_cbuf) counter counter example_bind (fun _ _ => None) (fun _ => example_local) example_client 1 id
    (fun _ => id) OpenSSL None 0 (0 : @instant nano_time) (0 : @instant nano_time) closed_at 0 1000000000 (fromMillis 1000) example_remote
    None 7 example_turns example_wakes example_timed_out) as H.
  destruct (connect_setup _ _ _ _ _ _ _ _ _ _ _ _ _ _ _ _ _ _ _ _ _ _ _ _) as [[[res|e|f] [[c t]|]] w]; [|done..].
  destruct H as (_ & H1 & H2 & H3 & _ & _ & H4). done.
Defined.

(** It is connected; not when the configuration fails, nor over IPv6. *)
Example example_setups :
  (match example_setup 0 example_local example_remote with (Ok _, Some (c, _), _) => qc_connected c | _ => false end) &&
  (match example_setup 1 example_local example_remote with (Err (TE_Tls _), Some (c, _), _) => qc_closed c && negb (qc_workerRunning c) | _ => false end) &&
  (match example_setup 0 example_local {| sa_ip := inr []; sa_port := 1 |} with (Err (TE_Socket _), None, _) => true | _ => false end) = true.
Proof. vm_compute. reflexivity. Qed.

(** Without the address of the socket, null is given to ngtcp2. *)
Example null_connection :
  match example_setup 0 (inl {| se_timedOut := false; se_text := str "not connected" |}) example_remote with
  | (Fault NullDereference, None, _) => true
  | _ => false
  end = true.
Proof. vm_compute. reflexivity. Qed.
