(* ===== verification/QuicTransport.v ===== *)
(** * QuicTransport

    [include/qunet/socket/transport/QuicTransport.hpp],
    [src/socket/transport/QuicTransport.cpp]: messages over the main stream of a
    QUIC connection. *)
From S2P Require Import Prelude Dbuf Messages Codec Time Errors Effects Stats Compress Transport Stream QuicStream QuicConn.

(** What a receive buffer holds at most. *)
Definition recv_window : nat := Z.to_nat MAX_BUFFER_SIZE.
Arguments recv_window : simpl never.

Section QuicTransport.
Context {T : TimeLib} {CL : CompressionLib} {C : CircularBuffer} {NG : Ngtcp2} `{W : ByteWriter} `{R : ByteReader}.
(** The order in which the table of streams is walked. *)
Variable walk : gmap Z QuicStream -> list Z.

(** The calls without a stream are for the main stream. *)
Definition main_pollReadable : ST QuicConnection unit := fun c => pollReadable walk (qc_mainStreamId c) c.
Definition main_pollWritable : ST QuicConnection unit := fun c => pollWritable walk (qc_mainStreamId c) c.
Definition main_send (data : list Z) : ST QuicConnection Z := fun c => QuicConnection_send walk (qc_mainStreamId c) data c.
Definition main_sendAll (data : list Z) : ST QuicConnection unit := fun c => QuicConnection_sendAll walk (qc_mainStreamId c) data c.
Definition main_receive (size : Z) : ST QuicConnection (list Z) := fun c => QuicConnection_receive walk (qc_mainStreamId c) size c.

(** What is in the buffer of the main stream, and what fits into it after each
    turn of the worker to come. *)
Definition main_turns (c : QuicConnection) : nat :=
  (match qc_streams c !! qc_mainStreamId c with Some s => Z.to_nat (cb_size (qs_recvBuffer s)) | None => 0 end +
   length (qc_script c) * recv_window)%nat.

Definition quic_streaming : Streaming QuicConnection :=
  {| st_sendAll := main_sendAll; st_receive := main_receive; st_turns := main_turns |}.
#[local] Existing Instance quic_streaming.

Abbreviation QuicTransport := (StreamLayer QuicConnection).

Definition new_QuicTransport (start : instant) (connection : QuicConnection) : QuicTransport :=
  {| sp_base := new_BaseTransport start; sp_stream := connection; sp_buffer := new_cbuf 512 |}.

Definition QuicTransport_connect (start epoch ended : instant) (timeout : duration) (socket : TransportResult Net)
    (client : TransportResult ngconn) (tls : TransportResult unit) (turns : list HandshakeTurn) (script : list (Wake * instant))
    : TransportResult QuicTransport :=
  match QuicConnection_connect start epoch ended timeout socket client tls turns script with
  | (Ok _, Some c) => Ok (new_QuicTransport start c)
  | (Ok _, None) => Fault AssertionFailed
  | (Err e, _) => Err e
  | (Fault f, _) => Fault f
  end.

Definition QuicTransport_close (now : instant) : ST QuicTransport unit := in_stream (QuicConnection_close now).
(** The destructor does this too. *)
Definition QuicTransport_closeSync : ST QuicTransport unit := in_stream QuicConnection_closeSync.
Definition QuicTransport_isClosed (t : QuicTransport) : bool := qc_closed (sp_stream t).

Definition QuicTransport_sendMessage (now : instant) (message : QunetMessage) : ST QuicTransport unit :=
  streamcommon_sendMessage now message.
Definition QuicTransport_poll : ST QuicTransport unit := in_stream main_pollReadable.
Definition QuicTransport_receiveMessage (now : instant) : ST QuicTransport QunetMessage := streamcommon_receiveMessage now.

Definition QuicTransport_untilTimerExpiry (t : QuicTransport) : duration := QuicConnection_untilTimerExpiry.
Definition QuicTransport_handleTimerExpiry : ST QuicTransport unit :=
  _ ← in_base BaseTransport_handleTimerExpiry;
  in_stream QuicConnection_handleTimerExpiry.
End QuicTransport.
