(* ===== verification/QuicTransportSpec.v ===== *)
(** * QuicTransport: theorems

    A QUIC connection keeps the promise of a stream, so that what holds of
    messages over any stream holds over QUIC; and a message that is sent is
    handed to the main stream whole, after what was sent before. *)
From S2P Require Import Prelude Dbuf Messages Codec CodecSpec Time Errors Effects Stats Compress Transport Stream StreamSpec StreamSafe.
From S2P Require Import QuicStream QuicStreamSpec QuicConn QuicConnSpec QuicConnSend QuicConnOpen QuicConnEx QuicTransport.

(** ngtcp2 hands bytes over. *)
Class NgBytes {T : TimeLib} {NG : Ngtcp2} :=
  read_bytes packet now x :
    Forall (fun ev => match ev with NgStreamData _ data => bytes_ok data | _ => True end) (ng_read_pkt packet now x).1.2.

(** ** What a stream has received *)
Section Received.
Context {T : TimeLib} {C : CircularBuffer} {CL : CircularBufferLaws C} {NG : Ngtcp2} {NB : NgBytes}.
Variable walk : gmap Z QuicStream -> list Z.
Abbreviation M := (ST QuicConnection).

Definition stream_received (s : QuicStream) : Prop :=
  bytes_ok (contents (qs_recvBuffer s)) /\ len (contents (qs_recvBuffer s)) <= MAX_BUFFER_SIZE.
Definition all_received (m : gmap Z QuicStream) : Prop := forall id s, m !! id = Some s -> stream_received s.
Definition received_ok (c : QuicConnection) : Prop := all_received (qc_streams c).

Lemma new_received id : stream_received (new_QuicStream id).
Proof. unfold stream_received. cbn. rewrite contents_new. split; [constructor|]. by unfold MAX_BUFFER_SIZE. Qed.

Lemma insert_received id s m : stream_received s -> all_received m -> all_received (<[id := s]> m).
Proof. intros Hs Hm j x. rewrite lookup_insert. case_decide; [by intros [= <-]|apply Hm]. Qed.

Lemma received_more data s : bytes_ok data -> stream_received s -> stream_received (QuicStream_onReceivedData data s).
Proof.
  intros Hd [Hb Hl]. unfold QuicStream_onReceivedData. rewrite cb_size_law, u_small by (unfold MAX_BUFFER_SIZE in *; lia).
  destruct (Z.ltb_spec (len data) (MAX_BUFFER_SIZE - len (contents (qs_recvBuffer s)))); [|done].
  unfold stream_received. cbn. rewrite cb_write_law, length_app. split; [by apply Forall_app|lia].
Qed.

Lemma preserves_updating {A} (f : ngconn -> A * ngconn) : preserves received_ok (ng_updating f).
Proof. apply preserves_state. intros c. by destruct (f (qc_conn c)). Qed.
Lemma preserves_call {A} (f : ngconn -> A * ngconn) : preserves received_ok (ng_call f).
Proof. apply preserves_state. intros c. by destruct (f (qc_conn c)). Qed.
Lemma preserves_in_net {A} (m : ST Net A) : preserves received_ok (in_net m).
Proof. by apply preserves_focus. Qed.
#[local] Hint Resolve preserves_updating preserves_call preserves_in_net : preserves.

Lemma preserves_sendPacket now buf : preserves received_ok (sendPacket now buf).
Proof. unfold sendPacket, shouldLosePacket. preserves_auto. Qed.
#[local] Hint Resolve preserves_sendPacket : preserves.
Lemma preserves_nonstream now : preserves received_ok (sendNonStreamPacket now).
Proof. unfold sendNonStreamPacket, wrapWritePacket. preserves_auto. Qed.
Lemma preserves_close now : preserves received_ok (QuicConnection_close now).
Proof. unfold QuicConnection_close, sendClosePacket, QuicConnection_closeSync. preserves_auto. Qed.

Lemma update_received id f c :
  (forall s, qs_recvBuffer (f s) = qs_recvBuffer s) -> received_ok c -> received_ok (update_stream id f c).
Proof.
  intros Hf Hc. unfold update_stream. destruct (qc_streams c !! id) as [s|] eqn:Hs; [|done]. apply insert_received; [|done].
  unfold stream_received. rewrite Hf. by apply (Hc id).
Qed.

Lemma preserves_sendStreamData now id stream fin : preserves received_ok (sendStreamData now id stream fin).
Proof. unfold sendStreamData. preserves_auto. by apply update_received. Qed.
Lemma preserves_mapErr (m : M unit) : preserves received_ok m -> preserves received_ok (mapErr m).
Proof. intros Hm. unfold mapErr. preserves_auto. Qed.
#[local] Hint Resolve preserves_nonstream preserves_close preserves_sendStreamData preserves_mapErr : preserves.
Lemma preserves_write_streams now ids : preserves received_ok (write_streams now ids).
Proof. induction ids; cbn; preserves_auto. Qed.
#[local] Hint Resolve preserves_write_streams : preserves.
Lemma preserves_writes now : preserves received_ok (workerHandleWrites walk now).
Proof. unfold workerHandleWrites. preserves_auto. Qed.

Lemma preserves_events evs :
  Forall (fun ev => match ev with NgStreamData _ data => bytes_ok data | _ => True end) evs ->
  preserves received_ok (handle_events evs).
Proof.
  induction 1 as [|ev evs Hev _ IH]; cbn; [preserves_auto|]. apply preserves_bind; [|by intros ?]. apply preserves_update.
  intros c c' Hc. destruct ev as [id data|id off n|id]; cbn.
  - intros [= <-]. unfold onReceivedData. destruct (qc_streams c !! id) as [s|] eqn:Hs; [|done]. apply insert_received; [|done].
    apply received_more; [done|by apply (Hc id)].
  - unfold onAckedData. destruct (qc_streams c !! id) as [s|] eqn:Hs; [|by intros [= <-]].
    unfold QuicStream_onAck, qn_assert. cbn. repeat case_match; cbn; intros [= <-]; apply insert_received; try done; by apply (Hc id s).
  - intros [= <-] j s Hj. cbn in Hj. apply lookup_delete_Some in Hj as [_ Hj]. by apply (Hc j).
Qed.

Lemma preserves_recv block : preserves received_ok (quic_recv block).
Proof. intros c Hc. unfold quic_recv. by destruct (qc_incoming c). Qed.

Lemma preserves_receivePacket now block : preserves received_ok (receivePacket now block).
Proof.
  unfold receivePacket. apply preserves_bind; [apply preserves_recv|]. intros [bytes|]; [|apply preserves_ret].
  intros c Hc. unfold ng_call at 1, state at 1, mbind at 1, ST_bind at 1. pose proof (read_bytes bytes now (qc_conn c)) as Hr.
  destruct (ng_read_pkt bytes now (qc_conn c)) as [[code evs] x]. cbn in Hr.
  pose proof (preserves_events evs Hr) as He. revert c Hc. cbn.
  match goal with |- forall c, received_ok c -> received_ok ((?m ≫= ?k) (set_ngconn x (qc_nextExpiry c) c)).2 =>
    assert (preserves received_ok (m ≫= k)) as H by preserves_auto; intros c Hc; by apply H end.
Qed.
#[local] Hint Resolve preserves_writes preserves_receivePacket : preserves.

Lemma preserves_handleExpiry now : preserves received_ok (handleExpiry now).
Proof. unfold handleExpiry. preserves_auto. Qed.
#[local] Hint Resolve preserves_handleExpiry : preserves.
Lemma preserves_event wake now : preserves received_ok (worker_event wake now).
Proof. unfold worker_event. preserves_auto. Qed.
Lemma preserves_worker_end now : preserves received_ok (worker_end now).
Proof. unfold worker_end. preserves_auto. Qed.
#[local] Hint Resolve preserves_event preserves_worker_end : preserves.
Lemma preserves_worker_turn wake now : preserves received_ok (worker_turn walk wake now).
Proof. unfold worker_turn. preserves_auto. Qed.
Lemma preserves_wait_worker : preserves received_ok (wait_worker walk).
Proof. intros c Hc. unfold wait_worker. destruct (qc_script c) as [|[wake now] script]; [done|]. by apply preserves_worker_turn. Qed.
#[local] Hint Resolve preserves_wait_worker : preserves.

(** Sending changes what is to be sent. *)
Lemma preserves_poll fuel ready id : preserves received_ok (poll_stream walk fuel ready id).
Proof. induction fuel as [|fuel IH]; cbn; preserves_auto. Qed.
#[local] Hint Resolve preserves_poll : preserves.

Lemma preserves_write_to id data : preserves received_ok (write_to id data).
Proof.
  apply preserves_state. intros c Hc. destruct (qc_streams c !! id) as [s|] eqn:Hs; [|done].
  assert (qs_recvBuffer (QuicStream_write data s).2 = qs_recvBuffer s) as Hb by (unfold QuicStream_write; by destruct (_ =? 0)).
  destruct (QuicStream_write data s) as [n s']. cbn in *. apply insert_received; [|done].
  unfold stream_received. rewrite Hb. by apply (Hc id).
Qed.
#[local] Hint Resolve preserves_write_to : preserves.

Lemma preserves_send_loop fuel id data : preserves received_ok (send_loop walk fuel id data).
Proof. induction fuel as [|fuel IH]; cbn; unfold pollWritable, getStream; preserves_auto. Qed.
#[local] Hint Resolve preserves_send_loop : preserves.

Lemma preserves_sendAll_loop fuel id data : preserves received_ok (sendAll_loop walk fuel id data).
Proof.
  revert data. induction fuel as [|fuel IH]; intros data; cbn; (destruct data; [apply preserves_ret|]); [apply preserves_lift|].
  unfold QuicConnection_send. preserves_auto.
Qed.
End Received.

(** ** The promise of a stream *)
Section Promise.
Context {T : TimeLib} {C : CircularBuffer} {CL : CircularBufferLaws C} {NG : Ngtcp2} {NL : NgLaws} {NB : NgBytes}.
Variable walk : gmap Z QuicStream -> list Z.

Definition quic_ok (c : QuicConnection) : Prop := inv c /\ received_ok c.
(** The main stream is [id], and [n] is left. *)
Definition left_at (id : Z) (n : nat) (c : QuicConnection) : Prop :=
  quic_ok c /\ qc_mainStreamId c = id /\ (main_turns c <= n)%nat.

Lemma main_turns_bound c : received_ok c -> (main_turns c <= S (length (qc_script c)) * recv_window)%nat.
Proof.
  intros Hc. unfold main_turns. destruct (qc_streams c !! qc_mainStreamId c) as [s|] eqn:Hs; [|lia].
  destruct (Hc _ _ Hs) as [_ Hl]. rewrite cb_size_law. unfold recv_window. lia.
Qed.

Lemma wait_worker_left id n k :
  triple (fun c => left_at id n c /\ length (qc_script c) < S k)%nat (wait_worker walk)
    (fun _ c => left_at id n c /\ length (qc_script c) < k)%nat quic_ok.
Proof.
  intros c [[[Hi Hr] [Hid Hn]] Hk]. pose proof (wait_worker_ok walk (qc_accepted c) k c (conj (conj Hi eq_refl) Hk)) as Hw.
  pose proof (preserves_wait_worker walk c Hr) as Hp. revert Hw Hp. unfold wait_worker.
  destruct (qc_script c) as [|[wake now] script] eqn:Hs; [done|].
  pose proof (log_worker_turn walk wake now (set_script script c)) as Hl. unfold log in Hl. cbn in Hl.
  destruct (worker_turn walk wake now (set_script script c)) as [[[]|e|[]] c']; cbn in *; try done;
    [|intros [? _] ?; by split|intros [? _] ?; by split].
  intros [[Hi' _] Hk'] Hr'. injection Hl as _ Hs' Hm'. split; [|done]. split; [by split|]. split; [congruence|].
  pose proof (main_turns_bound c' Hr') as Hb. rewrite Hs' in Hb. unfold main_turns in Hn. rewrite Hs in Hn. cbn [length] in Hn.
  clear - Hb Hn. revert Hb Hn. generalize recv_window as w. intros w Hb Hn. lia.
Qed.

Lemma wait_readable_left id n fuel :
  triple (fun c => left_at id n c /\ length (qc_script c) < fuel)%nat (wait_readable walk fuel id)
    (fun _ c => left_at id n c /\ (qc_cancelled c = true \/ ready_stream readable id c)) quic_ok.
Proof.
  induction fuel as [|fuel IH]; cbn; [intros c []; lia|]. intros c [Hc Hk]. unfold get, mbind at 1, ST_bind at 1.
  destruct (qc_cancelled c) eqn:Hx; cbn; [split; [done|by left]|].
  destruct (match qc_streams c !! id with Some s => readable s | None => false end) eqn:Hready.
  - split; [done|]. right. unfold ready_stream. destruct (qc_streams c !! id); [by eexists|done].
  - by apply (triple_bind _ _ _ _ _ _ (wait_worker_left id n fuel) (fun _ => IH)).
Qed.

Lemma read_received n s :
  0 < n -> stream_received s ->
  let '(bs, s') := QuicStream_read n s in
  stream_received s' /\ bytes_ok bs /\ len (contents (qs_recvBuffer s')) + len bs = len (contents (qs_recvBuffer s)) /\
  (readable s = true -> bs <> []) /\ s' = set_recvBuffer (qs_recvBuffer s') s.
Proof.
  intros Hn [Hb Hl]. pose proof (read_spec n s ltac:(lia)) as Hr. destruct (QuicStream_read n s) as [bs s'].
  destruct Hr as (Hc & Hlen & Hs'). rewrite Hc in Hb, Hl |- *. apply Forall_app in Hb as [Hb1 Hb2].
  rewrite length_app in *. split; [split; [done|lia]|]. split; [done|]. split; [lia|]. split; [|done].
  intros Hr ->. unfold readable, unreadBytes in Hr. destruct (qs_closed s); [done|]. rewrite cb_size_law, Hc in Hr.
  cbn in Hr, Hlen. rewrite Hc in Hlen. cbn in Hlen. destruct (Z.eqb_spec (len (contents (qs_recvBuffer s'))) 0); [done|lia].
Qed.

(** The bytes that are read, and what is left. *)
Definition gave (n : nat) (bs : list Z) (c : QuicConnection) : Prop :=
  quic_ok c /\ bytes_ok bs /\ (main_turns c + length bs <= n)%nat.

Lemma read_from_left id n k s c :
  0 < k -> left_at id n c -> qc_streams c !! id = Some s ->
  exists bs c', read_from k id s c = (Ok bs, c') /\ gave n bs c' /\ qc_mainStreamId c' = id /\
    (readable s = true -> bs <> []).
Proof.
  intros Hk [[Hi Hr] [Hid Hn]] Hs. unfold read_from, state. pose proof (read_received k s Hk (Hr _ _ Hs)) as Hread.
  destruct (QuicStream_read k s) as [bs s']. destruct Hread as (Hs' & Hb & Hlen & Hne & Heq).
  do 2 eexists. split; [reflexivity|]. split; [|by split]. split; [split|split; [done|]].
  - intros Hrun. cbn. eapply streams_insert; [by apply (Hi Hrun)| |done]. rewrite Heq. apply sender_recv. by apply (Hi Hrun).
  - by apply insert_received.
  - revert Hn. unfold main_turns. cbn. rewrite Hid, lookup_insert_eq, Hs, !cb_size_law.
    generalize (length (qc_script c) * recv_window)%nat as w. intros w Hn. lia.
Qed.

Lemma receive_loop_left id n k fuel c :
  0 < k -> left_at id n c -> ready_stream readable id c \/ (0 < fuel)%nat ->
  match quic_receive_loop walk (S fuel) id k c with
  | (Ok bs, c') => gave n bs c'
  | (Err _, c') | (Fault WouldBlock, c') => quic_ok c'
  | (Fault _, _) => False
  end.
Proof.
  intros Hk. revert c. induction fuel as [|fuel IH]; intros c Hc Hready; cbn [quic_receive_loop];
    unfold get, getStream, mbind at 1 2, ST_bind at 1 2; (destruct (qc_cancelled c); [apply Hc|]);
    unfold get, mbind at 1, ST_bind at 1.
  - destruct Hready as [(s & Hs & Hr)|]; [|lia]. rewrite Hs. cbn. unfold mbind, ST_bind.
    destruct (read_from_left id n k s c Hk Hc Hs) as (bs & c' & -> & Hg & _ & Hne). specialize (Hne Hr). by destruct bs.
  - destruct (qc_streams c !! id) as [s|] eqn:Hs; [|apply Hc]. unfold mret at 1, ST_ret at 1, mbind at 1, ST_bind at 1.
    destruct (read_from_left id n k s c Hk Hc Hs) as (bs & c' & -> & Hg & Hid & _). destruct bs as [|b bs]; [|exact Hg].
    assert (left_at id n c') as Hl by (destruct Hg as (Hg1 & _ & Hg2); split; [done|split; [done|cbn in Hg2; lia]]).
    unfold mbind at 1, ST_bind at 1. set (nf := script_fuel c').
    assert (length (qc_script c') < nf)%nat as Hnf by (unfold nf, script_fuel; lia).
    pose proof (wait_readable_left id n nf c' (conj Hl Hnf)) as Hw. unfold mbind at 1, ST_bind at 1.
    destruct (wait_readable walk nf id c') as [[[]|e|[]] c2]; try done. destruct Hw as [Hl2 [Hx|Hx]].
    + cbn [quic_receive_loop]. unfold get, mbind at 1, ST_bind at 1. rewrite Hx. apply Hl2.
    + apply IH; [done|by left].
Qed.

Lemma main_receive_law n c :
  0 < n -> quic_ok c ->
  match main_receive walk n c with
  | (Ok bs, c') => quic_ok c' /\ bytes_ok bs /\ (main_turns c' + length bs <= main_turns c)%nat
  | (Err _, c') | (Fault WouldBlock, c') => quic_ok c'
  | (Fault _, _) => False
  end.
Proof.
  intros Hn Hc. unfold main_receive, QuicConnection_receive, get, mbind at 1, ST_bind at 1.
  destruct (qc_closed c); [done|]. destruct (Z.eqb_spec n 0); [lia|].
  apply (receive_loop_left (qc_mainStreamId c) (main_turns c) n 1 c Hn); [by split|right; lia].
Qed.
End Promise.

#[export] Instance quic_streaming_laws {T : TimeLib} {C : CircularBuffer} {CL : CircularBufferLaws C} {NG : Ngtcp2}
  {NL : NgLaws} {NB : NgBytes} walk : StreamingLaws (SO := quic_streaming walk) QuicConnection.
Proof. refine {| st_ok := quic_ok |}. intros n c Hn Hc. exact (main_receive_law walk n c Hn Hc). Defined.

(** ** Sending a message *)
Section Sending.
Context {T : TimeLib} {CP : CompressionLib} {C : CircularBuffer} {CL : CircularBufferLaws C} {NG : Ngtcp2} {NL : NgLaws}.
Context `{WL : ByteWriterLaws}.
Variable walk : gmap Z QuicStream -> list Z.

(** A message sent over QUIC, on a connection whose streams are in step
    ([inv]): its length and its payload are handed to the main stream behind what
    was handed to it before, all of it when the call succeeds and a prefix when
    it fails or waits; no other stream is touched, the streams stay in step, and
    nothing throws. *)
Lemma quic_message_in_order now d limit m m' t :
  travels d limit m m' -> inv (sp_stream t) ->
  let main := qc_mainStreamId (sp_stream t) in
  len (history main (qc_accepted (sp_stream t))) + len (frame (payload m)) < 2 ^ 62 ->
  let '(res, t') := QuicTransport_sendMessage walk now m t in
  inv (sp_stream t') /\
  (exists chunks, qc_accepted (sp_stream t') = qc_accepted (sp_stream t) ++ taken_by main chunks /\
    match res with
    | Ok _ => mjoin chunks = frame (payload m)
    | _ => exists rest, frame (payload m) = mjoin chunks ++ rest
    end) /\
  (forall f, res = Fault f -> f = WouldBlock).
Proof.
  intros Hm Hi main Hl. destruct (encode_frame_written d limit m m' Hm) as (w & Hw & Hbytes).
  unfold QuicTransport_sendMessage, streamcommon_sendMessage. rewrite Hw. unfold lift at 1, mbind at 1, ST_bind at 1.
  rewrite Hbytes. unfold in_stream, focus, mbind, ST_bind. cbn [st_sendAll quic_streaming]. unfold main_sendAll, QuicConnection_sendAll.
  pose proof (sendAll_loop_ok walk main (length (frame (payload m))) (qc_accepted (sp_stream t)) (frame (payload m)) ltac:(lia) Hl
    (sp_stream t) (conj Hi eq_refl)) as H. fold main.
  destruct (sendAll_loop walk _ main _ (sp_stream t)) as [[[]|e|[]] c']; try done; destruct H as (chunks & [Hi' Ha'] & Hd); cbn;
    (split; [done|split; [by exists chunks|by intros ? [=]]]).
Qed.
End Sending.

(** ** Runs *)
#[export] Instance small_ng_bytes : NgBytes (T := nano_time) (NG := small_ng).
Proof.
  intros packet now x. cbn. unfold small_events. apply Forall_app. split; [by destruct (_ <=? _); repeat constructor|].
  assert (forall data, bytes_ok ((fun b => b mod 256) <$> data)) as H.
  { intros data. apply Forall_fmap, Forall_true. intros b. unfold byte_ok. cbn. pose proof (Z.mod_pos_bound b 256). lia. }
  destruct packet as [|[|[[]|[]|]|] data]; repeat constructor. apply H.
Qed.

Lemma ready_streams : qc_streams ready_connection = {[0 := new_QuicStream 0]}.
Proof. vm_compute. reflexivity. Qed.

Lemma ready_received : received_ok ready_connection.
Proof. intros id s. rewrite ready_streams, lookup_singleton_Some. intros [_ <-]. apply new_received. Qed.

Definition example_quic : StreamLayer (CL := rle_lib) (QuicConnection (NG := small_ng) (C := list_cbuf)) :=
  new_QuicTransport (0 : @instant nano_time) ready_connection.
#[local] Existing Instance quic_streaming.

Definition example_keepalive : QunetMessage := MKeepalive {| ka_timestamp := 7 |}.

(** A packet brings a message whole, and it is received; the answer is sent. *)
Example example_quic_exchange :
  let bytes := written (default new_writer (match encode_frame (W := list_writer) example_keepalive with Ok w => Some w | _ => None end)) in
  match (_ ← in_stream (worker_turn in_order (WakePacket (inr (1 :: bytes))) (5 : @instant nano_time));
         m ← QuicTransport_receiveMessage (R := list_reader) in_order (6 : @instant nano_time);
         _ ← QuicTransport_sendMessage (W := list_writer) in_order (7 : @instant nano_time) m;
         in_stream (worker_turn in_order WakeNotified (8 : @instant nano_time)))
        (Stream.set_stream (set_script [] ready_connection) example_quic) with
  | (Ok _, t) => bool_decide (net_sent (qc_net (sp_stream t)) = [[7]; 9 :: ztake 2 bytes])
  | _ => false
  end = true.
Proof. vm_compute. reflexivity. Qed.
