(* ===== verification/QuicOrder.v ===== *)
(** * QUIC: messages in order

    ngtcp2 reports the bytes of a stream once and in order; then the receiver of
    the main stream reads them so, and receives the messages of its peer in the
    order they were sent, whatever the worker does meanwhile. *)
From S2P Require Import Prelude Dbuf Messages Codec CodecSpec Time Errors Effects Stats Compress Transport Stream StreamSpec StreamSafe StreamOrder.
From S2P Require Import QuicStream QuicStreamSpec QuicConn QuicConnSpec QuicConnSend QuicConnOpen QuicConnEx QuicTransport QuicTransportSpec.

Open Scope Z_scope.

(** ** What is assumed of ngtcp2
    What it reported of a stream is a beginning of what the peer sent on it; only
    [ng_read_pkt] reports more, in its events. *)
Definition event_data (id : Z) (evs : list NgEvent) : list Z :=
  mjoin ((fun ev => match ev with NgStreamData j data => if j =? id then data else [] | _ => [] end) <$> evs).

Class NgDelivers {T : TimeLib} {NG : Ngtcp2} (id : Z) (total : list Z) := {
  ng_received : ngconn -> list Z;
  received_prefix x : ng_received x `prefix_of` total;
  received_write_pkt now x : ng_received (ng_write_pkt now x).2 = ng_received x;
  received_writev j fin wrp now x : ng_received (ng_writev_stream j fin wrp now x).2 = ng_received x;
  received_close now x : ng_received (ng_write_connection_close now x).2 = ng_received x;
  received_expiry now x : ng_received (ng_handle_expiry now x).2 = ng_received x;
  received_tx_time now x : ng_received (ng_update_pkt_tx_time now x) = ng_received x;
  received_read packet now x :
    let '(_, evs, x') := ng_read_pkt packet now x in ng_received x' = ng_received x ++ event_data id evs;
}.

Section Order.
Context {T : TimeLib} {C : CircularBuffer} {CL : CircularBufferLaws C} {NG : Ngtcp2} {NL : NgLaws}.
Context (id : Z) (total : list Z) {ND : NgDelivers id total}.
(** The limit of flow control, which is never extended. *)
Context (Htotal : len total <= initial_max_stream_data_bidi_local).
Variable walk : gmap Z QuicStream -> list Z.
Abbreviation M := (ST QuicConnection).

(** [read] was read of the stream: with what is in its buffer it is what ngtcp2
    reported, unless the stream was closed. *)
Definition reading (read : list Z) (c : QuicConnection) : Prop :=
  forall s, qc_streams c !! id = Some s -> read ++ contents (qs_recvBuffer s) = ng_received (qc_conn c).

(** ** What the worker writes *)
Lemma reading_updating {A} read (f : ngconn -> A * ngconn) :
  (forall x, ng_received (f x).2 = ng_received x) -> preserves (reading read) (ng_updating f).
Proof.
  intros Hf. apply preserves_state. intros c Hc. specialize (Hf (qc_conn c)). destruct (f (qc_conn c)) as [a x].
  intros s Hs. cbn in *. rewrite Hf. by apply Hc.
Qed.
Lemma reading_call {A} read (f : ngconn -> A * ngconn) :
  (forall x, ng_received (f x).2 = ng_received x) -> preserves (reading read) (ng_call f).
Proof.
  intros Hf. apply preserves_state. intros c Hc. specialize (Hf (qc_conn c)). destruct (f (qc_conn c)) as [a x].
  intros s Hs. cbn in *. rewrite Hf. by apply Hc.
Qed.
Lemma reading_in_net {A} read (m : ST Net A) : preserves (reading read) (in_net m).
Proof. by apply preserves_focus. Qed.
#[local] Hint Resolve reading_in_net : preserves.

Lemma reading_tx_time read now : preserves (reading read) (ng_updating (fun x => (tt, ng_update_pkt_tx_time now x))).
Proof. apply reading_updating. intros x. apply received_tx_time. Qed.
Lemma reading_write_pkt read now : preserves (reading read) (ng_updating (ng_write_pkt now)).
Proof. apply reading_updating, received_write_pkt. Qed.
Lemma reading_write_close read now : preserves (reading read) (ng_call (ng_write_connection_close now)).
Proof. apply reading_call, received_close. Qed.
Lemma reading_ng_expiry read now : preserves (reading read) (ng_call (ng_handle_expiry now)).
Proof. apply reading_call, received_expiry. Qed.
Lemma reading_writev read j fin wrp now : preserves (reading read) (ng_updating (ng_writev_stream j fin wrp now)).
Proof. apply reading_updating. intros x. apply received_writev. Qed.
#[local] Hint Resolve reading_tx_time reading_write_pkt reading_write_close reading_ng_expiry reading_writev : preserves.

Lemma reading_sendPacket read now buf : preserves (reading read) (sendPacket now buf).
Proof. unfold sendPacket, shouldLosePacket. preserves_auto. Qed.
#[local] Hint Resolve reading_sendPacket : preserves.
Lemma reading_nonstream read now : preserves (reading read) (sendNonStreamPacket now).
Proof. unfold sendNonStreamPacket, wrapWritePacket. preserves_auto. Qed.
Lemma reading_quic_close read now : preserves (reading read) (QuicConnection_close now).
Proof. unfold QuicConnection_close, sendClosePacket, QuicConnection_closeSync. preserves_auto. Qed.

(** The buffer of a stream that is read stays as it is. *)
Lemma update_reading read j f c :
  (forall s, qs_recvBuffer (f s) = qs_recvBuffer s) -> reading read c -> reading read (update_stream j f c).
Proof.
  intros Hf Hc s. unfold update_stream. destruct (qc_streams c !! j) as [s0|] eqn:Hj; [|apply Hc]. cbn.
  rewrite lookup_insert. case_decide as Hd; [|apply Hc]. intros [= <-]. subst. rewrite Hf. by apply Hc.
Qed.

Lemma reading_sendStreamData read now j stream fin : preserves (reading read) (sendStreamData now j stream fin).
Proof. unfold sendStreamData. preserves_auto. by apply update_reading. Qed.
Lemma reading_mapErr read (m : M unit) : preserves (reading read) m -> preserves (reading read) (mapErr m).
Proof. intros Hm. unfold mapErr. preserves_auto. Qed.
#[local] Hint Resolve reading_nonstream reading_quic_close reading_sendStreamData reading_mapErr : preserves.
Lemma reading_write_streams read now ids : preserves (reading read) (write_streams now ids).
Proof. induction ids; cbn; preserves_auto. Qed.
#[local] Hint Resolve reading_write_streams : preserves.
Lemma reading_writes read now : preserves (reading read) (workerHandleWrites walk now).
Proof. unfold workerHandleWrites. preserves_auto. Qed.
Lemma reading_handleExpiry read now : preserves (reading read) (handleExpiry now).
Proof. unfold handleExpiry. preserves_auto. Qed.
Lemma reading_worker_end read now : preserves (reading read) (worker_end now).
Proof. unfold worker_end. preserves_auto. Qed.

(** ** What it receives *)
Lemma received_more_data data s :
  len (contents (qs_recvBuffer s)) + len data <= initial_max_stream_data_bidi_local ->
  contents (qs_recvBuffer (QuicStream_onReceivedData data s)) = contents (qs_recvBuffer s) ++ data.
Proof.
  intros Hl. assert (initial_max_stream_data_bidi_local < MAX_BUFFER_SIZE) as Hm by done.
  unfold QuicStream_onReceivedData. rewrite cb_size_law, u_small by (unfold MAX_BUFFER_SIZE in *; lia).
  rewrite (proj2 (Z.ltb_lt _ _)) by lia. cbn. apply cb_write_law.
Qed.

Lemma handle_events_reading evs : forall c c' read recv,
  (forall s, qc_streams c !! id = Some s -> read ++ contents (qs_recvBuffer s) = recv) ->
  len (recv ++ event_data id evs) <= initial_max_stream_data_bidi_local ->
  handle_events evs c = (Ok tt, c') ->
  forall s, qc_streams c' !! id = Some s -> read ++ contents (qs_recvBuffer s) = recv ++ event_data id evs.
Proof.
  induction evs as [|ev evs IH]; intros c c' read recv Hc Hl; cbn [handle_events].
  { intros [= <-]. unfold event_data. cbn. rewrite app_nil_r. apply Hc. }
  assert (event_data id (ev :: evs) = event_data id [ev] ++ event_data id evs) as Hev
    by (unfold event_data; cbn; by rewrite app_nil_r).
  rewrite Hev in *. rewrite app_assoc in *. unfold update, mbind, ST_bind.
  destruct (handle_event ev c) as [c1|e|f] eqn:E; [|done..]. intros Hrun. refine (IH c1 c' read _ _ Hl Hrun).
  clear IH Hrun c'. unfold event_data. destruct ev as [j data|j off n|j]; cbn in E |- *; rewrite ?app_nil_r.
  - injection E as <-. unfold onReceivedData. destruct (qc_streams c !! j) as [s0|] eqn:Hj.
    + intros s. cbn. rewrite lookup_insert. case_decide as Hd.
      * intros [= <-]. subst j. rewrite Z.eqb_refl. rewrite <- (Hc s0 Hj), received_more_data, app_assoc; [done|].
        rewrite <- (Hc s0 Hj) in Hl. unfold event_data in Hl at 1. cbn in Hl. rewrite Z.eqb_refl, app_nil_r in Hl.
        rewrite !length_app in Hl. lia.
      * rewrite (proj2 (Z.eqb_neq _ _)) by done. rewrite app_nil_r. apply Hc.
    + intros s Hs. destruct (Z.eqb_spec j id) as [->|]; [congruence|]. rewrite app_nil_r. by apply Hc.
  - unfold onAckedData in E. destruct (qc_streams c !! j) as [s0|] eqn:Hj; [|injection E as <-; apply Hc].
    unfold QuicStream_onAck, qn_assert in E. cbn in E.
    intros s. repeat case_match; cbn in E; simplify_eq. cbn. rewrite lookup_insert. case_decide as Hd; [|apply Hc].
    intros [= <-]. subst j. cbn. by apply Hc.
  - injection E as <-. cbn. intros s Hs. apply lookup_delete_Some in Hs as [_ Hs]. by apply Hc.
Qed.

Lemma reading_receivePacket read now block c :
  live c -> reading read c -> reading read (receivePacket now block c).2.
Proof.
  intros Hl Hc. unfold receivePacket, mbind at 1, ST_bind at 1.
  assert (forall p c1, quic_recv block c = (Ok p, c1) -> live c1 /\ reading read c1) as Hrecv.
  { intros p c1. unfold quic_recv. destruct (qc_incoming c) as [|[e|d] ps]; [by destruct block; intros [= <- <-]|done|].
    by intros [= <- <-]. }
  assert (reading read (quic_recv block c).2) as Hend by (unfold quic_recv; by destruct (qc_incoming c)).
  destruct (quic_recv block c) as [[[bytes|]|e|f] c1]; try done. destruct (Hrecv _ _ eq_refl) as [[Hr Hs] Hc1].
  unfold ng_call, state, mbind at 1, ST_bind at 1.
  pose proof (read_law bytes now (qc_conn c1)) as Hread. pose proof (received_read bytes now (qc_conn c1)) as Hev.
  destruct (ng_read_pkt bytes now (qc_conn c1)) as [[code evs] x]. destruct Hread as [Ht Hack]. cbn [fst snd].
  destruct (handle_events_ok evs (set_ngconn x (qc_nextExpiry c1) c1) (ng_acked (qc_conn c1))) as (c2 & Hrun & Hl2); [done|..]; cbn.
  { intros j s Hj. cbn in Hj. rewrite Ht. by apply Hs. }
  { by rewrite Ht. }
  assert (reading read c2) as Hc2.
  { intros s Hs2. assert (qc_conn c2 = x) as ->.
    { pose proof (keeps_handle_events qc_conn evs (fun _ _ => eq_refl) (set_ngconn x (qc_nextExpiry c1) c1)) as Hk.
      rewrite Hrun in Hk. exact Hk. }
    rewrite Hev. refine (handle_events_reading evs _ c2 read (ng_received (qc_conn c1)) _ _ Hrun s Hs2).
    - intros s0 Hs0. by apply Hc1.
    - rewrite <- Hev. pose proof (prefix_length _ _ (received_prefix x)). lia. }
  unfold mbind, ST_bind. rewrite Hrun. destruct (code =? 0); [done|]. by destruct (code =? NGTCP2_ERR_CRYPTO).
Qed.

Lemma reading_worker_event read wake now c : live c -> reading read c -> reading read (worker_event wake now c).2.
Proof.
  intros Hl Hc. destruct wake as [|p| |]; cbn; [done| | |done].
  - pose proof (reading_receivePacket read now true (arrive [p] c) Hl Hc) as H. unfold modify, attempt, mbind, ST_bind.
    by destruct (receivePacket now true (arrive [p] c)) as [[a|e|f] c'].
  - pose proof (reading_handleExpiry read now c Hc) as H. unfold attempt, modify, mbind, ST_bind.
    by destruct (handleExpiry now c) as [[a|e|f] c'].
Qed.

Lemma reading_worker_turn read wake now c : inv c -> reading read c -> reading read (worker_turn walk wake now c).2.
Proof.
  intros Hi Hc. unfold worker_turn, get, mbind at 1, ST_bind at 1. unfold Datatypes.id.
  destruct (qc_workerRunning c) eqn:Hr; cbn [negb]; [|done].
  destruct (qc_cancelled c || negb (qc_connected c)); [by apply reading_worker_end|].
  pose proof (workerHandleWrites_ok walk now c (inv_live _ Hi Hr)) as Hl. pose proof (reading_writes read now c Hc) as Hw.
  unfold attempt, mbind, ST_bind. destruct (workerHandleWrites walk now c) as [[[]|e|f] c1]; cbn in Hw.
  - by apply reading_worker_event.
  - by apply reading_worker_end.
  - done.
Qed.

(** ** The receiver
    The application read [read] of the main stream. *)
Definition reads_main (read : list Z) (c : QuicConnection) : Prop := inv c /\ qc_mainStreamId c = id /\ reading read c.

Lemma triple_preserves {A} (P E : QuicConnection -> Prop) (m : M A) :
  triple P m (fun _ => P) P -> forall c, P c -> P (m c).2.
Proof. intros H c Hc. specialize (H c Hc). by destruct (m c) as [[a|e|[]] c']. Qed.

Lemma reads_wait_worker read c : reads_main read c -> reads_main read (wait_worker walk c).2.
Proof.
  intros (Hi & Hid & Hc). unfold wait_worker. destruct (qc_script c) as [|[wake now] script]; [by split|].
  set (c1 := set_script script c). assert (inv c1) as Hi1 by done. assert (reading read c1) as Hc1 by done.
  split; [|split].
  - by apply (triple_preserves inv inv _ (worker_turn_ok walk wake now)).
  - pose proof (log_worker_turn walk wake now c1) as Hl. unfold log in Hl. injection Hl as _ _ Hm. by rewrite Hm.
  - by apply reading_worker_turn.
Qed.

Lemma reads_wait_readable read fuel c : reads_main read c -> reads_main read (wait_readable walk fuel id c).2.
Proof.
  revert c. induction fuel as [|fuel IH]; intros c Hc; [done|]. cbn [wait_readable].
  unfold get, mbind at 1, ST_bind at 1. destruct (qc_cancelled c || _); [done|].
  pose proof (reads_wait_worker read c Hc) as Hw. unfold mbind, ST_bind.
  destruct (wait_worker walk c) as [[[]|e|f] c1]; [by apply IH|done|done].
Qed.

(** What is read is the next part of the stream. *)
Lemma reads_read_from read n s c :
  0 <= n -> reads_main read c -> qc_streams c !! id = Some s ->
  let '(bs, s') := QuicStream_read n s in reads_main (read ++ bs) (set_stream id s' c).
Proof.
  intros Hn (Hi & Hid & Hc) Hs. pose proof (read_spec n s Hn) as Hr.
  destruct (QuicStream_read n s) as [bs s']. destruct Hr as (Hb & _ & Hs'). split; [|split; [done|]].
  - intros Hrun. cbn. eapply streams_insert; [by apply (Hi Hrun)| |done]. rewrite Hs'. apply sender_recv. by apply (Hi Hrun).
  - intros x. cbn. rewrite lookup_insert_eq. intros [= <-]. rewrite <- app_assoc, <- Hb. by apply Hc.
Qed.

Definition reads_on (read : list Z) (out : TransportResult (list Z) * QuicConnection) : Prop :=
  match out with
  | (Ok bs, c) => reads_main (read ++ bs) c
  | (_, c) => reads_main read c
  end.

(** A turn of the loop. *)
Lemma receive_loop_turn fuel n c :
  quic_receive_loop walk (S fuel) id n c =
  if qc_cancelled c then (Err (TE_Custom Closed), c)
  else match qc_streams c !! id with
       | None => (Err (TE_Custom InvalidArgument), c)
       | Some s =>
           let '(bs, s') := QuicStream_read n s in
           let c1 := set_stream id s' c in
           match bs with
           | [] => match wait_readable walk (script_fuel c1) id c1 with
                   | (Ok _, c2) => quic_receive_loop walk fuel id n c2
                   | (Err e, c2) => (Err e, c2)
                   | (Fault f, c2) => (Fault f, c2)
                   end
           | _ => (Ok bs, c1)
           end
       end.
Proof.
  cbn [quic_receive_loop]. rewrite (bind_run _ _ c (qc_cancelled c) c) by done.
  destruct (qc_cancelled c); [done|]. unfold mbind at 1, ST_bind at 1, getStream.
  rewrite (bind_run _ _ c (qc_streams c !! id) c) by done. destruct (qc_streams c !! id) as [s|]; [|done].
  unfold read_from, state, mbind, ST_bind, mret, ST_ret. by destruct (QuicStream_read n s) as [[|b bs] s'].
Qed.

Lemma reads_receive_loop read n fuel c : 0 <= n -> reads_main read c -> reads_on read (quic_receive_loop walk fuel id n c).
Proof.
  intros Hn. revert c. induction fuel as [|fuel IH]; intros c Hc; [done|]. rewrite receive_loop_turn.
  destruct (qc_cancelled c); [done|]. destruct (qc_streams c !! id) as [s|] eqn:Hs; [|done].
  pose proof (reads_read_from read n s c Hn Hc Hs) as H. destruct (QuicStream_read n s) as [bs s']. cbn zeta.
  destruct bs as [|b bs]; [|exact H]. rewrite app_nil_r in H.
  pose proof (reads_wait_readable read (script_fuel (set_stream id s' c)) _ H) as Hw.
  destruct (wait_readable walk _ id _) as [[[]|e|f] c2]; [by apply IH|done|done].
Qed.

Lemma reads_main_receive read n c : 0 <= n -> reads_main read c -> reads_on read (main_receive walk n c).
Proof.
  intros Hn Hc. unfold main_receive, QuicConnection_receive, get, mbind at 1, ST_bind at 1.
  destruct (qc_closed c); [exact Hc|]. destruct (n =? 0); [by cbn; rewrite app_nil_r|].
  assert (qc_mainStreamId c = id) as -> by apply Hc. by apply reads_receive_loop.
Qed.

(** What was read is a beginning of what the peer sent, unless the stream is gone. *)
Definition quic_next (rest : list Z) (c : QuicConnection) : Prop := exists read, total = read ++ rest /\ reads_main read c.

Lemma reads_within read bs c : reads_main (read ++ bs) c -> qc_streams c !! id <> None -> read ++ bs `prefix_of` total.
Proof.
  intros (_ & _ & Hc) Hs. destruct (qc_streams c !! id) as [s|] eqn:E; [|done].
  trans (ng_received (qc_conn c)); [|apply received_prefix]. rewrite <- (Hc s E). by exists (contents (qs_recvBuffer s)).
Qed.

Lemma receive_loop_stream n fuel c bs c' :
  quic_receive_loop walk fuel id n c = (Ok bs, c') -> qc_streams c' !! id <> None.
Proof.
  revert c. induction fuel as [|fuel IH]; intros c; [done|]. rewrite receive_loop_turn.
  destruct (qc_cancelled c); [done|]. destruct (qc_streams c !! id) as [s|]; [|done].
  destruct (QuicStream_read n s) as [[|b bs'] s']; cbn zeta.
  - destruct (wait_readable walk _ id _) as [[[]|e|f] c2]; [by apply IH|done|done].
  - intros [= <- <-]. cbn. by rewrite lookup_insert_eq.
Qed.

Lemma quic_next_law n rest c :
  0 < n -> quic_next rest c ->
  match main_receive walk n c with
  | (Ok bs, c') => exists rest', rest = bs ++ rest' /\ quic_next rest' c'
  | (_, c') => quic_next rest c'
  end.
Proof.
  intros Hn (read & Ht & Hc). pose proof (reads_main_receive read n c ltac:(lia) Hc) as Hr.
  destruct (main_receive walk n c) as [[bs|e|f] c'] eqn:E; cbn in Hr; [|by exists read..].
  destruct (decide (bs = [])) as [->|Hbs]; [exists rest; split; [done|]; exists read; rewrite app_nil_r in Hr; by split|].
  assert (qc_streams c' !! id <> None) as Hs.
  { revert E. unfold main_receive, QuicConnection_receive, get, mbind at 1, ST_bind at 1.
    destruct (qc_closed c); [done|]. destruct (Z.eqb_spec n 0); [lia|]. assert (qc_mainStreamId c = id) as -> by apply Hc.
    apply receive_loop_stream. }
  destruct (reads_within read bs c' Hr Hs) as [rest' Hp]. exists rest'. rewrite Ht, <- app_assoc in Hp.
  apply app_inv_head in Hp. split; [done|]. exists (read ++ bs). split; [|done]. by rewrite Ht, Hp, app_assoc.
Qed.
End Order.

#[export] Instance quic_streaming_order {T : TimeLib} {C : CircularBuffer} {CL : CircularBufferLaws C} {NG : Ngtcp2} {NL : NgLaws}
  id total {ND : NgDelivers id total} (Htotal : len total <= initial_max_stream_data_bidi_local) walk :
  StreamingOrder (SO := quic_streaming walk) QuicConnection.
Proof. refine {| st_next := quic_next id total |}. intros n rest c Hn Hc. exact (quic_next_law id total Htotal walk n rest c Hn Hc). Defined.

(** ** Sending several messages *)
Section Sender.
Context {T : TimeLib} {CP : CompressionLib} {C : CircularBuffer} {CL : CircularBufferLaws C} {NG : Ngtcp2} {NL : NgLaws}.
Context `{WL : ByteWriterLaws}.
Variable walk : gmap Z QuicStream -> list Z.
Abbreviation main_id := (qc_mainStreamId : QuicConnection -> Z).

Lemma main_wait_worker : keeps main_id (wait_worker walk).
Proof.
  intros c. unfold wait_worker. destruct (qc_script c) as [|[wake now] script]; [done|].
  pose proof (log_worker_turn walk wake now (set_script script c)) as Hl. unfold log in Hl. by injection Hl.
Qed.
#[local] Hint Resolve main_wait_worker : keeps.
Lemma main_poll_stream fuel ready id : keeps main_id (poll_stream walk fuel ready id).
Proof. induction fuel; cbn; keeps_auto. Qed.
#[local] Hint Resolve main_poll_stream : keeps.
Lemma main_write_to id data : keeps main_id (write_to id data).
Proof.
  apply keeps_state. intros c. destruct (qc_streams c !! id) as [s|]; [|done]. by destruct (QuicStream_write data s).
Qed.
#[local] Hint Resolve main_write_to : keeps.
Lemma main_send_loop fuel id data : keeps main_id (send_loop walk fuel id data).
Proof. induction fuel; cbn; unfold pollWritable, getStream; keeps_auto. Qed.
#[local] Hint Resolve main_send_loop : keeps.
Lemma main_sendAll_loop fuel id data : keeps main_id (sendAll_loop walk fuel id data).
Proof. revert data. induction fuel; intros [|b data]; cbn; unfold QuicConnection_send; keeps_auto. Qed.

Fixpoint send_each (ms : list (instant * QunetMessage)) : ST (StreamLayer QuicConnection) unit :=
  match ms with
  | [] => mret tt
  | (now, m) :: ms => _ ← QuicTransport_sendMessage walk now m; send_each ms
  end.

(** The frames of the messages, one after the other. *)
Definition frames (ms : list QunetMessage) : list Z := mjoin ((fun m => frame (payload m)) <$> ms).

Lemma frames_each ms : frames ms = mjoin (frame <$> ((fun m => payload m) <$> ms)).
Proof. unfold frames. by rewrite <- list_fmap_compose. Qed.

Lemma send_message_main now m t : qc_mainStreamId (sp_stream (QuicTransport_sendMessage walk now m t).2) = qc_mainStreamId (sp_stream t).
Proof.
  unfold QuicTransport_sendMessage, streamcommon_sendMessage, lift, mbind, ST_bind.
  destruct (encode_frame m) as [w|e|f]; [|done..]. unfold in_stream, focus. cbn [st_sendAll quic_streaming].
  unfold main_sendAll, QuicConnection_sendAll.
  pose proof (main_sendAll_loop (length (written w)) (qc_mainStreamId (sp_stream t)) (written w) (sp_stream t)) as H.
  by destruct (sendAll_loop walk _ _ _ (sp_stream t)) as [[[]|e|f] c'].
Qed.

(** The main stream takes the messages in order. *)
Lemma send_each_history d limit ms ms' t t' :
  Forall2 (travels d limit) ms.*2 ms' -> inv (sp_stream t) ->
  let main := qc_mainStreamId (sp_stream t) in
  len (history main (qc_accepted (sp_stream t))) + len (frames ms.*2) < 2 ^ 62 ->
  send_each ms t = (Ok tt, t') ->
  history main (qc_accepted (sp_stream t')) = history main (qc_accepted (sp_stream t)) ++ frames ms.*2.
Proof.
  revert ms' t. induction ms as [|[now m] ms IH]; intros ms' t Hms Hi main Hl; cbn [send_each].
  { intros [= <-]. unfold frames. cbn. by rewrite app_nil_r. }
  apply Forall2_cons_inv_l in Hms as (m' & ms'' & Hm & Hms & ->).
  assert (frames ((now, m) :: ms).*2 = frame (payload m) ++ frames ms.*2) as Hf by done. rewrite Hf in *.
  rewrite length_app, Nat2Z.inj_add in Hl.
  pose proof (quic_message_in_order walk now d limit m m' t Hm Hi ltac:(fold main; lia)) as H.
  pose proof (send_message_main now m t) as Hmain. unfold mbind, ST_bind.
  destruct (QuicTransport_sendMessage walk now m t) as [[[]|e|f] t1]; [|done..].
  destruct H as (Hi1 & (chunks & Ha & Hc) & _). cbn in Hmain.
  assert (history main (qc_accepted (sp_stream t1)) = history main (qc_accepted (sp_stream t)) ++ frame (payload m)) as Hh
    by (by rewrite Ha, history_app, history_taken, Hc).
  intros Hrun. specialize (IH ms'' t1 Hms Hi1). cbn zeta in IH. rewrite Hmain in IH. fold main in IH.
  rewrite IH, Hh, <- app_assoc; [done| |done]. rewrite Hh, length_app, Nat2Z.inj_add. lia.
Qed.
End Sender.

(** ** From one end to the other *)
Section Delivery.
Context {T : TimeLib} {CP : CompressionLib} {C : CircularBuffer} {CL : CircularBufferLaws C}.
Context `{WL : ByteWriterLaws, RL : ByteReaderLaws}.
(** The two ends. *)
Context {NA : Ngtcp2} {NLA : NgLaws (NG := NA)} {NB : Ngtcp2} {NLB : NgLaws (NG := NB)}.
Variable walkA walkB : gmap Z QuicStream -> list Z.
Abbreviation TransportA := (StreamLayer (QuicConnection (NG := NA))).
Abbreviation TransportB := (StreamLayer (QuicConnection (NG := NB))).

(** A transport that was just connected. *)
Definition just_connected (id : Z) (total : list Z) {ND : NgDelivers (NG := NB) id total} (t : TransportB) : Prop :=
  inv (sp_stream t) /\ qc_mainStreamId (sp_stream t) = id /\ ng_received (qc_conn (sp_stream t)) = [] /\
  (forall s, qc_streams (sp_stream t) !! id = Some s -> contents (qs_recvBuffer s) = []) /\
  contents (sp_buffer t) = [].

(** C9. Messages that were sent over QUIC, and whatever calls the receiver makes
    and whenever: when ngtcp2 reports to the receiver, in order, of what the main
    stream of the sender took, the receiver's calls return these messages, in
    the order they were sent, none twice and none left out before another; within
    the 12 MiB that the flow control allows. *)
Theorem quic_delivery ms ms' (tA tA' : TransportA) id total {ND : NgDelivers (NG := NB) id total} (tB : TransportB) nows :
  let main := qc_mainStreamId (sp_stream tA) in
  Forall2 (travels (bt_zstdDecompressor (sp_base tB)) (bt_messageSizeLimit (sp_base tB))) ms.*2 ms' ->
  inv (sp_stream tA) -> history main (qc_accepted (sp_stream tA)) = [] ->
  len (frames ms.*2) <= initial_max_stream_data_bidi_local ->
  send_each walkA ms tA = (Ok tt, tA') ->
  total = history main (qc_accepted (sp_stream tA')) ->
  just_connected id total tB ->
  (receive_each (SO := quic_streaming walkB) nows tB).1 `prefix_of` ms'.
Proof.
  intros main Hms Hi Hh Hl Hrun Ht (HiB & Hid & Hr & Hs & Hb).
  pose proof (send_each_history walkA _ _ ms ms' tA tA' Hms Hi) as H. cbn zeta in H. fold main in H.
  assert (12 * MiB < 2 ^ 62) as H12 by done. unfold initial_max_stream_data_bidi_local in Hl.
  rewrite Hh in H. cbn [app length] in H. specialize (H ltac:(lia) Hrun). rewrite H in Ht.
  assert (len total <= initial_max_stream_data_bidi_local) as Htotal by (by rewrite Ht).
  apply (receive_each_prefix (OL := quic_streaming_order id total Htotal walkB) nows tB ((fun m => payload m) <$> ms.*2)).
  - exists total. split.
    + exists []. split; [done|]. split; [done|]. split; [done|]. intros s Hs1. by rewrite Hr, (Hs s Hs1).
    + by rewrite Hb, Ht, frames_each.
  - apply Forall2_fmap_l. eapply Forall2_impl; [exact Hms|]. intros m m' Hm. unfold receivable.
    pose proof Hm as (H1 & H2 & _). split; [done|]. split; [done|]. by apply payload_decoded.
Qed.
End Delivery.

(** ** A run
    A library that was sent [total]: a packet brings as many bytes as its first
    byte says. *)
Section Feed.
Variable total : list Z.

Definition feed (packet : list Z) (pos : nat) : list Z := take (Z.to_nat (hd (0 : Z) packet)) (drop pos total).

Definition feed_ng : Ngtcp2 (T := nano_time) := {|
  ngconn := nat;
  ng_write_pkt _ x := (inr [], x);
  ng_writev_stream _ _ _ _ x := (inr ([], -1), x);
  ng_write_connection_close _ x := (inr [8], x);
  ng_read_pkt packet _ x := (0, [NgStreamData 0 (feed packet x)], (x + Z.to_nat (hd 0%Z packet))%nat);
  ng_handle_expiry _ x := (0, x);
  ng_get_expiry _ := 0;
  ng_get_handshake_completed _ := true;
  ng_open_bidi_stream x := (0, 0, x);
  ng_shutdown_stream _ x := x;
  ng_update_pkt_tx_time _ x := x;
  ng_strerror _ := [];
  NGTCP2_ERR_STREAM_DATA_BLOCKED := -210;
  NGTCP2_ERR_FLOW_CONTROL := -205;
  NGTCP2_ERR_CRYPTO := -226;
  NGTCP2_ERR_IDLE_CLOSE := -248;
  ng_tls_error _ := [];
|}.

Lemma feed_laws : NgLaws (T := nano_time) (NG := feed_ng).
Proof. by refine {| ng_taken := (fun _ _ => 0) : @ngconn _ feed_ng -> Z -> Z; ng_acked := fun _ _ => 0 |}. Qed.

Definition feed_delivers : NgDelivers (T := nano_time) (NG := feed_ng) 0 total.
Proof.
  refine {| ng_received := (fun pos => take pos total) : @ngconn _ feed_ng -> list Z |}; try done.
  - intros pos. apply prefix_take.
  - intros packet now pos. cbn. unfold event_data, feed. cbn. by rewrite app_nil_r, take_take_drop.
Defined.
End Feed.

Definition sent_messages : list (@instant nano_time * QunetMessage) :=
  [(3 : @instant nano_time, example_keepalive); (4 : @instant nano_time, MKeepalive {| ka_timestamp := 8 |})].
Abbreviation example_sender := (send_each (W := list_writer) in_order sent_messages example_quic).
Definition sent_bytes : list Z := frames sent_messages.*2.

(** The first packet ends inside a message. *)
Definition feed_wakes : list (Wake * @instant nano_time) :=
  (fun n => (WakePacket (inr [n]), 2 : @instant nano_time)) <$> [5; 30].
Definition feed_connection : QuicConnection (C := list_cbuf) (NG := feed_ng sent_bytes) :=
  (connect_steps (NG := feed_ng sent_bytes) (Ok tt) (0 : @instant nano_time) example_turns
     (new_QuicConnection (NG := feed_ng sent_bytes) (0 : @instant nano_time) (fromMillis 1000) 0%nat (quiet_net []) feed_wakes)).2.
Definition example_receiver : StreamLayer (CL := rle_lib) (QuicConnection (NG := feed_ng sent_bytes) (C := list_cbuf)) :=
  new_QuicTransport (0 : @instant nano_time) feed_connection.
Definition receipts : list (@instant nano_time) := [10; 11].

Definition stamps (ms : list QunetMessage) : list Z :=
  (fun m => match m with MKeepalive k => ka_timestamp k | _ => -1 end) <$> ms.
Definition feed_turn (n : Z) (t : StreamLayer (CL := rle_lib) (QuicConnection (NG := feed_ng sent_bytes) (C := list_cbuf))) :=
  Stream.set_stream (worker_turn in_order (WakePacket (inr [n])) (5 : @instant nano_time) (sp_stream t)).2 t.
Abbreviation receive_at := (receive_each (SO := quic_streaming in_order) (R := list_reader)).
(** The call after the first packet waits; the calls after the second return both
    messages, and the last one waits. *)
Example example_delivered :
  let t0 := Stream.set_stream (set_script [] feed_connection) example_receiver in
  let '(ms1, t1) := receive_at [10 : @instant nano_time] (feed_turn 5 t0) in
  stamps ms1 ++ stamps (receive_at [11 : @instant nano_time; 12 : @instant nano_time; 13 : @instant nano_time] (feed_turn 30 t1)).1
  = [7; 8].
Proof. vm_compute. reflexivity. Qed.

Lemma feed_inv : inv (NL := feed_laws sent_bytes) feed_connection.
Proof. apply connect_steps_inv; [done|exact example_timed_out|vm_compute; reflexivity]. Qed.

Lemma feed_streams : qc_streams feed_connection = {[0 := new_QuicStream 0]}.
Proof. vm_compute. reflexivity. Qed.

Lemma feed_received : ng_received (NgDelivers := feed_delivers sent_bytes) (qc_conn feed_connection) = [].
Proof. vm_compute. reflexivity. Qed.

Lemma feed_connected : just_connected (NLB := feed_laws sent_bytes) 0 sent_bytes (ND := feed_delivers sent_bytes) example_receiver.
Proof.
  split; [exact feed_inv|]. split; [vm_compute; reflexivity|]. split; [exact feed_received|]. split.
  - intros s. change (sp_stream example_receiver) with feed_connection. rewrite feed_streams, lookup_singleton_Some.
    intros [_ <-]. apply contents_new.
  - apply contents_new.
Qed.

Lemma example_sent : is_ok example_sender.1 = true.
Proof. vm_compute. reflexivity. Qed.

Lemma sent_in_order : sent_bytes = history 0 (qc_accepted (sp_stream example_sender.2)).
Proof. vm_compute. reflexivity. Qed.

Lemma quic_delivery_witness :
  (receive_at receipts example_receiver).1 `prefix_of` sent_messages.*2.
Proof.
  refine (quic_delivery (WL := list_writer_laws) (RL := list_reader_laws) (NLB := feed_laws sent_bytes)
    in_order in_order sent_messages sent_messages.*2 example_quic example_sender.2 0 sent_bytes
    (ND := feed_delivers sent_bytes) example_receiver receipts _ ready_inv _ _ _ sent_in_order feed_connected).
  - repeat constructor; vm_compute; discriminate.
  - vm_compute. reflexivity.
  - vm_compute. discriminate.
  - apply run_result. pose proof example_sent as H. by destruct example_sender.1 as [[]|e|f].
Defined.
