(* ===== verification/QuicSocket.v ===== *)
(** * A socket over QUIC

    The virtual methods of [QuicTransport], with the laws that [Socket] relies
    on: what holds of a socket holds of one over QUIC.  With this fourth transport,
    that a socket over a transport of any type does not throw. *)
From S2P Require Import Prelude Dbuf Messages Codec CodecSpec CodecSafety Time Errors Effects Fragment Reliable ReliableLocal Stats Compress Database Padding Transport.
From S2P Require Import Udp UdpTimer UdpSafety UdpCalls Stream StreamSafe Ws StreamCalls Address Url Socket SocketSpec SocketSafe.
From S2P Require Import QuicStream QuicConn QuicConnSpec QuicConnSend QuicConnEx QuicTransport QuicTransportSpec.

Section QuicSocket.
Context {T : TimeLib} {CL : CompressionLib} {C : CircularBuffer} {NG : Ngtcp2} `{W : ByteWriter} `{R : ByteReader}.
Variable walk : gmap Z QuicStream -> list Z.
(** When it will be closed. *)
Variable closing : instant.
#[local] Existing Instance quic_streaming.
Abbreviation QuicTransport := (StreamLayer QuicConnection).

Definition Quic_sendCtx (ck : Clock) (message : QunetMessage) (ctx : SentMessageContext) : ST QuicTransport SentMessageContext :=
  _ ← QuicTransport_sendMessage walk (ck_now ck) message; mret ctx.
Definition Quic_receive (ck : Clock) : ST QuicTransport QunetMessage := QuicTransport_receiveMessage walk (ck_now ck).

Definition quic_transport : VirtualTransport QuicTransport := {|
  tr_base := sp_base;
  tr_set_base := Stream.set_base;
  tr_sendMessage := Quic_sendCtx;
  tr_receiveMessage := Quic_receive;
  tr_performHandshake := BaseTransport_performHandshake sp_base Stream.set_base Quic_sendCtx Quic_receive;
  tr_performReconnect := BaseTransport_performReconnect sp_base Stream.set_base Quic_sendCtx Quic_receive;
  tr_untilTimerExpiry _ := QuicTransport_untilTimerExpiry;
  tr_handleTimerExpiry _ := QuicTransport_handleTimerExpiry;
  tr_close := QuicTransport_close closing;
  tr_closeSync := QuicTransport_closeSync;
  tr_isClosed := QuicTransport_isClosed;
  tr_updateLatency := default_updateLatency sp_base Stream.set_base;
|}.

#[export] Instance quic_transport_laws : TransportLaws quic_transport.
Proof.
  assert (forall ck m ctx, keeps (fun t => session (sp_base t)) (Quic_sendCtx ck m ctx)) as Hs.
  { intros ck m ctx. unfold Quic_sendCtx, QuicTransport_sendMessage.
    apply keeps_bind; [apply (stream_send (SO := quic_streaming walk))|intros ?; apply keeps_ret]. }
  assert (forall ck, keeps (fun t => session (sp_base t)) (Quic_receive ck)) as Hr.
  { intros ck. unfold Quic_receive, QuicTransport_receiveMessage. apply (stream_receiveMessage (SO := quic_streaming walk)). }
  destruct (inherited_keeps sp_base Stream.set_base Quic_sendCtx Quic_receive (fun _ _ => eq_refl) Hs Hr) as [H1 H2].
  split; [intros b x; reflexivity|exact H1|exact H2].
Qed.
End QuicSocket.

(** ** Nothing throws *)
Section Sends.
Context {T : TimeLib} {C : CircularBuffer} {CL : CircularBufferLaws C} {NG : Ngtcp2} {NL : NgLaws} {NB : NgBytes}.
Variable walk : gmap Z QuicStream -> list Z.

(** A stream carries less than 2^62 bytes. *)
Definition quic_room (n : Z) (c : QuicConnection) : Prop := len (history (qc_mainStreamId c) (qc_accepted c)) + n < 2 ^ 62.

#[export] Instance quic_streaming_sends :
  StreamingSends (SO := quic_streaming walk) (SL := quic_streaming_laws walk) QuicConnection.
Proof.
  refine {| st_room := quic_room |}.
  - unfold quic_room. intros n k c Hn. generalize (history (qc_mainStreamId c) (qc_accepted c)). intros l. lia.
  - intros data c [[Hi Hr] Hl]. cbn. unfold main_sendAll, QuicConnection_sendAll.
    pose proof (sendAll_loop_ok walk (qc_mainStreamId c) (length data) (qc_accepted c) data (le_n _) Hl c (conj Hi eq_refl)) as H.
    pose proof (preserves_sendAll_loop walk (length data) (qc_mainStreamId c) data c Hr) as Hp.
    by destruct (sendAll_loop walk _ _ _ c) as [[a|e|[]] c']; try done; destruct H as (chunks & [Hi' _] & _); split.
Defined.
End Sends.

Section QuicSafe.
Context {T : TimeLib} {CP : CompressionLib} {C : CircularBuffer} {CL : CircularBufferLaws C} {NG : Ngtcp2} {NL : NgLaws} {NB : NgBytes}.
Context `{WL : ByteWriterLaws, RL : ByteReaderLaws}.
Variable walk : gmap Z QuicStream -> list Z.
Variable closing : instant.
#[local] Existing Instance quic_streaming.
Abbreviation quic_layer_ok := (layer_ok (SO := quic_streaming walk) (SL := quic_streaming_laws walk)).
Abbreviation quic_layer_room := (layer_room (SO := quic_streaming walk) (SL := quic_streaming_laws walk) (SS := quic_streaming_sends walk)).

Lemma quic_in_stream_safe {A} (m : ST QuicConnection A) : safe quic_ok m -> safe quic_layer_ok (in_stream m).
Proof. intros Hm s [Hs Hb]. specialize (Hm _ Hs). unfold in_stream, focus. by destruct (m (sp_stream s)) as [[a|e|[]] c]. Qed.

(** A method that returns and leaves the streams alone. *)
Lemma quic_returns_safe {A} (m : ST QuicConnection A) : returns m -> keeps core m -> preserves received_ok m -> safe quic_ok m.
Proof.
  intros Hr Hk Hp. apply safe_returns; [done|]. intros c [Hi Hb]. split; [|by apply Hp]. unfold inv. by rewrite Hk.
Qed.

Lemma quic_send_safe ck m ctx : sendable m = true ->
  triple (fun t => quic_layer_ok t /\ quic_layer_room (body_size m) t) (Quic_sendCtx walk ck m ctx) (fun _ => quic_layer_ok) quic_layer_ok.
Proof.
  intros Hm. unfold Quic_sendCtx, QuicTransport_sendMessage. eapply triple_bind; [exact (layer_send_safe (ck_now ck) m Hm)|].
  intros ?. apply triple_ret.
Qed.

Lemma quic_transport_safe : TransportSafe (quic_transport walk closing).
Proof.
  assert (forall b (t : StreamLayer QuicConnection), quic_layer_ok t -> quic_layer_ok (Stream.set_base b t)) as Hbase by (by intros b t Ht).
  assert (forall ck, walks_all (ck_order ck) -> safe quic_layer_ok (Quic_receive walk ck)) as Hrecv
    by (intros ck _; exact (stream_receive_safe (ck_now ck))).
  refine {| tr_ok := quic_layer_ok; tr_room := quic_layer_room |}.
  - intros n k t Hn. unfold layer_room. cbn. unfold quic_room. generalize (history (qc_mainStreamId (sp_stream t)) (qc_accepted (sp_stream t))).
    intros l. lia.
  - exact Hbase.
  - intros n b t Ht. exact Ht.
  - intros rtt t Ht. exact Ht.
  - exact quic_send_safe.
  - exact Hrecv.
  - exact (default_handshake_safe quic_layer_ok quic_layer_room sp_base Stream.set_base _ _ Hbase quic_send_safe Hrecv).
  - exact (default_reconnect_safe quic_layer_ok quic_layer_room sp_base Stream.set_base _ _ Hbase quic_send_safe Hrecv).
  - intros ck. apply safe_bind; [exact (layer_in_base _ base_timer_returns)|]. intros _. apply quic_in_stream_safe.
    intros c Hc. unfold QuicConnection_handleTimerExpiry, get, mbind, ST_bind.
    unfold Datatypes.id, throw, lift, mret, ST_ret. by destruct (qc_fatalError c), (qc_connected c).
  - apply quic_in_stream_safe, quic_returns_safe; [apply returns_quic_close|apply keeps_quic_close|apply preserves_close].
  - apply quic_in_stream_safe, quic_returns_safe; [apply returns_closeSync|apply keeps_closeSync|].
    unfold QuicConnection_closeSync. preserves_auto.
Defined.
End QuicSafe.

(** ** A socket over any of the four *)
Section AnySocket.
Context {T : TimeLib} {TL : TimeLaws T} {CP : CompressionLib} {LL : CompressionLaws CP} {C : CircularBuffer} {CL : CircularBufferLaws C}.
Context {AL : AddressLib} {NG : Ngtcp2} {NL : NgLaws} {NB : NgBytes} `{WL : ByteWriterLaws, RL : ByteReaderLaws}.
Context {TlsContext : Type}.
Variable millis_float : duration -> SpecFloat.spec_float.
Variable fromMillis_float : SpecFloat.spec_float -> duration.
Variable shutdown : TransportResult unit.
Variable walk : gmap Z QuicStream -> list Z.
Variable closing : instant.
Abbreviation Transport := (AnyTransport (StreamLayer QuicConnection)).

Definition socket_transport : VirtualTransport Transport :=
  any_transport (udp_transport millis_float fromMillis_float) (tcp_transport shutdown) (quic_transport walk closing) ws_transport.

(** What holds of a transport that was just created, and between its calls. *)
Definition transport_ok (t : Transport) : Prop :=
  match t with
  | AUdp u => udp_ok u
  | ATcp t => tcp_ok t
  | AQuic t => layer_ok (SO := quic_streaming walk) (SL := quic_streaming_laws walk) t
  | AWs t => ws_ok t
  end.
(** A stream of QUIC carries less than 2^62 bytes; the headers take 38 at most. *)
Definition transport_room (n : Z) (t : Transport) : Prop :=
  match t with
  | AQuic t => len (history (qc_mainStreamId (sp_stream t)) (qc_accepted (sp_stream t))) + (n + 38) < 2 ^ 62
  | _ => True
  end.

Hypothesis Hpos : forall r, positive_deadlines millis_float fromMillis_float r.
Hypothesis Hshutdown : is_fault shutdown = false.

Definition any_of_four : TransportSafe socket_transport :=
  any_transport_safe _ _ _ _ (udp_transport_safe millis_float fromMillis_float Hpos) (tcp_transport_safe shutdown Hshutdown)
    (quic_transport_safe walk closing) ws_transport_safe.

#[export] Instance socket_transport_safe : TransportSafe socket_transport :=
  {| tr_ok := transport_ok; tr_room := transport_room;
     room_le := room_le (TransportSafe := any_of_four); ok_set_base := ok_set_base (TransportSafe := any_of_four);
     room_set_base := room_set_base (TransportSafe := any_of_four); ok_updateLatency := ok_updateLatency (TransportSafe := any_of_four);
     send_safe := send_safe (TransportSafe := any_of_four); receive_safe := receive_safe (TransportSafe := any_of_four);
     handshake_safe := handshake_safe (TransportSafe := any_of_four); reconnect_safe := reconnect_safe (TransportSafe := any_of_four);
     timer_safe := timer_safe (TransportSafe := any_of_four); close_safe := close_safe (TransportSafe := any_of_four);
     closeSync_safe := closeSync_safe (TransportSafe := any_of_four) |}.

Variable blake3Hash : list Z -> list Z.
Variable path_join : list Z -> list Z -> list Z.
Variable fs_exists : list Z -> bool.
Variable fs_read : list Z -> option (list Z).
Variable fmt_dec : Z -> list Z.

End AnySocket.

(** ** A run *)
Abbreviation four_transports :=
  (socket_transport (T := nano_time) (CP := rle_lib) (C := list_cbuf) (NG := small_ng) (W := list_writer) (R := list_reader)
     nano_millis positive_fromMillis (Ok tt) in_order (9 : @instant nano_time)).

Definition walking_clock : @Clock nano_time := {| ck_now := 3; ck_ns := 77; ck_order := every_key; ck_turns := [] |}.
Definition socket_created (incoming : list (list Z + WsMessage)) :
  TransportResult (AnyTransport (T := nano_time) (CL := rle_lib) (C := list_cbuf) (StreamLayer (CL := rle_lib) (QuicConnection (NG := small_ng) (C := list_cbuf)))) :=
  Ok (AWs (example_ws incoming)).
(** The server answers, fails, and sends a message of an unknown type. *)
Definition socket_script : list (list Z + WsMessage) :=
  [inr (WsBinary handshake_answer); inl (str "reset"); inr (WsBinary [99]); inr (WsText [1])].
Abbreviation connect_over := (Socket_connect (T := nano_time) (AL := simple_addresses) (V := four_transports) (R := list_reader) id app
  (fun _ => false) (fun _ => None) (fun _ => []) 0 1 2 walking_clock example_options).

(** Receiving, sending, the timer, a socket in its place over UDP, which receives
    what it cannot decode, then one over a WebSocket, and closing. *)
Definition example_calls : list (SocketCall (T := nano_time) (AL := simple_addresses) (TlsContext := unit)
  (X := AnyTransport (T := nano_time) (CL := rle_lib) (C := list_cbuf) (StreamLayer (CL := rle_lib) (QuicConnection (NG := small_ng) (C := list_cbuf))))) :=
  [CallReceive walking_clock; CallReceive walking_clock; CallReceive walking_clock; CallReceive walking_clock;
   CallSend walking_clock {| om_message := MData example_message; om_reliable := true; om_uncompressed := false; om_tag := [] |};
   CallTimer walking_clock;
   CallReconnect 4 5 6 walking_clock example_options (Ok (AUdp odd_udp));
   CallReconnect 7 8 9 walking_clock example_options (socket_created [inr (WsBinary [MSG_RECONNECT_SUCCESS])]);
   CallClose; CallReceive walking_clock].

Definition connected_socket := match (connect_over (socket_created socket_script) (Some (str "dir/"))).1 with Ok (_, s) => Some s | _ => None end.
Definition kinds {A} (l : list (TransportResult A)) : list Z :=
  (fun res => match res with Ok _ => 0 | Err _ => 1 | Fault WouldBlock => 2 | Fault _ => 3 end) <$> l.
(** An error of the WebSocket, of the decoder, a text; then waiting; a message and a
    keepalive are sent; the socket over UDP is not connected, the next one is; the
    receive after the close waits. *)
Lemma example_calls_end :
  match connected_socket with
  | Some s => kinds (perform_all (V := four_transports) example_calls s).1
  | None => []
  end = [1; 1; 1; 2; 0; 0; 1; 0; 0; 2].
Proof. vm_compute. reflexivity. Qed.

(** Every transport but QUIC has room for what is sent. *)
Lemma example_room :
  match connected_socket with
  | Some s => match sk_transport (foldl (fun s c => (perform (V := four_transports) c s).2) s (take 4 example_calls)) with AQuic _ => false | _ => true end
  | None => false
  end = true.
Proof. vm_compute. reflexivity. Qed.

Lemma has_room n (t : AnyTransport (T := nano_time) (CL := rle_lib) (C := list_cbuf) (StreamLayer (CL := rle_lib) (QuicConnection (NG := small_ng) (C := list_cbuf)))) :
  match t with AQuic _ => false | _ => true end = true -> transport_room n t.
Proof. by destruct t. Qed.

Lemma odd_udp_ok : udp_ok (R := list_reader) odd_udp.
Proof.
  split; [split; [split; apply map_Forall_empty|]; split; [split; apply Forall_nil_2|]|split; [|split; [apply Forall_nil_2|by split; [apply Forall_nil_2|]]]];
    (repeat (apply Forall_cons_2; [split; [repeat constructor; unfold byte_ok; lia|vm_compute; reflexivity]|]));
    apply Forall_nil_2.
Qed.

