(* ===== verification/Client.v ===== *)
(** * The client, put together

    What [Connection] uses is what the other files model: sockets over UDP, TCP
    and WebSocket, the resolver, and the pinger.  A connection and what it uses
    are one program, in a build without QUIC ([QUNET_QUIC_SUPPORT] is not set);
    what is left open is what the operating system and the libraries answer. *)
From S2P Require Import Prelude Dbuf Messages Time Errors Effects Padding Compress Database Transport Udp Stream Ws Address Url Socket.
From S2P Require Import Cache Resolver Pinger ConnError Connection.

Section Client.
Context {T : TimeLib} {CL : CompressionLib} {C : CircularBuffer} {AL : AddressLib} `{W : ByteWriter} `{R : ByteReader}.
Context {D : DnsLib} {PL : PingerLib}.
Context {CP : CacheLib SocketAddressV6 CachedPing} {CA : CacheLib (list Z) DNSRecordA}
        {CAAAA : CacheLib (list Z) DNSRecordAAAA} {CSRV : CacheLib (list Z) DNSRecordSRV}.
Context {Tls : Type}.

(** ** Sockets
    There is no transport over QUIC: it has no type. *)
Definition no_transport : VirtualTransport Empty_set := {|
  tr_base := fun x : Empty_set => match x with end;
  tr_set_base _ x := x;
  tr_sendMessage _ _ _ := fun x : Empty_set => match x with end;
  tr_receiveMessage _ := fun x : Empty_set => match x with end;
  tr_performHandshake _ _ := fun x : Empty_set => match x with end;
  tr_performReconnect _ _ := fun x : Empty_set => match x with end;
  tr_untilTimerExpiry _ := fun x : Empty_set => match x with end;
  tr_handleTimerExpiry _ := fun x : Empty_set => match x with end;
  tr_close := fun x : Empty_set => match x with end;
  tr_closeSync := fun x : Empty_set => match x with end;
  tr_isClosed := fun x : Empty_set => match x with end;
  tr_updateLatency _ x := x;
|}.

Abbreviation ClientTransport := (AnyTransport Empty_set).

(** What the program is linked with. *)
Record Libraries := {
  lb_millis : duration -> SpecFloat.spec_float;
  lb_fromMillis : SpecFloat.spec_float -> duration;
  lb_shutdown : TransportResult unit;
  lb_blake3 : list Z -> list Z;
  lb_join : list Z -> list Z -> list Z;
  lb_exists : list Z -> bool;
  lb_read : list Z -> option (list Z);
  lb_fmt_dec : Z -> list Z;
  lb_timedOut : SocketError;
  lb_isSuccess : SocketError -> bool;
  lb_parse : list Z -> option ip;
  lb_isIpv6 : list Z -> bool;
  lb_tls : bool;
  lb_debug : bool;
}.

(** What an attempt to create a socket meets: the readings of the clock, the later
    ones for the time that the attempt may take, and what the system and the
    library of WebSockets answer. *)
Record Attempt := {
  at_t0 : instant;
  at_t1 : duration -> instant;
  at_t2 : duration -> instant;
  at_clock : Clock;
  at_seed : QunetPadRNG;
  at_bind : bool -> SocketError + Net;
  at_connectUdp : address -> Net -> option SocketError;
  at_connectTcp : address -> option (SocketError + ByteStream);
  at_connectWs : list Z -> list Z -> address -> option Tls -> option (list Z + WsClient);
}.

(** A query: when it is made, when an answer that is given at once is stored, and
    what happens to the resolver until its time is over. *)
Record Lookup := {
  lk_asked : instant;
  lk_stored : instant;
  lk_meanwhile : list (ResolverOp (Callback := nat));
}.

(** What happens around the program, by the number of the step. *)
Record Surroundings := {
  su_attempt : nat -> Attempt;
  su_clock : nat -> Clock;
  su_lookup : nat -> Lookup;
  su_firstAAAA : nat -> bool;
  su_pinger : nat -> list (PingEvent (nat * nat));
  su_createContext : nat -> ContextType -> option Tls;
  su_loadCerts : nat -> Tls -> bool * Tls;
  su_setupQuic : nat -> Tls -> bool * Tls;
}.

(** The resolver and the pinger are objects of the whole program.  The callback of
    a query is the number of its step; that of a ping is the number of the channel
    that it sends to, and the index of the address. *)
Record World := {
  cw_step : nat;
  cw_resolver : Resolver nat;
  cw_pinger : Pinger (nat * nat);
  cw_channel : nat;
  cw_saved : list fs_operation;
}.
Definition new_World (resolver : Resolver nat) (pinger : Pinger (nat * nat)) : World :=
  {| cw_step := 0; cw_resolver := resolver; cw_pinger := pinger; cw_channel := 0; cw_saved := [] |}.
Definition cw_tick (w : World) : World :=
  {| cw_step := S (cw_step w); cw_resolver := cw_resolver w; cw_pinger := cw_pinger w; cw_channel := cw_channel w;
     cw_saved := cw_saved w |}.
Definition cw_set_resolver r (w : World) : World :=
  {| cw_step := cw_step w; cw_resolver := r; cw_pinger := cw_pinger w; cw_channel := cw_channel w; cw_saved := cw_saved w |}.
Definition cw_set_pinger p (w : World) : World :=
  {| cw_step := cw_step w; cw_resolver := cw_resolver w; cw_pinger := p; cw_channel := cw_channel w; cw_saved := cw_saved w |}.
Definition cw_open (w : World) : World :=
  {| cw_step := cw_step w; cw_resolver := cw_resolver w; cw_pinger := cw_pinger w; cw_channel := S (cw_channel w);
     cw_saved := cw_saved w |}.
Definition cw_save ops (w : World) : World :=
  {| cw_step := cw_step w; cw_resolver := cw_resolver w; cw_pinger := cw_pinger w; cw_channel := cw_channel w;
     cw_saved := cw_saved w ++ ops |}.

Variable L : Libraries.
Variable S : Surroundings.

#[local] Instance client_transport : VirtualTransport ClientTransport :=
  any_transport (udp_transport (lb_millis L) (lb_fromMillis L)) (tcp_transport (lb_shutdown L)) no_transport ws_transport.
Abbreviation ClientSocket := (Socket ClientTransport).

Definition create_transport (a : Attempt) (options : TransportOptions Tls) : TransportResult ClientTransport :=
  createTransport (at_bind a) (at_connectUdp a) (at_connectTcp a) (fun _ _ _ _ _ => Err (TE_Custom NotImplemented)) (at_connectWs a)
    (lb_timedOut L) (at_seed a) false true (at_t0 a) options.

Definition client_connect (options : TransportOptions Tls) (qdbFolder : option (list Z)) : ST World ClientSocket := fun w =>
  let a := su_attempt S (cw_step w) in
  match (Socket_connect (lb_blake3 L) (lb_join L) (lb_exists L) (lb_read L) (lb_fmt_dec L) (at_t0 a) (at_t1 a (to_timeout options)) (at_t2 a (to_timeout options))
           (at_clock a) options (create_transport a options) qdbFolder).1 with
  | Ok (ops, s) => (Ok s, cw_save ops (cw_tick w))
  | Err e => (Err e, cw_tick w)
  | Fault f => (Fault f, cw_tick w)
  end.

Definition client_reconnect (options : TransportOptions Tls) (prev : ClientSocket) : ST World ClientSocket := fun w =>
  let a := su_attempt S (cw_step w) in
  match (Socket_reconnect (at_t0 a) (at_t1 a (to_timeout options)) (at_t2 a (to_timeout options)) (at_clock a) options (create_transport a options) prev).1 with
  | Ok (s, _) => (Ok s, cw_tick w)
  | Err e => (Err e, cw_tick w)
  | Fault f => (Fault f, cw_tick w)
  end.

(** A call of the socket, at the next reading of the clock. *)
Definition client_call {A} (m : Clock -> ST ClientSocket A) : ST (ClientSocket * World) A := fun '(s, w) =>
  let '(res, s) := m (su_clock S (cw_step w)) s in (res, (s, cw_tick w)).

(** ** The resolver *)
Definition client_query {A B} (m : instant -> instant -> list Z -> nat -> list (ResolverOp (Callback := nat)) -> Resolver nat ->
    ResolverResult A * Resolver nat) (f : A -> B) (name : list Z) (w : World) : option B * World :=
  let lk := su_lookup S (cw_step w) in
  let '(res, r) := m (lk_asked lk) (lk_stored lk) name (cw_step w) (lk_meanwhile lk) (cw_resolver w) in
  (match res with Ok a => Some (f a) | _ => None end, cw_set_resolver r (cw_tick w)).

(** ** The pinger *)
Definition client_now (w : World) : instant := ck_now (su_clock S (cw_step w)).

Definition client_getCached (addr : address) (w : World) : option PingResult * World :=
  let '(res, p) := Pinger_getCached (client_now w) addr (cw_pinger w) in (res, cw_set_pinger p w).

Definition client_ping (i : nat) (addr : address) (w : World) : World :=
  cw_set_pinger (ping addr (cw_channel w, i) (cw_pinger w)).2 w.

(** What a callback sends to the channel that is open. *)
Definition sent_to (channel : nat) (o : PingOutcome (nat * nat)) : option (nat * PingResult) :=
  match o with
  | Called (ch, i) res _ => if (ch =? channel)%nat then Some (i, res) else None
  | Dropped _ => None
  end.

(** Neither the pinger nor a query throws ([ClientSafe.client_pings_total],
    [client_query_total]), so that the branches for it hide nothing. *)
Definition client_pings (w : World) : list (nat * PingResult) * World :=
  match worker_events (su_pinger S (cw_step w)) (cw_pinger w) with
  | (Ok out, p) => (omap (sent_to (cw_channel w)) out, cw_set_pinger p (cw_tick w))
  | (_, p) => ([], cw_set_pinger p (cw_tick w))
  end.

(** ** What a connection uses *)
Definition client_env : ConnectionEnv := {|
  socket := ClientSocket;
  TlsContext := Tls;
  world := World;
  env_connect := client_connect;
  env_reconnect := client_reconnect;
  env_sendMessage m := client_call (fun ck => Socket_sendMessage ck m);
  env_receiveMessage := client_call Socket_receiveMessage;
  env_handleTimerExpiry := client_call Socket_handleTimerExpiry;
  env_close := client_call (fun _ => Socket_close);
  env_closeSync := client_call (fun _ => Socket_closeSync);
  env_isClosed s _ := Socket_isClosed s;
  env_getLatency := Socket_getLatency;
  env_getJitter := Socket_getJitter;
  env_updateLatency := Socket_updateLatency;
  env_queryA := client_query asyncQueryA (fun r => ip_of_v4 <$> a_addresses r);
  env_queryAAAA := client_query asyncQueryAAAA (fun r => ip_of_v6 <$> aaaa_addresses r);
  env_querySRV := client_query asyncQuerySRV srv_endpoints;
  env_firstAAAA w := su_firstAAAA S (cw_step w);
  env_now := client_now;
  env_openPings := cw_open;
  env_getCached := client_getCached;
  env_ping := client_ping;
  env_pings := client_pings;
  env_createContext kind w := (su_createContext S (cw_step w) kind, cw_tick w);
  env_loadSystemCACerts ctx w := (su_loadCerts S (cw_step w) ctx, cw_tick w);
  env_setupQuicContext ctx w := (su_setupQuic S (cw_step w) ctx, cw_tick w);
  env_parse := lb_parse L;
  env_isIpv6 := lb_isIpv6 L;
  env_fmt_dec := lb_fmt_dec L;
  env_isSuccess := lb_isSuccess L;
  quic_support := false;
  ws_support := true;
  tls_support := lb_tls L;
  debug_build := lb_debug L;
|}.

(** The program, from its start: [n] turns of the worker of a new connection, with
    a new resolver on the channel [ch] and a new pinger. *)
Definition client_run (n : nat) (ch : ares_channel) (members : Resolver nat) (g : QunetPadRNG) (cbs : ConnectionCallbacks)
    (script : list (list (UserOp (E := client_env)) * Event)) : result stop unit * Conn (E := client_env) :=
  worker n (set_callbacks cbs (new_Connection (new_World (new_Resolver (Some ch) members) (new_Pinger g) : @world _ _ client_env) script)).
End Client.
Arguments Attempt {T AL} Tls.
Arguments Lookup {T AL D}.
Arguments Surroundings {T AL D} Tls.
Arguments World {T AL D PL CP CA CAAAA CSRV}.
