(* ===== verification/ClientSafe.v ===== *)
(** * The client, put together: nothing throws

    What [Connection] relies on holds of the sockets, the resolver and the pinger
    of this program, so that what is proved of a connection holds of the program. *)
From S2P Require Import Prelude Dbuf Messages Codec CodecSpec Time Errors Effects Fragment Padding Compress Database Transport.
From S2P Require Import Udp UdpTimer UdpCalls Stream StreamSpec StreamSafe Ws StreamCalls Address Url Socket SocketSpec SocketSafe.
From S2P Require Import Cache Resolver ResolverSpec Pinger PingerSpec ConnError Connection ConnectionInv ConnectionSafe Client.

Open Scope Z_scope.

(** ** An attempt to connect returns *)
Section Attempts.
Context {T : TimeLib} {CL : CompressionLib} {LL : CompressionLaws CL} {AL : AddressLib} `{R : ByteReader}.
Context {X Tls : Type} {V : VirtualTransport X} {S : TransportSafe V}.
Variable blake3Hash : list Z -> list Z.
Variable path_join : list Z -> list Z -> list Z.
Variable fs_exists : list Z -> bool.
Variable fs_read : list Z -> option (list Z).
Variable fmt_dec : Z -> list Z.

(** The decoder of databases does not throw on the data; on what is in the folder;
    on what the server sends. *)
Definition decodable (data : list Z) : Prop := is_fault (QunetDatabase_decode blake3Hash data) = false.
Definition folder_ok : Prop := forall path data, fs_read path = Some data -> decodable data.
Definition finish_ok (hf : HandshakeFinishMessage) : Prop :=
  forall q dec data, hf_qdbData hf = Some q -> ZstdDecompressor_init new_ZstdDecompressor = Ok dec ->
    ZstdDecompressor_decompress (qd_chunkData q) (qd_uncompressedSize q) false dec = Ok data -> decodable data.
(** What the handshake of a transport may end with. *)
Definition serves (ck : Clock) (x : X) : Prop :=
  forall start b hf, (tr_performHandshake ck start (tr_set_base b x)).1 = Ok (MHandshakeFinish hf) -> finish_ok hf.

Hypothesis Hcctx : ZSTD_createCCtx = true.
Hypothesis Hdctx : ZSTD_createDCtx = true.
Hypothesis Hfolder : folder_ok.

Lemma returns_lift {Y A} (m : TransportResult A) : is_fault m = false -> returns (lift m : ST Y A).
Proof. by intros H s. Qed.

Lemma onHandshakeSuccess_returns hf :
  finish_ok hf -> returns (onHandshakeSuccess (V := V) blake3Hash path_join fs_exists hf).
Proof.
  intros Hhf. unfold onHandshakeSuccess. apply returns_bind; [unfold tr_in_base, in_transport; by do 2 apply returns_focus|]. intros _.
  unfold finish_ok in Hhf. destruct (hf_qdbData hf) as [q|].
  - assert (exists dec, ZstdDecompressor_init new_ZstdDecompressor = Ok dec) as [dec Hi]
      by (unfold ZstdDecompressor_init; rewrite Hdctx; by eexists).
    rewrite Hi. intros s. unfold lift at 1, mbind at 1, ST_bind at 1. cbn [unwrap].
    unfold lift at 1, mbind at 1, ST_bind at 1. specialize (Hhf q dec).
    assert (is_fault (ZstdDecompressor_decompress (qd_chunkData q) (qd_uncompressedSize q) false dec) = false) as Hf
      by (unfold ZstdDecompressor_decompress; by repeat case_match).
    destruct (ZstdDecompressor_decompress _ _ _ dec) as [data|e|f]; cbn; [|done..]. specialize (Hhf data eq_refl Hi eq_refl).
    revert s. apply returns_bind; [apply returns_lift; unfold decodable in Hhf; by destruct (QunetDatabase_decode _ _)|].
    intros qdb. apply returns_bind; [exact (initCompressors_returns Hcctx Hdctx (Some qdb))|]. intros _. apply returns_get.
  - apply returns_bind; [apply returns_get|]. intros [qdb|].
    + apply returns_bind; [exact (initCompressors_returns Hcctx Hdctx (Some qdb))|]. intros _. returns_auto.
    + apply returns_bind; [exact (initCompressors_returns Hcctx Hdctx None)|]. intros _. returns_auto.
Qed.

(** A handshake that waits until its time is over has no result; it does not go
    on waiting. *)
Lemma in_time_returns {A B} (P : X -> Prop) (m : ST X A) (k : option A -> ST (Socket X) B) (s : Socket X) :
  triple P m (fun _ => tr_ok) tr_ok -> P (sk_transport s) ->
  (forall a, (m (sk_transport s)).1 = Ok a -> returns (k (Some a))) -> returns (k None) ->
  is_fault ((tres ← in_transport (arc_timeout m); k tres) s).1 = false.
Proof.
  intros Hm HP Hk Hn. specialize (Hm _ HP). unfold in_transport, arc_timeout, focus, mbind, ST_bind.
  destruct (m (sk_transport s)) as [[a|e|f] x]; [by apply Hk|done|by destruct f].
Qed.

Lemma closing_fault {A} (m : ST (Socket X) A) s : is_fault (closing_on_failure m s).1 = is_fault (m s).1.
Proof. unfold closing_on_failure. by destruct (m s) as [[a|e|[]] s']. Qed.

Lemma connect_handshake_returns ck (s : Socket X) :
  walks_all (ck_order ck) -> hash_fits (sk_usedQdb s) -> socket_ok s -> tr_room 16 (sk_transport s) ->
  (forall start hf, (tr_performHandshake ck start (sk_transport s)).1 = Ok (MHandshakeFinish hf) -> finish_ok hf) ->
  is_fault (connect_handshake blake3Hash path_join fs_exists fmt_dec ck s).1 = false.
Proof.
  intros Hw Hq Hs Hr Hserves. unfold connect_handshake. erewrite bind_run by reflexivity. cbv beta.
  eapply in_time_returns with (P := fun x => tr_ok x /\ tr_room 16 x); [| |intros m Hm|].
  - eapply triple_conseq; [by apply handshake_safe| |done|done]. intros x [Hx Hx']. split; [done|].
    eapply room_le; [by apply handshake_message_fits|done].
  - done.
  - destruct m; try apply returns_throw. eapply onHandshakeSuccess_returns, Hserves, Hm.
  - apply returns_throw.
Qed.

Lemma createSocket_transport t0 t1 t2 (options : TransportOptions Tls) created s d x :
  createSocket t0 t1 t2 options created = (Ok (s, d), x) ->
  sk_usedQdb s = None /\ exists x0 b, created = Ok x0 /\ sk_transport s = tr_set_base b x0.
Proof.
  unfold createSocket. destruct created as [x0|e|f]; [|done..]. destruct (dltb _ _); [done|]. destruct (_ <=? 0); [done|].
  intros [= <- _ _]. cbn. eauto.
Qed.

Lemma load_qdb_ok (options : TransportOptions Tls) folder (s : Socket X) :
  exists db folder', load_qdb blake3Hash path_join fs_exists fs_read options folder s = Ok (set_qdb db folder' s) \/
                     load_qdb blake3Hash path_join fs_exists fs_read options folder s = Ok s.
Proof.
  unfold load_qdb. destruct folder as [folder|]; [|by exists None, None; right].
  unfold tryFindQdb. destruct (fs_exists _); [|by eexists _, _; left]. destruct (fs_read _) as [data|] eqn:Er; [|by eexists _, _; left].
  pose proof (Hfolder _ _ Er) as Hd. unfold decodable in Hd.
  destruct (QunetDatabase_decode blake3Hash data); [by eexists _, _; left|by eexists _, _; left|done].
Qed.

Lemma Socket_connect_returns t0 t1 t2 ck (options : TransportOptions Tls) created folder :
  walks_all (ck_order ck) -> (forall x, created = Ok x -> (tr_ok x /\ tr_room 16 x) /\ serves ck x) -> is_fault created = false ->
  expires_between t0 t1 t2 options = false ->
  is_fault (Socket_connect blake3Hash path_join fs_exists fs_read fmt_dec t0 t1 t2 ck options created folder).1 = false.
Proof.
  intros Hw Hx Hf Htime. destruct (createSocket_safe t0 t1 t2 options created 16 (fun x Hc => proj1 (Hx x Hc)) Hf) as [Hnf Hok].
  unfold Socket_connect. destruct (createSocket t0 t1 t2 options created) as [[[s d]|e|f] x] eqn:Ec;
    [|done|destruct (Hnf f eq_refl); congruence].
  destruct (Hok s d eq_refl) as [Hs Hr]. destruct (createSocket_transport _ _ _ _ _ _ _ _ Ec) as (Hq & x0 & b & Hx0 & Ht).
  pose proof (load_qdb_throws blake3Hash path_join fs_exists fs_read options folder s Hq) as Hl.
  assert (forall s1, sk_transport s1 = sk_transport s -> hash_fits (sk_usedQdb s1) ->
    is_fault (closing_on_failure (connect_handshake blake3Hash path_join fs_exists fmt_dec ck) s1).1 = false) as Hrun.
  { intros s1 Et Hh. rewrite closing_fault. apply connect_handshake_returns; [done|done|unfold socket_ok; by rewrite Et|by rewrite Et|].
    intros start hf. rewrite Et, Ht. by apply (Hx x0 Hx0). }
  destruct (load_qdb_ok options folder s) as (db & folder' & [E|E]); rewrite E in *; destruct Hl as [Hh _];
    [specialize (Hrun (set_qdb db folder' s) eq_refl Hh)|specialize (Hrun s eq_refl Hh)];
    destruct (closing_on_failure _ _) as [[ops|e|f] s2]; done.
Qed.

Lemma Socket_reconnect_returns t0 t1 t2 ck (options : TransportOptions Tls) created (prev : Socket X) :
  walks_all (ck_order ck) -> (forall x, created = Ok x -> tr_ok x /\ tr_room 0 x) -> is_fault created = false ->
  expires_between t0 t1 t2 options = false ->
  is_fault (Socket_reconnect t0 t1 t2 ck options created prev).1 = false.
Proof.
  intros Hw Hx Hf Htime. destruct (createSocket_safe t0 t1 t2 options created 0 Hx Hf) as [Hnf Hok].
  unfold Socket_reconnect. destruct (createSocket t0 t1 t2 options created) as [[[s d]|e|f] x] eqn:Ec;
    [|done|destruct (Hnf f eq_refl); congruence].
  destruct (Hok s d eq_refl) as [Hs Hr].
  assert (is_fault (closing_on_failure (reconnect_handshake ck (sk_transport prev)) s).1 = false) as Hrun.
  { rewrite closing_fault. unfold reconnect_handshake.
    eapply in_time_returns with (P := fun x => tr_ok x /\ tr_room 0 x); [by apply reconnect_safe|done| |apply returns_throw].
    intros m _. destruct m; try apply returns_throw. unfold onReconnectSuccess, tr_in_base, in_transport.
    repeat (apply returns_bind; [repeat first [apply returns_focus|apply returns_modify|apply returns_get]|intros ?]).
    apply returns_ret. }
  destruct (closing_on_failure _ s) as [[older|e|f] s2]; done.
Qed.
End Attempts.

(** ** What the pinger tells
    When the servers that answer announce what the client knows, so does the
    cache. *)
Section Known.
Context {T : TimeLib} {AL : AddressLib} {D : DnsLib} {PL : PingerLib} {W : ByteWriter} `{RL : ByteReaderLaws}.
Context {CP : CacheLib SocketAddressV6 CachedPing} {LP : CacheLaws CP}.
Context {Callback : Type}.

Definition known_protocols (l : list SupportedProtocol) : Prop := l = [] \/ exists p, p ∈ l /\ known_protocol p = true.
Definition pinger_known (p : Pinger Callback) : Prop := forall k entry, cached k entry (p_cache p) -> known_protocols (cp_protocols entry).
Definition outcome_known (o : PingOutcome Callback) : Prop := match o with Called _ res _ => known_result res | Dropped _ => True end.
(** What a datagram says, if it is an answer. *)
Definition datagram_known (ev : PingEvent Callback) : Prop :=
  match ev with
  | EvDatagram data _ _ _ _ =>
      forall res, thrParsePingResponse (ztake PING_RESPONSE_SIZE data) = Ok res -> known_protocols (pr_protocols res)
  | _ => True
  end.

Abbreviation tells m := (yields (X := Empty_set) pinger_known m (Forall outcome_known)).

Lemma known_result_of r : known_protocols (pr_protocols r) -> known_result r.
Proof. unfold known_result. intros [->|H]; auto. Qed.

Lemma ping_known addr cb : tells (ping addr cb).
Proof.
  unfold ping. apply yields_read. intros p _. destruct (_ <? _)%nat; [|by apply yields_ret; repeat constructor].
  apply yields_seq; [by intros q|]. intros _. by apply yields_ret.
Qed.

Lemma getCached_known now addr p :
  pinger_known p -> pinger_known (Pinger_getCached now addr p).2 /\
  forall r, (Pinger_getCached now addr p).1 = Some r -> known_protocols (pr_protocols r).
Proof.
  intros Hp. unfold Pinger_getCached. destruct (cache_get now (toV6 addr) (p_cache p)) as [entry c] eqn:E. cbn. split.
  - intros k e He. apply (Hp k). eapply (cached_after_get now k (toV6 addr)). by rewrite E.
  - intros r Hr. destruct entry as [entry|]; [|done]. injection Hr as <-. cbn. apply (Hp (toV6 addr)).
    apply (cached_get now). by rewrite E.
Qed.

Lemma isCached_known now addr p : pinger_known p -> pinger_known (isCached now addr p).2.
Proof. intros Hp. destruct (getCached_known now addr p Hp) as [H _]. unfold isCached. by destruct (Pinger_getCached now addr p). Qed.

Lemma thrDoPing_known now sentAt addr cb : tells (thrDoPing now sentAt addr cb).
Proof.
  unfold thrDoPing. apply yields_seq; [by apply preserves_state|]. intros id. cbn zeta.
  apply yields_seq; [apply preserves_state; by intros p; apply isCached_known|]. intros c.
  apply yields_seq. { intros p Hp. unfold ping_padding. by destruct (padMessageToMinimum _ _) as [[w g]|e|f]. }
  intros w. apply yields_seq. { intros p Hp. unfold sendTo. by destruct (p_socket p) as [[|[e|] l]|]. }
  intros [e|]; [apply yields_ret; repeat constructor; right; by left|].
  apply yields_seq; [by apply preserves_modify|]. intros _. by apply yields_ret.
Qed.

Lemma dispatch_known elapsed now now' res src :
  known_protocols (pr_protocols res) -> tells (state (thrDispatchResult elapsed now now' res src)).
Proof.
  intros Hres p Hp. unfold state, thrDispatchResult. destruct (list_find _ _) as [[it og]|]; [|split; [done|by intros ? [= <-]]].
  destruct (cache_get now (toV6 src) (p_cache p)) as [entry c] eqn:E. cbn.
  set (protocols := match entry with Some entry => if bool_decide (pr_protocols res = []) then cp_protocols entry else pr_protocols res
                                | None => pr_protocols res end).
  assert (forall k e, cached k e c -> known_protocols (cp_protocols e)) as Hc.
  { intros k e He. apply (Hp k). eapply (cached_after_get now k (toV6 src)). by rewrite E. }
  assert (known_protocols protocols) as Hk.
  { unfold protocols. destruct entry as [entry|]; [|done]. case_bool_decide; [|done]. apply (Hp (toV6 src)), (cached_get now). by rewrite E. }
  split; [|intros ? [= <-]; apply Forall_singleton; by apply known_result_of].
  intros k e. cbn. destruct entry as [entry|]; [intros [[_ ->]|He]%cached_set|intros [[_ ->]|He]%cached_insert]; first [exact Hk|by apply (Hc k)].
Qed.

Lemma worker_event_known ev : datagram_known ev -> tells (worker_event ev).
Proof.
  intros Hev. unfold worker_event. apply yields_read. intros p0 _. destruct ev as [addr cb|s|now sentAt|data src elapsed now now'|e|now].
  - apply ping_known.
  - destruct (p_socket p0); [by apply yields_ret|]. apply yields_seq; [by apply preserves_modify|]. intros _. by apply yields_ret.
  - destruct (p_socket p0); [|by apply yields_ret]. apply yields_read. intros p _. destruct (p_queue p) as [|[addr cb] queue]; [by apply yields_ret|].
    apply yields_seq; [by apply preserves_modify|]. intros _. apply thrDoPing_known.
  - destruct (p_socket p0); [|by apply yields_ret]. cbn in Hev.
    destruct (thrParsePingResponse _) as [res|e|f]; [by apply dispatch_known, Hev|by apply yields_ret|by apply yields_lift].
  - destruct (p_socket p0); [|by apply yields_ret]. destruct (isConnectionReset e); [by apply yields_ret|].
    apply yields_seq; [by apply preserves_modify|]. intros _. by apply yields_ret.
  - destruct (p_socket p0); [|by apply yields_ret]. apply yields_read. intros p _. destruct (nextTimeout p); [|by apply yields_ret].
    destruct (igeb _ _); [|by apply yields_ret]. intros q Hq. unfold state, thrRemoveTimedOutPings. rewrite remove_timed_out_spec. split; [done|].
    intros ? [= <-]. apply Forall_fmap, Forall_true. intros og. by left.
Qed.

Lemma worker_events_known evs : Forall datagram_known evs -> tells (worker_events evs).
Proof.
  induction 1 as [|ev evs Hev _ IH]; [by apply yields_ret|]. cbn [worker_events].
  eapply yields_bind; [by apply worker_event_known|]. intros out Hout. eapply yields_bind; [exact IH|]. intros out' Hout'.
  apply yields_ret. by apply Forall_app.
Qed.
End Known.

(** ** What the connection relies on *)
Section Client.
Context {T : TimeLib} {TL : TimeLaws T} {CL : CompressionLib} {LL : CompressionLaws CL} {C : CircularBuffer} {CLaws : CircularBufferLaws C}.
Context {AL : AddressLib} `{WL : ByteWriterLaws, RL : ByteReaderLaws} {D : DnsLib} {PL : PingerLib}.
Context {CP : CacheLib SocketAddressV6 CachedPing} {CA : CacheLib (list Z) DNSRecordA}
        {CAAAA : CacheLib (list Z) DNSRecordAAAA} {CSRV : CacheLib (list Z) DNSRecordSRV}.
Context {LP : CacheLaws CP} {LA : CacheLaws CA} {LAAAA : CacheLaws CAAAA} {LSRV : CacheLaws CSRV}.
Context {Tls : Type}.
Variable L : Libraries.
Variable S : Surroundings Tls.

(** The libraries: a deadline lies in the future, closing a TCP socket returns,
    there is memory for the contexts of zstd, and the folder holds databases. *)
Record libraries_ok : Prop := {
  lo_deadlines r : positive_deadlines (lb_millis L) (lb_fromMillis L) r;
  lo_shutdown : is_fault (lb_shutdown L) = false;
  lo_cctx : ZSTD_createCCtx = true;
  lo_dctx : ZSTD_createDCtx = true;
  lo_folder : folder_ok (lb_blake3 L) (lb_read L);
}.
Hypothesis HL : libraries_ok.

Lemma no_transport_safe : TransportSafe no_transport.
Proof. refine {| tr_ok _ := True; tr_room _ _ := True |}; try done; by intros; intros []. Defined.

#[local] Instance the_client : ConnectionEnv := client_env L S.
#[local] Instance the_transport : VirtualTransport (AnyTransport Empty_set) := client_transport L.
#[local] Instance client_safe : TransportSafe the_transport :=
  any_transport_safe _ _ _ _ (udp_transport_safe _ _ (lo_deadlines HL)) (tcp_transport_safe _ (lo_shutdown HL)) no_transport_safe ws_transport_safe.

(** A transport that was just created: no datagram announces more than eight
    acknowledgements, no binary message of a WebSocket is empty ([udp_ok],
    [ws_ok]). *)
Definition created_ok (t : AnyTransport Empty_set) : Prop :=
  match t with
  | AUdp u => udp_ok u
  | ATcp t => tcp_ok t
  | AQuic t => match t with end
  | AWs t => ws_ok t
  end.

(** Whatever the network does and the servers send, except that no transport is
    created with datagrams or messages to come that it throws on ([created_ok]), a server does not
    send a database on which the decoder throws, and one that answers a ping
    announces a protocol that is known, or none; and no attempt has its time over
    between the two checks of [createSocket], which throws then. *)
Record surroundings_ok : Prop := {
  so_attempts n : walks_all (ck_order (at_clock (su_attempt S n)));
  so_times n (options : TransportOptions Tls) :
    let a := su_attempt S n in
    expires_between (at_t0 a) (at_t1 a (to_timeout options)) (at_t2 a (to_timeout options)) options = false;
  so_created n options t : create_transport L (su_attempt S n) options = Ok t -> created_ok t;
  so_serves n options t : create_transport L (su_attempt S n) options = Ok t ->
    serves (lb_blake3 L) (at_clock (su_attempt S n)) t;
  so_clocks n : walks_all (ck_order (su_clock S n));
  so_pinger n : Forall datagram_known (su_pinger S n);
}.
Hypothesis HS : surroundings_ok.

Definition client_sock (s : Socket (AnyTransport Empty_set)) : Prop := created_ok (sk_transport s).
Definition client_world (w : World) : Prop := resolver_wf (cw_resolver w) /\ pinger_known (cw_pinger w).
Definition client_message (m : OutgoingMessage) : Prop := sendable (om_message m) = true /\ body_size (om_message m) < 2 ^ 30.

Lemma created_tr_ok t : created_ok t -> tr_ok t.
Proof. by destruct t as [t|t|[]|t]. Qed.
Lemma tr_ok_created t : tr_ok t -> created_ok t.
Proof. by destruct t as [t|t|[]|t]. Qed.
Lemma always_room n t : tr_room n t.
Proof. by destruct t as [t|t|[]|t]. Qed.

Lemma create_returns (a : Attempt Tls) options : is_fault (create_transport L a options) = false.
Proof.
  unfold create_transport, createTransport, UdpTransport_connect, TcpTransport_connect, WsTransport_connect.
  destruct (to_type options); try done; by repeat (case_match; simplify_eq/=).
Qed.

Lemma client_call_ok {A} (m : Clock -> ST (Socket (AnyTransport Empty_set)) A) :
  (forall ck, walks_all (ck_order ck) -> safe (socket_ok) (m ck)) ->
  call_ok (E := the_client) client_sock client_world (client_call S m).
Proof.
  intros Hm s w Hs Hw. unfold client_call. specialize (Hm _ (so_clocks HS (cw_step w)) s (created_tr_ok _ Hs)).
  destruct (m (su_clock S (cw_step w)) s) as [[a|e|f] s'].
  - split; [by apply tr_ok_created|]. split; [done|by left].
  - split; [by apply tr_ok_created|]. split; [done|by left].
  - destruct f; try done. split; [by apply tr_ok_created|]. split; [done|by right].
Qed.

Lemma client_connect_ok options folder : make_ok (E := the_client) client_sock client_world (client_connect L S options folder).
Proof.
  intros w Hw. unfold client_connect. set (a := su_attempt S (cw_step w)).
  assert (forall x, create_transport L a options = Ok x ->
    (tr_ok x /\ tr_room 16 x) /\ serves (lb_blake3 L) (at_clock a) x) as Hx.
  { intros x Hx. split; [split; [by eapply created_tr_ok, so_created|apply always_room]|by eapply so_serves]. }
  pose proof (Socket_connect_returns (lb_blake3 L) (lb_join L) (lb_exists L) (lb_read L) (lb_fmt_dec L) (lo_cctx HL) (lo_dctx HL) (lo_folder HL)
    (at_t0 a) (at_t1 a (to_timeout options)) (at_t2 a (to_timeout options)) (at_clock a) options _ folder (so_attempts HS _) Hx (create_returns a options) (so_times HS _ options)) as Hf.
  pose proof (Socket_connect_safe (lb_blake3 L) (lb_join L) (lb_exists L) (lb_read L) (lb_fmt_dec L) (lo_cctx HL) (lo_dctx HL)
    (at_t0 a) (at_t1 a (to_timeout options)) (at_t2 a (to_timeout options)) (at_clock a) options _ folder (so_attempts HS _) (fun x Hc => proj1 (Hx x Hc)) (create_returns a options)) as Hok.
  destruct (Socket_connect _ _ _ _ _ _ _ _ _ _ _ _).1 as [[ops s]|e|f]; [|done..].
  split; [done|]. split; [done|]. intros s' [= <-]. by apply tr_ok_created.
Qed.

Lemma client_reconnect_ok options prev : make_ok (E := the_client) client_sock client_world (client_reconnect L S options prev).
Proof.
  intros w Hw. unfold client_reconnect. set (a := su_attempt S (cw_step w)).
  assert (forall x, create_transport L a options = Ok x -> tr_ok x /\ tr_room 0 x) as Hx.
  { intros x Hx. split; [by eapply created_tr_ok, so_created|apply always_room]. }
  pose proof (Socket_reconnect_returns (at_t0 a) (at_t1 a (to_timeout options)) (at_t2 a (to_timeout options)) (at_clock a) options _ prev (so_attempts HS _) Hx (create_returns a options) (so_times HS _ options)) as Hf.
  pose proof (Socket_reconnect_safe (at_t0 a) (at_t1 a (to_timeout options)) (at_t2 a (to_timeout options)) (at_clock a) options _ prev (so_attempts HS _) Hx (create_returns a options)) as Hok.
  destruct (Socket_reconnect _ _ _ _ _ _ _).1 as [[s older]|e|f]; [|done..].
  split; [done|]. split; [done|]. intros s' [= <-]. by apply tr_ok_created.
Qed.

Lemma client_query_ok {A B} (m : instant -> instant -> list Z -> nat -> list ResolverOp -> Resolver nat -> ResolverResult A * Resolver nat)
    (f : A -> B) name w :
  (forall t t' n cb ops r, resolver_wf r -> resolver_wf (m t t' n cb ops r).2) -> client_world w -> client_world (client_query S m f name w).2.
Proof.
  intros Hm [Hr Hp]. unfold client_query. set (lk := su_lookup S (cw_step w)).
  specialize (Hm (lk_asked lk) (lk_stored lk) name (cw_step w) (lk_meanwhile lk) _ Hr). by destruct (m _ _ _ _ _ _) as [res r].
Qed.

(** A query and the pinger throw nothing that [client_query] and [client_pings]
    would hide. *)
Lemma client_query_total name w (Rec : Type) {DR : DnsRecord (Callback := nat) Rec} {DL : DnsRecordLaws Rec} :
  client_world w ->
  let lk := su_lookup S (cw_step w) in
  is_fault (wrapSync Rec (lk_asked lk) (lk_stored lk) name (cw_step w) (lk_meanwhile lk) (cw_resolver w)).1 = false.
Proof. intros [Hr _]. by apply wrapSync_total. Qed.

Lemma client_pings_total w : exists out p, worker_events (su_pinger S (cw_step w)) (cw_pinger w) = (Ok out, p).
Proof. destruct (ping_callbacks_once (su_pinger S (cw_step w)) (cw_pinger w)) as (out & p & H & _). eauto. Qed.

Lemma client_srv_some name w : client_world w -> (env_querySRV (ConnectionEnv := the_client) name w).1 <> Some [].
Proof.
  intros [Hr Hp]. cbn. unfold client_query, asyncQuerySRV. set (lk := su_lookup S (cw_step w)).
  destruct (wrapSync DNSRecordSRV _ _ _ _ _ _) as [res r] eqn:E. destruct res as [record|e|f]; [|done..].
  apply (wrapSync_good DNSRecordSRV) in E as [Hne _]; [|done]. cbn. congruence.
Qed.

Lemma client_pings_ok w :
  client_world w -> client_world (client_pings S w).2 /\ Forall (fun r => known_result r.2) (client_pings S w).1.
Proof.
  intros [Hr Hp]. unfold client_pings. destruct (worker_events_known _ (so_pinger HS (cw_step w)) _ Hp) as [Hp' Hout].
  destruct (worker_events _ _) as [[out|e|f] p]; cbn in *; [|done..]. split; [done|]. specialize (Hout out eq_refl).
  clear -Hout. induction Hout as [|o out Ho _ IH]; [done|]. cbn. destruct o as [[ch i] res locked|cb]; cbn; [|done].
  destruct (ch =? cw_channel w)%nat; [by constructor|done].
Qed.

#[local] Instance client_laws : ConnectionLaws (E := the_client).
Proof.
  refine {| sock_ok := client_sock : @socket _ _ the_client -> Prop; world_ok := client_world : @world _ _ the_client -> Prop;
            msg_ok := client_message |}; cbn; try done.
  - exact client_connect_ok.
  - intros o s _. exact (client_reconnect_ok o s).
  - intros m [Hm Hl]. apply client_call_ok. intros ck _.
    eapply triple_conseq; [exact (Socket_send_safe ck m Hm Hl)| |done|done]. intros s Hs. split; [done|apply always_room].
  - apply client_call_ok. intros ck Hw. by apply Socket_receive_safe.
  - apply client_call_ok. intros ck _. apply in_transport_safe, timer_safe.
  - apply client_call_ok. intros ck _. apply in_transport_safe, close_safe.
  - intros rtt s Hs. by apply tr_ok_created, (ok_updateLatency rtt (sk_transport s)), created_tr_ok.
  - intros name w. apply client_query_ok. intros. by apply (wrapSync_wf DNSRecordA).
  - intros name w. apply client_query_ok. intros. by apply (wrapSync_wf DNSRecordAAAA).
  - intros name w Hw. split; [|by apply client_srv_some]. apply client_query_ok; [|done]. intros. by apply (wrapSync_wf DNSRecordSRV).
  - intros i a w [Hr Hp]. split; [done|]. exact (proj1 (ping_known a (cw_channel w, i) _ Hp)).
  - exact client_pings_ok.
  - intros a w [Hr Hp]. unfold client_getCached. destruct (getCached_known (client_now S w) a _ Hp) as [Hp' Hg].
    destruct (Pinger_getCached _ _ _) as [res p]. split; [done|]. cbn in *. intros r Hr'. by apply known_result_of, Hg.
Defined.

(** C5. The program put together - the connection over its sockets of UDP, TCP and
    WebSocket, the resolver and the pinger - does not throw, in whatever order the
    application, the network, the name servers and the servers do what they may.
    The application may make every call but [simulateConnectionDrop]
    ([ConnectionEx.simulated_drop_faults]), with URLs that the parser does not read out
    of bounds of (not [tcp://:80]), and messages that have an encoder and less than a
    gigabyte; it sets or removes the callback of the states before the worker runs.
    What is excluded of the rest is in [surroundings_ok] - a header that announces
    more than eight acknowledgements, an empty binary message of a WebSocket, a
    database on which the decoder throws, an answer to a ping with only protocols
    that are not known, and an attempt whose time ends between the two checks of
    [createSocket] - and in [libraries_ok]: such a database in the folder, no memory
    for the contexts of zstd, a deadline of a retransmission that is converted to
    zero.  Then, whenever the worker stops, it has returned or waits; a
    connection that is connected, closing or reconnecting has a socket, whose
    transport is fit for the next call; what the application was told is a path in
    the graph of states; and the caches hold only answers that are not empty and
    protocols that are known. *)
Theorem client_never_throws n ch members g cbs script :
  cbs_ok cbs -> script_ok script ->
  let '(res, c) := client_run L S n ch members g cbs script in
  (forall f, res = Fault f -> f = WouldBlock) /\
  (live (c_state c) = true -> exists s, c_socket c = Some s /\ created_ok (sk_transport (s : Socket (AnyTransport Empty_set)))) /\
  (is_Some (cb_connState (c_callbacks c)) -> path Disconnected (states_of (c_calls c)) (c_state c)) /\
    resolver_wf (cw_resolver (c_world c : World)) /\ pinger_known (cw_pinger (c_world c : World)).
Proof.
  intros Hcbs Hscript. set (w := new_World (new_Resolver (Some ch) members) (new_Pinger g)).
  assert (client_world w) as Hw.
  { split; [split_and!; apply setupCache_wf|]. by intros k entry Hc%cached_new. }
  pose proof (worker_run n cbs w script Hw Hcbs Hscript) as H.
  assert (forall c, wf c ->
    (live (c_state c) = true -> exists s, c_socket c = Some s /\ created_ok (sk_transport (s : Socket (AnyTransport Empty_set)))) /\
  (is_Some (cb_connState (c_callbacks c)) -> path Disconnected (states_of (c_calls c)) (c_state c)) /\
    resolver_wf (cw_resolver (c_world c : World)) /\ pinger_known (cw_pinger (c_world c : World))) as Hwf.
  { intros c Hc. destruct (wf_env _ _ Hc) as [Hcw Hcs]. split; [|split; [apply Hc|exact Hcw]].
    intros Hl. destruct (wf_live _ _ Hc Hl) as [[s Hs] _]. exists s. split; [done|]. exact (Hcs s Hs). }
  unfold client_run. destruct (worker n _) as [[u|e|f] c].
  - split; [done|]. apply Hwf, H.
  - split; [done|]. by apply Hwf.
  - destruct H as [-> H]. split; [by intros f [= <-]|]. by apply Hwf.
Qed.
End Client.
