(* ===== verification/ClientEx.v ===== *)
(** * A run of the client

    The application connects to a name; the resolver and the pinger find an
    address and a protocol, the connection is made over a WebSocket, is lost, and
    is found again; a message is sent over it and the connection is closed. *)
From S2P Require Import Prelude Dbuf Messages Time Errors Effects Padding Compress Database Transport Udp Stream Ws Address Url Socket.
From S2P Require Import Fragment ReliableLocal StreamCalls SocketSpec SocketSafe Cache Resolver ResolverSpec ResolverEx Pinger PingerSpec PingerEx ConnError Connection ConnectionInv Client ClientSafe.

Open Scope Z_scope.
#[local] Existing Instance text_addresses | 0.
#[local] Existing Instance nano_time | 0.
#[local] Existing Instance rle_lib | 0.
#[local] Existing Instance list_cbuf | 0.
#[local] Existing Instance list_writer | 0.
#[local] Existing Instance list_reader | 0.

Definition ex_libraries : Libraries := {|
  lb_millis := nano_millis;
  lb_fromMillis := positive_fromMillis;
  lb_shutdown := Ok tt;
  lb_blake3 := id;
  lb_join := app;
  lb_exists _ := false;
  lb_read _ := None;
  lb_fmt_dec _ := [];
  lb_timedOut := {| se_timedOut := true; se_text := str "timed out" |};
  lb_isSuccess _ := false;
  lb_parse s := None;
  lb_isIpv6 := example_ipv6;
  lb_tls := false;
  lb_debug := true;
|}.

(** The server: its name, its address, what it announces. *)
Definition server_url : list Z := str "qunet://host".
Definition announced : list SupportedProtocol :=
  [{| sp_protocolId := PROTO_TCP; sp_port := 4340 |}; {| sp_protocolId := PROTO_WEBSOCKET; sp_port := 4341 |}].

(** The clock at a step. *)
Definition ex_clock (n : nat) : Clock :=
  {| ck_now := at_ms (Z.of_nat n); ck_ns := Z.of_nat n; ck_order := every_key; ck_turns := [] |}.

(** The server refuses TCP.  Over a WebSocket it sends its database and a data
    message, and closes; it does not know the client when it comes back, and
    accepts it as a new one. *)
Definition data_bytes : list Z := [MSG_DATA; 1; 2; 3].
Definition close_bytes : list Z := [MSG_SERVER_CLOSE] ++ le_split 4 7.
Definition ex_incoming (n : nat) : list (list Z + WsMessage) :=
  match n with
  | 5%nat => [inr (WsBinary handshake_answer); inr (WsBinary data_bytes); inr (WsBinary close_bytes)]
  | 8%nat => [inr (WsBinary [MSG_RECONNECT_FAILURE])]
  | _ => [inr (WsBinary handshake_answer); inr (WsClose 1000 (str "bye"))]
  end.
Definition ex_attempt (n : nat) : Attempt unit := {|
  at_t0 := at_ms (Z.of_nat n);
  at_t1 d := if millis d <=? 0 then at_ms (Z.of_nat n + 1) else at_ms (Z.of_nat n);
  at_t2 _ := at_ms (Z.of_nat n);
  at_clock := ex_clock n;
  at_seed := {| m_x := 1; m_y := 2; m_z := 3 |};
  at_bind _ := inl {| se_timedOut := false; se_text := str "no UDP" |};
  at_connectUdp _ _ := None;
  at_connectTcp _ := Some (inl {| se_timedOut := false; se_text := str "refused" |});
  at_connectWs _ _ _ _ := Some (inr (example_client (ex_incoming n)));
|}.

(** There is no SRV record and no AAAA record; the address is in an A record. *)
Definition ex_lookup (n : nat) : Lookup (D := example_dns) := {|
  lk_asked := at_ms (Z.of_nat n);
  lk_stored := at_ms (Z.of_nat n);
  lk_meanwhile :=
    match n with
    | 0%nat => [OpAnswer (at_ms 0) 0 ARES_ENODATA (answer [])]
    | 1%nat => [OpAnswer (at_ms 1) 0 ARES_SUCCESS (answer [a_rr 16843009])]
    | _ => []
    end;
|}.

Definition ex_surroundings : Surroundings (D := example_dns) unit := {|
  su_attempt := ex_attempt;
  su_clock := ex_clock;
  su_lookup := ex_lookup;
  su_firstAAAA _ := false;
  su_pinger n := [EvBind (Some []); EvRequest (at_ms 3) (at_ms 3);
                  EvDatagram (pong_bytes 1 announced []) server (at_ms 20) (at_ms 20) (at_ms 20)];
  su_createContext _ _ := None;
  su_loadCerts _ ctx := (false, ctx);
  su_setupQuic _ ctx := (false, ctx);
|}.

Abbreviation ex_env := (client_env (D := example_dns) (PL := example_pinger) ex_libraries ex_surroundings).
Definition following : ConnectionCallbacks :=
  {| cb_connState := Some (fun _ => []); cb_data := None; cb_stateReset := None; cb_shouldReconnect := None |}.
Definition hello : OutgoingMessage :=
  {| om_message := MData {| dm_data := str "hello"; dm_compHeader := None; dm_relHeader := None |}; om_reliable := true;
     om_uncompressed := false; om_tag := [] |}.
Abbreviation Script := (list (list (UserOp (E := ex_env)) * Event)).
Definition wakes (n : nat) : Script := replicate n ([], EvWake).
Definition ex_script : Script :=
  ([UserCall (OpConnect server_url)], EvWake) :: wakes 5 ++ [([], EvReceive); ([], EvReceive)] ++ wakes 2 ++
  [([], EvReceive); ([UserCall (OpSend hello)], EvSend)] ++ wakes 1 ++ [([UserCall OpDisconnect], EvDisconnect)] ++ wakes 6.
Definition ex_members : Resolver (D := example_dns) nat := Resolver_members setupCache setupCache setupCache.
Definition ex_channel : @ares_channel _ example_dns := [].
Definition ex_rng : QunetPadRNG := {| m_x := 1; m_y := 2; m_z := 3 |}.
Abbreviation ex_run n := (client_run ex_libraries ex_surroundings n ex_channel ex_members ex_rng following ex_script).

(** What the application is told, and how far the script went: two queries and two
    attempts to connect, a message, the close of the server, an attempt to
    reconnect and one to connect anew, the close of the WebSocket, a message that
    is sent, and the close. *)
Definition told_states : list ConnectionState :=
  [DnsResolving; Pinging; Connecting; Connected; Reconnecting; Connected; Closing; Disconnected].
Lemma ex_told :
  is_ok (ex_run 9).1 && bool_decide (states_of (c_calls (ex_run 9).2) = told_states) &&
  bool_decide (is_Some (cb_connState (c_callbacks (ex_run 9).2))) && bool_decide (c_state (ex_run 9).2 = Disconnected) &&
  (cw_step (c_world (ex_run 9).2 : World) =? 14)%nat = true.
Proof. vm_compute. reflexivity. Qed.

(** The close of the WebSocket by its peer is no fatal error: the connection stays
    connected. *)
Example peer_close_survives :
  let '(res, c) := ex_run 6 in
  is_ok res && bool_decide (c_state c = Connected) && (cw_step (c_world c : World) =? 11)%nat &&
  match c_lastError c with CE_Transport (TE_Ws _) => true | _ => false end &&
  match c_socket c with
  | Some s => match sk_transport (s : Socket (AnyTransport Empty_set)) with
              | AWs t => bool_decide (length (ws_incoming (wt_ws t)) = 0%nat)
              | _ => false
              end
  | None => false
  end = true.
Proof. vm_compute. reflexivity. Qed.

(** ** The assumptions hold of it *)
Lemma ex_libraries_ok : libraries_ok ex_libraries.
Proof. split; [apply positive_fromMillis_deadlines|done..]. Qed.

(** Only a WebSocket is ever created. *)
Lemma ex_created n options t :
  create_transport ex_libraries (ex_attempt n) options = Ok t ->
  t = AWs (new_WsTransport (at_t0 (ex_attempt n)) (co_activeKeepaliveInterval (to_connOptions options)) (example_client (ex_incoming n))).
Proof. unfold create_transport, createTransport. destruct (to_type options); cbn; congruence. Qed.

(** What arrives first. *)
Lemma ex_incoming_cases n :
  (exists rest, ex_incoming n = inr (WsBinary handshake_answer) :: rest /\ Forall not_empty rest) \/
  ex_incoming n = [inr (WsBinary [MSG_RECONNECT_FAILURE])].
Proof.
  unfold ex_incoming.
  do 9 (destruct n as [|n]; [first [right; reflexivity|left; eexists; split; [reflexivity|by repeat (apply Forall_cons_2; [done|])]]|]).
  left. eexists. split; [reflexivity|by repeat (apply Forall_cons_2; [done|])].
Qed.

Lemma ex_incoming_ok n : Forall not_empty (ex_incoming n).
Proof. destruct (ex_incoming_cases n) as [(rest & -> & H)| ->]; by apply Forall_cons_2. Qed.

#[local] Instance ex_transport : VirtualTransport (AnyTransport Empty_set) := client_transport ex_libraries.
Abbreviation handshake_with ck start b t0 k incoming :=
  (tr_performHandshake ck start (tr_set_base b (AWs (new_WsTransport t0 k (example_client incoming))))).1.

(** What the server answers does not depend on what the client sends. *)
Definition answered : HandshakeFinishMessage := {|
  hf_connectionId := 4242;
  hf_qdbData := Some {| qd_uncompressedSize := len sample_database; qd_compressedSize := len compressed_database;
                        qd_chunkOffset := 0; qd_chunkSize := len compressed_database; qd_chunkData := compressed_database |};
|}.
Lemma answer_taken ck start b t0 k rest :
  handshake_with ck start b t0 k (inr (WsBinary handshake_answer) :: rest) = Ok (MHandshakeFinish answered).
Proof. destruct start, b. vm_compute. reflexivity. Qed.
Lemma refusal_taken ck start b t0 k :
  handshake_with ck start b t0 k [inr (WsBinary [MSG_RECONNECT_FAILURE])] = Ok (MReconnectFailure MkReconnectFailure).
Proof. destruct start, b. vm_compute. reflexivity. Qed.

Lemma answered_ok : finish_ok id answered.
Proof.
  intros q dec data [= <-] [= <-] Hd. vm_compute in Hd. injection Hd as <-. vm_compute. reflexivity.
Qed.

Lemma ex_serves n options t :
  create_transport ex_libraries (ex_attempt n) options = Ok t -> serves id (ex_clock n) t.
Proof.
  intros -> %ex_created start b hf. destruct (ex_incoming_cases n) as [(rest & -> & _)| ->].
  - rewrite answer_taken. intros [= <-]. exact answered_ok.
  - by rewrite refusal_taken.
Qed.

Lemma announced_ok : pong_ok 1 announced [].
Proof.
  split_and!; [lia|lia| |done|done]. do 2 (apply Forall_cons_2; [by vm_compute|]). by apply Forall_nil_2.
Qed.

Lemma announced_known n : Forall datagram_known (su_pinger ex_surroundings n).
Proof.
  repeat (apply Forall_cons_2; [done|]). apply Forall_singleton. intros res. rewrite ztake_ge by (vm_compute; discriminate).
  rewrite <- (app_nil_r (pong_bytes 1 announced [])), (pong_parses (T := nano_time)) by exact announced_ok.
  intros [= <-]. right. exists {| sp_protocolId := PROTO_TCP; sp_port := 4340 |}. split; [apply list_elem_of_here|reflexivity].
Qed.

(** An attempt with less than a millisecond is late at the first check, any other
    takes no time. *)
Lemma ex_in_time n (options : TransportOptions unit) :
  let a := ex_attempt n in
  expires_between (at_t0 a) (at_t1 a (to_timeout options)) (at_t2 a (to_timeout options)) options = false.
Proof.
  cbn zeta. unfold expires_between. generalize (to_timeout options) as d. intros d. pose proof (nd_range d).
  cbn [ex_attempt at_t0 at_t1 at_t2]. unfold at_ms. cbn. destruct (Z.leb_spec (nd_nanos d / 1000000) 0); unfold clamp_nanos, max_nanos in *.
  - rewrite (proj2 (Z.ltb_lt _ _)); [done|]. dlia.
  - rewrite Z.sub_diag. cbn. rewrite Z.sub_0_r. rewrite andb_comm, (proj2 (Z.leb_gt _ _)); [done|]. dlia.
Qed.

Lemma ex_surroundings_ok : surroundings_ok ex_libraries ex_surroundings.
Proof.
  split.
  - intros n. apply every_key_walks.
  - apply ex_in_time.
  - intros n options t -> %ex_created. apply ex_incoming_ok.
  - exact ex_serves.
  - intros n. apply every_key_walks.
  - exact announced_known.
Qed.

Abbreviation ex_laws := (client_laws ex_libraries ex_surroundings ex_libraries_ok ex_surroundings_ok).

Lemma following_ok : cbs_ok (L := ex_laws) following.
Proof. split_and!; cbn; [intros f s [= <-]; constructor|done..]. Qed.

Lemma ex_script_ok : script_ok (L := ex_laws) ex_script.
Proof. repeat (apply Forall_cons_2; [cbn; repeat constructor|]). by apply Forall_nil_2. Qed.

Lemma client_never_throws_witness :
  path Disconnected told_states Disconnected /\ resolver_wf (cw_resolver (c_world (ex_run 9).2 : World)).
Proof.
  pose proof (client_never_throws ex_libraries ex_surroundings ex_libraries_ok ex_surroundings_ok 9 ex_channel ex_members ex_rng
    following ex_script following_ok ex_script_ok) as H.
  pose proof ex_told as [[[[_ H1%bool_decide_eq_true]%andb_true_iff H2%bool_decide_eq_true]%andb_true_iff
    H3%bool_decide_eq_true]%andb_true_iff _]%andb_true_iff.
  destruct (client_run _ _ _ _ _ _ _ _) as [res c]. cbn [snd] in *. destruct H as (_ & _ & Hpath & Hr & _).
  rewrite H1, H3 in Hpath. split; [by apply Hpath|exact Hr].
Defined.
